(* ===== verification/_CoqProject ===== *)
-Q . S2P
Prelude.v
PyStr.v
Time.v
Sha256.v
Json.v
Exn.v
Base64.v
Re.v
AuditBounds.v
Policy.v
Jwk.v
Jws.v
Http.v
Url.v
Sql.v
Db.v
StoreAudit.v
StoreAccounts.v
StoreOrders.v
Act.v
RateLimit.v
World.v
Coalesce.v
X509.v
CsrCheck.v
StoreCerts.v
Responses.v
Finalize.v
RoutesOrders.v
RoutesAdmin.v
RoutesAccounts.v
ServerJws.v
RoutesNewAccount.v
RoutesAuthz.v
RoutesRevocation.v
Server.v
StoreRecovery.v
IssuerRecovery.v
Enrollment.v
CrlEvidence.v
Config.v
Siem.v
SiemTransport.v
CrlFetch.v
CrlGate.v
RoutesConfirm.v
Retention.v
Reconcile.v
Publication.v
Identifiers.v
StoreInv.v
StoreOps.v
Calm.v
CalmActs.v
Protocol.v
ProtocolDb.v
ProtocolRules.v
ProtocolFinalize.v
ProtocolRoutes.v
Issuance.v
OrderTheorems.v
OrderCreation.v
CertTheorems.v
SerialTheorems.v
NonceTheorems.v
AccountTheorems.v
HttpTheorems.v
JwsTheorems.v
AuthTheorems.v
ServerTheorems.v
RouteTheorems.v
CrlTheorems.v
ConfirmTheorems.v
AuditTheorems.v
IdentifierTheorems.v
OperatorTools.v
EnrollmentTheorems.v
Witnesses.v
AuthWitnesses.v
CrlWitnesses.v
