(* ===== verification/Prelude.v ===== *)
(** * acme-adcs-ra: a verification library

    acme-adcs-ra is an ACME (RFC 8555) registration authority in front of
    Active Directory Certificate Services.  A client registers an account
    under an external account binding, orders a certificate for DNS names its
    credential is scoped to, and finalizes the order with a CSR; the RA asks
    the CA for the certificate, verifies what comes back, records it and
    serves it.  This library models the server of src/acme_adcs_ra/ from the
    octets of a request to the rows of its database, and proves what it owes
    its clients and its CA.

    ** The files, and the code each one models

    Foundations, the parts of Python the code rests on:
    - [Prelude]    results as sums with their bind ([?;]), decision tactics,
                   lists and options;
    - [PyStr]      str methods on characters U+0000..U+00FF;
    - [Time]       the store's ISO-8601 timestamps;
    - [Sha256]     SHA-2 and HMAC, executable;
    - [Json]       JSON values, dicts in insertion order, [json.dumps];
    - [Exn]        acme_errors.py and the Python exceptions the code catches;
    - [Base64]     base64url and big-endian integers, as jws.py uses them;
    - [Re]         the regular expressions of [re], matched by backtracking;
    - [Act]        programs cut at their atomic actions, run alone ([run]) or
                   interleaved ([Pool]).

    Values and keys:
    - [AuditBounds]  audit_bounds.py;
    - [Policy]       policy.py: DNS names, SAN scopes, [evaluate];
    - [Jwk], [Jws]   jws.py: canonical JWKs, thumbprints, flattened JWSs,
                     external account bindings, the DER form of ECDSA;
    - [Http], [Url]  http_body.py and the media types and URLs of
                     server_jws.py, with [urlparse] and [urljoin];
    - [RateLimit]    rate_limit.py, in binary64;
    - [X509], [CsrCheck]  csr_validation.py and
                     issued_certificate_validation.py over a parser.

    The store, store.py: [Sql] (statements over lists of rows), [Db] (the
    tables and transactions), [StoreAudit] (nonces, audit log, CRL watermark),
    [StoreAccounts], [StoreOrders] (order creation, transitions, enrollment
    leases, authorizations), [StoreCerts] (issuance, quarantine, revocation),
    [StoreRecovery] (chains, validity, start-up migrations).

    The server: [World] (app_state.py: configuration, registries, account
    locks, enrollment gate, halt latch), [Coalesce] (audit_coalesce.py and
    [_audit]), [Responses] (serializers.py), [Finalize] (finalize.py),
    [RoutesOrders], [RoutesAdmin], [RoutesAccounts], [RoutesNewAccount],
    [RoutesAuthz], [RoutesRevocation] (the files of routes/ and
    revocation.py, eab_kid_floor.py), [ServerJws] (server_jws.py and
    [authenticate_account]), [Server] (server.py: exception handler, nonce
    middleware, the table of routes).

    Around the server: [Config] (config.py: which settings are accepted),
    [Siem] (siem.py: enabling and probing of a sink, the JSONL mirror, the
    queue), [SiemTransport] (the rest of siem.py: the syslog handler with its
    deadline, delivery, and the workers as a step relation), [Retention] (audit_retention.py, [create_app] of server.py, and in
    [EntryPoint] __main__.py), [Enrollment] (enrollment.py: the client of the
    CA's web pages, and in [Negotiate] negotiate_auth.py), [IssuerRecovery]
    (issuer_recovery.py), [CrlEvidence], [CrlFetch], [CrlGate]
    (crl_evidence.py: what a CRL proves, how it is retrieved, the single-flight
    queue in front of it), [RoutesConfirm] (the CA-revocation half of
    routes/admin.py, for which the queue is an argument).

    The operators' scripts: [Reconcile] (reconcile_revocation.py: the RA's
    records against the CA's export), [Publication] (verify_crl_publication.py:
    what a published CRL lists), [Identifiers] (check_committed_identifiers.py:
    the gate before a commit), and in [OperatorTools], a Module each, four
    small ones (check_publication_plumbing.py, lib_digest.py, eab.py,
    sample_crl_age.py) and the proxy of the interoperability harness
    (interop/nonce_fault_proxy.py).

    A definition bears the name of the function it models; where one function
    is several definitions, each is a stretch of its body, composed in the
    order of the code.

    ** Conventions

    - The database is one list of rows per table in rowid order.  A [Tx] is
      the body of one [with store transaction] block: an exception rolls back.
      Unique indexes raise [IntegrityError]; foreign keys are not enforced, as
      in SQLite's default.  A JSON column is a [json_text]: a value, or text
      [json.loads] rejects.
    - Store timestamps are Z seconds (fixed-width ISO text compares as the
      instants do, [Time.iso_order]); the monotonic clock is Z nanoseconds.
    - A handler is an [Act World]: each store transaction, call under a lock,
      request to the CA and log line is one atomic action; between any two of
      them other requests may run.  Taking an account lock waits.  The clocks
      may move between actions: the environment is one more calm program.
    - What the environment decides is in [World] and every theorem quantifies
      over it: which transactions the store fails ([w_faults]), what the CA
      answers ([w_ca]), the uuids.  An unhandled exception leaves the
      application as an exception value (the 500 of the HTTP framework).
    - Prose is not carried (messages of errors and of log lines); what other
      code reads of an exception is.  An em dash in a detail is two hyphens.
    - Fuel occurs where Python loops over a shrinking value; the fuel is the
      length of that value, or the number of batches an update can fill.

    Not under src/, hence parameters, as type classes: the X.509 and CSR
    parsers of cryptography ([CertParser], [CsrParser], [CertDer]), its key
    constructor and signature verifiers ([KeyBackend], [SignatureBackend]),
    [json.loads] on octets ([JsonLoads]), float equality ([FloatEq]), the
    check of a host in [urlsplit] ([NetlocCheck]), [uuid4] ([UuidSource]),
    certificates as issuers and their encodings ([IssuerBackend],
    [EnrollBackend]), CRLs ([CrlBackend]; with their extensions and signatures
    [PublicationBackend], or sampled, [CrlLoader]), git ([Git]), text codecs
    and tomllib ([Codecs], [TomlLoads]), Windows authentication ([Sspi]), the
    files and variables a script reads ([FileSystem], [Environment]), and two
    networks: the CRL distribution point ([Cdp]) and the CA's web pages
    ([Certsrv]), each a function from requests to what they meet, with a
    boolean at every point where the code looks at a deadline.  No theorem assumes a law of any of
    them, but for [issuance_reported] (the cryptography package does not raise
    the exceptions enrollment.py defines: [LibraryExceptions]),
    [absence_skips_iff] (the walk of git is in topological order and its
    batches have the documented format: [documented]), [write_settles] (an
    ASCII stretch can be exchanged in UTF-8) and [emit_within_deadline] (time
    does not run backwards).  The faults of the file system in [Siem] are a
    field of its state.

    ** What is proved

    - [StoreInv], [StoreOps], [OrderTheorems]: the store invariant [wf] is
      kept by every transaction; the life of an order along every history; an
      enrollment lease is held by one, and once lost is lost.
    - [OrderCreation], [NonceTheorems], [AccountTheorems], [CertTheorems],
      [SerialTheorems]: creation within limits, the expiry sweep, nonces used
      once, account quotas, key rollover, deactivation, issuance, quarantine,
      revocation and its confirmation by the CA, serial numbers.
    - [Calm], [CalmActs], [Protocol], [ProtocolDb], [ProtocolRules],
      [ProtocolFinalize], [ProtocolRoutes],
      [Issuance]: any number of requests interleaved.  A thread has a [Phase]
      (mark, lease, lock, request in flight, certificate in hand) and [Inv]
      says what that entitles it to.  Hence: one request per order with the
      CA, made for a valid account under its lock; no lease used twice; every
      certificate the CA issued accounted for; every request answered.
    - [HttpTheorems], [JwsTheorems], [AuthTheorems]: which bodies, media types,
      JWSs and bindings are accepted, exactly; what an
      authenticated request is.
    - [RouteTheorems], [ServerTheorems]: what account creation, key rollover
      and revocation promise from the request to the rows; every request of
      the server is one of the handlers [Issuance] is about; the nonces of
      responses.
    - [EnrollmentTheorems]: how a page of the CA is read; that an error raised
      after the CA has issued names the request, so that [World]'s account of
      what was issued is the CA's (and the one place where it is not, at the
      deadline); that what is returned belongs to the request.  In
      [Enrollment.Negotiate]: what the handshake in front of it sends and reads.
    - [CrlTheorems], [CrlGate], [ConfirmTheorems]: which CRLs prove a
      revocation, where the retrieval may connect, which chains are recovered,
      that there is one retrieval per certificate and a drain leaves only live
      ones counted, and that a CA-side revocation is confirmed on proof only.
    - [AuditTheorems]: the accepted settings; what start-up has demonstrated;
      which audit rows a sweep may delete; what the mirror keeps.
    - [SiemTransport]: an event takes no longer than its deadline to send, no
      socket is leaked, and every event handed over is accounted for.
    - [IdentifierTheorems]: what exit code 0 of the identifier gate says, and
      which histories without a declaration it lets pass.
    - [OperatorTools]: which pushes pass; that writing the pins settles them;
      that a minted credential is strong and the audit shows no key; what the
      sampler's figures are; which chunked bodies the proxy reads, and that it
      never spoils two requests in a row.
    - [Policy], [AuditBounds], [CsrCheck], [Re], [Reconcile], [Publication]:
      theorems beside the definitions; the last two say what exit code 0 of an
      operator's check demonstrates.
    - [Witnesses], [AuthWitnesses], [CrlWitnesses]: a
      small deployment on which the theorems with hypotheses are applied.

    Theorems of [RouteTheorems] and [AuthTheorems] are about a request that
    runs without others between its actions; those of [Issuance] about all
    interleavings.

    ** Not modelled

    Sockets, threads and processes: the HTTP sessions, the watchdog timers and
    the address pinning of crl_evidence.py and enrollment.py (the parameters
    [Cdp] and [Certsrv] stand at their edge), the TLS probe of
    negotiate_auth.py, syslog over UDP, the lifespan of server.py; where
    pydantic-settings finds the values of config.py, and warnings; the lab's
    spike, the harness's entry point and the tests.  The CA client and the
    server are joined by [answer_of]: the interleavings of [Issuance] take any
    answers, and [Enrollment] tells which ones its client gives. *)

From stdpp Require Export base option list numbers strings gmap.
From Stdlib Require Export ZArith Lia Ascii.

#[global] Set Default Proof Using "Type".

(** ** Results: a value, or the exception that was raised. *)

Definition Res (E A : Type) : Type := sum E A.
Abbreviation Raise := inl (only parsing).
Abbreviation Ok := inr (only parsing).

Section Res.
Context {E : Type}.

Definition res_bind {A B : Type} (f : A → Res E B) (m : Res E A) : Res E B :=
  match m with
  | inl e => inl e
  | inr x => f x
  end.

Lemma res_bind_ok {A B : Type} (f : A → Res E B) m y :
  res_bind f m = inr y ↔ ∃ x, m = inr x ∧ f x = inr y.
Proof.
  destruct m; simpl; split; [done|by intros (? & ? & _)|by eexists|by intros (? & [= <-] & ?)].
Qed.
Lemma res_then_ok {A : Type} (m : Res E unit) (k : Res E A) x :
  res_bind (λ _, k) m = inr x ↔ m = inr tt ∧ k = inr x.
Proof. rewrite res_bind_ok. split; [by intros ([] & ? & ?)|by intros [??]; exists tt]. Qed.

(** Run [f] over a list, stopping at the first exception: a Python [for]
    loop whose body may raise. *)
Fixpoint res_iter {A : Type} (f : A → Res E unit) (l : list A) : Res E unit :=
  match l with
  | [] => inr tt
  | x :: l => res_bind (λ _, res_iter f l) (f x)
  end.

Lemma res_iter_ok {A : Type} (f : A → Res E unit) (l : list A) :
  res_iter f l = inr tt ↔ Forall (λ x, f x = inr tt) l.
Proof.
  induction l as [|x l IH]; simpl; [by split|].
  rewrite Forall_cons, <- IH.
  destruct (f x) as [e|[]]; simpl; split; try done; tauto.
Qed.

Lemma res_iter_raise {A : Type} (f : A → Res E unit) (l : list A) (e : E) :
  res_iter f l = inl e ↔
  ∃ l1 x l2, l = l1 ++ x :: l2 ∧ Forall (λ y, f y = inr tt) l1 ∧ f x = inl e.
Proof.
  induction l as [|x l IH]; simpl.
  { split; [done|]. intros (l1 & x & l2 & Heq & _). by destruct l1. }
  split.
  - destruct (f x) as [e'|[]] eqn:Hx; simpl.
    + intros [= ->]. by exists [], x, l.
    + intros (l1 & y & l2 & -> & Hall & Hy)%IH.
      exists (x :: l1), y, l2. split; [done|]. split; [by constructor|done].
  - intros (l1 & y & l2 & Heq & Hall & Hy). destruct l1 as [|z l1]; simplify_eq/=.
    + by rewrite Hy.
    + apply Forall_cons in Hall as [-> Hall]. simpl. apply IH. by exists l1, y, l2.
Qed.
End Res.

(** ** Lists *)

Lemma filter_nil_iff {A} (P : A → Prop) `{∀ x, Decision (P x)} (l : list A) :
  filter P l = [] ↔ ∀ x, x ∈ l → ¬ P x.
Proof.
  split.
  - intros Hnil x Hx HP. by eapply filter_nil_not_elem_of.
  - induction l as [|x l IH]; intros Hall; [done|].
    rewrite filter_cons, decide_False by (apply Hall; by left).
    apply IH. intros y Hy. apply Hall. by right.
Qed.

Declare Scope res_scope.
Delimit Scope res_scope with res.
Notation "x ←? m ; k" := (res_bind (λ x, k) m)
  (at level 20, m at level 100, k at level 200, right associativity) : res_scope.
Notation "m ;;? k" := (res_bind (λ _, k) m)
  (at level 100, k at level 200, right associativity) : res_scope.

(** ** Automation *)

(** Case analysis on every [match] and every [if decide] in sight, closing
    the contradictory branches. *)
Ltac split_cases :=
  repeat first
    [ case_decide | case_match | progress simplify_eq/= ].

(** Turn boolean hypotheses into propositions. *)
Ltac bool_hyps :=
  repeat match goal with
  | H : _ && _ = true |- _ => apply andb_true_iff in H as [? ?]
  | H : _ || _ = false |- _ => apply orb_false_iff in H as [? ?]
  | H : negb _ = true |- _ => apply negb_true_iff in H
  | H : negb _ = false |- _ => apply negb_false_iff in H
  | H : bool_decide _ = true |- _ => apply bool_decide_eq_true in H
  | H : bool_decide _ = false |- _ => apply bool_decide_eq_false in H
  | H : (_ <? _)%Z = true |- _ => apply Z.ltb_lt in H
  | H : (_ <? _)%Z = false |- _ => apply Z.ltb_ge in H
  | H : (_ <=? _)%Z = true |- _ => apply Z.leb_le in H
  | H : (_ <=? _)%Z = false |- _ => apply Z.leb_gt in H
  | H : (_ =? _)%Z = true |- _ => apply Z.eqb_eq in H
  | H : (_ =? _)%Z = false |- _ => apply Z.eqb_neq in H
  end.

(** Case analysis on the decisions of the goal, with [congruence] to finish. *)
Ltac dec_congruence := repeat (case_decide; simpl in *); try congruence; try done.
