(* ===== verification/PyStr.v ===== *)
(** * The Python string operations the code uses

    Text is [string], one character per code point U+0000..U+00FF.  Each
    operation is defined on the list of characters ([chars]) and named after
    the Python method.  Code points above U+00FF are outside the model; every
    identifier, serial, status and URL the code handles is ASCII. *)

From S2P Require Import Prelude.
From Stdlib Require String.
Export ListNotations.

Abbreviation chars := String.list_ascii_of_string.
Abbreviation of_chars := String.string_of_list_ascii.

(** ** Characters *)

Definition code (c : ascii) : Z := Z.of_N (N_of_ascii c).

Definition in_range (lo hi : Z) (c : ascii) : bool :=
  (lo <=? code c)%Z && (code c <=? hi)%Z.

Definition shift_code (d : Z) (c : ascii) : ascii :=
  ascii_of_N (Z.to_N (code c + d)).

(** [str.lower] on one character: A-Z, and the Latin-1 capitals. *)
Definition lower_char (c : ascii) : ascii :=
  if in_range 65 90 c || (in_range 192 222 c && negb (code c =? 215)%Z)
  then shift_code 32 c else c.

(** [str.upper] on one character, for the letters whose capital is itself in
    the modelled range. *)
Definition upper_char (c : ascii) : ascii :=
  if in_range 97 122 c || (in_range 224 254 c && negb (code c =? 247)%Z)
  then shift_code (-32) c else c.

(** [str.isspace] on one character. *)
Definition is_space (c : ascii) : bool :=
  in_range 9 13 c || in_range 28 32 c || (code c =? 133)%Z || (code c =? 160)%Z.

(** ** Lists of characters *)

Fixpoint drop_while {A} (f : A → bool) (l : list A) : list A :=
  match l with
  | [] => []
  | x :: l' => if f x then drop_while f l' else l
  end.

Definition rdrop_while {A} (f : A → bool) (l : list A) : list A :=
  rev (drop_while f (rev l)).

(** [str.find] of a one-character needle: the index of its first occurrence. *)
Fixpoint find_char (c : ascii) (l : list ascii) : option nat :=
  match l with
  | [] => None
  | x :: l => if decide (x = c) then Some 0 else S <$> find_char c l
  end.

(** [str.split(sep)] for a one-character separator. *)
Fixpoint split_chars (c : ascii) (l : list ascii) : list (list ascii) :=
  match l with
  | [] => [[]]
  | x :: l =>
    if decide (x = c) then [] :: split_chars c l
    else match split_chars c l with
         | [] => [[x]]
         | w :: ws => (x :: w) :: ws
         end
  end.

Fixpoint is_prefix (p l : list ascii) : bool :=
  match p, l with
  | [], _ => true
  | _, [] => false
  | x :: p, y :: l => if decide (x = y) then is_prefix p l else false
  end.

(** ** Strings *)

Definition lower (s : string) : string := of_chars (map lower_char (chars s)).
Definition upper (s : string) : string := of_chars (map upper_char (chars s)).
Definition lstrip_char (c : ascii) (s : string) : string :=
  of_chars (drop_while (λ x, bool_decide (x = c)) (chars s)).
Definition rstrip_char (c : ascii) (s : string) : string :=
  of_chars (rdrop_while (λ x, bool_decide (x = c)) (chars s)).
Definition strip (s : string) : string :=
  of_chars (rdrop_while is_space (drop_while is_space (chars s))).
Definition startswith (s p : string) : bool := is_prefix (chars p) (chars s).
Definition removeprefix (s p : string) : string :=
  if startswith s p then of_chars (drop (length (chars p)) (chars s)) else s.
(** [needle in s] *)
Fixpoint has_sub_chars (needle l : list ascii) : bool :=
  is_prefix needle l
  || match l with [] => false | _ :: l => has_sub_chars needle l end.
Definition has_sub (needle s : string) : bool := has_sub_chars (chars needle) (chars s).
Definition has_char (c : ascii) (s : string) : bool := bool_decide (c ∈ chars s).
Definition split (c : ascii) (s : string) : list string :=
  map of_chars (split_chars c (chars s)).
Definition slen (s : string) : Z := Z.of_nat (String.length s).

(** ** Lines and words *)

Section breaking.
Context (breaks : ascii → bool).
(** A break ends a line; a line feed after a carriage return belongs to it. *)
Fixpoint split_lines (line : list ascii) (s : list ascii) : list (list ascii) :=
  match s with
  | [] => if bool_decide (line = []) then [] else [line]
  | c :: s =>
    if breaks c then
      line :: match s with
              | d :: s' => if (code c =? 13)%Z && (code d =? 10)%Z then split_lines [] s'
                           else split_lines [] s
              | [] => []
              end
    else split_lines (line ++ [c]) s
  end.
(** The words, with breaks between them. *)
Fixpoint words (word : list ascii) (s : list ascii) : list (list ascii) :=
  match s with
  | [] => if bool_decide (word = []) then [] else [word]
  | c :: s =>
    if breaks c then (if bool_decide (word = []) then [] else [word]) ++ words [] s
    else words (word ++ [c]) s
  end.
End breaking.

(** [str.splitlines], [str.split] *)
Definition is_line_break (c : ascii) : bool :=
  in_range 10 13 c || in_range 28 30 c || (code c =? 133)%Z.
Definition splitlines (text : string) : list string :=
  map of_chars (split_lines is_line_break [] (chars text)).
Definition split_words (s : string) : list string := map of_chars (words is_space [] (chars s)).
(** [bytes.splitlines], [bytes.split] *)
Definition byte_lines (s : string) : list string :=
  map of_chars (split_lines (λ c, (code c =? 10)%Z || (code c =? 13)%Z) [] (chars s)).
Definition byte_words (s : string) : list string :=
  map of_chars (words (λ c, in_range 9 13 c || (code c =? 32)%Z) [] (chars s)).
(** [s.split(c, 1)]: what is before the first [c], and what is after it. *)
Definition partition_char (c : ascii) (s : string) : string * option string :=
  match find_char c (chars s) with
  | Some i => (of_chars (take i (chars s)), Some (of_chars (drop (S i) (chars s))))
  | None => (s, None)
  end.

(** ** [int(s)] *)

(** Digits with single underscores between them, most significant first. *)
Fixpoint int_digits (l : list ascii) (acc : Z) : option Z :=
  match l with
  | [] => None
  | c :: l =>
    if in_range 48 57 c then
      let acc := (acc * 10 + (code c - 48))%Z in
      match l with
      | [] => Some acc
      | c' :: l' => if bool_decide (c' = "_"%char) then int_digits l' acc else int_digits l acc
      end
    else None
  end.
(** [ValueError] too above [sys.int_info.default_max_str_digits] digits. *)
Definition MAX_STR_DIGITS : nat := 4300.
Definition py_int (s : string) : option Z :=
  let l := chars (strip s) in
  let '(sign, l) :=
    match l with
    | c :: l' =>
      if bool_decide (c = "-"%char) then ((-1)%Z, l')
      else if bool_decide (c = "+"%char) then (1%Z, l') else (1%Z, l)
    | [] => (1%Z, l)
    end in
  if (MAX_STR_DIGITS <? length (filter (λ c, in_range 48 57 c = true) l))%nat then None
  else (λ n, sign * n)%Z <$> int_digits l 0%Z.

(** [int(s, 16)]: a prefix is allowed, and an underscore after it. *)
Definition hex_digit_value (c : ascii) : option Z :=
  if in_range 48 57 c then Some (code c - 48)%Z
  else if in_range 97 102 c then Some (code c - 87)%Z
  else if in_range 65 70 c then Some (code c - 55)%Z
  else None.
Fixpoint hex_int_digits (l : list ascii) (acc : Z) : option Z :=
  match l with
  | [] => None
  | c :: l =>
    match hex_digit_value c with
    | None => None
    | Some v =>
      let acc := (acc * 16 + v)%Z in
      match l with
      | [] => Some acc
      | c' :: l' =>
        if bool_decide (c' = "_"%char) then hex_int_digits l' acc else hex_int_digits l acc
      end
    end
  end.
Definition py_int16 (s : string) : option Z :=
  let l := chars (strip s) in
  let '(sign, l) :=
    match l with
    | c :: l' =>
      if bool_decide (c = "-"%char) then ((-1)%Z, l')
      else if bool_decide (c = "+"%char) then (1%Z, l') else (1%Z, l)
    | [] => (1%Z, l)
    end in
  let l :=
    match l with
    | z :: x :: l' =>
      if bool_decide (z = "0"%char ∧ (x = "x"%char ∨ x = "X"%char)) then
        match l' with
        | u :: l'' => if bool_decide (u = "_"%char) then l'' else l'
        | [] => l'
        end
      else l
    | _ => l
    end in
  (λ n, sign * n)%Z <$> hex_int_digits l 0%Z.
Example py_int16_ex :
  map py_int16 ["FF"; " -0x_a_B "; "0x"; "g"; ""; "1__0"; "_1"]%string
  = [Some 255; Some (-171); None; None; None; None; None]%Z.
Proof. by vm_compute. Qed.

Example py_int_ex :
  map py_int [" 1_000 "; "-5"; "+7"; "0x1"; "1__0"; ""; "12_"]%string
  = [Some 1000; Some (-5); Some 7; None; None; None; None]%Z.
Proof. by vm_compute. Qed.

(** ** Lemmas *)

Lemma chars_of_chars l : chars (of_chars l) = l.
Proof. apply String.list_ascii_of_string_of_list_ascii. Qed.

Lemma of_chars_chars s : of_chars (chars s) = s.
Proof. apply String.string_of_list_ascii_of_string. Qed.

Lemma chars_inj s t : chars s = chars t → s = t.
Proof. intros H. by rewrite <- (of_chars_chars s), H, of_chars_chars. Qed.

Lemma chars_app s t : chars (s ++ t)%string = chars s ++ chars t.
Proof. induction s as [|c s IH]; simpl; [done|]. by rewrite IH. Qed.

Lemma of_chars_app l k : of_chars (l ++ k) = (of_chars l ++ of_chars k)%string.
Proof. apply chars_inj. by rewrite chars_app, !chars_of_chars. Qed.

Lemma length_chars s : length (chars s) = String.length s.
Proof. induction s; simpl; congruence. Qed.

Lemma length_of_chars l : String.length (of_chars l) = length l.
Proof. by rewrite <- length_chars, chars_of_chars. Qed.

Lemma length_string_app s t :
  String.length (s +:+ t) = (String.length s + String.length t)%nat.
Proof. by rewrite <- !length_chars, chars_app, length_app. Qed.

Lemma slen_of_chars l : slen (of_chars l) = Z.of_nat (length l).
Proof. unfold slen. by rewrite length_of_chars. Qed.

Lemma slen_nonneg s : (0 ≤ slen s)%Z.
Proof. unfold slen. lia. Qed.

Create Rewrite HintDb pystr.
#[export] Hint Rewrite chars_of_chars of_chars_chars chars_app length_of_chars
  length_chars slen_of_chars : pystr.

(** A decidable fact about every character, by evaluation over the 256 of them. *)
Lemma ascii_forall (P : ascii → Prop) `{HP : ∀ c, Decision (P c)} :
  forallb (λ n, bool_decide (P (ascii_of_nat n))) (seq 0 256) = true → ∀ c, P c.
Proof.
  intros H c. rewrite forallb_forall in H.
  rewrite <- (ascii_nat_embedding c).
  specialize (H (nat_of_ascii c)). apply bool_decide_eq_true in H; [done|].
  apply in_seq. pose proof (nat_ascii_bounded c). lia.
Qed.

Lemma lower_char_idem c : lower_char (lower_char c) = lower_char c.
Proof. revert c. apply (ascii_forall _). by vm_compute. Qed.

Lemma upper_char_idem c : upper_char (upper_char c) = upper_char c.
Proof. revert c. apply (ascii_forall _). by vm_compute. Qed.

Lemma lower_dot c : lower_char c = "."%char ↔ c = "."%char.
Proof. revert c. apply (ascii_forall _). by vm_compute. Qed.

Lemma lower_star c : lower_char c = "*"%char ↔ c = "*"%char.
Proof. revert c. apply (ascii_forall _). by vm_compute. Qed.

Section Lists.
Context {A : Type}.
Implicit Types (l : list A) (f : A → bool).

Lemma drop_while_cons_neg f x l : f x = false → drop_while f (x :: l) = x :: l.
Proof. intros H. simpl. by rewrite H. Qed.

Lemma drop_while_idem f l : drop_while f (drop_while f l) = drop_while f l.
Proof. induction l as [|x l IH]; simpl; [done|]. destruct (f x) eqn:E; simpl; by rewrite ?E. Qed.

Lemma drop_while_suffix f l : ∃ k, l = k ++ drop_while f l ∧ Forall (λ x, f x = true) k.
Proof.
  induction l as [|x l (k & IH & Hk)]; simpl; [by exists []|].
  destruct (f x) eqn:E; [|by exists []].
  exists (x :: k). simpl. split; [by f_equal|by constructor].
Qed.

Lemma drop_while_head f l : ∀ x k, drop_while f l = x :: k → f x = false.
Proof.
  induction l as [|y l IH]; simpl; intros x k H; [done|].
  destruct (f y) eqn:E; [by eapply IH|congruence].
Qed.

Lemma drop_while_map {B} (g : B → A) f (k : list B) :
  drop_while f (map g k) = map g (drop_while (λ x, f (g x)) k).
Proof. induction k as [|x k IH]; simpl; [done|]. by destruct (f (g x)). Qed.

Lemma drop_while_ext f f' l : (∀ x, f x = f' x) → drop_while f l = drop_while f' l.
Proof. intros H. induction l as [|x l IH]; simpl; [done|]. by rewrite H, IH. Qed.

Lemma drop_while_app_all f l k :
  Forall (λ x, f x = true) l → drop_while f (l ++ k) = drop_while f k.
Proof. induction 1 as [|x l Hx _ IH]; simpl; [done|]. by rewrite Hx. Qed.

Lemma rdrop_while_idem f l : rdrop_while f (rdrop_while f l) = rdrop_while f l.
Proof. unfold rdrop_while. by rewrite rev_involutive, drop_while_idem. Qed.

Lemma rdrop_while_map {B} (g : B → A) f (k : list B) :
  rdrop_while f (map g k) = map g (rdrop_while (λ x, f (g x)) k).
Proof. unfold rdrop_while. by rewrite <- map_rev, drop_while_map, map_rev. Qed.

Lemma rdrop_while_ext f f' l : (∀ x, f x = f' x) → rdrop_while f l = rdrop_while f' l.
Proof. intros H. unfold rdrop_while. by rewrite (drop_while_ext f f'). Qed.

Lemma rdrop_while_snoc_pos f l x : f x = true → rdrop_while f (l ++ [x]) = rdrop_while f l.
Proof. intros H. unfold rdrop_while. rewrite rev_unit. simpl. by rewrite H. Qed.

Lemma rdrop_while_snoc_neg f l x : f x = false → rdrop_while f (l ++ [x]) = l ++ [x].
Proof.
  intros H. unfold rdrop_while. rewrite rev_unit. simpl. rewrite H. simpl.
  by rewrite rev_involutive.
Qed.

Lemma rdrop_while_prefix f l : ∃ k, l = rdrop_while f l ++ k ∧ Forall (λ x, f x = true) k.
Proof.
  destruct (drop_while_suffix f (rev l)) as (k & H & Hk). exists (rev k). split.
  - unfold rdrop_while. rewrite <- rev_app_distr, <- H. by rewrite rev_involutive.
  - rewrite Forall_forall in *. intros x Hx. apply Hk.
    rewrite list_elem_of_In in *. by apply in_rev.
Qed.
End Lists.

(** Stripping trailing dots commutes with case folding. *)
Lemma lower_rstrip_dot s : lower (rstrip_char "." s) = rstrip_char "." (lower s).
Proof.
  unfold lower, rstrip_char. autorewrite with pystr. f_equal.
  rewrite rdrop_while_map. f_equal. apply rdrop_while_ext. intros x.
  apply bool_decide_ext. symmetry. apply lower_dot.
Qed.

Lemma lower_idem s : lower (lower s) = lower s.
Proof.
  unfold lower. autorewrite with pystr. f_equal. rewrite map_map.
  apply map_ext, lower_char_idem.
Qed.

Lemma rstrip_char_idem c s : rstrip_char c (rstrip_char c s) = rstrip_char c s.
Proof. unfold rstrip_char. autorewrite with pystr. by rewrite rdrop_while_idem. Qed.

Lemma find_char_None c l : find_char c l = None ↔ c ∉ l.
Proof.
  induction l as [|x l IH]; simpl; [by split; [set_solver|]|].
  case_decide; [set_solver|]. rewrite fmap_None, IH. set_solver.
Qed.

(** [find] splits the list at the first occurrence. *)
Lemma find_char_Some c l i :
  find_char c l = Some i ↔
  ∃ k m, l = k ++ c :: m ∧ c ∉ k ∧ length k = i.
Proof.
  revert i. induction l as [|x l IH]; intros i; simpl.
  { split; [done|]. intros ([|??] & m & ? & _); done. }
  case_decide as Hx.
  - subst x. split.
    + intros [= <-]. exists [], l. set_solver.
    + intros ([|y k] & m & Heq & Hk & <-); simplify_eq/=; [done|set_solver].
  - rewrite fmap_Some. setoid_rewrite IH. split.
    + intros (j & (k & m & -> & Hk & <-) & ->). exists (x :: k), m. set_solver.
    + intros ([|y k] & m & Heq & Hk & <-); simplify_eq/=.
      exists (length k). split; [|done]. exists k, m. set_solver.
Qed.

Lemma is_prefix_spec p l : is_prefix p l = true ↔ ∃ k, l = p ++ k.
Proof.
  revert l. induction p as [|x p IH]; intros l; simpl.
  { split; [by exists l|done]. }
  destruct l as [|y l].
  { split; [done|]. by intros [k ?]. }
  case_decide as Hx; [subst y|].
  - rewrite IH. split; intros [k Hk]; exists k; simplify_eq/=; congruence.
  - split; [done|]. intros [k Hk]. simplify_eq/=.
Qed.
Lemma startswith_spec s p : startswith s p = true ↔ ∃ t, s = (p ++ t)%string.
Proof.
  unfold startswith. rewrite is_prefix_spec. split.
  - intros [k Hk]. exists (of_chars k). apply chars_inj. by autorewrite with pystr.
  - intros [t ->]. exists (chars t). by autorewrite with pystr.
Qed.

(** [split] is inverse to joining with the separator, and its parts do not
    contain it. *)
Lemma split_chars_nonempty c l : split_chars c l ≠ [].
Proof.
  destruct l as [|x l]; simpl; [done|]. case_decide; [done|].
  by destruct (split_chars c l).
Qed.

Lemma split_chars_no_sep c l : Forall (λ w, c ∉ w) (split_chars c l).
Proof.
  induction l as [|x l IH]; simpl; [repeat constructor; set_solver|].
  case_decide; [by constructor; [set_solver|]|].
  destruct (split_chars c l) as [|w ws]; [repeat constructor; set_solver|].
  apply Forall_cons in IH as [??]. constructor; [set_solver|done].
Qed.

Fixpoint join_chars (c : ascii) (ws : list (list ascii)) : list ascii :=
  match ws with
  | [] => []
  | [w] => w
  | w :: ws => w ++ c :: join_chars c ws
  end.

Lemma join_split_chars c l : join_chars c (split_chars c l) = l.
Proof.
  induction l as [|x l IH]; simpl; [done|].
  pose proof (split_chars_nonempty c l) as Hne.
  case_decide; destruct (split_chars c l) as [|w [|w' ws]]; simplify_eq/=; congruence.
Qed.

Lemma split_chars_app c w l :
  c ∉ w → split_chars c (w ++ c :: l) = w :: split_chars c l.
Proof.
  induction w as [|x w IH]; simpl; intros Hw.
  - by rewrite decide_True.
  - rewrite decide_False by set_solver. by rewrite IH by set_solver.
Qed.

Lemma split_chars_whole c w : c ∉ w → split_chars c w = [w].
Proof.
  induction w as [|x w IH]; simpl; intros Hw; [done|].
  rewrite decide_False by set_solver. by rewrite IH by set_solver.
Qed.

Lemma split_join_chars c ws :
  ws ≠ [] → Forall (λ w, c ∉ w) ws → split_chars c (join_chars c ws) = ws.
Proof.
  induction ws as [|w [|w' ws] IH]; simpl; intros Hne Hall; [done| |].
  - apply Forall_cons in Hall as [??]. by apply split_chars_whole.
  - apply Forall_cons in Hall as [??]. rewrite split_chars_app by done.
    f_equal. by apply IH.
Qed.

(** ** Words *)

Section words.
Context (brk : ascii → bool).

Lemma words_app acc w s :
  Forall (λ c, brk c = false) w → words brk acc (w ++ s) = words brk (acc ++ w) s.
Proof.
  intros Hw. revert acc. induction Hw as [|c w Hc Hw IH]; intros acc; simpl; [by rewrite app_nil_r|].
  rewrite Hc, IH. by rewrite <- app_assoc.
Qed.
Lemma words_join c ws :
  brk c = true → Forall (λ w, w ≠ [] ∧ Forall (λ c, brk c = false) w) ws →
  words brk [] (join_chars c ws) = ws.
Proof.
  intros Hc Hws. induction Hws as [|w ws [Hne Hw] Hws IH]; [done|].
  destruct ws as [|w' ws].
  - cbn [join_chars]. rewrite <- (app_nil_r w) at 1. rewrite words_app by done. simpl.
    by rewrite bool_decide_eq_false_2.
  - change (join_chars c (w :: w' :: ws)) with (w ++ c :: join_chars c (w' :: ws)).
    rewrite words_app by done. cbn [app words]. rewrite Hc, bool_decide_eq_false_2 by done.
    by rewrite IH.
Qed.
Lemma words_no_break acc s :
  Forall (λ c, brk c = false) acc →
  Forall (λ w, w ≠ [] ∧ Forall (λ c, brk c = false) w) (words brk acc s).
Proof.
  revert acc. induction s as [|c s IH]; intros acc Hacc; simpl; [case_bool_decide; by repeat constructor|].
  destruct (brk c) eqn:Hc.
  - apply Forall_app. split; [case_bool_decide; by repeat constructor|by apply IH].
  - apply IH, Forall_app. by repeat constructor.
Qed.
Lemma words_map (f : ascii → ascii) acc s :
  (∀ c, brk (f c) = brk c) → words brk (map f acc) (map f s) = map (map f) (words brk acc s).
Proof.
  intros Hf. revert acc. induction s as [|c s IH]; intros acc; simpl.
  - destruct acc; simpl; by repeat case_bool_decide.
  - rewrite Hf. destruct (brk c).
    + rewrite map_app. f_equal; [destruct acc; simpl; by repeat case_bool_decide|apply (IH [])].
    + rewrite <- IH, map_app. done.
Qed.
End words.
