(* ===== verification/Time.v ===== *)
(** * Timestamps: [_now_iso] of [src/acme_adcs_ra/store.py]

    A timestamp is a number of seconds since 1970-01-01T00:00:00Z; [iso] is
    the text [strftime("%Y-%m-%dT%H:%M:%SZ")] writes for it.  The schema
    compares these texts as strings; [iso_order] is why the model may compare
    the numbers. *)

From S2P Require Import Prelude PyStr.
Local Open Scope Z_scope.

(** [datetime]'s proleptic Gregorian calendar, counting years from March:
    (year, month, day) of a day number. *)
Definition day_in_era (doe : Z) : Z * Z * Z :=
  let yoe := (doe - doe / 1460 + doe / 36524 - doe / 146096) / 365 in
  let doy := doe - (365 * yoe + yoe / 4 - yoe / 100) in
  let mp := (5 * doy + 2) / 153 in
  let d := doy - (153 * mp + 2) / 5 + 1 in
  let m := if mp <? 10 then mp + 3 else mp - 9 in
  (yoe + (if m <=? 2 then 1 else 0), m, d).

Definition ERA_DAYS : Z := 146097.

Definition civil_from_days (days : Z) : Z * Z * Z :=
  let z := days + 719468 in
  let '(y, m, d) := day_in_era (z mod ERA_DAYS) in
  (y + 400 * (z / ERA_DAYS), m, d).

(** Zero-padded decimals. *)
Definition digit (n : Z) : ascii := ascii_of_N (Z.to_N (48 + n)).
Definition pad2 (n : Z) (s : string) : string :=
  String (digit (n / 10)) (String (digit (n mod 10)) s).
Definition pad4 (n : Z) (s : string) : string := pad2 (n / 100) (pad2 (n mod 100) s).

(** [_now_iso], at the instant [t] *)
Definition iso (t : Z) : string :=
  let '(y, m, d) := civil_from_days (t / 86400) in
  let s := t mod 86400 in
  pad4 y (String "-" (pad2 m (String "-" (pad2 d (String "T"
    (pad2 (s / 3600) (String ":" (pad2 (s / 60 mod 60) (String ":"
      (pad2 (s mod 60) "Z")))))))))).

Example iso_epoch : iso 0 = "1970-01-01T00:00:00Z"%string.
Proof. by vm_compute. Qed.
Example iso_leap : iso 1709210096 = "2024-02-29T12:34:56Z"%string.
Proof. by vm_compute. Qed.
Example iso_century : iso 4107542400 = "2100-03-01T00:00:00Z"%string.
Proof. by vm_compute. Qed.

(** The years [strftime("%Y")] writes with four digits. *)
Definition YEAR_10000 : Z := 253402300800.

(** ** The order of days *)

Definition pack (ymd : Z * Z * Z) : Z := let '(y, m, d) := ymd in (y * 100 + m) * 100 + d.

(** Every day of an era has a month and a day of month, and the next day is
    later: by evaluation over the 146097 days. *)
Fixpoint check_days (n : nat) (day last : Z) : bool :=
  match n with
  | O => true
  | S n =>
    let '(y, m, d) := day_in_era day in
    (0 <=? y) && (y <=? 400) && (1 <=? m) && (m <=? 12) && (1 <=? d) && (d <=? 31)
    && (last <? pack (y, m, d)) && check_days n (day + 1) (pack (y, m, d))
  end.

Lemma check_days_ok : check_days (Z.to_nat ERA_DAYS) 0 0 = true.
Proof. by vm_compute. Qed.

Definition ymd_ok (ymd : Z * Z * Z) : Prop :=
  let '(y, m, d) := ymd in 0 <= y <= 400 ∧ 1 <= m <= 12 ∧ 1 <= d <= 31.

Lemma check_days_spec n day last :
  check_days n day last = true →
  ∀ k, day <= k < day + Z.of_nat n →
    ymd_ok (day_in_era k) ∧ last < pack (day_in_era k)
    ∧ ∀ k', k < k' < day + Z.of_nat n → pack (day_in_era k) < pack (day_in_era k').
Proof.
  revert day last. induction n as [|n IH]; intros day last Hc k Hk; [lia|].
  cbn [check_days] in Hc. destruct (day_in_era day) as [[y m] d] eqn:Hd.
  apply andb_true_iff in Hc as [Hc Hrest]. bool_hyps.
  specialize (IH (day + 1) _ Hrest).
  destruct (decide (k = day)) as [->|Hne].
  - rewrite Hd. split_and!; [by unfold ymd_ok; lia|done|].
    intros k' Hk'. destruct (IH k') as (_ & ? & _); [lia|done].
  - destruct (IH k) as (? & ? & Hmono); [lia|]. split_and!; [done|lia|].
    intros k' Hk'. apply Hmono. lia.
Qed.

Lemma day_in_era_ok k : 0 <= k < ERA_DAYS → ymd_ok (day_in_era k).
Proof. intros Hk. apply (check_days_spec _ _ _ check_days_ok). unfold ERA_DAYS in *. lia. Qed.

Lemma day_in_era_mono k k' :
  0 <= k < k' → k' < ERA_DAYS → pack (day_in_era k) < pack (day_in_era k').
Proof.
  intros Hk Hk'. destruct (check_days_spec _ _ _ check_days_ok k) as (_ & _ & Hm);
    [unfold ERA_DAYS in *; lia|]. apply Hm. unfold ERA_DAYS in *. lia.
Qed.

(** Across the end of an era: the last day is 400-02-29, the first 0-03-01. *)
Lemma era_bounds k : 0 <= k < ERA_DAYS →
  pack (day_in_era 0) <= pack (day_in_era k) <= pack (day_in_era (ERA_DAYS - 1)).
Proof.
  intros Hk. split.
  - destruct (decide (k = 0)) as [->|]; [lia|]. apply Z.lt_le_incl, day_in_era_mono; lia.
  - destruct (decide (k = ERA_DAYS - 1)) as [->|]; [lia|].
    apply Z.lt_le_incl, day_in_era_mono; lia.
Qed.

Lemma pack_civil days :
  pack (civil_from_days days)
  = pack (day_in_era ((days + 719468) mod ERA_DAYS))
    + 4000000 * ((days + 719468) / ERA_DAYS).
Proof.
  unfold civil_from_days. destruct (day_in_era _) as [[y m] d]. unfold pack. lia.
Qed.

Lemma civil_mono days days' :
  days < days' → pack (civil_from_days days) < pack (civil_from_days days').
Proof.
  intros Hlt. rewrite !pack_civil.
  set (z := days + 719468). set (z' := days' + 719468).
  assert (0 < ERA_DAYS) as Hpos by done.
  pose proof (Z.mod_pos_bound z ERA_DAYS Hpos). pose proof (Z.mod_pos_bound z' ERA_DAYS Hpos).
  pose proof (Z.div_mod z ERA_DAYS). pose proof (Z.div_mod z' ERA_DAYS).
  assert (z / ERA_DAYS <= z' / ERA_DAYS) as Hera by (apply Z.div_le_mono; lia).
  destruct (decide (z / ERA_DAYS = z' / ERA_DAYS)) as [Heq|Hne].
  - rewrite Heq. assert (pack (day_in_era (z mod ERA_DAYS))
                         < pack (day_in_era (z' mod ERA_DAYS))); [|lia].
    apply day_in_era_mono; lia.
  - destruct (era_bounds (z mod ERA_DAYS)) as [_ Hmax]; [done|].
    destruct (era_bounds (z' mod ERA_DAYS)) as [Hmin _]; [done|].
    assert (pack (day_in_era (ERA_DAYS - 1)) < pack (day_in_era 0) + 4000000)
      by (by vm_compute). lia.
Qed.

(** ** The order of texts *)

Definition lex (c c' : comparison) : comparison := match c with Eq => c' | _ => c end.

Lemma compare_digit a b : 0 <= a < 10 → 0 <= b < 10 →
  Ascii.compare (digit a) (digit b) = (a ?= b).
Proof.
  intros Ha Hb.
  assert (forallb (λ p, bool_decide (Ascii.compare (digit p.1) (digit p.2) = (p.1 ?= p.2)))
    (list_prod (map Z.of_nat (seq 0 10)) (map Z.of_nat (seq 0 10))) = true) as H
    by (by vm_compute).
  rewrite forallb_forall in H. specialize (H (a, b)). apply bool_decide_eq_true in H; [done|].
  apply in_prod; apply in_map_iff;
    [exists (Z.to_nat a)|exists (Z.to_nat b)]; (split; [lia|apply in_seq; lia]).
Qed.

Lemma compare_cons c d s t :
  String.compare (String c s) (String d t) = lex (Ascii.compare c d) (String.compare s t).
Proof. cbn. by destruct (Ascii.compare c d). Qed.

Lemma compare_same c s t :
  String.compare (String c s) (String c t) = String.compare s t.
Proof.
  rewrite compare_cons. replace (Ascii.compare c c) with Eq; [done|].
  revert c. apply (ascii_forall (λ c, Eq = Ascii.compare c c)). by vm_compute.
Qed.

(** Two digits compare first by tens, then by units. *)
Lemma lex_div k a b c : 0 < k →
  lex (a / k ?= b / k) (lex (a mod k ?= b mod k) c) = lex (a ?= b) c.
Proof.
  intros Hk. pose proof (Z.div_mod a k). pose proof (Z.div_mod b k).
  pose proof (Z.mod_pos_bound a k Hk). pose proof (Z.mod_pos_bound b k Hk).
  destruct (Z.compare_spec (a / k) (b / k)), (Z.compare_spec (a mod k) (b mod k)),
    (Z.compare_spec a b); simpl; try done; nia.
Qed.

Lemma compare_pad2 a b s t : 0 <= a < 100 → 0 <= b < 100 →
  String.compare (pad2 a s) (pad2 b t) = lex (a ?= b) (String.compare s t).
Proof.
  intros Ha Hb. unfold pad2. rewrite !compare_cons.
  rewrite !compare_digit by
    (first [apply Z.mod_pos_bound; lia
           | split; [apply Z.div_pos; lia|apply Z.div_lt_upper_bound; lia]]).
  apply lex_div. lia.
Qed.

Lemma compare_pad4 a b s t : 0 <= a < 10000 → 0 <= b < 10000 →
  String.compare (pad4 a s) (pad4 b t) = lex (a ?= b) (String.compare s t).
Proof.
  intros Ha Hb. unfold pad4.
  rewrite !compare_pad2 by
    (first [apply Z.mod_pos_bound; lia
           | split; [apply Z.div_pos; lia|apply Z.div_lt_upper_bound; lia]]).
  apply lex_div. lia.
Qed.

Lemma civil_ok days : 0 <= days < 2932897 →
  let '(y, m, d) := civil_from_days days in
  0 <= y < 10000 ∧ 1 <= m <= 12 ∧ 1 <= d <= 31.
Proof.
  intros Hd. pose proof (day_in_era_ok ((days + 719468) mod ERA_DAYS)) as Hok.
  assert (pack (civil_from_days 0) <= pack (civil_from_days days)
          <= pack (civil_from_days 2932896)) as [Hlo Hhi].
  { split.
    - destruct (decide (days = 0)) as [->|]; [lia|]. apply Z.lt_le_incl, civil_mono. lia.
    - destruct (decide (days = 2932896)) as [->|]; [lia|]. apply Z.lt_le_incl, civil_mono.
      lia. }
  replace (pack (civil_from_days 0)) with 19700101 in Hlo by (by vm_compute).
  replace (pack (civil_from_days 2932896)) with 99991231 in Hhi by (by vm_compute).
  unfold civil_from_days in *. destruct (day_in_era _) as [[y m] d]. simpl in *.
  destruct Hok as (? & ? & ?); [apply Z.mod_pos_bound; done|]. lia.
Qed.

Lemma hms s : s mod 3600 / 60 = s / 60 mod 60 ∧ s mod 3600 mod 60 = s mod 60.
Proof. split; Z.to_euclidean_division_equations; lia. Qed.

(** The comparison of two timestamps is the comparison of their texts. *)
Lemma iso_compare t u :
  0 <= t < YEAR_10000 → 0 <= u < YEAR_10000 →
  String.compare (iso t) (iso u) = (t ?= u).
Proof.
  intros Ht Hu. unfold YEAR_10000 in *. unfold iso.
  assert (0 <= t / 86400 < 2932897) as Hdt
    by (split; [apply Z.div_pos; lia|apply Z.div_lt_upper_bound; lia]).
  assert (0 <= u / 86400 < 2932897) as Hdu
    by (split; [apply Z.div_pos; lia|apply Z.div_lt_upper_bound; lia]).
  pose proof (civil_ok _ Hdt) as Hot. pose proof (civil_ok _ Hdu) as Hou.
  pose proof (civil_mono (t / 86400) (u / 86400)) as Hlt.
  pose proof (civil_mono (u / 86400) (t / 86400)) as Hgt.
  pose proof (f_equal civil_from_days (x := t / 86400) (y := u / 86400)) as Heq.
  destruct (civil_from_days (t / 86400)) as [[y m] d], (civil_from_days (u / 86400))
    as [[y' m'] d'].
  pose proof (Z.mod_pos_bound t 86400 eq_refl) as Hst.
  pose proof (Z.mod_pos_bound u 86400 eq_refl) as Hsu.
  set (s := t mod 86400) in *. set (s' := u mod 86400) in *.
  assert (∀ x, 0 <= x < 86400 → 0 <= x / 3600 < 100 ∧ 0 <= x / 60 mod 60 < 100
            ∧ 0 <= x mod 60 < 100) as Hparts.
  { intros x Hx. pose proof (Z.mod_pos_bound (x / 60) 60 eq_refl).
    pose proof (Z.mod_pos_bound x 60 eq_refl).
    assert (0 <= x / 3600 < 24)
      by (split; [apply Z.div_pos; lia|apply Z.div_lt_upper_bound; lia]). lia. }
  destruct (Hparts s Hst) as (? & ? & ?), (Hparts s' Hsu) as (? & ? & ?).
  rewrite compare_pad4, compare_same, compare_pad2, compare_same, compare_pad2, compare_same,
    compare_pad2, compare_same, compare_pad2, compare_same, compare_pad2 by lia.
  assert (∀ c, lex (s / 3600 ?= s' / 3600) (lex (s / 60 mod 60 ?= s' / 60 mod 60)
            (lex (s mod 60 ?= s' mod 60) c)) = lex (s ?= s') c) as ->.
  { intros c. rewrite <- (lex_div 3600 s s' c) by lia. f_equal.
    rewrite <- (lex_div 60 (s mod 3600) (s' mod 3600) c) by lia.
    destruct (hms s) as [-> ->], (hms s') as [-> ->]. done. }
  replace (String.compare "Z" "Z") with Eq by done.
  assert (t = 86400 * (t / 86400) + s) as Et by (apply Z.div_mod; lia).
  assert (u = 86400 * (u / 86400) + s') as Eu by (apply Z.div_mod; lia).
  destruct (Z.lt_trichotomy (t / 86400) (u / 86400)) as [Hc|[Hc|Hc]].
  - specialize (Hlt Hc). unfold pack in Hlt.
    rewrite (proj2 (Z.compare_lt_iff t u)) by nia.
    destruct (Z.compare_spec y y'), (Z.compare_spec m m'), (Z.compare_spec d d'); simpl;
      try done; lia.
  - specialize (Heq Hc). injection Heq as -> -> ->. rewrite !Z.compare_refl. simpl.
    destruct (Z.compare_spec s s'), (Z.compare_spec t u); simpl; try done; lia.
  - specialize (Hgt Hc). unfold pack in Hgt.
    rewrite (proj2 (Z.compare_gt_iff t u)) by nia.
    destruct (Z.compare_spec y y'), (Z.compare_spec m m'), (Z.compare_spec d d'); simpl;
      try done; lia.
Qed.

(** The schema's timestamp columns may be compared as text: two
    timestamps up to the year 9999 compare as strings exactly as the instants
    do, and no two instants share a text. *)
Theorem iso_order t u :
  0 <= t < YEAR_10000 → 0 <= u < YEAR_10000 →
  (String.leb (iso t) (iso u) = true ↔ t <= u) ∧ (iso t = iso u → t = u).
Proof.
  intros Ht Hu. pose proof (iso_compare t u Ht Hu) as Hc. unfold String.leb.
  rewrite Hc. split.
  - destruct (Z.compare_spec t u); split; intros; try done; lia.
  - intros Heq. rewrite Heq in Hc.
    assert (String.compare (iso u) (iso u) = Eq) as He
      by (rewrite (iso_compare u u) by done; apply Z.compare_refl).
    rewrite He in Hc. by apply Z.compare_eq.
Qed.
