(* ===== verification/Sha256.v ===== *)
(** * SHA-2 and HMAC: [hashlib] and [hmac] of the standard library

    FIPS 180-4 on lists of bytes (integers 0..255), with 32-bit words as
    integers and the wrap-around written out.  The source hashes account keys
    (RFC 7638 thumbprints), truncated audit values and offered EAB kids. *)

From S2P Require Import Prelude PyStr.
Local Open Scope Z_scope.

Definition wrap32 (z : Z) : Z := z mod 2 ^ 32.

Definition rotr (n x : Z) : Z :=
  Z.lor (Z.shiftr x n) (wrap32 (Z.shiftl x (32 - n))).

Definition ch (x y z : Z) : Z := Z.lxor (Z.land x y) (Z.land (Z.lxor x (2 ^ 32 - 1)) z).
Definition maj (x y z : Z) : Z :=
  Z.lxor (Z.land x y) (Z.lxor (Z.land x z) (Z.land y z)).
Definition bsig0 (x : Z) : Z := Z.lxor (rotr 2 x) (Z.lxor (rotr 13 x) (rotr 22 x)).
Definition bsig1 (x : Z) : Z := Z.lxor (rotr 6 x) (Z.lxor (rotr 11 x) (rotr 25 x)).
Definition ssig0 (x : Z) : Z := Z.lxor (rotr 7 x) (Z.lxor (rotr 18 x) (Z.shiftr x 3)).
Definition ssig1 (x : Z) : Z := Z.lxor (rotr 17 x) (Z.lxor (rotr 19 x) (Z.shiftr x 10)).

(** The constants are the first 32 fractional bits of the cube roots of the
    first 64 primes, and of the square roots of the first eight. *)
Fixpoint iroot (bits : nat) (deg n acc : Z) : Z :=
  match bits with
  | O => acc
  | S b =>
    let c := acc + 2 ^ Z.of_nat b in
    iroot b deg n (if c ^ deg <=? n then c else acc)
  end.
Definition root_fraction (deg p : Z) : Z := wrap32 (iroot 40 deg (p * 2 ^ (32 * deg)) 0).
Definition primes : list Z :=
  filter (λ p, forallb (λ d, negb (p mod d =? 0)) (seqZ 2 (p - 2))) (seqZ 2 310).

Definition round_constants : list Z := Eval vm_compute in map (root_fraction 3) primes.
Definition initial_hash : list Z := Eval vm_compute in map (root_fraction 2) (take 8 primes).

(** Big-endian bytes of [z], [n] of them. *)
Fixpoint be_bytes (n : nat) (z : Z) : list Z :=
  match n with
  | O => []
  | S n => Z.land (Z.shiftr z (8 * Z.of_nat n)) 255 :: be_bytes n z
  end.

(** [int.from_bytes(_, "big")] *)
Definition be_int (bs : list Z) : Z := fold_left (λ a b, a * 256 + b) bs 0.

(** The message, a one bit, zeros, and the length in bits on 64 bits. *)
Definition pad (msg : list Z) : list Z :=
  let n := length msg in
  let zeros := ((119 - n mod 64) mod 64)%nat in
  msg ++ 128 :: replicate zeros 0 ++ be_bytes 8 (8 * Z.of_nat n).

Fixpoint chunks {A} (fuel n : nat) (l : list A) : list (list A) :=
  match fuel, l with
  | S fuel, _ :: _ => take n l :: chunks fuel n (drop n l)
  | _, _ => []
  end.

(** The message schedule; [w] holds the last sixteen words, newest last. *)
Fixpoint schedule (fuel : nat) (w : list Z) : list Z :=
  match fuel, w with
  | S fuel, w0 :: rest =>
    let nth i := nth i w 0 in
    let new := wrap32 (ssig1 (nth 14%nat) + nth 9%nat + ssig0 (nth 1%nat) + w0) in
    w0 :: schedule fuel (rest ++ [new])
  | _, _ => []
  end.

Definition sha_round (st : list Z) (kw : Z * Z) : list Z :=
  match st with
  | [a; b; c; d; e; f; g; h] =>
    let t1 := wrap32 (h + bsig1 e + ch e f g + kw.1 + kw.2) in
    let t2 := wrap32 (bsig0 a + maj a b c) in
    [wrap32 (t1 + t2); a; b; c; wrap32 (d + t1); e; f; g]
  | _ => st
  end.

Definition compress (st : list Z) (block : list Z) : list Z :=
  let w := schedule 64 (map be_int (chunks 16 4 block)) in
  zip_with (λ x y, wrap32 (x + y)) st (fold_left sha_round (zip round_constants w) st).

Definition sha256 (msg : list Z) : list Z :=
  let blocks := chunks (S (length msg)) 64 (pad msg) in
  fold_left compress blocks initial_hash ≫= be_bytes 4.

(** [str.encode("utf-8")] of a string of code points below U+0100. *)
Definition utf8_char (c : ascii) : list Z :=
  let n := code c in
  if n <? 128 then [n] else [Z.lor 192 (Z.shiftr n 6); Z.lor 128 (Z.land n 63)].

Definition utf8 (s : string) : list Z := chars s ≫= utf8_char.

Definition hex_digit (z : Z) : ascii :=
  ascii_of_N (Z.to_N (if z <? 10 then 48 + z else 87 + z)).

Definition hex (bs : list Z) : string :=
  of_chars (bs ≫= λ b, [hex_digit (Z.shiftr b 4); hex_digit (Z.land b 15)]).

(** [hashlib.sha256(s.encode()).hexdigest()[:16]] *)
Definition digest16 (s : string) : string :=
  of_chars (take 16 (chars (hex (sha256 (utf8 s))))).

Example sha256_abc :
  hex (sha256 (utf8 "abc"))
  = "ba7816bf8f01cfea414140de5dae2223b00361a396177a9cb410ff61f20015ad"%string.
Proof. by vm_compute. Qed.

Example sha256_two_blocks :
  hex (sha256 (utf8 "abcdbcdecdefdefgefghfghighijhijkijkljklmklmnlmnomnopnopq"))
  = "248d6a61d20638b8e5c026930c3e6039a33ce45964ff2167f6ecedd419db06c1"%string.
Proof. by vm_compute. Qed.

Example sha256_empty :
  hex (sha256 [])
  = "e3b0c44298fc1c149afbf4c8996fb92427ae41e4649b934ca495991b7852b855"%string.
Proof. by vm_compute. Qed.

(** ** Lengths *)

Lemma length_be_bytes n z : length (be_bytes n z) = n.
Proof. induction n; simpl; congruence. Qed.

Lemma length_sha_round st kw : length st = 8%nat → length (sha_round st kw) = 8%nat.
Proof. intros H. do 9 (destruct st as [|? st]; try done). Qed.

Lemma length_compress st block : length st = 8%nat → length (compress st block) = 8%nat.
Proof.
  intros H. unfold compress. rewrite length_zip_with, H.
  generalize (zip round_constants (schedule 64 (map be_int (chunks 16 4 block)))).
  intros l. assert (length (fold_left sha_round l st) = 8%nat) as ->; [|done].
  revert st H. induction l as [|kw l IH]; simpl; intros st H; [done|].
  by apply IH, length_sha_round.
Qed.

Lemma length_concat_map {A B} (f : A → list B) n l :
  (∀ x, length (f x) = n) → length (l ≫= f) = (n * length l)%nat.
Proof.
  intros H. induction l as [|x l IH]; [simpl; lia|].
  rewrite bind_cons, length_app, H, IH. simpl. lia.
Qed.

Lemma length_sha256 msg : length (sha256 msg) = 32%nat.
Proof.
  unfold sha256. rewrite (length_concat_map _ 4) by (intros; apply length_be_bytes).
  generalize (chunks (S (length msg)) 64 (pad msg)). intros bs.
  assert (∀ st, length st = 8%nat → length (fold_left compress bs st) = 8%nat) as H.
  { induction bs as [|b bs IH]; simpl; intros st Hst; [done|].
    by apply IH, length_compress. }
  by rewrite H.
Qed.

Lemma length_digest16 s : String.length (digest16 s) = 16%nat.
Proof.
  unfold digest16. rewrite length_of_chars, length_take.
  unfold hex. rewrite chars_of_chars, (length_concat_map _ 2) by done.
  by rewrite length_sha256.
Qed.

(** ** SHA-384, SHA-512 and HMAC

    FIPS 180-4 on 64-bit words, in the manner of the above, and RFC 2104 over
    any of the three hashes: what [_verify_hmac] of jws.py computes. *)

Definition wrap64 (z : Z) : Z := z mod 2 ^ 64.

Definition rotr64 (n x : Z) : Z :=
  Z.lor (Z.shiftr x n) (wrap64 (Z.shiftl x (64 - n))).

Definition ch64 (x y z : Z) : Z := Z.lxor (Z.land x y) (Z.land (Z.lxor x (2 ^ 64 - 1)) z).
Definition bsig0_64 (x : Z) : Z := Z.lxor (rotr64 28 x) (Z.lxor (rotr64 34 x) (rotr64 39 x)).
Definition bsig1_64 (x : Z) : Z := Z.lxor (rotr64 14 x) (Z.lxor (rotr64 18 x) (rotr64 41 x)).
Definition ssig0_64 (x : Z) : Z := Z.lxor (rotr64 1 x) (Z.lxor (rotr64 8 x) (Z.shiftr x 7)).
Definition ssig1_64 (x : Z) : Z := Z.lxor (rotr64 19 x) (Z.lxor (rotr64 61 x) (Z.shiftr x 6)).

(** The first 64 fractional bits of the cube roots of the first 80 primes, and
    of the square roots of the first sixteen. *)
Definition root_fraction64 (deg p : Z) : Z :=
  wrap64 (iroot 72 deg (p * 2 ^ (64 * deg)) 0).
Definition primes80 : list Z :=
  filter (λ p, forallb (λ d, negb (p mod d =? 0)) (seqZ 2 (p - 2))) (seqZ 2 408).

Definition round_constants512 : list Z :=
  Eval vm_compute in map (root_fraction64 3) primes80.
Definition initial_hash512 : list Z :=
  Eval vm_compute in map (root_fraction64 2) (take 8 primes80).
Definition initial_hash384 : list Z :=
  Eval vm_compute in map (root_fraction64 2) (take 8 (drop 8 primes80)).

(** The length goes on 128 bits, the block is 128 bytes. *)
Definition pad512 (msg : list Z) : list Z :=
  let n := length msg in
  let zeros := ((239 - n mod 128) mod 128)%nat in
  msg ++ 128 :: replicate zeros 0 ++ be_bytes 16 (8 * Z.of_nat n).

Fixpoint schedule512 (fuel : nat) (w : list Z) : list Z :=
  match fuel, w with
  | S fuel, w0 :: rest =>
    let nth i := nth i w 0 in
    let new := wrap64 (ssig1_64 (nth 14%nat) + nth 9%nat + ssig0_64 (nth 1%nat) + w0) in
    w0 :: schedule512 fuel (rest ++ [new])
  | _, _ => []
  end.

Definition sha512_round (st : list Z) (kw : Z * Z) : list Z :=
  match st with
  | [a; b; c; d; e; f; g; h] =>
    let t1 := wrap64 (h + bsig1_64 e + ch64 e f g + kw.1 + kw.2) in
    let t2 := wrap64 (bsig0_64 a + maj a b c) in
    [wrap64 (t1 + t2); a; b; c; wrap64 (d + t1); e; f; g]
  | _ => st
  end.

Definition compress512 (st : list Z) (block : list Z) : list Z :=
  let w := schedule512 80 (map be_int (chunks 16 8 block)) in
  zip_with (λ x y, wrap64 (x + y)) st
    (fold_left sha512_round (zip round_constants512 w) st).

Definition sha512_from (init : list Z) (msg : list Z) : list Z :=
  let blocks := chunks (S (length msg)) 128 (pad512 msg) in
  fold_left compress512 blocks init ≫= be_bytes 8.

Definition sha512 : list Z → list Z := sha512_from initial_hash512.
Definition sha384 (msg : list Z) : list Z := take 48 (sha512_from initial_hash384 msg).

Example sha512_abc :
  hex (sha512 (utf8 "abc"))
  = "ddaf35a193617abacc417349ae20413112e6fa4e89a97ea20a9eeee64b55d39a2192992a274fc1a836ba3c23a3feebbd454d4423643ce80e2a9ac94fa54ca49f"%string.
Proof. by vm_compute. Qed.

Example sha384_abc :
  hex (sha384 (utf8 "abc"))
  = "cb00753f45a35e8bb5a03d699ac65007272c32ab0eded1631a8b605a43ff5bed8086072ba1e7cc2358baeca134c825a7"%string.
Proof. by vm_compute. Qed.

(** ** The hash an algorithm name implies *)

Inductive HashAlg := SHA256 | SHA384 | SHA512.
#[export] Instance HashAlg_eq_dec : EqDecision HashAlg.
Proof. solve_decision. Defined.

Definition digest (h : HashAlg) : list Z → list Z :=
  match h with SHA256 => sha256 | SHA384 => sha384 | SHA512 => sha512 end.
Definition block_size (h : HashAlg) : nat := match h with SHA256 => 64 | _ => 128 end.

(** [hmac.new(key, msg, h).digest()]; a byte is 0..255. *)
Definition xor_pad (b : Z) (key : list Z) : list Z := map (Z.lxor b) key.
Definition hmac (h : HashAlg) (key msg : list Z) : list Z :=
  let key := if (block_size h <? length key)%nat then digest h key else key in
  let key := key ++ replicate (block_size h - length key) 0 in
  digest h (xor_pad 92 key ++ digest h (xor_pad 54 key ++ msg)).

(** RFC 4231, test case 2. *)
Example hmac_sha256_ex :
  hex (hmac SHA256 (utf8 "Jefe") (utf8 "what do ya want for nothing?"))
  = "5bdcc146bf60754e6a042426089575c75a003f089d2739839dec58b964ec3843"%string.
Proof. by vm_compute. Qed.
Example hmac_sha384_ex :
  hex (hmac SHA384 (utf8 "Jefe") (utf8 "what do ya want for nothing?"))
  = "af45d2e376484031617f78d2b58a6b1b9c7ef464f5a01b47e42ec3736322445e8e2240ca5e69e2c78b3239ecfab21649"%string.
Proof. by vm_compute. Qed.
