(* ===== verification/Json.v ===== *)
(** * JSON values, Python dicts and [json.dumps]

    A Python [dict] with string keys is an association list in insertion
    order; [dict_set] replaces a value in place or appends, as [d[k] = v]
    does.  A float is kept as the text [repr] gives it.  [json_dumps] is
    [json.dumps(_, separators=(",", ":"))] with the default [ensure_ascii]. *)

From S2P Require Import Prelude PyStr.
From stdpp Require Import pretty.
Local Open Scope Z_scope.

Inductive json :=
  | JNull
  | JBool (b : bool)
  | JNum (z : Z)
  | JFloat (repr : string)
  | JStr (s : string)
  | JArr (l : list json)
  | JObj (m : list (string * json)).

Abbreviation dict := (list (string * json)).

(** Induction through the nested lists. *)
Section json_ind.
Context (P : json → Prop).
Context (Hnull : P JNull) (Hbool : ∀ b, P (JBool b)) (Hnum : ∀ z, P (JNum z)).
Context (Hfloat : ∀ s, P (JFloat s)) (Hstr : ∀ s, P (JStr s)).
Context (Harr : ∀ l, Forall P l → P (JArr l)).
Context (Hobj : ∀ m, Forall (λ kv, P kv.2) m → P (JObj m)).

Fixpoint json_ind' (v : json) : P v :=
  match v with
  | JNull => Hnull
  | JBool b => Hbool b
  | JNum z => Hnum z
  | JFloat s => Hfloat s
  | JStr s => Hstr s
  | JArr l =>
    Harr l ((fix go l : Forall P l :=
      match l with
      | [] => Forall_nil_2 _
      | x :: l => Forall_cons_2 _ _ _ (json_ind' x) (go l)
      end) l)
  | JObj m =>
    Hobj m ((fix go (m : list (string * json)) : Forall (λ kv, P kv.2) m :=
      match m with
      | [] => Forall_nil_2 _
      | kv :: m => Forall_cons_2 (λ kv, P kv.2) kv m (json_ind' kv.2) (go m)
      end) m)
  end.
End json_ind.

#[export] Instance json_eq_dec : EqDecision json.
Proof.
  unfold EqDecision. fix go 1. intros x y.
  pose (go : EqDecision json) as json_dec.
  refine (
    match x, y with
    | JNull, JNull => left eq_refl
    | JBool a, JBool b => cast_if (decide (a = b))
    | JNum a, JNum b => cast_if (decide (a = b))
    | JFloat a, JFloat b => cast_if (decide (a = b))
    | JStr a, JStr b => cast_if (decide (a = b))
    | JArr a, JArr b => cast_if (decide (a = b))
    | JObj a, JObj b => cast_if (decide (a = b))
    | _, _ => right _
    end); clear go json_dec; abstract congruence.
Defined.

(** ** Dicts *)

Fixpoint dict_get (k : string) (d : dict) : option json :=
  match d with
  | [] => None
  | kv :: d => if decide (kv.1 = k) then Some kv.2 else dict_get k d
  end.

Fixpoint dict_set (k : string) (v : json) (d : dict) : dict :=
  match d with
  | [] => [(k, v)]
  | (k', v') :: d =>
    if decide (k' = k) then (k', v) :: d else (k', v') :: dict_set k v d
  end.

Definition dict_pop (k : string) (d : dict) : dict :=
  filter (λ kv, kv.1 ≠ k) d.

(** [d.update(e)] and [{**d, **e}] *)
Definition dict_update (d e : dict) : dict :=
  fold_left (λ d kv, dict_set kv.1 kv.2 d) e d.

(** Python's [str(v)] where the code applies it to a JSON value that is a
    string already. *)
Definition json_string (v : json) : option string :=
  match v with JStr s => Some s | _ => None end.

(** ** [json.dumps] *)

Definition hex_lower (z : Z) : ascii :=
  ascii_of_N (Z.to_N (if z <? 10 then 48 + z else 87 + z)).

(** One character of an [ensure_ascii] JSON string. *)
Definition escape_char (c : ascii) : list ascii :=
  let n := code c in
  if n =? 34 then ["\"; "034"]%char
  else if n =? 92 then ["\"; "\"]%char
  else if n =? 10 then ["\"; "n"]%char
  else if n =? 13 then ["\"; "r"]%char
  else if n =? 9 then ["\"; "t"]%char
  else if n =? 12 then ["\"; "f"]%char
  else if n =? 8 then ["\"; "b"]%char
  else if (n <? 32) || (126 <? n)
  then ["\"; "u"; "0"; "0"; hex_lower (n / 16); hex_lower (n mod 16)]%char
  else [c].

Definition dump_str (s : string) : list ascii :=
  "034"%char :: (chars s ≫= escape_char) ++ ["034"%char].

(** [sep.join(parts)] *)
Fixpoint join_with (sep : list ascii) (parts : list (list ascii)) : list ascii :=
  match parts with
  | [] => []
  | [p] => p
  | p :: ps => p ++ sep ++ join_with sep ps
  end.

Fixpoint dump (v : json) : list ascii :=
  match v with
  | JNull => chars "null"
  | JBool true => chars "true"
  | JBool false => chars "false"
  | JNum z => chars (pretty z)
  | JFloat s => chars s
  | JStr s => dump_str s
  | JArr l => "["%char :: join_with [","%char] (map dump l) ++ ["]"%char]
  | JObj m =>
    "{"%char :: join_with [","%char]
      (map (λ kv, dump_str kv.1 ++ ":"%char :: dump kv.2) m) ++ ["}"%char]
  end.

Definition json_dumps (v : json) : string := of_chars (dump v).

(** [_serialized_length] of audit_bounds.py *)
Definition serialized_length (d : dict) : Z := Z.of_nat (length (dump (JObj d))).

Example dumps_ex :
  json_dumps (JArr [JNum (-12); JBool true; JObj []; JNull]) = "[-12,true,{},null]"%string.
Proof. by vm_compute. Qed.


(** ** [repr] and [str] *)

(** [str.isprintable] on one character. *)
Definition is_printable (c : ascii) : bool :=
  in_range 32 126 c || (in_range 161 255 c && negb (code c =? 173)).

Definition repr_char (quote : ascii) (c : ascii) : list ascii :=
  let n := code c in
  if bool_decide (c = quote) || (n =? 92) then ["\"; c]%char
  else if n =? 10 then ["\"; "n"]%char
  else if n =? 13 then ["\"; "r"]%char
  else if n =? 9 then ["\"; "t"]%char
  else if is_printable c then [c]
  else ["\"; "x"; hex_lower (n / 16); hex_lower (n mod 16)]%char.

(** [repr(s)]: single quotes unless only the single quote occurs in [s]. *)
Definition py_repr (s : string) : string :=
  let quote := if has_char "'" s && negb (has_char "034" s) then "034"%char else "'"%char in
  of_chars (quote :: (chars s ≫= repr_char quote) ++ [quote]).

Definition comma_join (parts : list string) : string := String.concat ", " parts.

(** [repr(l)] of a list of strings *)
Definition py_repr_list (l : list string) : string :=
  "[" +:+ comma_join (map py_repr l) +:+ "]".

(** [repr] and [str] of a JSON value *)
Fixpoint py_repr_json (v : json) : string :=
  match v with
  | JNull => "None"
  | JBool true => "True"
  | JBool false => "False"
  | JNum z => pretty z
  | JFloat s => s
  | JStr s => py_repr s
  | JArr l => "[" +:+ comma_join (map py_repr_json l) +:+ "]"
  | JObj m => "{" +:+ comma_join (map (λ kv, py_repr kv.1 +:+ ": " +:+ py_repr_json kv.2) m)
              +:+ "}"
  end.
Definition py_str (v : json) : string :=
  match v with JStr s => s | _ => py_repr_json v end.

Example repr_ex : py_repr_list ["a"; "it's"]%string = ("['a', " ++ String "034" "it's" ++ String "034" "]")%string.
Proof. by vm_compute. Qed.

(** ** Dict lemmas *)

Lemma dict_get_set k k' v d :
  dict_get k (dict_set k' v d) = if decide (k' = k) then Some v else dict_get k d.
Proof. induction d as [|[k1 v1] d IH]; simpl; dec_congruence. Qed.

Lemma dict_get_pop k k' d :
  dict_get k (dict_pop k' d) = if decide (k' = k) then None else dict_get k d.
Proof.
  induction d as [|[k1 v1] d IH]; simpl; [by case_decide|].
  unfold dict_pop in *. rewrite filter_cons. dec_congruence.
Qed.

Lemma dict_set_fresh k v d : k ∉ d.*1 → dict_set k v d = d ++ [(k, v)].
Proof.
  induction d as [|[k' v'] d IH]; simpl; [done|]. intros Hk.
  rewrite decide_False by set_solver. by rewrite IH by set_solver.
Qed.

Lemma dict_set_keys k v d :
  (dict_set k v d).*1 = if decide (k ∈ d.*1) then d.*1 else d.*1 ++ [k].
Proof.
  induction d as [|[k' v'] d IH].
  { by rewrite decide_False by set_solver. }
  cbn [dict_set]. destruct (decide (k' = k)) as [->|Hne]; rewrite !fmap_cons.
  - by rewrite decide_True by set_solver.
  - rewrite IH. destruct (decide (k ∈ d.*1)).
    + by rewrite decide_True by set_solver.
    + by rewrite decide_False by set_solver.
Qed.
