(* ===== verification/Exn.v ===== *)
(** * The exceptions the modelled code raises

    One type for every Python exception, because the code catches [Exception]
    at several boundaries.  Messages that are prose are not carried; the data
    a handler reads from the exception object is.  [acme_error] is
    [AcmeError] with the constructors of [src/acme_adcs_ra/acme_errors.py]. *)

From S2P Require Import Prelude PyStr.
Local Open Scope Z_scope.

(** [AcmeError]: type, status, and the [Retry-After] header when set. *)
Record AcmeError := {
  typ : string;
  status : Z;
  retry_after : option Z;
}.

Inductive Exn :=
  (* Python and sqlite3 *)
  | ValueError
  | TypeError
  | RuntimeError
  | OtherException (msg : string)
  | OSError (msg : string)
  | IntegrityError
  | OperationalError (msg : string)
  (* store.py *)
  | StoreMigrationError
  | OrderRateLimitExceeded (scope : string) (limit count window_seconds : Z)
      (eab_kid : option string)
  | EabAccountLimitExceeded (kid : string) (limit count : Z)
  | KeyChangeRateLimitExceeded (kid : string) (limit count window_seconds : Z)
  | AccountKeyStale
  (* jws.py *)
  | JWSValidationError
  | UnsupportedAlgorithmError
  | UnsupportedSignatureAlgorithmError
  (* enrollment.py *)
  | EnrollmentDenied (msg : string)
  | EnrollmentPending (msg req_id : string)
  | EnrollmentTransportError (msg : string) (req_id cert_pem : option string)
      (chain_pem : list string)
  | EnrollmentGateBusy
  (* crl_evidence.py *)
  | CrlEvidenceGateBusy (msg : string)
  (* acme_errors.py *)
  | Acme (e : AcmeError).

#[export] Instance AcmeError_eq_dec : EqDecision AcmeError.
Proof. solve_decision. Defined.
#[export] Instance Exn_eq_dec : EqDecision Exn.
Proof. solve_decision. Defined.

(** [UnsupportedSignatureAlgorithmError < UnsupportedAlgorithmError <
    JWSValidationError]: the handlers that catch the base class. *)
Definition is_jws_validation_error (e : Exn) : bool :=
  match e with
  | JWSValidationError | UnsupportedAlgorithmError | UnsupportedSignatureAlgorithmError => true
  | _ => false
  end.

(** [EnrollmentTransportError.ca_issued] *)
Definition ca_issued (req_id : option string) : bool :=
  match req_id with Some _ => true | None => false end.

(** [str(exc)], for the exceptions whose text the code reads; other prose is
    not carried. *)
Definition exn_str (e : Exn) : string :=
  match e with
  | OtherException msg | OSError msg | OperationalError msg | EnrollmentDenied msg
  | EnrollmentPending msg _ | EnrollmentTransportError msg _ _ _ | CrlEvidenceGateBusy msg => msg
  | _ => EmptyString
  end.

(** ** The problem constructors of acme_errors.py *)

Definition urn (name : string) : string := "urn:ietf:params:acme:error:" +:+ name.
Definition acme (name : string) (code : Z) : AcmeError :=
  {| typ := urn name; status := code; retry_after := None |}.

Definition bad_nonce : AcmeError := acme "badNonce" 400.
Definition unauthorized : AcmeError := acme "unauthorized" 401.
Definition malformed : AcmeError := acme "malformed" 400.
Definition bad_public_key : AcmeError := acme "badPublicKey" 400.
Definition bad_csr : AcmeError := acme "badCSR" 400.
Definition rejected_identifier : AcmeError := acme "rejectedIdentifier" 400.
Definition bad_external_account_binding : AcmeError := acme "badExternalAccountBinding" 400.
Definition server_internal : AcmeError := acme "serverInternal" 500.
Definition issuance_halted : AcmeError := acme "serverInternal" 503.
Definition unsupported_identifier : AcmeError := acme "unsupportedIdentifier" 400.
Definition bad_revocation_reason : AcmeError := acme "badRevocationReason" 400.
Definition not_found : AcmeError := acme "notFound" 404.
Definition account_does_not_exist : AcmeError := acme "accountDoesNotExist" 400.
Definition rate_limited (after : option Z) : AcmeError :=
  {| typ := urn "rateLimited"; status := 429; retry_after := after |}.
Definition order_not_ready : AcmeError := acme "orderNotReady" 403.
Definition bad_signature_algorithm : AcmeError := acme "badSignatureAlgorithm" 400.
Definition unsupported_media_type : AcmeError := acme "malformed" 415.
