(* ===== verification/Base64.v ===== *)
(** * Base64url and big-endian octet strings

    [_base64url_encode], [_base64url_decode] of [src/acme_adcs_ra/jws.py] on
    top of [base64.urlsafe_b64encode] and the non-strict decoder of
    [binascii.a2b_base64], with bytes as integers 0..255. *)

From S2P Require Import Prelude PyStr Sha256 Exn.
Local Open Scope Z_scope.

Ltac Zify.zify_post_hook ::= Z.to_euclidean_division_equations.

Definition is_byte (b : Z) : Prop := 0 ≤ b < 256.

(** The URL-safe alphabet, by index. *)
Definition b64_char (i : Z) : ascii :=
  ascii_of_N (Z.to_N (
    if i <? 26 then 65 + i
    else if i <? 52 then 71 + i
    else if i <? 62 then i - 4
    else if i =? 62 then 45 else 95)).

(** [table_a2b_base64] after [urlsafe_b64decode]'s translation of [-] and [_]:
    both spellings of the last two digits are accepted. *)
Definition b64_index (c : ascii) : option Z :=
  let n := code c in
  if in_range 65 90 c then Some (n - 65)
  else if in_range 97 122 c then Some (n - 71)
  else if in_range 48 57 c then Some (n + 4)
  else if (n =? 45) || (n =? 43) then Some 62
  else if (n =? 95) || (n =? 47) then Some 63
  else None.

(** [base64.urlsafe_b64encode(data).rstrip(b"=")]: the unpadded digits. *)
Fixpoint b64_encode (bs : list Z) : list ascii :=
  match bs with
  | [] => []
  | [a] => map b64_char [a / 4; a mod 4 * 16]
  | [a; b] => map b64_char [a / 4; a mod 4 * 16 + b / 16; b mod 16 * 4]
  | a :: b :: c :: bs =>
    map b64_char [a / 4; a mod 4 * 16 + b / 16; b mod 16 * 4 + c / 64; c mod 64]
    ++ b64_encode bs
  end.

(** [_base64url_encode] *)
Definition base64url_encode (data : list Z) : string := of_chars (b64_encode data).

(** The loop of [binascii.a2b_base64]: [quad] counts the digits of the current
    group, [left] holds the bits not yet written, [pads] the padding seen.
    [None] is [binascii.Error] (a group left incomplete). *)
Fixpoint a2b (l : list ascii) (quad left pads : Z) (out : list Z) : option (list Z) :=
  match l with
  | [] => if quad =? 0 then Some out else None
  | c :: l =>
    if bool_decide (c = "="%char) then
      if 2 <=? quad then
        if 4 <=? quad + (pads + 1) then Some out else a2b l quad left (pads + 1) out
      else a2b l quad left pads out
    else match b64_index c with
    | None => a2b l quad left pads out
    | Some v =>
      if quad =? 0 then a2b l 1 v 0 out
      else if quad =? 1 then a2b l 2 (v mod 16) 0 (out ++ [left * 4 + v / 16])
      else if quad =? 2 then a2b l 3 (v mod 4) 0 (out ++ [left * 16 + v / 4])
      else a2b l 0 0 0 (out ++ [left * 64 + v])
    end
  end.

Definition is_ascii (s : string) : bool := forallb (λ c, code c <? 128) (chars s).

(** [_base64url_decode]: a [ValueError] (or its subclass [binascii.Error]) on
    non-ASCII text and on an incomplete group. *)
Definition base64url_decode (data : string) : Res Exn (list Z) :=
  let padding_needed := Z.to_nat ((- slen data) mod 4) in
  if is_ascii data then
    match a2b (chars data ++ replicate padding_needed "="%char) 0 0 0 [] with
    | Some bs => Ok bs
    | None => Raise ValueError
    end
  else Raise ValueError.

(** [_B64URL_ALPHABET] *)
Definition is_b64url_char (c : ascii) : bool :=
  in_range 65 90 c || in_range 97 122 c || in_range 48 57 c
  || bool_decide (c = "-"%char) || bool_decide (c = "_"%char).

(** ** Round trip *)

Lemma b64_index_char i : 0 ≤ i < 64 → b64_index (b64_char i) = Some i.
Proof.
  intros Hi. assert (forallb (λ n, bool_decide (b64_index (b64_char (Z.of_nat n))
                                 = Some (Z.of_nat n))) (seq 0 64) = true) as H
    by (by vm_compute).
  rewrite forallb_forall in H. specialize (H (Z.to_nat i)).
  rewrite Z2Nat.id in H by lia. apply bool_decide_eq_true in H; [done|].
  apply in_seq. lia.
Qed.

Lemma b64_char_alphabet i : 0 ≤ i < 64 → is_b64url_char (b64_char i) = true.
Proof.
  intros Hi. assert (forallb (λ n, is_b64url_char (b64_char (Z.of_nat n)))
                       (seq 0 64) = true) as H by (by vm_compute).
  rewrite forallb_forall in H. specialize (H (Z.to_nat i)).
  rewrite Z2Nat.id in H by lia. apply H, in_seq. lia.
Qed.

Lemma b64url_char_facts c :
  is_b64url_char c = true → c ≠ "="%char ∧ code c <? 128 = true.
Proof.
  revert c.
  refine (ascii_forall (λ c, is_b64url_char c = true → c ≠ "="%char ∧ code c <? 128 = true) _).
  by vm_compute.
Qed.

Lemma b64_char_not_pad i : 0 ≤ i < 64 → bool_decide (b64_char i = "="%char) = false.
Proof.
  intros Hi. apply bool_decide_eq_false.
  by apply b64url_char_facts, b64_char_alphabet.
Qed.

(** Induction three bytes at a time. *)
Lemma list_ind3 {A} (P : list A → Prop) :
  P [] → (∀ a, P [a]) → (∀ a b, P [a; b]) →
  (∀ a b c l, P l → P (a :: b :: c :: l)) → ∀ l, P l.
Proof.
  intros H0 H1 H2 H3. fix go 1. intros [|a [|b [|c l]]]; [done|done|done|]. apply H3, go.
Qed.

Lemma b64_encode_alphabet bs :
  Forall is_byte bs → Forall (λ c, is_b64url_char c = true) (b64_encode bs).
Proof.
  unfold is_byte. induction bs as [|a|a b|a b c bs IH] using list_ind3;
    rewrite ?Forall_cons; intros Hb; cbn [b64_encode map app];
    repeat constructor; try (apply b64_char_alphabet; lia). apply IH. tauto.
Qed.

(** One full group of digits. *)
Lemma a2b_group a b c l out :
  is_byte a → is_byte b → is_byte c →
  a2b (map b64_char [a / 4; a mod 4 * 16 + b / 16; b mod 16 * 4 + c / 64; c mod 64] ++ l)
      0 0 0 out
  = a2b l 0 0 0 (out ++ [a; b; c]).
Proof.
  unfold is_byte. intros Ha Hb Hc. cbn [map app a2b].
  rewrite !b64_char_not_pad, !b64_index_char by lia. cbn [Z.eqb].
  rewrite <- !app_assoc. cbn [app]. repeat f_equal; lia.
Qed.

Definition pad_of (n : nat) : list ascii := replicate (Z.to_nat ((- Z.of_nat n) mod 4)) "="%char.

Lemma a2b_encode bs out :
  Forall is_byte bs →
  a2b (b64_encode bs ++ pad_of (length (b64_encode bs))) 0 0 0 out = Some (out ++ bs).
Proof.
  unfold is_byte. revert out.
  induction bs as [|a|a b|a b c bs IH] using list_ind3; intros out; rewrite ?Forall_cons.
  - intros _. cbn. by rewrite app_nil_r.
  - intros [Ha _]. cbn [b64_encode map app length].
    replace (pad_of 2) with ["="; "="]%char by done.
    cbn [app a2b]. rewrite !b64_char_not_pad, !b64_index_char by lia.
    cbn. repeat f_equal. lia.
  - intros (Ha & Hb & _). cbn [b64_encode map app length].
    replace (pad_of 3) with ["="]%char by done.
    cbn [app a2b]. rewrite !b64_char_not_pad, !b64_index_char by lia.
    cbn. rewrite <- app_assoc. cbn. repeat f_equal; lia.
  - intros (Ha & Hb & Hc & Hbs). cbn [b64_encode].
    rewrite <- app_assoc, a2b_group by done.
    replace (pad_of (length (_ ++ b64_encode bs))) with (pad_of (length (b64_encode bs))).
    + rewrite IH by done. by rewrite <- app_assoc.
    + rewrite length_app. unfold pad_of. cbn [map length]. f_equal. f_equal.
      rewrite Nat2Z.inj_add. lia.
Qed.

Lemma base64url_decode_encode bs :
  Forall is_byte bs → base64url_decode (base64url_encode bs) = inr bs.
Proof.
  intros Hb. unfold base64url_decode, base64url_encode, is_ascii.
  autorewrite with pystr.
  assert (forallb (λ c, code c <? 128) (b64_encode bs) = true) as ->.
  { apply forallb_forall. intros c Hc. apply list_elem_of_In in Hc.
    pose proof (b64_encode_alphabet _ Hb) as Hall. rewrite Forall_forall in Hall.
    by apply b64url_char_facts, Hall. }
  fold (pad_of (length (b64_encode bs))). by rewrite a2b_encode.
Qed.

(** The decoder only produces bytes. *)
Lemma b64_index_range c v : b64_index c = Some v → 0 ≤ v < 64.
Proof.
  assert (∀ c, match b64_index c with Some v => (0 <=? v) && (v <? 64) | None => true end
               = true) as H.
  { apply (ascii_forall _). by vm_compute. }
  intros Hc. specialize (H c). rewrite Hc in H. bool_hyps. lia.
Qed.

Lemma a2b_bytes l quad left pads out bs :
  a2b l quad left pads out = Some bs →
  Forall is_byte out → 0 ≤ quad < 4 →
  0 ≤ left < (if quad =? 0 then 1 else if quad =? 1 then 64 else if quad =? 2 then 16 else 4) →
  Forall is_byte bs.
Proof.
  unfold is_byte. revert quad left pads out. induction l as [|c l IH]; intros quad left pads out.
  { cbn. destruct (quad =? 0); [|done]. by intros [= ->]. }
  cbn [a2b]. intros Ha Hout Hq Hl.
  destruct (bool_decide _).
  { destruct (2 <=? quad); [|by eapply IH].
    destruct (4 <=? _); [by simplify_eq|by eapply IH]. }
  destruct (b64_index c) as [v|] eqn:Hv; [|by eapply IH].
  apply b64_index_range in Hv.
  destruct (quad =? 0) eqn:Q0; [eapply IH; [done|done|lia|cbn; lia]|].
  destruct (quad =? 1) eqn:Q1; bool_hyps.
  { eapply IH; [done| |lia|cbn; lia]. apply Forall_app. split; [done|].
    repeat constructor; lia. }
  destruct (quad =? 2) eqn:Q2; bool_hyps.
  { eapply IH; [done| |lia|cbn; lia]. apply Forall_app. split; [done|].
    repeat constructor; lia. }
  eapply IH; [done| |lia|cbn; lia]. apply Forall_app. split; [done|].
  repeat constructor; lia.
Qed.

Lemma base64url_decode_bytes s bs : base64url_decode s = inr bs → Forall is_byte bs.
Proof.
  unfold base64url_decode. destruct (is_ascii s); [|done].
  destruct (a2b _ 0 0 0 []) as [bs'|] eqn:Ha; [|done]. intros [= <-].
  eapply a2b_bytes; [done|constructor|lia|cbn; lia].
Qed.

(** ** Big-endian integers *)

Lemma be_int_snoc bs b : be_int (bs ++ [b]) = be_int bs * 256 + b.
Proof. unfold be_int. by rewrite fold_left_app. Qed.

Lemma be_int_bound bs : Forall is_byte bs → 0 ≤ be_int bs < 256 ^ Z.of_nat (length bs).
Proof.
  unfold is_byte. induction bs as [|b bs IH] using rev_ind; [cbn; lia|].
  rewrite Forall_app, Forall_cons. intros (Hbs & Hb & _).
  rewrite be_int_snoc, length_app. cbn [length].
  replace (Z.of_nat (length bs + 1)) with (Z.succ (Z.of_nat (length bs))) by lia.
  rewrite Z.pow_succ_r by lia. specialize (IH Hbs). lia.
Qed.

Lemma be_int_inj_length bs cs :
  Forall is_byte bs → Forall is_byte cs →
  length bs = length cs → be_int bs = be_int cs → bs = cs.
Proof.
  unfold is_byte. revert cs. induction bs as [|b bs IH] using rev_ind; intros cs Hb Hc Hlen Heq.
  { by destruct cs. }
  destruct cs as [|c cs _] using rev_ind; [rewrite length_app in Hlen; simpl in Hlen; lia|].
  rewrite !length_app in Hlen. simpl in Hlen.
  rewrite !be_int_snoc in Heq. apply Forall_app in Hb as [Hbs Hb], Hc as [Hcs Hc].
  rewrite Forall_singleton in *.
  assert (be_int bs = be_int cs ∧ b = c) as [? ->] by lia.
  f_equal. apply IH; [done..|lia|done].
Qed.

Lemma be_int_cons b bs :
  be_int (b :: bs) = b * 256 ^ Z.of_nat (length bs) + be_int bs.
Proof.
  induction bs as [|c bs IH] using rev_ind; [cbn; lia|].
  rewrite app_comm_cons, !be_int_snoc, IH, length_app. cbn [length].
  replace (Z.of_nat (length bs + 1)) with (Z.succ (Z.of_nat (length bs))) by lia.
  rewrite Z.pow_succ_r by lia. lia.
Qed.

(** Minimal big-endian strings: the leading octet is not zero. *)
Lemma be_int_minimal_inj bs cs :
  Forall is_byte bs → Forall is_byte cs →
  head bs ≠ Some 0 → head cs ≠ Some 0 → be_int bs = be_int cs → bs = cs.
Proof.
  intros Hb Hc Hhb Hhc Heq.
  apply be_int_inj_length; [done..| |done].
  assert (∀ ds, Forall is_byte ds → head ds ≠ Some 0 → ds ≠ [] →
                256 ^ (Z.of_nat (length ds) - 1) ≤ be_int ds) as Hlow.
  { intros [|d ds] Hd Hh Hne; [done|]. rewrite be_int_cons. apply Forall_cons in Hd as [Hd Hds].
    pose proof (be_int_bound ds Hds). unfold is_byte in Hd.
    assert (d ≠ 0) by (intros ->; by apply Hh). cbn [length].
    replace (Z.of_nat (S (length ds)) - 1) with (Z.of_nat (length ds)) by lia. nia. }
  pose proof (be_int_bound bs Hb) as Bb. pose proof (be_int_bound cs Hc) as Bc.
  destruct (decide (bs = [])) as [->|Hnb], (decide (cs = [])) as [->|Hnc]; [done| | |].
  - pose proof (Hlow cs Hc Hhc Hnc). cbn in Heq.
    pose proof (Z.pow_pos_nonneg 256 (Z.of_nat (length cs) - 1)).
    destruct cs; [done|cbn [length] in *; lia].
  - pose proof (Hlow bs Hb Hhb Hnb). cbn in Heq.
    pose proof (Z.pow_pos_nonneg 256 (Z.of_nat (length bs) - 1)).
    destruct bs; [done|cbn [length] in *; lia].
  - pose proof (Hlow bs Hb Hhb Hnb). pose proof (Hlow cs Hc Hhc Hnc).
    assert (256 ^ (Z.of_nat (length bs) - 1) < 256 ^ Z.of_nat (length cs)) as H1 by lia.
    assert (256 ^ (Z.of_nat (length cs) - 1) < 256 ^ Z.of_nat (length bs)) as H2 by lia.
    apply Z.pow_lt_mono_r_iff in H1, H2; lia.
Qed.
