(* ===== verification/Re.v ===== *)
(** * Regular expressions: the part of the [re] module the sources use

    Sequences of characters, repetitions of a character class (greedy or
    lazy), one capturing group, the word boundary and the end, matched by
    backtracking in the order of Python's engine.  Text is a list of Latin-1
    characters. *)

From S2P Require Import Prelude PyStr.
Local Open Scope Z_scope.

Inductive Item :=
  | One (p : ascii → bool)
  | Many (least : nat) (lazy : bool) (p : ascii → bool)   (* p*, p+, p{5,}, and p*? *)
  | Open | Close                                         (* the group *)
  | Boundary                                             (* \b *)
  | AtEnd.                                               (* $ *)
Definition Pattern : Type := list Item.

(** ** Characters *)

Definition is_digit (c : ascii) : bool := in_range 48 57 c.
(** [str.isalnum] or the underscore *)
Definition is_word (c : ascii) : bool :=
  is_digit c || in_range 65 90 c || in_range 97 122 c || (code c =? 95)
  || existsb (Z.eqb (code c)) [170; 178; 179; 181; 185; 186; 188; 189; 190]
  || (in_range 192 255 c && negb (code c =? 215) && negb (code c =? 247)).
Definition any (c : ascii) : bool := true.
Definition but (d : ascii) (c : ascii) : bool := negb (bool_decide (c = d)).
Definition quote : ascii := ascii_of_nat 34.

(** A literal, and one under [re.IGNORECASE]. *)
Definition lit (s : string) : Pattern := map (λ c, One (λ x, bool_decide (x = c))) (chars s).
Definition ilit (s : string) : Pattern :=
  map (λ c, One (λ x, bool_decide (lower_char x = lower_char c))) (chars s).
Definition quoted : Pattern := [One (λ x, bool_decide (x = quote))].

(** ** Matching at a place *)

(** A match: what is left after it, and the group. *)
Record Found := { rest : list ascii; group : list ascii }.

Definition at_boundary (prev : option ascii) (s : list ascii) : bool :=
  negb (Bool.eqb (from_option is_word false prev) (from_option is_word false (head s))).

(** At the end, or before a last newline. *)
Definition at_end (s : list ascii) : bool :=
  match s with [] => true | [c] => code c =? 10 | _ => false end.

Section many.
Context (lazy : bool) (p : ascii → bool) (k : option ascii → list ascii → option Found).
Fixpoint many (least : nat) (prev : option ascii) (s : list ascii) {struct s} : option Found :=
  match least with
  | S least =>
    match s with
    | c :: s => if p c then many least (Some c) s else None
    | [] => None
    end
  | O =>
    let more := match s with
                | c :: s => if p c then many 0 (Some c) s else None
                | [] => None
                end in
    if lazy then match k prev s with Some f => Some f | None => more end
    else match more with Some f => Some f | None => k prev s end
  end.
End many.

(** [start] is the text from the opening of the group on. *)
Fixpoint match_here (pat : Pattern) (prev : option ascii) (start group s : list ascii) :
    option Found :=
  match pat with
  | [] => Some {| rest := s; group := group |}
  | One p :: pat =>
    match s with
    | c :: s => if p c then match_here pat (Some c) start group s else None
    | [] => None
    end
  | Many least lazy p :: pat =>
    many lazy p (λ prev s, match_here pat prev start group s) least prev s
  | Open :: pat => match_here pat prev s group s
  | Close :: pat => match_here pat prev start (take (length start - length s) start) s
  | Boundary :: pat => if at_boundary prev s then match_here pat prev start group s else None
  | AtEnd :: pat => if at_end s then match_here pat prev start group s else None
  end.

(** [re.match(pat, s)]: the group *)
Definition re_match (pat : Pattern) (s : string) : option string :=
  of_chars ∘ group <$> match_here pat None [] [] (chars s).

(** ** Searching *)

Fixpoint search_from (pat : Pattern) (prev : option ascii) (s : list ascii) : option Found :=
  match match_here pat prev [] [] s with
  | Some f => Some f
  | None => match s with [] => None | c :: s => search_from pat (Some c) s end
  end.
(** [re.search(pat, s)]: the group *)
Definition search (pat : Pattern) (s : string) : option string :=
  of_chars ∘ group <$> search_from pat None (chars s).
Definition occurs (pat : Pattern) (s : string) : bool :=
  bool_decide (is_Some (search_from pat None (chars s))).

(** The matches one after the other, none of them empty; [skip] characters of
    the last one are still to be passed. *)
Fixpoint find_from (pat : Pattern) (prev : option ascii) (skip : nat) (s : list ascii) :
    list (list ascii) :=
  match s with
  | [] => []
  | c :: s' =>
    match skip with
    | S skip => find_from pat (Some c) skip s'
    | O =>
      match match_here pat prev [] [] s with
      | Some f => group f :: find_from pat (Some c) (length s' - length (rest f)) s'
      | None => find_from pat (Some c) 0 s'
      end
    end
  end.
(** The places at which the matches start, [at_] being the place of [s]. *)
Fixpoint starts_from (pat : Pattern) (prev : option ascii) (skip at_ : nat) (s : list ascii) :
    list nat :=
  match s with
  | [] => []
  | c :: s' =>
    match skip with
    | S skip => starts_from pat (Some c) skip (S at_) s'
    | O =>
      match match_here pat prev [] [] s with
      | Some f => at_ :: starts_from pat (Some c) (length s' - length (rest f)) (S at_) s'
      | None => starts_from pat (Some c) 0 (S at_) s'
      end
    end
  end.
(** [match.start()] for the matches of [re.finditer(pat, s)] *)
Definition match_starts (pat : Pattern) (s : string) : list nat :=
  starts_from pat None 0 0 (chars s).
(** [re.finditer(pat, s)]: the groups *)
Definition finditer (pat : Pattern) (s : string) : list string :=
  map of_chars (find_from pat None 0 (chars s)).

Fixpoint sub_from (pat : Pattern) (prev : option ascii) (skip : nat) (s : list ascii) : list ascii :=
  match s with
  | [] => []
  | c :: s' =>
    match skip with
    | S skip => sub_from pat (Some c) skip s'
    | O =>
      match match_here pat prev [] [] s with
      | Some f => sub_from pat (Some c) (length s' - length (rest f)) s'
      | None => c :: sub_from pat (Some c) 0 s'
      end
    end
  end.
(** [re.sub(pat, "", s)] *)
Definition erase (pat : Pattern) (s : string) : string := of_chars (sub_from pat None 0 (chars s)).

Example erase_ex :
  erase (ilit "<script" ++ [Boundary; Many 0 false (but ">")] ++ lit ">" ++ [Many 0 true any]
          ++ ilit "</script>") "a<SCRIPT x>b</script>c</script><scripts>d</script>"
  = "ac</script><scripts>d</script>"%string.
Proof. reflexivity. Qed.
Example search_ex :
  search (lit "ReqID=" ++ [Open; Many 1 false is_digit; Close] ++ lit "&") "ReqID=&ReqID=12?ReqID=345&6"
  = Some "345"%string.
Proof. reflexivity. Qed.
Example finditer_ex :
  finditer [Boundary; Many 1 false is_word; One is_space; Open; Many 2 false is_digit; Close]
    "ab 12 c3 4 x 567"
  = ["12"; "567"]%string.
Proof. reflexivity. Qed.

(** ** What a pattern stands for *)

Inductive matches : Pattern → option ascii → list ascii → list ascii → Prop :=
  | matches_nil prev s : matches [] prev s s
  | matches_one p pat prev c s r :
      p c = true → matches pat (Some c) s r → matches (One p :: pat) prev (c :: s) r
  | matches_stop lazy p pat prev s r :
      matches pat prev s r → matches (Many 0 lazy p :: pat) prev s r
  | matches_more least lazy p pat prev c s r :
      p c = true → matches (Many (pred least) lazy p :: pat) (Some c) s r →
      matches (Many least lazy p :: pat) prev (c :: s) r
  | matches_open pat prev s r : matches pat prev s r → matches (Open :: pat) prev s r
  | matches_close pat prev s r : matches pat prev s r → matches (Close :: pat) prev s r
  | matches_boundary pat prev s r :
      at_boundary prev s = true → matches pat prev s r → matches (Boundary :: pat) prev s r
  | matches_end pat prev s r :
      at_end s = true → matches pat prev s r → matches (AtEnd :: pat) prev s r.

(** The character before a place in the text. *)
Fixpoint after (prev : option ascii) (l : list ascii) : option ascii :=
  match l with [] => prev | c :: l => after (Some c) l end.

Lemma many_some lazy p k least prev s f :
  many lazy p k least prev s = Some f →
  ∃ l s', s = l ++ s' ∧ Forall (λ c, p c = true) l ∧ (least ≤ length l)%nat
    ∧ k (after prev l) s' = Some f.
Proof.
  revert least prev. induction s as [|c s IH]; intros [|least] prev; cbn [many]; [|done| |].
  - intros H. exists [], []. split_and!; [done|done|simpl; lia|]. simpl.
    by destruct lazy, (k prev []).
  - set (more := if p c then _ else None). intros H.
    assert (k prev (c :: s) = Some f ∨ more = Some f) as [Hk|Hmore]
      by (destruct lazy, (k prev (c :: s)), more; simplify_eq; auto).
    + exists [], (c :: s). by split_and!; [| |simpl; lia|].
    + unfold more in Hmore. destruct (p c) eqn:Hp; [|done].
      apply IH in Hmore as (l & s' & -> & Hl & _ & Hk). exists (c :: l), s'.
      split_and!; [done|by constructor|simpl; lia|done].
  - destruct (p c) eqn:Hp; [|done]. intros (l & s' & -> & Hl & Hn & Hk)%IH.
    exists (c :: l), s'. split_and!; [done|by constructor|simpl; lia|done].
Qed.
Lemma many_complete lazy p k least prev l s :
  Forall (λ c, p c = true) l → (least ≤ length l)%nat → is_Some (k (after prev l) s) →
  is_Some (many lazy p k least prev (l ++ s)).
Proof.
  revert least prev. induction l as [|c l IH]; intros least prev Hl Hn Hk; simpl in *.
  - destruct least; [|lia]. destruct s; cbn [many]; destruct lazy, (k prev _); try done;
      by destruct Hk; case_match.
  - apply Forall_cons in Hl as [Hc Hl]. destruct least as [|least]; cbn [many]; rewrite Hc.
    + destruct (IH 0%nat (Some c)) as [f Hf]; [done|lia|done|]. rewrite Hf.
      by destruct lazy; [destruct (k prev _)|].
    + apply IH; [done|lia|done].
Qed.

Lemma matches_many least lazy p pat prev s r :
  matches (Many least lazy p :: pat) prev s r ↔
  ∃ l s', s = l ++ s' ∧ Forall (λ c, p c = true) l ∧ (least ≤ length l)%nat
    ∧ matches pat (after prev l) s' r.
Proof.
  split.
  - remember (Many least lazy p :: pat) as full eqn:Heq. intros H. revert least Heq.
    induction H as [| |? ? ? ? ? ? H _|? ? ? ? ? ? ? ? Hp H IH| | | |]; intros n [=]; subst.
    + by exists [], s.
    + destruct (IH _ eq_refl) as (l & s' & -> & Hl & Hn & Hr). exists (c :: l), s'.
      split_and!; [done|by constructor|simpl; lia|done].
  - intros (l & s' & -> & Hl & Hn & Hr). revert least prev Hn Hr.
    induction Hl as [|c l Hc Hl IH]; intros least prev Hn Hr; simpl in *.
    + destruct least; [|lia]. by constructor.
    + constructor; [done|]. apply IH; [lia|done].
Qed.

Lemma match_here_some pat prev start grp s f :
  match_here pat prev start grp s = Some f → matches pat prev s (rest f).
Proof.
  revert prev start grp s. induction pat as [|[p|n lz p| | | |] pat IH]; intros prev start grp s;
    cbn [match_here].
  - intros [= <-]. constructor.
  - destruct s as [|c s]; [done|]. destruct (p c) eqn:Hp; [|done]. intros H%IH. by constructor.
  - intros (l & s' & -> & Hl & Hn & Hk)%many_some. apply matches_many. exists l, s'.
    split_and!; [done..|]. by eapply IH.
  - intros H%IH. by constructor.
  - intros H%IH. by constructor.
  - destruct (at_boundary prev s) eqn:Hb; [|done]. intros H%IH. by constructor.
  - destruct (at_end s) eqn:He; [|done]. intros H%IH. by constructor.
Qed.
Lemma match_here_complete pat prev start grp s r :
  matches pat prev s r → is_Some (match_here pat prev start grp s).
Proof.
  revert prev start grp s. induction pat as [|[p|n lz p| | | |] pat IH]; intros prev start grp s;
    cbn [match_here].
  - by eexists.
  - inversion 1; subst. destruct (p _); [by apply IH|done].
  - intros (l & s' & -> & Hl & Hn & Hk)%matches_many. apply many_complete; [done..|by apply IH].
  - inversion 1; subst. by apply IH.
  - inversion 1; subst. by apply IH.
  - inversion 1; subst. destruct (at_boundary prev s); [by apply IH|done].
  - inversion 1; subst. destruct (at_end s); [by apply IH|done].
Qed.

(** A search finds a match when there is one, at the first place. *)
Lemma search_from_some pat prev s f :
  search_from pat prev s = Some f →
  ∃ a s', s = a ++ s' ∧ match_here pat (after prev a) [] [] s' = Some f.
Proof.
  revert prev. induction s as [|c s IH]; intros prev; cbn [search_from];
    destruct (match_here pat prev [] [] _) eqn:Hm; intros H; simplify_eq.
  - by exists [], [].
  - by exists [], (c :: s).
  - apply IH in H as (a & s' & -> & Ha). by exists (c :: a), s'.
Qed.
Lemma search_from_complete pat prev a s r :
  matches pat (after prev a) s r → is_Some (search_from pat prev (a ++ s)).
Proof.
  revert prev. induction a as [|c a IH]; intros prev Hm; simpl in *.
  - apply (match_here_complete _ _ [] []) in Hm as [f Hf].
    destruct s; cbn [search_from]; rewrite Hf; by eexists.
  - destruct (match_here pat prev [] [] _); [by eexists|by apply IH].
Qed.
Lemma search_is_Some pat s :
  is_Some (search pat s) ↔ ∃ a s' r, chars s = a ++ s' ∧ matches pat (after None a) s' r.
Proof.
  unfold search. rewrite fmap_is_Some. split.
  - intros [f (a & s' & -> & Hm)%search_from_some]. exists a, s', (rest f).
    split; [done|]. by eapply match_here_some.
  - intros (a & s' & r & -> & Hm). by eapply search_from_complete.
Qed.

(** A pattern that begins with a character has no empty match, so that the
    matches one after the other miss nothing at all only where there is no
    match. *)
Lemma starts_from_nil pat prev at_ s :
  (∀ q, match_here pat q [] [] [] = None) →
  starts_from pat prev 0 at_ s = [] ↔ search_from pat prev s = None.
Proof.
  intros Hnil. revert prev at_. induction s as [|c s IH]; intros prev at_; cbn [starts_from search_from].
  - rewrite Hnil. done.
  - destruct (match_here pat prev [] [] (c :: s)) eqn:Hm; [done|]. apply IH.
Qed.

(** ** The group *)

Definition plain (i : Item) : bool := match i with Open | Close => false | _ => true end.

Lemma plain_group pat prev start grp s f :
  forallb plain pat = true → match_here pat prev start grp s = Some f → group f = grp.
Proof.
  revert prev start s. induction pat as [|[p|n lz p| | | |] pat IH]; intros prev start s;
    cbn [match_here forallb plain andb]; intros Hp; [by intros [= <-]|..|done|done| |].
  - destruct s as [|c s]; [done|]. destruct (p c); [by apply IH|done].
  - intros (l & s' & -> & _ & _ & Hk)%many_some. by eapply IH.
  - destruct (at_boundary prev s); [by apply IH|done].
  - destruct (at_end s); [by apply IH|done].
Qed.
Lemma plain_app pre pat prev start grp s f :
  forallb plain pre = true → match_here (pre ++ pat) prev start grp s = Some f →
  ∃ prev' s', match_here pat prev' start grp s' = Some f.
Proof.
  revert prev s. induction pre as [|[p|n lz p| | | |] pre IH]; intros prev s;
    cbn [app match_here forallb plain andb]; intros Hp; [by intros ?; eauto|..|done|done| |].
  - destruct s as [|c s]; [done|]. destruct (p c); [by apply IH|done].
  - intros (l & s' & -> & _ & _ & Hk)%many_some. by eapply IH.
  - destruct (at_boundary prev s); [by apply IH|done].
  - destruct (at_end s); [by apply IH|done].
Qed.

(** A repetition captured between plain parts. *)
Lemma captured pre least lazy p post s g :
  forallb plain pre = true → forallb plain post = true →
  search (pre ++ Open :: Many least lazy p :: Close :: post) s = Some g →
  Forall (λ c, p c = true) (chars g) ∧ (least ≤ length (chars g))%nat.
Proof.
  intros Hpre Hpost. unfold search.
  intros ([f1 g1] & (a & s' & _ & Hm)%search_from_some & ->)%fmap_Some_1. simpl.
  apply plain_app in Hm as (prev & s1 & Hm); [|done]. cbn [match_here] in Hm.
  apply many_some in Hm as (l & s2 & -> & Hl & Hn & Hm).
  apply plain_group in Hm as Hg; [|done]. simpl in Hg. subst g1.
  rewrite length_app, Nat.add_sub, take_app_length, chars_of_chars. by split.
Qed.

Lemma plain_lit s : forallb plain (lit s) = true.
Proof. unfold lit. by induction (chars s). Qed.
Lemma plain_ilit s : forallb plain (ilit s) = true.
Proof. unfold ilit. by induction (chars s). Qed.
#[export] Hint Resolve plain_lit plain_ilit : core.
