(* ===== verification/AuditBounds.v ===== *)
(** * Bounded audit details: [src/acme_adcs_ra/audit_bounds.py]

    Values in an audit row are cut to a prefix plus a digest, deep structures
    are replaced, and the whole details object is kept under a size bound by
    dropping keys and naming the dropped ones. *)

From S2P Require Import Prelude PyStr Sha256 Json.
From stdpp Require Import pretty sorting.
Local Open Scope Z_scope.

Definition MAX_VALUE_CHARS : nat := 256.
Definition MAX_DETAILS_CHARS : Z := 4096.
Definition MARKER_HEADROOM : Z := 512.
Definition MAX_DROPPED_KEYS_NAMED : nat := 10.
Definition MAX_DEPTH : nat := 4.

(** [_digest] is [digest16].  The truncated form of a long string. *)
Definition truncated (max_chars : nat) (s : string) : string :=
  of_chars (take max_chars (chars s)) +:+ "...[truncated: " +:+ pretty (slen s)
  +:+ " chars, sha256:" +:+ digest16 s +:+ "]".

(** [bound_value] *)
Fixpoint bound_value (max_chars depth : nat) (value : json) : json :=
  if decide (MAX_DEPTH < depth)%nat
  then JStr "[nested too deeply for the audit log]"
  else match value with
  | JStr s => if decide (String.length s ≤ max_chars)%nat then JStr s
              else JStr (truncated max_chars s)
  | JObj m => JObj (map (λ kv, (kv.1, bound_value max_chars (S depth) kv.2)) m)
  | JArr l => JArr (map (bound_value max_chars (S depth)) l)
  | v => v
  end.

(** The sort key [(k != "reason", k)] of [bound_details]. *)
Definition key_le (k1 k2 : string) : Prop :=
  if decide (k1 = "reason"%string) then True
  else if decide (k2 = "reason"%string) then False
  else String.leb k1 k2 = true.

#[export] Instance key_le_dec k1 k2 : Decision (key_le k1 k2).
Proof. unfold key_le. repeat case_decide; apply _. Defined.

Definition code_point_le (k1 k2 : string) : Prop := String.leb k1 k2 = true.
#[export] Instance code_point_le_dec k1 k2 : Decision (code_point_le k1 k2).
Proof. unfold code_point_le. apply _. Defined.

(** The admission loop of [bound_details]: keep the keys that fit. *)
Fixpoint admit_keys (bounded : dict) (budget : Z) (keys : list string)
    (kept : dict) (dropped : list string) : dict * list string :=
  match keys with
  | [] => (kept, dropped)
  | key :: keys =>
    let candidate := dict_set key (default JNull (dict_get key bounded)) kept in
    if budget <? serialized_length candidate
    then admit_keys bounded budget keys kept (dropped ++ [key])
    else admit_keys bounded budget keys candidate dropped
  end.

(** The marker that names what was dropped. *)
Definition dropped_marker (dropped : list string) : json :=
  JObj [("count", JNum (Z.of_nat (length dropped)));
        ("keys", JArr (map JStr (take MAX_DROPPED_KEYS_NAMED
                                   (merge_sort code_point_le dropped))));
        ("reason", JStr "audit details exceeded the size bound")].

(** [bound_details] *)
Definition bound_details_with (max_value_chars : nat) (max_total_chars : Z)
    (details : option dict) : dict :=
  let bounded := map (λ kv, (kv.1, bound_value max_value_chars 0 kv.2))
                     (default [] details) in
  if serialized_length bounded <=? max_total_chars then bounded
  else
    let budget := Z.max (max_total_chars - MARKER_HEADROOM) 0 in
    let '(kept, dropped) :=
      admit_keys bounded budget (merge_sort key_le bounded.*1) [] [] in
    match dropped with
    | [] => kept
    | _ => dict_set "_dropped" (dropped_marker dropped) kept
    end.

Definition bound_details : option dict → dict :=
  bound_details_with MAX_VALUE_CHARS MAX_DETAILS_CHARS.

(** ** Sizes *)

Lemma length_truncated n s :
  (n ≤ String.length s)%nat →
  String.length (truncated n s)
  = (n + 47 + String.length (pretty (slen s)))%nat.
Proof.
  intros Hn. unfold truncated.
  rewrite !length_string_app, length_digest16, length_of_chars, length_take, length_chars.
  simpl. lia.
Qed.

Lemma join_with_snoc sep ps p :
  join_with sep (ps ++ [p])
  = join_with sep ps ++ (if decide (ps = []) then [] else sep) ++ p.
Proof.
  induction ps as [|q [|q' ps] IH]; [done|done|].
  cbn [join_with app] in *. rewrite IH. cbn. by rewrite <- !app_assoc.
Qed.

Lemma serialized_length_snoc d k v :
  serialized_length (d ++ [(k, v)])
  = serialized_length d + (if decide (d = []) then 0 else 1)
    + Z.of_nat (length (dump_str k)) + 1 + Z.of_nat (length (dump v)).
Proof.
  unfold serialized_length. cbn [dump]. rewrite map_app. cbn [map].
  rewrite join_with_snoc. cbn [length].
  rewrite !length_app. cbn [length].
  destruct d as [|kv d].
  - rewrite !decide_True by done. cbn. rewrite !length_app. cbn. lia.
  - rewrite !decide_False by done. cbn [length fst snd]. lia.
Qed.

Lemma length_join_with_le K (ps : list (list ascii)) :
  Forall (λ p, (length p ≤ K)%nat) ps →
  (length (join_with [","%char] ps) ≤ length ps * S K)%nat.
Proof.
  induction ps as [|p [|p' ps] IH]; intros Hall; [done| |].
  - apply Forall_cons in Hall as [? _]. cbn. lia.
  - apply Forall_cons in Hall as [? Hall]. specialize (IH Hall).
    change (join_with [","%char] (p :: p' :: ps))
      with (p ++ [","%char] ++ join_with [","%char] (p' :: ps)).
    rewrite !length_app. cbn [length] in *. lia.
Qed.

(** The marker's size: fixed text, the count's digits, and the key names. *)
Lemma length_dropped_marker K dropped :
  Forall (λ k, (length (dump_str k) ≤ K)%nat) dropped →
  (length (dump (dropped_marker dropped))
   ≤ 70 + String.length (pretty (Z.of_nat (length dropped))) + 10 * S K)%nat.
Proof.
  intros Hall. unfold dropped_marker.
  set (named := take MAX_DROPPED_KEYS_NAMED (merge_sort code_point_le dropped)).
  assert ((length (join_with [","%char] (map dump (map JStr named))) ≤ 10 * S K)%nat) as Hn.
  { etrans; [apply (length_join_with_le K)|].
    - rewrite map_map. apply Forall_map, Forall_take.
      by rewrite merge_sort_Permutation.
    - apply Nat.mul_le_mono_r. rewrite !length_map. unfold named. rewrite length_take.
      unfold MAX_DROPPED_KEYS_NAMED. lia. }
  clearbody named. cbn [dump map join_with fst snd].
  repeat (rewrite length_app || cbn [length]). rewrite length_chars.
  replace (length (dump_str "count")) with 7%nat by done.
  replace (length (dump_str "keys")) with 6%nat by done.
  replace (length (dump_str "reason")) with 8%nat by done.
  replace (length (dump_str "audit details exceeded the size bound")) with 39%nat by done.
  lia.
Qed.

(** ** The admission loop *)

Lemma admit_keys_spec bounded budget keys kept dropped :
  NoDup keys → Forall (λ k, k ∉ kept.*1) keys →
  let r := admit_keys bounded budget keys kept dropped in
  (r.1 = kept ∨ serialized_length r.1 ≤ budget) ∧
  ∃ new, r.1 = kept ++ map (λ k, (k, default JNull (dict_get k bounded))) new ∧
         ∃ gone, r.2 = dropped ++ gone ∧ keys ≡ₚ new ++ gone.
Proof.
  revert kept dropped. induction keys as [|k keys IH]; intros kept dropped Hnd Hfresh; simpl.
  { split; [by left|]. exists []. rewrite app_nil_r. split; [done|].
    exists []. by rewrite app_nil_r. }
  apply NoDup_cons in Hnd as [Hk Hnd]. apply Forall_cons in Hfresh as [Hkk Hfresh].
  rewrite dict_set_fresh by done.
  destruct (budget <? _) eqn:Hb; bool_hyps.
  - destruct (IH kept (dropped ++ [k])) as (Hsz & new & Hnew & gone & Hgone & Hperm);
      [done..|]. split; [done|]. exists new. split; [done|].
    exists (k :: gone). rewrite Hgone, <- app_assoc. split; [done|].
    by rewrite <- Permutation_middle, Hperm.
  - destruct (IH (kept ++ [(k, default JNull (dict_get k bounded))]) dropped)
      as (Hsz & new & Hnew & gone & Hgone & Hperm); [done| |].
    + rewrite Forall_forall in *. intros x Hx. rewrite fmap_app. set_solver.
    + split.
      * destruct Hsz as [Hsz|Hsz]; [right; by rewrite Hsz|by right].
      * exists (k :: new). rewrite Hnew, <- app_assoc. split; [done|].
        exists gone. split; [done|]. by rewrite Hperm.
Qed.

(** The two outcomes of [bound_details]: everything fits, or [gone] is dropped
    and named. *)
Lemma bound_details_cases d :
  NoDup d.*1 → "_dropped"%string ∉ d.*1 →
  let bounded := map (λ kv, (kv.1, bound_value MAX_VALUE_CHARS 0 kv.2)) d in
  (bound_details (Some d) = bounded ∧ serialized_length bounded <= MAX_DETAILS_CHARS) ∨
  ∃ new gone,
    d.*1 ≡ₚ new ++ gone ∧
    let kept := map (λ k, (k, default JNull (dict_get k bounded))) new in
    serialized_length kept <= MAX_DETAILS_CHARS - MARKER_HEADROOM ∧
    bound_details (Some d)
    = kept ++ (if decide (gone = []) then [] else [("_dropped"%string, dropped_marker gone)]).
Proof.
  intros Hnd Hdr bounded. unfold bound_details, bound_details_with.
  change (default [] (Some d)) with d. fold bounded. assert (bounded.*1 = d.*1) as Hkeys.
  { unfold bounded. rewrite <- list_fmap_compose. by apply list_fmap_ext. }
  destruct (_ <=? _) eqn:Hfit; bool_hyps; [by left|right].
  destruct (admit_keys bounded (Z.max (MAX_DETAILS_CHARS - MARKER_HEADROOM) 0)
              (merge_sort key_le bounded.*1) [] []) as [kept dropped] eqn:Hadm.
  destruct (admit_keys_spec bounded (Z.max (MAX_DETAILS_CHARS - MARKER_HEADROOM) 0)
              (merge_sort key_le bounded.*1) [] [])
    as (Hsz & new & Hnew & gone & Hgone & Hperm).
  { by rewrite merge_sort_Permutation, Hkeys. }
  { apply Forall_true. set_solver. }
  rewrite Hadm in *. cbn [fst snd app] in *.
  rewrite merge_sort_Permutation, Hkeys in Hperm. subst kept dropped.
  exists new, gone. split; [done|]. split.
  { destruct Hsz as [->|?]; [vm_compute|unfold MAX_DETAILS_CHARS, MARKER_HEADROOM in *; lia].
    done. }
  destruct gone as [|g gone]; [by rewrite decide_True, app_nil_r|].
  rewrite decide_False by done. apply dict_set_fresh.
  intros ([k v] & Heq & Hin)%list_elem_of_fmap.
  apply list_elem_of_In, in_map_iff in Hin as (k' & Hk' & Hin). simplify_eq/=.
  apply Hdr. rewrite Hperm, elem_of_app. left. by apply list_elem_of_In.
Qed.

Lemma length_pretty_small n :
  (n < 1000)%nat → (String.length (pretty (Z.of_nat n)) ≤ 3)%nat.
Proof.
  intros Hn. assert (forallb (λ n, bool_decide (String.length (pretty (Z.of_nat n)) ≤ 3)%nat)
                       (seq 0 1000) = true) as H by (by vm_compute).
  rewrite forallb_forall in H. specialize (H n).
  apply bool_decide_eq_true in H; [done|]. apply in_seq. lia.
Qed.

Definition short_key (k : string) : Prop := (length (dump_str k) ≤ 40)%nat.

(** The audit row's details are bounded whatever the client put in the
    values: when the key names are short (at most 38 plain characters, 40
    serialized) and fewer than 1000, the serialized details never exceed
    [MAX_DETAILS_CHARS], the marker that names dropped keys included. *)
Theorem bound_details_size d :
  NoDup d.*1 → "_dropped"%string ∉ d.*1 →
  Forall short_key d.*1 → (length d < 1000)%nat →
  serialized_length (bound_details (Some d)) <= MAX_DETAILS_CHARS.
Proof.
  intros Hnd Hdr Hshort Hlen.
  destruct (bound_details_cases d Hnd Hdr) as [[-> ?]|(new & gone & Hperm & Hsz & ->)];
    [done|].
  case_decide as Hg; [rewrite app_nil_r; unfold MARKER_HEADROOM in *; lia|].
  rewrite serialized_length_snoc.
  assert (length gone < 1000)%nat as Hlg.
  { apply Permutation_length in Hperm. rewrite length_fmap, length_app in Hperm. lia. }
  rewrite Hperm, Forall_app in Hshort. destruct Hshort as [_ Hshort].
  pose proof (length_dropped_marker 40 gone Hshort) as Hm.
  pose proof (length_pretty_small _ Hlg) as Hp.
  replace (length (dump_str "_dropped")) with 10%nat by done.
  unfold MAX_DETAILS_CHARS, MARKER_HEADROOM in *. case_decide; lia.
Qed.

(** The same size bound with no condition on the key names would be false:
    one dropped key is named in full in the marker. *)
Definition long_key_details : dict :=
  [(String.string_of_list_ascii (replicate 5000 "k"%char), JNull)].

(** The docstring's "always under [max_total_chars] plus the marker
    headroom" does not hold for long key names: values are cut but key names
    are not, and the marker spells the dropped names out, so one 5000-character
    key yields more than 4096 + 512 serialized characters. *)
Theorem bound_details_long_key :
  MAX_DETAILS_CHARS + MARKER_HEADROOM
  < serialized_length (bound_details (Some long_key_details)).
Proof. by vm_compute. Qed.

Lemma dict_get_map_in (f : string → json) ks k :
  dict_get k (map (λ k, (k, f k)) ks) = if decide (k ∈ ks) then Some (f k) else None.
Proof.
  induction ks as [|k' ks IH]; [by rewrite decide_False by set_solver|].
  cbn [map dict_get fst snd]. destruct (decide (k' = k)) as [->|Hne].
  - by rewrite decide_True by set_solver.
  - rewrite IH. destruct (decide (k ∈ ks)).
    + by rewrite decide_True by set_solver.
    + by rewrite decide_False by set_solver.
Qed.

Lemma dict_get_bounded k d :
  dict_get k (map (λ kv, (kv.1, bound_value MAX_VALUE_CHARS 0 kv.2)) d)
  = bound_value MAX_VALUE_CHARS 0 <$> dict_get k d.
Proof. induction d as [|[k' v'] d IH]; simpl; [done|]. by case_decide. Qed.

Lemma dict_get_app k d e :
  dict_get k (d ++ e) = match dict_get k d with Some v => Some v | None => dict_get k e end.
Proof. induction d as [|[k' v'] d IH]; simpl; [done|]. by case_decide. Qed.

(** No detail vanishes silently: every key of the details is either in
    the bounded row with its bounded value, or it is one of the dropped keys,
    which are absent from the row and whose exact number the row's [_dropped]
    marker carries. *)
Theorem bound_details_accounts d :
  NoDup d.*1 → "_dropped"%string ∉ d.*1 →
  ∃ gone, gone ⊆ d.*1 ∧ NoDup gone ∧
    (∀ k v, dict_get k d = Some v →
       dict_get k (bound_details (Some d))
       = if decide (k ∈ gone) then None else Some (bound_value MAX_VALUE_CHARS 0 v)) ∧
    dict_get "_dropped" (bound_details (Some d))
    = if decide (gone = []) then None else Some (dropped_marker gone).
Proof.
  intros Hnd Hdr.
  assert (∀ k v, dict_get k d = Some v → k ∈ d.*1) as Hin.
  { clear. induction d as [|[k' v'] d IH]; simpl; intros k v; [done|].
    case_decide; [set_solver|]. intros ?%IH. set_solver. }
  destruct (bound_details_cases d Hnd Hdr) as [[-> _]|(new & gone & Hperm & _ & ->)].
  - exists []. split; [set_solver|]. split; [constructor|]. split.
    + intros k v Hk. rewrite decide_False by set_solver. by rewrite dict_get_bounded, Hk.
    + rewrite decide_True, dict_get_bounded by done.
      destruct (dict_get "_dropped" d) as [v|] eqn:E; [|done]. by apply Hin in E.
  - rewrite Hperm in Hnd. apply NoDup_app in Hnd as (Hn1 & Hdisj & Hn2).
    exists gone. split; [intros k; rewrite Hperm; set_solver|]. split; [done|].
    rewrite Hperm in Hdr.
    set (bnd := map _ d). split.
    + intros k v Hk. rewrite dict_get_app, dict_get_map_in.
      assert (k ≠ "_dropped"%string) as Hkd.
      { intros ->. apply Hin in Hk. rewrite Hperm in Hk. done. }
      destruct (decide (k ∈ new)) as [Hnew|Hnew].
      * rewrite decide_False by (intros ?; by eapply Hdisj).
        unfold bnd. by rewrite dict_get_bounded, Hk.
      * apply Hin in Hk. rewrite Hperm in Hk.
        rewrite (decide_True (P := k ∈ gone)) by set_solver.
        case_decide; [done|]. simpl. by rewrite decide_False.
    + rewrite dict_get_app, dict_get_map_in, decide_False by set_solver.
      by case_decide.
Qed.
