(* ===== verification/Policy.v ===== *)
(** * Issuance policy: [src/acme_adcs_ra/policy.py]

    The DNS matcher, the DNS name syntax check and [IssuancePolicy.evaluate],
    which decides whether an account may have a certificate for a set of
    SANs.  The prose of an error ([reason], a [ValueError] message) is
    rendered where the code keys on it and otherwise left to the constructor
    that raised it. *)

From S2P Require Import Prelude PyStr.
Local Open Scope Z_scope.

(** [PolicyDecision] *)
Record PolicyDecision := {
  allowed : bool;
  template : option string;
  reason : string;
  reason_code : string;
}.

(** The [ValueError]s of [validate_dns_name], in the order they are tested. *)
Inductive DnsError :=
  | EmptyName
  | NameTooLong
  | EmptyLabel
  | LabelTooLong (label : string)
  | LabelHyphen (label : string)
  | LabelChar (ch : ascii) (label : string).

#[export] Instance DnsError_eq_dec : EqDecision DnsError.
Proof. solve_decision. Defined.

(** [_match_dns_pattern] *)
Definition match_dns_pattern (san pattern : string) : bool :=
  let san := lower (rstrip_char "." san) in
  let pattern := lower (rstrip_char "." pattern) in
  if has_char "*" san then false
  else if startswith pattern "*." then
    let base := drop 2 (chars pattern) in
    match find_char "." (chars san) with
    | None | Some O => false
    | Some idx => bool_decide (drop (idx + 1) (chars san) = base)
    end
  else bool_decide (san = pattern).

(** [_is_valid_label_char] *)
Definition is_valid_label_char (ch : ascii) : bool :=
  in_range 97 122 ch || in_range 65 90 ch || in_range 48 57 ch
  || bool_decide (ch = "-"%char).

(** The body of [validate_dns_name]'s loop over the labels. *)
Definition validate_label (label : list ascii) : Res DnsError unit :=
  let s := of_chars label in
  match label with
  | [] => Raise EmptyLabel
  | c :: _ =>
    if 63 <? Z.of_nat (length label) then Raise (LabelTooLong s)
    else if bool_decide (c = "-"%char) || bool_decide (last label = Some "-"%char)
    then Raise (LabelHyphen s)
    else res_iter (λ ch, if is_valid_label_char ch then Ok tt
                         else Raise (LabelChar ch s)) label
  end.

(** [validate_dns_name] *)
Definition validate_dns_name (name : string) : Res DnsError unit :=
  let name := rstrip_char "." name in
  if bool_decide (name = ""%string) then Raise EmptyName
  else if 253 <? slen name then Raise NameTooLong
  else res_iter validate_label (split_chars "." (chars name)).

(** The fields of [IssuancePolicy.__init__]. *)
Record IssuancePolicy := {
  allowed_kids : gset string;
  san_scopes : gmap string (list string);
  pol_template : string;
}.

Definition deny (why code : string) : PolicyDecision :=
  {| allowed := false; template := None; reason := why; reason_code := code |}.

(** The SAN loop of [evaluate]: the first SAN no pattern matches. *)
Definition first_out_of_scope (patterns sans : list string) : option string :=
  find (λ san, negb (existsb (match_dns_pattern san) patterns)) sans.

(** [IssuancePolicy.evaluate] *)
Definition evaluate (p : IssuancePolicy) (eab_kid csr_subject : string)
    (requested_sans : list string) : PolicyDecision :=
  if decide (eab_kid ∉ allowed_kids p) then
    deny ("unknown kid: " +:+ eab_kid) "unknown-kid"
  else if decide (requested_sans = []) then
    deny "no SANs requested; subject-only issuance is not allowed" "no-sans-requested"
  else
    let allowed_patterns := default [] (san_scopes p !! eab_kid) in
    match first_out_of_scope allowed_patterns requested_sans with
    | Some san =>
      deny ("SAN out of scope for kid " +:+ eab_kid +:+ ": " +:+ san) "san-out-of-scope"
    | None =>
      {| allowed := true; template := Some (pol_template p);
         reason := "allowed"; reason_code := "allowed" |}
    end.

(** ** What the matcher accepts *)

(** The normal form both sides of a match are compared in. *)
Definition normal_name (s : string) : string := lower (rstrip_char "." s).

Lemma normal_name_idem s : normal_name (normal_name s) = normal_name s.
Proof.
  unfold normal_name. by rewrite lower_rstrip_dot, lower_idem, <- lower_rstrip_dot,
    rstrip_char_idem.
Qed.

Lemma has_char_spec c s : has_char c s = true ↔ c ∈ chars s.
Proof. apply bool_decide_eq_true. Qed.

Lemma has_char_false c s : has_char c s = false ↔ c ∉ chars s.
Proof. apply bool_decide_eq_false. Qed.

(** One DNS label in front of [base]. *)
Definition one_label_under (base name : list ascii) : Prop :=
  ∃ label, label ≠ [] ∧ "."%char ∉ label ∧ name = label ++ "."%char :: base.

Lemma one_label_under_find base name :
  one_label_under base name ↔
  match find_char "." name with
  | None | Some O => False
  | Some idx => drop (idx + 1) name = base
  end.
Proof.
  unfold one_label_under. split.
  - intros (label & Hne & Hdot & ->).
    rewrite (proj2 (find_char_Some "." (label ++ "."%char :: base) (length label))) by eauto.
    destruct label as [|c label]; [done|]. simpl.
    rewrite Nat.add_1_r, drop_app_ge by lia.
    by rewrite Nat.sub_succ_l, Nat.sub_diag by lia.
  - destruct (find_char "." name) as [[|i]|] eqn:Hf; [done| |done]. intros <-.
    apply find_char_Some in Hf as (k & m & -> & Hk & Hlen).
    exists k. split; [by destruct k|]. split; [done|]. f_equal. f_equal.
    rewrite drop_app_ge by lia. rewrite Hlen.
    by replace (S i + 1 - S i)%nat with 1%nat by lia.
Qed.

Lemma match_dns_pattern_normal san pattern :
  match_dns_pattern san pattern = true ↔
  "*"%char ∉ chars (normal_name san) ∧
  if startswith (normal_name pattern) "*."
  then one_label_under (drop 2 (chars (normal_name pattern))) (chars (normal_name san))
  else normal_name san = normal_name pattern.
Proof.
  unfold match_dns_pattern. fold (normal_name san) (normal_name pattern). simpl.
  destruct (has_char "*" (normal_name san)) eqn:Hstar.
  { apply has_char_spec in Hstar. naive_solver. }
  apply has_char_false in Hstar.
  destruct (startswith (normal_name pattern) "*.").
  - rewrite one_label_under_find.
    destruct (find_char "." (chars (normal_name san))) as [[|i]|];
      rewrite ?bool_decide_eq_true; naive_solver.
  - rewrite bool_decide_eq_true. naive_solver.
Qed.

(** The declarative reading of one scope pattern: after case folding and
    stripping trailing dots, the SAN carries no [*], and either the pattern is
    [*.base] and the SAN is exactly one label under [base], or the two are
    equal. *)
Definition in_scope (san pattern : string) : Prop :=
  "*"%char ∉ chars (normal_name san) ∧
  if startswith (normal_name pattern) "*."
  then one_label_under (drop 2 (chars (normal_name pattern))) (chars (normal_name san))
  else normal_name san = normal_name pattern.

Lemma match_dns_pattern_in_scope san pattern :
  match_dns_pattern san pattern = true ↔ in_scope san pattern.
Proof. apply match_dns_pattern_normal. Qed.

(** The SANs the account [kid] may have. *)
Definition san_authorised (p : IssuancePolicy) (kid san : string) : Prop :=
  ∃ pat, pat ∈ default [] (san_scopes p !! kid) ∧ in_scope san pat.

Lemma existsb_in_scope san pats :
  existsb (match_dns_pattern san) pats = true ↔ ∃ pat, pat ∈ pats ∧ in_scope san pat.
Proof.
  rewrite existsb_exists. setoid_rewrite list_elem_of_In.
  by setoid_rewrite match_dns_pattern_in_scope.
Qed.

Lemma first_out_of_scope_None pats sans :
  first_out_of_scope pats sans = None ↔
  ∀ san, san ∈ sans → ∃ pat, pat ∈ pats ∧ in_scope san pat.
Proof.
  unfold first_out_of_scope. setoid_rewrite <- existsb_in_scope. split.
  - intros H san Hsan. apply list_elem_of_In in Hsan.
    pose proof (find_none _ _ H _ Hsan) as Hn. by apply negb_false_iff in Hn.
  - intros H. destruct (find _ sans) as [san|] eqn:Hf; [|done].
    apply find_some in Hf as [Hin Hn]. apply negb_true_iff in Hn.
    apply list_elem_of_In, H in Hin. congruence.
Qed.

Lemma first_out_of_scope_Some pats sans san :
  first_out_of_scope pats sans = Some san →
  san ∈ sans ∧ ∀ pat, pat ∈ pats → ¬ in_scope san pat.
Proof.
  intros H. apply find_some in H as [Hin Hn]. apply list_elem_of_In in Hin.
  split; [done|]. intros pat Hpat Hs. apply negb_true_iff in Hn.
  apply not_true_iff_false in Hn. apply Hn, existsb_in_scope. by exists pat.
Qed.

(** ** Properties *)


(** The verdicts of [evaluate]: what was found wrong, in order of
    precedence. *)
Inductive verdict (p : IssuancePolicy) (kid : string) (sans : list string) :
    string → Prop :=
  | V_unknown : kid ∉ allowed_kids p → verdict p kid sans "unknown-kid"
  | V_no_sans : kid ∈ allowed_kids p → sans = [] → verdict p kid sans "no-sans-requested"
  | V_scope san : kid ∈ allowed_kids p → san ∈ sans → ¬ san_authorised p kid san →
      verdict p kid sans "san-out-of-scope"
  | V_allowed : kid ∈ allowed_kids p → sans ≠ [] →
      (∀ san, san ∈ sans → san_authorised p kid san) → verdict p kid sans "allowed".

(** The machine-readable [reason_code] the audit coalescer keys on is one
    of four fixed words and is determined by the policy alone: each word is
    produced exactly when its condition holds, so no request data reaches it,
    and a denial never carries the code [allowed]. *)
Theorem evaluate_reason_code p kid subj sans code :
  reason_code (evaluate p kid subj sans) = code ↔ verdict p kid sans code.
Proof.
  unfold evaluate. split.
  - intros <-. case_decide as Hk; [by constructor|].
    case_decide as Hne; [by constructor|].
    destruct (first_out_of_scope _ sans) as [san|] eqn:Hf; simpl.
    + apply first_out_of_scope_Some in Hf as [Hin Hno].
      apply (V_scope p kid sans san); [done..|]. unfold san_authorised. naive_solver.
    + constructor; [done..|]. by apply first_out_of_scope_None.
  - intros Hv. destruct Hv as [Hk|Hk ->|san Hk Hin Hno|Hk Hne Hall].
    + by rewrite decide_True.
    + by rewrite decide_False by naive_solver.
    + rewrite decide_False by naive_solver. rewrite decide_False by (intros ->; inversion Hin).
      destruct (first_out_of_scope _ sans) as [san'|] eqn:Hf; [done|].
      rewrite first_out_of_scope_None in Hf. by apply Hf in Hin.
    + rewrite decide_False by naive_solver. rewrite decide_False by done.
      apply first_out_of_scope_None in Hall. by rewrite Hall.
Qed.

(** ** The name syntax *)

(** A letter-digit-hyphen label of 1 to 63 characters with no hyphen at
    either end. *)
Definition ldh_label (l : list ascii) : Prop :=
  (1 ≤ length l ≤ 63)%nat ∧ head l ≠ Some "-"%char ∧ last l ≠ Some "-"%char ∧
  Forall (λ c, is_valid_label_char c = true) l.

Lemma validate_label_ok l : validate_label l = inr tt ↔ ldh_label l.
Proof.
  unfold validate_label, ldh_label. destruct l as [|c l].
  { split; [done|]. simpl. lia. }
  destruct (63 <? Z.of_nat (length (c :: l))) eqn:Hlen; bool_hyps.
  { split; [done|]. intros [? _]. lia. }
  destruct (bool_decide (c = _) || _) eqn:Hhy.
  - split; [done|]. intros (_ & Hh & Hl & _). apply orb_true_iff in Hhy.
    rewrite !bool_decide_eq_true in Hhy. naive_solver.
  - apply orb_false_iff in Hhy as [Hh Hl].
    apply bool_decide_eq_false in Hh, Hl. rewrite res_iter_ok.
    assert (Forall (λ x, (if is_valid_label_char x then inr tt
              else inl (LabelChar x (of_chars (c :: l)))) = inr tt) (c :: l)
            ↔ Forall (λ c, is_valid_label_char c = true) (c :: l)) as ->.
    { apply Forall_iff. intros x. by destruct (is_valid_label_char x). }
    simpl in *. split; [|naive_solver]. intros Hall. split; [lia|]. naive_solver.
Qed.

(** [validate_dns_name] accepts exactly the names that, without trailing
    dots, are 1 to 253 characters long and are a dot-separated sequence of
    letter-digit-hyphen labels of 1 to 63 characters with no leading or
    trailing hyphen; the labels are the ones the name is made of. *)
Theorem validate_dns_name_iff name :
  validate_dns_name name = inr tt ↔
  let n := chars (rstrip_char "." name) in
  (1 ≤ length n ≤ 253)%nat ∧
  ∃ labels, n = join_chars "." labels ∧ Forall ldh_label labels.
Proof.
  unfold validate_dns_name. simpl. set (s := rstrip_char "." name).
  case_bool_decide as Hs.
  { rewrite Hs. split; [done|]. simpl. lia. }
  assert (1 ≤ length (chars s))%nat.
  { destruct (chars s) eqn:E; simpl; [|lia]. exfalso. apply Hs. by apply chars_inj. }
  unfold slen. rewrite <- length_chars.
  destruct (253 <? _) eqn:Hlen; bool_hyps.
  { split; [done|]. intros [? _]. lia. }
  rewrite res_iter_ok. setoid_rewrite validate_label_ok. split.
  - intros Hall. split; [lia|]. eexists. split; [symmetry; apply join_split_chars|done].
  - intros (_ & labels & Hn & Hall). rewrite Hn in H |- *.
    rewrite split_join_chars; [done| |].
    + intros ->. simpl in H. lia.
    + eapply Forall_impl; [done|]. intros l (_ & _ & _ & Hc) Hin.
      rewrite Forall_forall in Hc. by apply Hc in Hin.
Qed.
