(* ===== verification/Jwk.v ===== *)
(** * Account keys: the JWK half of [src/acme_adcs_ra/jws.py]

    Canonical JWK encodings, the RFC 7638 thumbprint accounts are keyed on,
    and the bounds on a key before it is handed to the crypto backend. *)

From S2P Require Import Prelude PyStr Sha256 Exn Base64 Json.
Local Open Scope Z_scope.
Local Open Scope res_scope.

(** A public key as the code builds it: the integers, before the backend. *)
Inductive PublicKey :=
  | RSAKey (n e : Z)
  | ECKey (crv : string) (x y : Z).

Definition RSA_MIN_MODULUS_BITS : Z := 2048.
Definition RSA_MAX_MODULUS_BITS : Z := 16384.
Definition RSA_ALLOWED_EXPONENTS : list Z := [3; 65537].

(** [_CURVE_BY_NAME], as the key size of the curve. *)
Definition curve_key_size (crv : option json) : option Z :=
  match crv with
  | Some (JStr c) =>
    if decide (c = "P-256"%string) then Some 256
    else if decide (c = "P-384"%string) then Some 384
    else if decide (c = "P-521"%string) then Some 521
    else None
  | _ => None
  end.

(** [_coordinate_length_for_curve] *)
Definition coordinate_length (key_size : Z) : Z := (key_size + 7) / 8.

(** [_decode_jwk_octets] *)
Definition decode_jwk_octets (value : option json) : Res Exn (list Z) :=
  match value with
  | Some (JStr s) =>
    if bool_decide (s = EmptyString) then Raise JWSValidationError
    else if negb (forallb is_b64url_char (chars s)) then Raise JWSValidationError
    else if slen s mod 4 =? 1 then Raise JWSValidationError
    else match base64url_decode s with
    | inl _ => Raise JWSValidationError
    | inr decoded =>
      if bool_decide (base64url_encode decoded = s) then Ok decoded
      else Raise JWSValidationError
    end
  | _ => Raise JWSValidationError
  end.

(** [_decode_jwk_uint] *)
Definition decode_jwk_uint (value : option json) : Res Exn Z :=
  octets ←? decode_jwk_octets value;
  if bool_decide (head octets = Some 0) then Raise JWSValidationError
  else Ok (be_int octets).

(** [_decode_jwk_coordinate] *)
Definition decode_jwk_coordinate (value : option json) (byte_length : Z) : Res Exn Z :=
  octets ←? decode_jwk_octets value;
  if Z.of_nat (length octets) =? byte_length then Ok (be_int octets)
  else Raise JWSValidationError.

(** [if member not in jwk: raise ...] *)
Definition require_member (jwk : dict) (member : string) : Res Exn unit :=
  match dict_get member jwk with
  | Some _ => Ok tt
  | None => Raise JWSValidationError
  end.

(** [validate_canonical_jwk] *)
Definition validate_canonical_jwk (jwk : json) : Res Exn unit :=
  match jwk with
  | JObj d =>
    if decide (dict_get "kty" d = Some (JStr "RSA")) then
      res_iter (λ member,
        require_member d member ;;?
        decode_jwk_uint (dict_get member d) ;;? Ok tt) ["n"; "e"]%string
    else if decide (dict_get "kty" d = Some (JStr "EC")) then
      match curve_key_size (dict_get "crv" d) with
      | None => Raise UnsupportedAlgorithmError
      | Some size =>
        res_iter (λ member,
          require_member d member ;;?
          decode_jwk_coordinate (dict_get member d) (coordinate_length size) ;;? Ok tt)
          ["x"; "y"]%string
      end
    else Raise UnsupportedAlgorithmError
  | _ => Raise JWSValidationError
  end.

(** [_lenient_jwk_octets] *)
Definition lenient_jwk_octets (value : option json) : Res Exn (list Z) :=
  match value with
  | Some (JStr s) =>
    if bool_decide (s = EmptyString) then Raise JWSValidationError
    else
      let stripped := rstrip_char "=" s in
      if bool_decide (stripped = EmptyString)
         || negb (forallb is_b64url_char (chars stripped))
         || (slen stripped mod 4 =? 1)
      then Raise JWSValidationError
      else match base64url_decode stripped with
      | inl _ => Raise JWSValidationError
      | inr octets => Ok octets
      end
  | _ => Raise JWSValidationError
  end.

(** [octets.lstrip(b"\x00")] and [trimmed.rjust(width, b"\x00")] *)
Definition lstrip_zero (octets : list Z) : list Z := drop_while (Z.eqb 0) octets.
Definition rjust_zero (width : Z) (octets : list Z) : list Z :=
  replicate (Z.to_nat width - length octets) 0 ++ octets.

(** One RSA member of [canonicalize_jwk]. *)
Definition canonical_uint (value : option json) : Res Exn json :=
  octets ←? lenient_jwk_octets value;
  match lstrip_zero octets with
  | [] => Raise JWSValidationError
  | minimal => Ok (JStr (base64url_encode minimal))
  end.

(** One EC member of [canonicalize_jwk]. *)
Definition canonical_coordinate (width : Z) (value : option json) : Res Exn json :=
  octets ←? lenient_jwk_octets value;
  let trimmed := lstrip_zero octets in
  if width <? Z.of_nat (length trimmed) then Raise JWSValidationError
  else Ok (JStr (base64url_encode (rjust_zero width trimmed))).

(** The member loop of [canonicalize_jwk]: [jwk] is read, [result] written. *)
Fixpoint canonical_members (f : option json → Res Exn json) (jwk result : dict)
    (members : list string) : Res Exn dict :=
  match members with
  | [] => Ok result
  | member :: members =>
    require_member jwk member ;;?
    v ←? f (dict_get member jwk);
    canonical_members f jwk (dict_set member v result) members
  end.

(** [canonicalize_jwk] *)
Definition canonicalize_jwk (jwk : json) : Res Exn json :=
  match jwk with
  | JObj d =>
    result ←?
      (if decide (dict_get "kty" d = Some (JStr "RSA")) then
         canonical_members canonical_uint d d ["n"; "e"]%string
       else if decide (dict_get "kty" d = Some (JStr "EC")) then
         match curve_key_size (dict_get "crv" d) with
         | None => Raise UnsupportedAlgorithmError
         | Some size =>
           canonical_members (canonical_coordinate (coordinate_length size)) d d
             ["x"; "y"]%string
         end
       else Raise UnsupportedAlgorithmError);
    validate_canonical_jwk (JObj result) ;;? Ok (JObj result)
  | _ => Raise JWSValidationError
  end.

(** The members [jwk_thumbprint] hashes, in [sort_keys] order. *)
Definition thumbprint_members (d : dict) : dict :=
  let pick k := (k, default JNull (dict_get k d)) in
  if decide (dict_get "kty" d = Some (JStr "RSA"))
  then [pick "e"; pick "kty"; pick "n"]%string
  else [pick "crv"; pick "kty"; pick "x"; pick "y"]%string.

(** [jwk_thumbprint] *)
Definition jwk_thumbprint (jwk : json) : Res Exn string :=
  validate_canonical_jwk jwk ;;?
  match jwk with
  | JObj d => Ok (base64url_encode (sha256 (utf8 (json_dumps (JObj (thumbprint_members d))))))
  | _ => Raise JWSValidationError
  end.

(** [int.bit_length] *)
Definition bit_length (n : Z) : Z := if n =? 0 then 0 else Z.log2 (Z.abs n) + 1.

(** [rsa.RSAPublicNumbers(...).public_key()] and its EC counterpart: the
    backend of the cryptography package builds the key or raises. *)
Class KeyBackend := backend_accepts : PublicKey → bool.

(** [_public_key_from_jwk] *)
Definition public_key_from_jwk `{KeyBackend} (jwk : json) : Res Exn PublicKey :=
  let build key := if backend_accepts key then Ok key else Raise ValueError in
  match jwk with
  | JObj d =>
    if decide (dict_get "kty" d = Some (JStr "RSA")) then
      n ←? decode_jwk_uint (dict_get "n" d);
      e ←? decode_jwk_uint (dict_get "e" d);
      if bit_length n <? RSA_MIN_MODULUS_BITS then Raise JWSValidationError
      else if RSA_MAX_MODULUS_BITS <? bit_length n then Raise JWSValidationError
      else if bool_decide (e ∉ RSA_ALLOWED_EXPONENTS) then Raise JWSValidationError
      else build (RSAKey n e)
    else if decide (dict_get "kty" d = Some (JStr "EC")) then
      match dict_get "crv" d, curve_key_size (dict_get "crv" d) with
      | Some (JStr crv), Some size =>
        x ←? decode_jwk_coordinate (dict_get "x" d) (coordinate_length size);
        y ←? decode_jwk_coordinate (dict_get "y" d) (coordinate_length size);
        build (ECKey crv x y)
      | _, _ => Raise UnsupportedAlgorithmError
      end
    else Raise UnsupportedAlgorithmError
  | _ => Raise JWSValidationError
  end.
