(* ===== verification/Jws.v ===== *)
(** * Verifying a JWS: [src/acme_adcs_ra/jws.py]

    The flattened JWS under an account key, the external account binding under
    a shared MAC key, and the DER form an ECDSA signature takes on its way to
    the backend.  Parameters: [JsonLoads], what [json.loads] makes of octets;
    [SignatureBackend], the two verifiers of the cryptography package;
    [FloatEq], when a float equals an integer. *)

From S2P Require Import Prelude PyStr Sha256 Exn Base64 Json Jwk.
Local Open Scope Z_scope.
Local Open Scope res_scope.

(** ** What is not under src/ *)

(** The ways [json.loads] fails: the first two are what the code names in its
    [except] clauses; a plain [ValueError] is an integer of more than 4300
    digits, a [RecursionError] a text nested too deep. *)
Inductive LoadsError := JSONDecodeError | UnicodeDecodeError | IntegerTooLong | NestedTooDeep.
Class JsonLoads := loads : list Z → Res LoadsError json.

Definition loads_exn (e : LoadsError) : Exn :=
  match e with NestedTooDeep => RuntimeError | _ => ValueError end.

Class SignatureBackend := {
  rsa_pkcs1v15_verify : ∀ (n e : Z) (signature message : list Z) (h : HashAlg), bool;
  ecdsa_verify : ∀ (crv : string) (x y : Z) (der message : list Z) (h : HashAlg), bool;
}.

Class FloatEq := float_eq_int : string → Z → bool.

(** [try: json.loads(b) except (JSONDecodeError, UnicodeDecodeError): raise e] *)
Definition loads_or `{JsonLoads} (e : Exn) (octets : list Z) : Res Exn json :=
  match loads octets with
  | inr v => Ok v
  | inl (JSONDecodeError | UnicodeDecodeError) => Raise e
  | inl err => Raise (loads_exn err)
  end.

(** [try: r except Exception: raise e] *)
Definition or_else {A} (e : Exn) (r : Res Exn A) : Res Exn A :=
  match r with inr x => Ok x | inl _ => Raise e end.

(** [json.loads(_base64url_decode(s))] *)
Definition loads_b64 `{JsonLoads} (s : string) : Res Exn json :=
  octets ←? base64url_decode s;
  match loads octets with inr v => Ok v | inl err => Raise (loads_exn err) end.

(** ** JSON values as Python sees them *)

(** [bool(v)] *)
Definition truthy (v : option json) : bool :=
  match v with
  | None | Some JNull | Some (JBool false) => false
  | Some (JNum z) => negb (z =? 0)
  | Some (JFloat s) => negb (bool_decide (s ∈ ["0.0"; "-0.0"]%string))
  | Some (JStr s) => negb (bool_decide (s = EmptyString))
  | Some (JArr []) | Some (JObj []) => false
  | Some _ => true
  end.

Section python_eq.
Context `{FloatEq}.

Definition float_eq (s t : string) : bool :=
  negb (bool_decide (s = "nan"%string))
  && (bool_decide (s = t)
      || (bool_decide (s ∈ ["0.0"; "-0.0"]%string) && bool_decide (t ∈ ["0.0"; "-0.0"]%string))).

(** A number is equal to a number whatever their types: [True == 1 == 1.0]. *)
Definition bool_int (b : bool) : Z := if b then 1 else 0.

(** [v == w]; two dicts are equal whatever their order. *)
Fixpoint py_eq (v w : json) : bool :=
  match v, w with
  | JNull, JNull => true
  | JBool a, JBool b => bool_decide (a = b)
  | JBool a, JNum z | JNum z, JBool a => bool_int a =? z
  | JBool a, JFloat s | JFloat s, JBool a => float_eq_int s (bool_int a)
  | JNum a, JNum b => a =? b
  | JNum a, JFloat s | JFloat s, JNum a => float_eq_int s a
  | JFloat s, JFloat t => float_eq s t
  | JStr s, JStr t => bool_decide (s = t)
  | JArr l, JArr k =>
    (fix go (l k : list json) : bool :=
       match l, k with
       | [], [] => true
       | x :: l, y :: k => py_eq x y && go l k
       | _, _ => false
       end) l k
  | JObj m, JObj m' =>
    (length m =? length m')%nat
    && forallb (λ kv, match dict_get kv.1 m' with
                      | Some v' => py_eq kv.2 v'
                      | None => false
                      end) m
  | _, _ => false
  end.
End python_eq.

(** [sorted(...)] of pairs with distinct keys. *)
Fixpoint insert_pair (kv : string * json) (l : dict) : dict :=
  match l with
  | [] => [kv]
  | kv' :: l => if String.leb kv.1 kv'.1 then kv :: kv' :: l else kv' :: insert_pair kv l
  end.
Definition sort_pairs (d : dict) : dict := foldr insert_pair [] d.

(** ** [_hash_for_alg] and [_hashlib_callable_for_alg] *)

Definition endswith (s t : string) : bool := is_prefix (rev (chars t)) (rev (chars s)).

Definition hash_for_alg (alg : string) : Res Exn HashAlg :=
  if endswith alg "256" then Ok SHA256
  else if endswith alg "384" then Ok SHA384
  else if endswith alg "512" then Ok SHA512
  else Raise UnsupportedAlgorithmError.

(** ** DER *)

(** [_length_bytes] *)
Fixpoint length_digits (fuel : nat) (temp : Z) (encoded : list Z) : list Z :=
  match fuel with
  | O => encoded
  | S fuel =>
    if temp =? 0 then encoded
    else length_digits fuel (Z.shiftr temp 8) (Z.land temp 255 :: encoded)
  end.
Definition length_bytes (len : Z) : list Z :=
  if len <? 128 then [len]
  else
    let encoded := length_digits (Z.to_nat (bit_length len)) len [] in
    Z.lor 128 (Z.of_nat (length encoded)) :: encoded.

(** [_integer_to_der_bytes] *)
Definition integer_to_der_bytes (value : Z) : list Z :=
  let byte_length := (bit_length value + 8) / 8 in
  let byte_length := if byte_length =? 0 then 1 else byte_length in
  let raw := be_bytes (Z.to_nat byte_length) value in
  let raw := if Z.land (default 0 (head raw)) 128 =? 0 then raw else 0 :: raw in
  2 :: length_bytes (Z.of_nat (length raw)) ++ raw.

(** [_raw_ecdsa_to_der] *)
Definition raw_ecdsa_to_der (signature : list Z) (coordinate_byte_length : Z) :
    Res Exn (list Z) :=
  if negb (Z.of_nat (length signature) =? 2 * coordinate_byte_length)
  then Raise JWSValidationError
  else
    let n := Z.to_nat coordinate_byte_length in
    let r := be_int (take n signature) in
    let s := be_int (drop n signature) in
    let seq_body := integer_to_der_bytes r ++ integer_to_der_bytes s in
    Ok (48 :: length_bytes (Z.of_nat (length seq_body)) ++ seq_body).

(** ** Verification *)

(** [require_flattened_without_unprotected_header] *)
Definition require_flattened (jws : dict) : Res Exn unit :=
  if bool_decide (is_Some (dict_get "header" jws)) then Raise JWSValidationError
  else if bool_decide (is_Some (dict_get "signatures" jws)) then Raise JWSValidationError
  else Ok tt.

Definition signing_input (protected_b64 payload_b64 : string) : list Z :=
  map code (chars (protected_b64 +:+ "." +:+ payload_b64)).

Definition RS_ALGORITHMS : list string := ["RS256"; "RS384"; "RS512"]%string.
Definition ES_ALGORITHMS : list string := ["ES256"; "ES384"; "ES512"]%string.
Definition HS_ALGORITHMS : list string := ["HS256"; "HS384"; "HS512"]%string.

(** The algorithm of a curve, and its key size. *)
Definition expected_alg (crv : string) : option string :=
  if decide (crv = "P-256"%string) then Some "ES256"%string
  else if decide (crv = "P-384"%string) then Some "ES384"%string
  else if decide (crv = "P-521"%string) then Some "ES512"%string
  else None.

(** The three members of a flattened JWS, when all are strings. *)
Definition jws_members (jws : dict) : option (string * string * string) :=
  match dict_get "protected" jws, dict_get "payload" jws, dict_get "signature" jws with
  | Some (JStr protected_b64), Some (JStr payload_b64), Some (JStr signature_b64) =>
    Some (protected_b64, payload_b64, signature_b64)
  | _, _, _ => None
  end.

Section verify.
Context `{JsonLoads, SignatureBackend}.

(** The signature check of [verify_flattened_jws]: whatever else the backend
    raises is a [JWSValidationError] too. *)
Definition verify_signature (alg : string) (public_key : PublicKey)
    (signature input : list Z) : Res Exn unit :=
  if bool_decide (alg ∈ RS_ALGORITHMS) then
    match public_key with
    | RSAKey n e =>
      h ←? hash_for_alg alg;
      if rsa_pkcs1v15_verify n e signature input h then Ok tt else Raise JWSValidationError
    | ECKey _ _ _ => Raise JWSValidationError
    end
  else if bool_decide (alg ∈ ES_ALGORITHMS) then
    match public_key with
    | ECKey crv x y =>
      if negb (bool_decide (Some alg = expected_alg crv)) then Raise JWSValidationError
      else
        der ←? raw_ecdsa_to_der signature
          (coordinate_length (default 0 (curve_key_size (Some (JStr crv)))));
        h ←? hash_for_alg alg;
        if ecdsa_verify crv x y der input h then Ok tt else Raise JWSValidationError
    | RSAKey _ _ => Raise JWSValidationError
    end
  else Raise UnsupportedSignatureAlgorithmError.

(** [verify_flattened_jws] *)
Definition verify_flattened_jws (jws : dict) (public_key : PublicKey) : Res Exn (list Z) :=
  require_flattened jws ;;?
  match jws_members jws with
  | None => Raise JWSValidationError
  | Some (protected_b64, payload_b64, signature_b64) =>
    protected_bytes ←? or_else JWSValidationError (base64url_decode protected_b64);
    signature ←? or_else JWSValidationError (base64url_decode signature_b64);
    payload ←? or_else JWSValidationError (base64url_decode payload_b64);
    header ←? loads_or JWSValidationError protected_bytes;
    match header with
    | JObj header =>
      match dict_get "alg" header with
      | Some (JStr alg) =>
        verify_signature alg public_key signature (signing_input protected_b64 payload_b64)
          ;;? Ok payload
      | _ => Raise JWSValidationError
      end
    | _ => Raise JWSValidationError
    end
  end.
End verify.

(** [_verify_hmac]; [hmac.compare_digest] is equality. *)
Definition verify_hmac (protected_b64 payload_b64 : string) (signature mac_key : list Z)
    (alg : string) : bool :=
  match hash_for_alg alg with
  | inl _ => false
  | inr h => bool_decide (hmac h mac_key (signing_input protected_b64 payload_b64) = signature)
  end.

(** [_canonical_jwk] of [verify_eab_jws] *)
Definition canonical_jwk (jwk : dict) : dict := sort_pairs (dict_pop "alg" jwk).

Section eab.
Context `{JsonLoads, FloatEq}.

Definition pairs_eq (d e : dict) : bool :=
  (length d =? length e)%nat
  && forallb (λ p, bool_decide (p.1.1 = p.2.1) && py_eq p.1.2 p.2.2) (zip d e).

(** [verify_eab_jws]: the kid, as the header has it. *)
Definition verify_eab_jws (eab_jws account_jwk : dict) (mac_key : list Z)
    (expected_url : option string) : Res Exn json :=
  require_flattened eab_jws ;;?
  match jws_members eab_jws with
  | None => Raise JWSValidationError
  | Some (protected_b64, payload_b64, signature_b64) =>
    header ←? or_else JWSValidationError (loads_b64 protected_b64);
    match header with
    | JObj header =>
      match dict_get "alg" header with
      | Some (JStr alg) =>
        if negb (bool_decide (alg ∈ HS_ALGORITHMS)) then Raise JWSValidationError
        else if negb (truthy (dict_get "kid" header)) then Raise JWSValidationError
        else if match expected_url with
                | Some url => negb (bool_decide (dict_get "url" header = Some (JStr url)))
                | None => false
                end
        then Raise JWSValidationError
        else
          eab_payload ←? or_else JWSValidationError (base64url_decode payload_b64);
          decoded_jwk ←? loads_or JWSValidationError eab_payload;
          match decoded_jwk with
          | JObj decoded_jwk =>
            if negb (pairs_eq (canonical_jwk decoded_jwk) (canonical_jwk account_jwk))
            then Raise JWSValidationError
            else
              signature ←? or_else JWSValidationError (base64url_decode signature_b64);
              if negb (verify_hmac protected_b64 payload_b64 signature mac_key alg)
              then Raise JWSValidationError
              else Ok (default JNull (dict_get "kid" header))
          | _ => Raise JWSValidationError
          end
      | _ => Raise JWSValidationError
      end
    | _ => Raise JWSValidationError
    end
  end.
End eab.
