(* ===== verification/Http.v ===== *)
(** * What the server reads of a request before any JSON

    [read_body_limited] of [src/acme_adcs_ra/http_body.py], and the media-type
    grammar of [_require_jose_json] of [src/acme_adcs_ra/server_jws.py].  A
    request is its header fields and the stream of its body: what each pull of
    the stream takes (nanoseconds of the loop's clock) and brings. *)

From S2P Require Import Prelude PyStr Exn.
Local Open Scope Z_scope.
Local Open Scope res_scope.

(** [request_id] tells requests apart: each has a [request.state] of its own.
    One [__anext__] of the body stream: it takes [pull_delay] and yields a
    chunk. The end of the stream is an exhausted list, after [end_delay]. *)
Record Pull := { pull_delay : Z; pull_chunk : list Z }.
Record Request := {
  request_id : nat;
  content_types : list string;
  content_length : option string;
  body_stream : list Pull;
  end_delay : Z;
}.

(** ** [read_body_limited] *)

(** [DEFAULT_BODY_TOTAL_TIMEOUT_SECONDS] *)
Definition BODY_TOTAL_TIMEOUT : Z := 30 * 10 ^ 9.

(** The pulls: [elapsed] since the start, [total] octets so far. *)
Fixpoint read_chunks (stream : list Pull) (end_delay max_bytes timeout elapsed total : Z)
    (chunks : list (list Z)) : Res Exn (list Z) :=
  let remaining := timeout - elapsed in
  if remaining <=? 0 then Raise (Acme malformed)
  else match stream with
  | [] => if remaining <? end_delay then Raise (Acme malformed) else Ok (concat chunks)
  | pull :: stream =>
    if remaining <? pull_delay pull then Raise (Acme malformed)
    else
      let total := total + Z.of_nat (length (pull_chunk pull)) in
      if max_bytes <? total then Raise (Acme malformed)
      else read_chunks stream end_delay max_bytes timeout (elapsed + pull_delay pull) total
             (chunks ++ [pull_chunk pull])
  end.

Definition read_body_limited (request : Request) (max_bytes total_timeout : Z) :
    Res Exn (list Z) :=
  if max_bytes <? 1 then Raise (Acme malformed)
  else
    (match content_length request with
     | None => Ok tt
     | Some s =>
       match py_int s with
       | None => Raise (Acme malformed)
       | Some declared =>
         if (declared <? 0) || (max_bytes <? declared) then Raise (Acme malformed) else Ok tt
       end
     end) ;;?
    read_chunks (body_stream request) (end_delay request) max_bytes total_timeout 0 0 [].

(** ** The media type *)

Definition is_tchar (c : ascii) : bool :=
  in_range 48 57 c || in_range 65 90 c || in_range 97 122 c
  || bool_decide (c ∈ chars "!#$%&'*+.^_`|~-").
Definition is_ows (c : ascii) : bool := (code c =? 32) || (code c =? 9).
Definition is_qdtext (c : ascii) : bool :=
  (code c =? 9) || (code c =? 32) || (code c =? 33) || in_range 35 91 c || in_range 93 126 c
  || in_range 128 255 c.
Definition is_quoted_pair (c : ascii) : bool :=
  (code c =? 9) || (code c =? 32) || in_range 33 126 c || in_range 128 255 c.

(** The longest prefix of characters in a class, and the rest. *)
Fixpoint span (f : ascii → bool) (l : list ascii) : list ascii * list ascii :=
  match l with
  | [] => ([], [])
  | c :: l' => if f c then let '(k, r) := span f l' in (c :: k, r) else ([], l)
  end.

(** [_TOKEN] *)
Definition match_token (l : list ascii) : option (list ascii * list ascii) :=
  match span is_tchar l with
  | ([], _) => None
  | (token, l) => Some (token, l)
  end.

(** The rest of [_QUOTED] after its opening quote. *)
Fixpoint match_quoted (l : list ascii) : option (list ascii) :=
  match l with
  | [] => None
  | c :: l =>
    if code c =? 34 then Some l
    else if code c =? 92 then
      match l with
      | c' :: l => if is_quoted_pair c' then match_quoted l else None
      | [] => None
      end
    else if is_qdtext c then match_quoted l else None
  end.

(** [(?:TOKEN|QUOTED)] *)
Definition match_value (l : list ascii) : option (list ascii) :=
  match l with
  | c :: l' =>
    if code c =? 34 then match_quoted l' else snd <$> match_token l
  | [] => None
  end.

(** [(?:[ \t]*+;[ \t]*+(?:TOKEN=VALUE)?)*[ \t]*+] to the end of the text; one
    round per [;]. *)
Fixpoint match_parameters (fuel : nat) (l : list ascii) : bool :=
  match fuel with
  | O => false
  | S fuel =>
    match drop_while is_ows l with
    | [] => true
    | c :: l =>
      if negb (bool_decide (c = ";"%char)) then false
      else
        let l := drop_while is_ows l in
        match match_token l with
        | None => match_parameters fuel l
        | Some (_, c :: l) =>
          if bool_decide (c = "="%char) then
            match match_value l with
            | Some l => match_parameters fuel l
            | None => false
            end
          else false
        | Some (_, []) => false
        end
    end
  end.

(** [re.fullmatch(_MEDIA_TYPE, raw)], its first group. *)
Definition match_media_type (l : list ascii) : option (list ascii) :=
  '(typ, l) ← match_token (drop_while is_ows l);
  match l with
  | c :: l =>
    if bool_decide (c = "/"%char) then
      '(subtype, l) ← match_token l;
      if match_parameters (S (length l)) l then Some (typ ++ "/"%char :: subtype) else None
    else None
  | [] => None
  end.

Definition JOSE_JSON : string := "application/jose+json".
Definition MAX_CONTENT_TYPE_CHARS : Z := 256.

(** [_require_jose_json] *)
Definition require_jose_json (request : Request) : Res Exn unit :=
  let fields := content_types request in
  if (1 <? Z.of_nat (length fields)) then Raise (Acme unsupported_media_type)
  else
    let raw := default EmptyString (head fields) in
    let m := if slen raw <=? MAX_CONTENT_TYPE_CHARS then match_media_type (chars raw) else None in
    match m with
    | Some group =>
      if bool_decide (lower (of_chars group) = JOSE_JSON) then Ok tt
      else Raise (Acme unsupported_media_type)
    | None => Raise (Acme unsupported_media_type)
    end.

Example media_ex :
  map (λ s, match match_media_type (chars s) with Some g => of_chars g | None => EmptyString end)
    ["application/jose+json"; " a/b ;; charset = x"; "a/b; x=y ;z"; "a/b ; x=y; ;";
     "a/b,c/d"; "a/b; text/plain"; ""]%string
  = ["application/jose+json"; ""; ""; "a/b"; ""; ""; ""]%string.
Proof. by vm_compute. Qed.
