(* ===== verification/Url.v ===== *)
(** * URLs: [urllib.parse.urlparse], and [_verify_url] and [_kid_to_account_id]
    of [src/acme_adcs_ra/server_jws.py]

    [NetlocCheck] stands for the two refusals of [urlsplit] that depend on the
    interpreter's release and Unicode tables: the address inside brackets, and
    the NFKC form of a host that is not ASCII.  At the end, the parts of a
    netloc and [urljoin]. *)

From S2P Require Import Prelude PyStr Json Exn Jws.
Local Open Scope Z_scope.
Local Open Scope res_scope.

Record ParseResult := {
  scheme : string;
  netloc : string;
  path : string;
  params : string;
  query : string;
  fragment : string;
}.

Class NetlocCheck := netloc_acceptable : string → bool.

Definition is_scheme_char (c : ascii) : bool :=
  in_range 97 122 c || in_range 65 90 c || in_range 48 57 c || bool_decide (c ∈ chars "+-.").
Definition is_ascii_alpha (c : ascii) : bool := in_range 65 90 c || in_range 97 122 c.

(** [uses_params] *)
Definition uses_params : list string :=
  [""; "ftp"; "hdl"; "prospero"; "http"; "imap"; "https"; "shttp"; "rtsp"; "rtspu"; "sip";
   "sips"; "mms"; "sftp"; "tel"]%string.

(** Split at the first [c]; the second part is [None] when there is none. *)
Fixpoint split_once (c : ascii) (l : list ascii) : list ascii * option (list ascii) :=
  match l with
  | [] => ([], None)
  | x :: l =>
    if bool_decide (x = c) then ([], Some l)
    else let '(k, r) := split_once c l in (x :: k, r)
  end.

(** The leading C0 controls and spaces, and the tabs and newlines anywhere. *)
Definition clean_url (l : list ascii) : list ascii :=
  filter (λ c, bool_decide (code c ∈ [9; 10; 13]) = false)
    (drop_while (λ c, code c <=? 32) l).

(** The scheme, when what stands before the first colon is one. *)
Definition split_scheme (l : list ascii) : list ascii * list ascii :=
  match split_once ":" l with
  | (c :: k, Some rest) =>
    if is_ascii_alpha c && forallb is_scheme_char (c :: k)
    then (map lower_char (c :: k), rest) else ([], l)
  | _ => ([], l)
  end.

(** [_splitnetloc(url, 2)] *)
Fixpoint split_netloc (l : list ascii) : list ascii * list ascii :=
  match l with
  | [] => ([], [])
  | c :: l' =>
    if bool_decide (c ∈ chars "/?#") then ([], l)
    else let '(k, r) := split_netloc l' in (c :: k, r)
  end.

(** [_splitparams]: a [;] in the last segment. *)
Definition split_params (l : list ascii) : list ascii * list ascii :=
  let last := rev (fst (split_once "/" (rev l))) in
  let before := take (length l - length last) l in
  match split_once ";" last with
  | (k, Some ps) => (before ++ k, ps)
  | (_, None) => (l, [])
  end.

Section urls.
Context `{NetlocCheck}.

(** [urlsplit(url, default)], without [params]; every refusal is a
    [ValueError]. *)
Definition urlsplit_from (default_scheme url : string) : Res Exn ParseResult :=
  let '(scheme, rest) := split_scheme (clean_url (chars url)) in
  let scheme := if bool_decide (scheme = []) then chars default_scheme else scheme in
  let '(netloc, rest) :=
    match rest with
    | c :: c' :: rest' =>
      if bool_decide (c = "/"%char ∧ c' = "/"%char) then split_netloc rest' else ([], rest)
    | _ => ([], rest)
    end in
  let opened := bool_decide ("["%char ∈ netloc) in
  let closed := bool_decide ("]"%char ∈ netloc) in
  if negb (Bool.eqb opened closed) then Raise ValueError
  else if (opened || negb (forallb (λ c, code c <? 128) netloc))
          && negb (netloc_acceptable (of_chars netloc))
  then Raise ValueError
  else
    let '(rest, fragment) := split_once "#" rest in
    let '(path, query) := split_once "?" rest in
    Ok {| scheme := of_chars scheme; netloc := of_chars netloc; path := of_chars path;
          params := EmptyString; query := of_chars (default [] query);
          fragment := of_chars (default [] fragment) |}.
Definition urlsplit (url : string) : Res Exn ParseResult := urlsplit_from EmptyString url.

(** [urlparse(url, default)] *)
Definition urlparse_from (default_scheme url : string) : Res Exn ParseResult :=
  p ←? urlsplit_from default_scheme url;
  if bool_decide (scheme p ∈ uses_params) then
    let '(path, params) := split_params (chars (path p)) in
    Ok {| scheme := scheme p; netloc := netloc p; path := of_chars path;
          params := of_chars params; query := query p; fragment := fragment p |}
  else Ok p.
Definition urlparse (url : string) : Res Exn ParseResult := urlparse_from EmptyString url.

(** [_verify_url] *)
Definition verify_url (header : dict) (expected_url : string) : Res Exn unit :=
  if negb (truthy (dict_get "url" header)) then Raise (Acme malformed)
  else
    header_parsed ←? urlparse (py_str (default JNull (dict_get "url" header)));
    expected_parsed ←? urlparse expected_url;
    if bool_decide (scheme header_parsed = EmptyString)
       || bool_decide (netloc header_parsed = EmptyString)
    then Raise (Acme malformed)
    else if negb (bool_decide (scheme header_parsed = scheme expected_parsed))
    then Raise (Acme malformed)
    else if negb (bool_decide (netloc header_parsed = netloc expected_parsed))
    then Raise (Acme malformed)
    else if negb (bool_decide (path header_parsed = path expected_parsed))
    then Raise (Acme malformed)
    else if negb (bool_decide (query header_parsed = query expected_parsed))
    then Raise (Acme malformed)
    else Ok tt.
End urls.

(** [_kid_to_account_id] *)
Definition kid_to_account_id (kid account_url_prefix : string) : Res Exn string :=
  let prefix := (rstrip_char "/" account_url_prefix +:+ "/")%string in
  if negb (startswith kid prefix) then Raise (Acme malformed)
  else
    let rest := drop (length (chars prefix)) (chars kid) in
    Ok (of_chars (fst (split_once "/" rest))).

Definition fields (r : Res Exn ParseResult) : list string :=
  match r with
  | inr p => [scheme p; netloc p; path p; params p; query p; fragment p]
  | inl _ => []
  end.

Section examples.
#[local] Instance any_netloc : NetlocCheck := λ _, true.
Example urlparse_ex :
  map (λ u, fields (urlparse u))
    [" HTTPS://h:8/a;x/b;y?q=1?#f"; "//h/p"; "http://[::1"; "a b://h/p"; "/acme"; "x:y;z"]%string
  = [["https"; "h:8"; "/a;x/b"; "y"; "q=1?"; "f"]; [""; "h"; "/p"; ""; ""; ""]; [];
     [""; ""; "a b://h/p"; ""; ""; ""]; [""; ""; "/acme"; ""; ""; ""];
     ["x"; ""; "y;z"; ""; ""; ""]]%string.
Proof. by vm_compute. Qed.
End examples.

(** ** The parts of a netloc, and [urljoin] *)

(** [s.partition(c)] and [s.rpartition(c)]: the part before is the whole, and
    the part before is empty, when [c] does not occur. *)
Definition partition_char (c : ascii) (l : list ascii) : list ascii * bool * list ascii :=
  match split_once c l with
  | (k, Some rest) => (k, true, rest)
  | (k, None) => (k, false, [])
  end.
Definition after_last (c : ascii) (l : list ascii) : list ascii :=
  rev (fst (split_once c (rev l))).

(** [_hostinfo]: the host, and the port when there is one. *)
Definition hostinfo (p : ParseResult) : list ascii * option (list ascii) :=
  let info := after_last "@" (chars (netloc p)) in
  let '(_, have_open_br, bracketed) := partition_char "[" info in
  let '(host, port) :=
    if have_open_br then
      let '(host, _, rest) := partition_char "]" bracketed in
      let '(_, _, port) := partition_char ":" rest in
      (host, port)
    else let '(host, _, port) := partition_char ":" info in (host, port) in
  (host, if bool_decide (port = []) then None else Some port).

(** [.hostname]: lower case, but for a zone. *)
Definition hostname (p : ParseResult) : option string :=
  match fst (hostinfo p) with
  | [] => None
  | host =>
    let '(name, percent, zone) := partition_char "%" host in
    Some (of_chars (map lower_char name
                    ++ (if percent : bool then ["%"%char] else []) ++ zone))
  end.

(** [.port]: only [ValueError] is raised. *)
Definition port (p : ParseResult) : Res Exn (option Z) :=
  match snd (hostinfo p) with
  | None => Ok None
  | Some digits =>
    if forallb (in_range 48 57) digits then
      match py_int (of_chars digits) with
      | Some n => if n <=? 65535 then Ok (Some n) else Raise ValueError
      | None => Raise ValueError
      end
    else Raise ValueError
  end.

(** [_userinfo]: what comes before the last [@], at its first [:]. *)
Definition userinfo (p : ParseResult) : option (list ascii) * option (list ascii) :=
  match split_once "@" (rev (chars (netloc p))) with
  | (_, None) => (None, None)
  | (_, Some before) =>
    let '(username, have_password, password) := partition_char ":" (rev before) in
    (Some username, if (have_password : bool) then Some password else None)
  end.
Definition username (p : ParseResult) : option string := of_chars <$> fst (userinfo p).
Definition password (p : ParseResult) : option string := of_chars <$> snd (userinfo p).

(** ** [urljoin] *)

Definition uses_relative : list string :=
  [""; "ftp"; "http"; "gopher"; "nntp"; "imap"; "wais"; "file"; "https"; "shttp"; "mms";
   "prospero"; "rtsp"; "rtsps"; "rtspu"; "sftp"; "svn"; "svn+ssh"; "ws"; "wss"]%string.
Definition uses_netloc : list string :=
  [""; "ftp"; "http"; "gopher"; "nntp"; "telnet"; "imap"; "wais"; "file"; "mms"; "https";
   "shttp"; "snews"; "prospero"; "rtsp"; "rtsps"; "rtspu"; "rsync"; "svn"; "svn+ssh"; "sftp";
   "nfs"; "git"; "git+ssh"; "ws"; "wss"; "itms-services"]%string.

(** [urlunparse] *)
Definition urlunparse (p : ParseResult) : string :=
  let rest := (path p +:+ if bool_decide (params p = EmptyString) then EmptyString
                          else ";" +:+ params p)%string in
  let rest :=
    (if negb (bool_decide (netloc p = EmptyString)) then
       "//" +:+ netloc p
       +:+ (if bool_decide (rest = EmptyString) || startswith rest "/" then rest
            else "/" +:+ rest)
     else if startswith rest "//" then "//" +:+ rest
     else if negb (bool_decide (scheme p = EmptyString))
             && bool_decide (scheme p ∈ uses_netloc)
             && (bool_decide (rest = EmptyString) || startswith rest "/")
     then "//" +:+ rest else rest)%string in
  let piece (before : string) (s : string) :=
    if bool_decide (s = EmptyString) then EmptyString else (before +:+ s)%string in
  ((if bool_decide (scheme p = EmptyString) then EmptyString else scheme p +:+ ":")
   +:+ rest +:+ piece "?" (query p) +:+ piece "#" (fragment p))%string.

(** The stack of [resolved_path]; an empty one stays empty under [..]. *)
Definition push_segment (resolved : list string) (seg : string) : list string :=
  if bool_decide (seg = ".."%string) then removelast resolved
  else if bool_decide (seg = "."%string) then resolved
  else resolved ++ [seg].
(** [segments[1:-1] = filter(None, segments[1:-1])] *)
Definition drop_inner_empty (segments : list string) : list string :=
  match segments with
  | [] | [_] => segments
  | first :: rest =>
    first :: filter (λ s, s ≠ EmptyString) (removelast rest) ++ [List.last rest EmptyString]
  end.
Definition resolve_path (base_path path : string) : string :=
  let base_parts := split "/" base_path in
  let base_parts :=
    if bool_decide (List.last base_parts EmptyString = EmptyString) then base_parts
    else removelast base_parts in
  let segments :=
    if startswith path "/" then split "/" path
    else drop_inner_empty (base_parts ++ split "/" path) in
  let resolved := fold_left push_segment segments [] in
  let last := List.last segments EmptyString in
  let resolved :=
    if bool_decide (last = "."%string) || bool_decide (last = ".."%string)
    then resolved ++ [EmptyString] else resolved in
  let joined := String.concat "/" resolved in
  if bool_decide (joined = EmptyString) then "/" else joined.

Section urljoin.
Context `{NetlocCheck}.

Definition urljoin (base url : string) : Res Exn string :=
  if bool_decide (base = EmptyString) then Ok url
  else if bool_decide (url = EmptyString) then Ok base
  else
    b ←? urlparse base;
    u ←? urlparse_from (scheme b) url;
    if negb (bool_decide (scheme u = scheme b)) || bool_decide (scheme u ∉ uses_relative)
    then Ok url
    else if bool_decide (scheme u ∈ uses_netloc) && negb (bool_decide (netloc u = EmptyString))
    then Ok (urlunparse u)
    else
      let host := if bool_decide (scheme u ∈ uses_netloc) then netloc b else netloc u in
      let joined path params query :=
        Ok (urlunparse {| scheme := scheme u; netloc := host; path := path; params := params;
                          query := query; fragment := fragment u |}) in
      if bool_decide (path u = EmptyString) && bool_decide (params u = EmptyString)
      then joined (path b) (params b)
             (if bool_decide (query u = EmptyString) then query b else query u)
      else joined (resolve_path (path b) (path u)) (params u) (query u).
End urljoin.

Section examples.
#[local] Instance every_netloc : NetlocCheck := λ _, true.
(** RFC 3986, section 5.4. *)
Example urljoin_ex :
  map (urljoin "http://a/b/c/d;p?q")
    ["g:h"; "g"; "g/"; "/g"; "//g"; "?y"; "#s"; ";x"; "."; ".."; "../../../g"; "g?y/../x"; ""]%string
  = map inr ["g:h"; "http://a/b/c/g"; "http://a/b/c/g/"; "http://a/g"; "http://g";
             "http://a/b/c/d;p?y"; "http://a/b/c/d;p?q#s"; "http://a/b/c/;x"; "http://a/b/c/";
             "http://a/b/"; "http://a/g"; "http://a/b/c/g?y/../x"; "http://a/b/c/d;p?q"]%string.
Proof. by vm_compute. Qed.
Example host_port_ex :
  map (λ u, match urlparse u with inr p => (hostname p, port p) | _ => (None, inr None) end)
    ["http://u:p@Host:80/x"; "https://[FE80::1%Eth0]:443"; "http://h:99999"; "http://:80"]%string
  = [(Some "host"%string, inr (Some 80)); (Some "fe80::1%Eth0"%string, inr (Some 443));
     (Some "h"%string, inl ValueError); (None, inr (Some 80))].
Proof. by vm_compute. Qed.
End examples.
