(* ===== verification/Sql.v ===== *)
(** * SQL tables

    A table is the list of its rows in [rowid] order: [INSERT] appends,
    [UPDATE ... WHERE] maps, [DELETE ... WHERE] filters, and [fetchone] takes
    the first match.  A [UNIQUE] index (a [PRIMARY KEY] is one) is the absence
    of duplicates among the keys its columns define; rows whose key is NULL
    are not indexed. *)

From S2P Require Import Prelude Exn.
Local Open Scope Z_scope.

Section table.
Context {R : Type}.
Implicit Types (t : list R) (r : R).

(** [SELECT * FROM t WHERE p] and its [fetchone()]. *)
Definition fetchone (p : R → Prop) `{∀ r, Decision (p r)} (t : list R) : option R :=
  head (filter p t).

(** [SELECT COUNT( * )]; also the [rowcount] of an UPDATE or DELETE. *)
Definition count (p : R → Prop) `{∀ r, Decision (p r)} (t : list R) : Z :=
  Z.of_nat (length (filter p t)).

Definition update_where (p : R → Prop) `{∀ r, Decision (p r)} (f : R → R) (t : list R) :
    list R :=
  map (λ r, if decide (p r) then f r else r) t.

Definition delete_where (p : R → Prop) `{∀ r, Decision (p r)} (t : list R) : list R :=
  filter (λ r, ¬ p r) t.

(** A key under a (possibly partial) unique index. *)
Definition violates {K} `{EqDecision K} (key : R → option K) (r : R) (t : list R) : bool :=
  match key r with
  | None => false
  | Some k => bool_decide (Some k ∈ map key t)
  end.

Definition unique {K} (key : R → option K) (t : list R) : Prop :=
  ∀ i j r1 r2 k, t !! i = Some r1 → t !! j = Some r2 →
    key r1 = Some k → key r2 = Some k → i = j.
End table.

(** ** Rows picked out by a predicate *)

Section lemmas.
Context {R : Type}.
Implicit Types (t : list R) (r : R).

Lemma fetchone_Some p `{∀ r, Decision (p r)} t r :
  fetchone p t = Some r → p r ∧ r ∈ t.
Proof.
  unfold fetchone. intros Hhead.
  apply (proj1 (list_elem_of_filter p t r)).
  destruct (filter p t); simplify_eq/=. left.
Qed.

Lemma fetchone_None p `{∀ r, Decision (p r)} t :
  fetchone p t = None ↔ ∀ r, r ∈ t → ¬ p r.
Proof.
  unfold fetchone. split.
  - intros Hhead r Hr Hp. destruct (filter p t) as [|] eqn:Hf; [|done].
    assert (r ∈ filter p t) as Hin by by apply list_elem_of_filter.
    rewrite Hf in Hin. by apply elem_of_nil in Hin.
  - intros Hnone. destruct (filter p t) as [|r l] eqn:Hf; [done|].
    assert (r ∈ filter p t) as Hin by (rewrite Hf; left).
    apply list_elem_of_filter in Hin as [??]. by destruct (Hnone r).
Qed.

Lemma fetchone_is_Some p `{∀ r, Decision (p r)} t r :
  r ∈ t → p r → is_Some (fetchone p t).
Proof.
  intros Hr Hp. destruct (fetchone p t) eqn:Hf; [done|].
  by destruct (proj1 (fetchone_None p t) Hf r).
Qed.

Lemma update_where_elem_of p `{∀ r, Decision (p r)} f t r' :
  r' ∈ update_where p f t ↔
  ∃ r, r ∈ t ∧ r' = if decide (p r) then f r else r.
Proof. unfold update_where. rewrite list_elem_of_fmap. naive_solver. Qed.

Lemma update_where_id p `{∀ r, Decision (p r)} f t :
  (∀ r, r ∈ t → ¬ p r) → update_where p f t = t.
Proof.
  intros Hno. unfold update_where. induction t as [|r t IH]; [done|]. simpl.
  rewrite decide_False by (apply Hno; left). f_equal. apply IH.
  intros r' Hr'. apply Hno. by right.
Qed.

Lemma length_update_where p `{∀ r, Decision (p r)} f t :
  length (update_where p f t) = length t.
Proof. apply length_map. Qed.

Lemma lookup_update_where p `{∀ r, Decision (p r)} f t i :
  update_where p f t !! i = (λ r, if decide (p r) then f r else r) <$> t !! i.
Proof. apply list_lookup_fmap. Qed.

(** An UPDATE that does not write the indexed columns keeps the key list. *)
Lemma update_where_key {K} (key : R → K) p `{∀ r, Decision (p r)} f t :
  (∀ r, key (f r) = key r) → map key (update_where p f t) = map key t.
Proof.
  intros Hf. unfold update_where. rewrite map_map. apply map_ext. intros r.
  by case_decide.
Qed.

Lemma count_zero p `{∀ r, Decision (p r)} t :
  count p t = 0 ↔ ∀ r, r ∈ t → ¬ p r.
Proof.
  unfold count. rewrite <- (fetchone_None p t). unfold fetchone.
  destruct (filter p t); cbn [length hd_error]; split; intros; try done; exfalso; lia.
Qed.

Lemma count_app p `{∀ r, Decision (p r)} t1 t2 :
  count p (t1 ++ t2) = count p t1 + count p t2.
Proof. unfold count. rewrite filter_app, length_app. lia. Qed.

Lemma count_nonneg p `{∀ r, Decision (p r)} t : 0 ≤ count p t.
Proof. unfold count. lia. Qed.

Lemma count_singleton p `{∀ r, Decision (p r)} r :
  count p [r] = if decide (p r) then 1 else 0.
Proof. unfold count. rewrite filter_cons. by case_decide. Qed.

(** ** Unique indexes *)

Lemma violates_false {K} `{EqDecision K} (key : R → option K) r t :
  violates key r t = false ↔ ∀ r' k, r' ∈ t → key r' = Some k → key r ≠ Some k.
Proof.
  unfold violates. destruct (key r) as [k|]; [|split; [by intros _ ????|done]].
  rewrite bool_decide_eq_false, list_elem_of_fmap. split.
  - intros Hno r' k' Hr' Hk' [= ->]. apply Hno. by exists r'.
  - intros Hno (r' & Hk & Hr'). by eapply Hno.
Qed.

Lemma unique_app_singleton {K} `{EqDecision K} (key : R → option K) r t :
  unique key t → violates key r t = false → unique key (t ++ [r]).
Proof.
  rewrite violates_false. intros Hu Hv i j r1 r2 k.
  rewrite !lookup_app_Some, !list_lookup_singleton_Some.
  intros [Hi|[? [? <-]]] [Hj|[? [? <-]]] Hk1 Hk2.
  - by eapply Hu.
  - apply list_elem_of_lookup_2 in Hi. by destruct (Hv _ _ Hi Hk1).
  - apply list_elem_of_lookup_2 in Hj. by destruct (Hv _ _ Hj Hk2).
  - lia.
Qed.

Lemma unique_update {K} (key : R → option K) p `{∀ r, Decision (p r)} f t :
  (∀ r, key (f r) = key r) → unique key t → unique key (update_where p f t).
Proof.
  intros Hf Hu i j r1 r2 k. rewrite !lookup_update_where.
  intros (x & Hx & ->)%fmap_Some (y & Hy & ->)%fmap_Some.
  intros Hk1 Hk2. refine (Hu i j x y k Hx Hy _ _).
  - revert Hk1. clear Hk2. case_decide; by rewrite ?Hf.
  - revert Hk2. clear Hk1. case_decide; by rewrite ?Hf.
Qed.

Lemma unique_elem_of {K} (key : R → option K) t r1 r2 k :
  unique key t → r1 ∈ t → r2 ∈ t → key r1 = Some k → key r2 = Some k → r1 = r2.
Proof.
  intros Hu [i Hi]%list_elem_of_lookup [j Hj]%list_elem_of_lookup Hk1 Hk2.
  assert (i = j) as -> by by eapply Hu. by simplify_eq.
Qed.

Lemma unique_filter {K} (key : R → option K) p `{∀ r, Decision (p r)} t :
  unique key t → unique key (filter p t).
Proof.
  intros Hu. induction t as [|x t IH].
  { intros i j r1 r2 k. by rewrite filter_nil, lookup_nil. }
  assert (unique key t) as Hu'.
  { intros i j r1 r2 k Hk1 Hk2 K1 K2.
    pose proof (Hu (S i) (S j) r1 r2 k Hk1 Hk2 K1 K2). lia. }
  specialize (IH Hu'). rewrite filter_cons. case_decide; [|done].
  intros [|i] [|j] r1 r2 k Hk1 Hk2 K1 K2; simplify_eq/=; [done| | |].
  - apply list_elem_of_lookup_2, list_elem_of_filter in Hk2 as [_ [n Hn]%list_elem_of_lookup].
    by pose proof (Hu 0%nat (S n) r1 r2 k eq_refl Hn K1 K2).
  - apply list_elem_of_lookup_2, list_elem_of_filter in Hk1 as [_ [n Hn]%list_elem_of_lookup].
    by pose proof (Hu (S n) 0%nat r1 r2 k Hn eq_refl K1 K2).
  - f_equal. by eapply IH.
Qed.

(** Under a unique key, an UPDATE or DELETE by key touches at most one row,
    so a CAS's rowcount is 0 or 1. *)
Lemma count_unique {K} (key : R → option K) p `{∀ r, Decision (p r)} t k :
  unique key t → (∀ r, p r → key r = Some k) → count p t = 0 ∨ count p t = 1.
Proof.
  intros Hu Hp. unfold count.
  pose proof (unique_filter key p t Hu) as Hu'.
  destruct (filter p t) as [|x [|y l]] eqn:Hf; [by left|by right|exfalso].
  assert (p x ∧ p y) as [Hx Hy].
  { split; [apply (proj1 (list_elem_of_filter p t x))|apply (proj1 (list_elem_of_filter p t y))];
      rewrite Hf; set_solver. }
  by pose proof (Hu' 0%nat 1%nat x y k eq_refl eq_refl (Hp _ Hx) (Hp _ Hy)).
Qed.

Lemma fetchone_unique {K} (key : R → option K) p `{∀ r, Decision (p r)} t k r :
  unique key t → (∀ r, p r → key r = Some k) →
  r ∈ t → p r → fetchone p t = Some r.
Proof.
  intros Hu Hp Hr Hpr. destruct (fetchone_is_Some p t r) as [r' Hr']; [done..|].
  rewrite Hr'. f_equal. apply fetchone_Some in Hr' as [??].
  eapply (unique_elem_of key t r' r k); eauto.
Qed.

(** A lookup after an UPDATE that leaves the looked-up columns alone. *)
Lemma fetchone_update_where q `{∀ r, Decision (q r)} p `{∀ r, Decision (p r)} f t :
  (∀ r, p r → q (f r) ↔ q r) →
  fetchone q (update_where p f t)
  = (λ r, if decide (p r) then f r else r) <$> fetchone q t.
Proof.
  intros Hq. unfold fetchone, update_where.
  induction t as [|r t IH]; [done|]. simpl. rewrite !filter_cons.
  destruct (decide (p r)) as [Hp|Hp].
  - pose proof (Hq r Hp).
    destruct (decide (q (f r))), (decide (q r)); try tauto.
    simpl. by rewrite decide_True.
  - destruct (decide (q r)); [|apply IH]. simpl. by rewrite decide_False.
Qed.

Lemma fetchone_app q `{∀ r, Decision (q r)} t1 t2 :
  fetchone q (t1 ++ t2)
  = match fetchone q t1 with Some r => Some r | None => fetchone q t2 end.
Proof. unfold fetchone. rewrite filter_app. by destruct (filter q t1). Qed.

(** The rowcount of a statement whose WHERE fixes the primary key. *)
Lemma count_key {K} `{EqDecision K} (key : R → K) p `{∀ r, Decision (p r)} t k :
  unique (Some ∘ key) t → (∀ r, p r → key r = k) →
  count p t =
  match fetchone (λ r, key r = k) t with
  | Some r => if decide (p r) then 1 else 0
  | None => 0
  end.
Proof.
  intros Hu Hp.
  destruct (fetchone (λ r, key r = k) t) as [r|] eqn:Hf.
  - apply fetchone_Some in Hf as [Hk Hr]. case_decide as Hpr.
    + assert (∀ r', p r' → (Some ∘ key) r' = Some k) as Hp'.
      { intros r' Hr'. simpl. f_equal. auto. }
      destruct (count_unique (Some ∘ key) p t k Hu Hp') as [Hc|Hc]; [exfalso|done].
      by apply (proj1 (count_zero p t) Hc r).
    + apply count_zero. intros r' Hr' Hpr'. destruct Hpr.
      by rewrite (unique_elem_of (Some ∘ key) t r r' k) by (simpl; f_equal; auto).
  - apply count_zero. intros r Hr Hpr. eapply (proj1 (fetchone_None _ t) Hf); eauto.
Qed.

(** Statements see only the extension of their WHERE clause. *)
Lemma update_where_ext p `{∀ r, Decision (p r)} q `{∀ r, Decision (q r)} f t :
  (∀ r, r ∈ t → p r ↔ q r) → update_where p f t = update_where q f t.
Proof.
  intros Hpq. apply map_ext_in. intros r Hr%list_elem_of_In.
  pose proof (Hpq r Hr). by destruct (decide (p r)), (decide (q r)); try tauto.
Qed.

Lemma filter_ext_in p `{∀ r, Decision (p r)} q `{∀ r, Decision (q r)} t :
  (∀ r, r ∈ t → p r ↔ q r) → filter p t = filter q t.
Proof.
  induction t as [|r t IH]; intros Hpq; [done|]. rewrite !filter_cons.
  assert (p r ↔ q r) as Hr by (apply Hpq; left).
  rewrite IH by (intros r' Hr'; apply Hpq; by right).
  by destruct (decide (p r)), (decide (q r)); try tauto.
Qed.

Lemma count_ext p `{∀ r, Decision (p r)} q `{∀ r, Decision (q r)} t :
  (∀ r, r ∈ t → p r ↔ q r) → count p t = count q t.
Proof. intros Hpq. unfold count. by rewrite (filter_ext_in p q). Qed.

(** Two UPDATEs whose WHERE clauses exclude each other are one. *)
Lemma update_where_twice p `{∀ r, Decision (p r)} q `{∀ r, Decision (q r)} f t :
  (∀ r, p r → ¬ q (f r)) →
  update_where q f (update_where p f t) = update_where (λ r, p r ∨ q r) f t.
Proof.
  intros Hpq. unfold update_where. rewrite map_map. apply map_ext. intros r.
  destruct (decide (p r)) as [Hp|Hp].
  - rewrite decide_False by auto. by rewrite decide_True by auto.
  - destruct (decide (q r)); [rewrite decide_True by auto|rewrite decide_False by tauto]; done.
Qed.

Lemma count_twice p `{∀ r, Decision (p r)} q `{∀ r, Decision (q r)} f t :
  (∀ r, p r → ¬ q (f r) ∧ ¬ q r) →
  count p t + count q (update_where p f t) = count (λ r, p r ∨ q r) t.
Proof.
  intros Hpq. unfold count, update_where. induction t as [|r t IH]; [done|].
  simpl. rewrite !filter_cons. destruct (decide (p r)) as [Hp|Hp].
  - destruct (Hpq r Hp). rewrite decide_False by done. rewrite decide_True by auto.
    simpl. lia.
  - destruct (decide (q r)).
    + rewrite decide_True by auto. simpl. lia.
    + rewrite decide_False by tauto. done.
Qed.

Lemma count_pos_fetchone p `{∀ r, Decision (p r)} t :
  count p t ≠ 0 → ∃ r, fetchone p t = Some r.
Proof.
  intros Hc. destruct (fetchone p t) eqn:Hf; [by eexists|].
  destruct Hc. apply count_zero. by apply (proj1 (fetchone_None p t)).
Qed.
End lemmas.
