(* ===== verification/Db.v ===== *)
(** * The database of [src/acme_adcs_ra/store.py]

    The status enums, one record per table row with a setter per column the
    code updates, the whole database, and transactions.

    Timestamps are the seconds of [_now_iso] (its format has second
    resolution and fixed width, so string order is numeric order).  A TEXT
    column holding JSON is a [json_text]: what [json.loads] makes of it, or
    text it rejects. *)

From S2P Require Import Prelude PyStr Exn Json Sql.
Local Open Scope Z_scope.

Module OrderStatus.
Inductive t := PENDING | READY | PROCESSING | VALID | INVALID | REVOKED.
#[global] Instance eq_dec : EqDecision t.
Proof. solve_decision. Defined.
Definition value (s : t) : string :=
  match s with
  | PENDING => "pending" | READY => "ready" | PROCESSING => "processing"
  | VALID => "valid" | INVALID => "invalid" | REVOKED => "revoked"
  end.
End OrderStatus.

Module CertStatus.
Inductive t := VALID | REVOKED | QUARANTINED.
#[global] Instance eq_dec : EqDecision t.
Proof. solve_decision. Defined.
Definition value (s : t) : string :=
  match s with VALID => "valid" | REVOKED => "revoked" | QUARANTINED => "quarantined" end.
End CertStatus.

Module AccountStatus.
Inductive t := VALID | DEACTIVATED.
#[global] Instance eq_dec : EqDecision t.
Proof. solve_decision. Defined.
Definition value (s : t) : string :=
  match s with VALID => "valid" | DEACTIVATED => "deactivated" end.
End AccountStatus.

(** ** JSON columns *)

Inductive json_text :=
  | JText (v : json)
  | JBad (raw : string).

#[export] Instance json_text_eq_dec : EqDecision json_text.
Proof. solve_decision. Defined.

Definition dump_json (v : json) : json_text := JText v.
Definition load_json (t : json_text) : Res Exn json :=
  match t with JText v => Ok v | JBad _ => Raise ValueError end.

(** ** Rows *)

Module Account.
Record t := {
  id : string;
  status : AccountStatus.t;
  jwk_json : json_text;
  eab_kid : string;
  contact : list json;
  created_at : Z;
  jwk_thumbprint : option string;
}.
Definition set_status s a :=
  {| id := a.(id); status := s; jwk_json := a.(jwk_json); eab_kid := a.(eab_kid);
     contact := a.(contact); created_at := a.(created_at);
     jwk_thumbprint := a.(jwk_thumbprint) |}.
Definition set_key jwk tp a :=
  {| id := a.(id); status := a.(status); jwk_json := jwk; eab_kid := a.(eab_kid);
     contact := a.(contact); created_at := a.(created_at); jwk_thumbprint := tp |}.
End Account.

Module Nonce.
Record t := { nonce : string; created_at : Z }.
End Nonce.

Module Order.
Record t := {
  id : string;
  account_id : string;
  status : OrderStatus.t;
  identifiers : list dict;
  authorizations : list string;
  finalize_url : string;
  certificate_url : option string;
  expires : Z;
  created_at : Z;
  updated_at : Z;
  processing_started_at : option Z;
  processing_generation : Z;
  pending_ca_request_id : option string;
}.
(** The columns the store's UPDATEs write; each UPDATE composes these. *)
Definition make (s : OrderStatus.t) (azs : list string) (cu : option string) (upd : Z)
    (psa : option Z) (gen : Z) (pend : option string) (o : t) : t :=
  {| id := o.(id); account_id := o.(account_id); status := s;
     identifiers := o.(identifiers); authorizations := azs;
     finalize_url := o.(finalize_url); certificate_url := cu; expires := o.(expires);
     created_at := o.(created_at); updated_at := upd; processing_started_at := psa;
     processing_generation := gen; pending_ca_request_id := pend |}.
Definition set_status s o :=
  make s o.(authorizations) o.(certificate_url) o.(updated_at) o.(processing_started_at)
    o.(processing_generation) o.(pending_ca_request_id) o.
Definition set_authorizations azs o :=
  make o.(status) azs o.(certificate_url) o.(updated_at) o.(processing_started_at)
    o.(processing_generation) o.(pending_ca_request_id) o.
Definition set_certificate_url cu o :=
  make o.(status) o.(authorizations) cu o.(updated_at) o.(processing_started_at)
    o.(processing_generation) o.(pending_ca_request_id) o.
Definition set_updated_at upd o :=
  make o.(status) o.(authorizations) o.(certificate_url) upd o.(processing_started_at)
    o.(processing_generation) o.(pending_ca_request_id) o.
Definition set_processing_started_at psa o :=
  make o.(status) o.(authorizations) o.(certificate_url) o.(updated_at) psa
    o.(processing_generation) o.(pending_ca_request_id) o.
Definition set_processing_generation gen o :=
  make o.(status) o.(authorizations) o.(certificate_url) o.(updated_at)
    o.(processing_started_at) gen o.(pending_ca_request_id) o.
Definition set_pending_ca_request_id pend o :=
  make o.(status) o.(authorizations) o.(certificate_url) o.(updated_at)
    o.(processing_started_at) o.(processing_generation) pend o.
End Order.

Module Authz.
Record t := {
  id : string;
  account_id : string;
  order_id : string;
  identifier : dict;
  status : string;
  expires : Z;
}.
Definition set_status s a :=
  {| id := a.(id); account_id := a.(account_id); order_id := a.(order_id);
     identifier := a.(identifier); status := s; expires := a.(expires) |}.
End Authz.

Module Challenge.
Record t := {
  id : string;
  authz_id : string;
  type : string;
  status : string;
  token : string;
  url : string;
  validated_at : option Z;
}.
Definition set_status s v c :=
  {| id := c.(id); authz_id := c.(authz_id); type := c.(type); status := s;
     token := c.(token); url := c.(url); validated_at := v |}.
End Challenge.

Module Cert.
Record t := {
  id : string;
  order_id : string;
  account_id : string;
  cert_pem : string;
  chain_pem : json_text;
  template : string;
  requester : string;
  issued_at : Z;
  metadata : dict;
  serial_number : option string;
  status : CertStatus.t;
  revocation_reason : option Z;
  revoked_at : option Z;
  ca_crl_updated : bool;
  not_before : option Z;
  not_after : option Z;
}.
Definition make (chain : json_text) (serial : option string) (s : CertStatus.t)
    (reason revoked : option Z) (crl : bool) (nb na : option Z) (c : t) : t :=
  {| id := c.(id); order_id := c.(order_id); account_id := c.(account_id);
     cert_pem := c.(cert_pem); chain_pem := chain; template := c.(template);
     requester := c.(requester); issued_at := c.(issued_at); metadata := c.(metadata);
     serial_number := serial; status := s; revocation_reason := reason;
     revoked_at := revoked; ca_crl_updated := crl; not_before := nb; not_after := na |}.
Definition set_chain_pem chain c :=
  make chain c.(serial_number) c.(status) c.(revocation_reason) c.(revoked_at)
    c.(ca_crl_updated) c.(not_before) c.(not_after) c.
Definition set_serial_number serial c :=
  make c.(chain_pem) serial c.(status) c.(revocation_reason) c.(revoked_at)
    c.(ca_crl_updated) c.(not_before) c.(not_after) c.
Definition set_revoked s reason revoked c :=
  make c.(chain_pem) c.(serial_number) s reason revoked
    c.(ca_crl_updated) c.(not_before) c.(not_after) c.
Definition set_ca_crl_updated crl c :=
  make c.(chain_pem) c.(serial_number) c.(status) c.(revocation_reason) c.(revoked_at)
    crl c.(not_before) c.(not_after) c.
Definition set_validity nb na c :=
  make c.(chain_pem) c.(serial_number) c.(status) c.(revocation_reason) c.(revoked_at)
    c.(ca_crl_updated) nb na c.
End Cert.

Module Audit.
Record t := {
  id : Z;
  event_type : string;
  account_id : option string;
  order_id : option string;
  sans : list string;
  template : option string;
  requester : option string;
  outcome : string;
  details : dict;
  timestamp : Z;
}.
Definition set_details d a :=
  {| id := a.(id); event_type := a.(event_type); account_id := a.(account_id);
     order_id := a.(order_id); sans := a.(sans); template := a.(template);
     requester := a.(requester); outcome := a.(outcome); details := d;
     timestamp := a.(timestamp) |}.
End Audit.

(** A row of [crl_watermark].  [crl_number] is TEXT: [int()] of it may fail. *)
Module Watermark.
Record t := {
  issuer_key : string;
  crl_number : option string;
  this_update : Z;
  observed_at : Z;
  source_url : option string;
}.
End Watermark.

(** ** The database *)

Record Db := MkDb {
  accounts : list Account.t;
  nonces : list Nonce.t;
  orders : list Order.t;
  authorizations : list Authz.t;
  challenges : list Challenge.t;
  certificates : list Cert.t;
  audit_log : list Audit.t;
  (* sqlite_sequence of the AUTOINCREMENT key *)
  audit_seq : Z;
  crl_watermark : list Watermark.t;
  (* whether the two migrated UNIQUE indexes exist *)
  idx_certificates_order : bool;
  idx_accounts_thumbprint_unique : bool;
}.

Definition empty_db : Db := MkDb [] [] [] [] [] [] [] 0 [] true true.

Definition set_accounts t d :=
  MkDb t (nonces d) (orders d) (authorizations d) (challenges d) (certificates d)
    (audit_log d) (audit_seq d) (crl_watermark d) (idx_certificates_order d)
    (idx_accounts_thumbprint_unique d).
Definition set_nonces t d :=
  MkDb (accounts d) t (orders d) (authorizations d) (challenges d) (certificates d)
    (audit_log d) (audit_seq d) (crl_watermark d) (idx_certificates_order d)
    (idx_accounts_thumbprint_unique d).
Definition set_orders t d :=
  MkDb (accounts d) (nonces d) t (authorizations d) (challenges d) (certificates d)
    (audit_log d) (audit_seq d) (crl_watermark d) (idx_certificates_order d)
    (idx_accounts_thumbprint_unique d).
Definition set_authorizations t d :=
  MkDb (accounts d) (nonces d) (orders d) t (challenges d) (certificates d)
    (audit_log d) (audit_seq d) (crl_watermark d) (idx_certificates_order d)
    (idx_accounts_thumbprint_unique d).
Definition set_challenges t d :=
  MkDb (accounts d) (nonces d) (orders d) (authorizations d) t (certificates d)
    (audit_log d) (audit_seq d) (crl_watermark d) (idx_certificates_order d)
    (idx_accounts_thumbprint_unique d).
Definition set_certificates t d :=
  MkDb (accounts d) (nonces d) (orders d) (authorizations d) (challenges d) t
    (audit_log d) (audit_seq d) (crl_watermark d) (idx_certificates_order d)
    (idx_accounts_thumbprint_unique d).
Definition set_audit_log t seq d :=
  MkDb (accounts d) (nonces d) (orders d) (authorizations d) (challenges d)
    (certificates d) t seq (crl_watermark d) (idx_certificates_order d)
    (idx_accounts_thumbprint_unique d).
Definition set_crl_watermark t d :=
  MkDb (accounts d) (nonces d) (orders d) (authorizations d) (challenges d)
    (certificates d) (audit_log d) (audit_seq d) t (idx_certificates_order d)
    (idx_accounts_thumbprint_unique d).
Definition set_indexes co at_ d :=
  MkDb (accounts d) (nonces d) (orders d) (authorizations d) (challenges d)
    (certificates d) (audit_log d) (audit_seq d) (crl_watermark d) co at_.

(** ** Transactions

    The body of a [with self._connect() as conn:] block: it reads and writes
    the database, or raises.  [transact] is the block itself: commit on
    return, roll back on an exception. *)

Definition Tx (A : Type) : Type := Db → Res Exn (A * Db).

#[export] Instance tx_ret : MRet Tx := λ A x d, inr (x, d).
#[export] Instance tx_bind : MBind Tx := λ A B f m d,
  match m d with
  | inl e => inl e
  | inr (x, d') => f x d'
  end.

Definition tx_raise {A} (e : Exn) : Tx A := λ _, inl e.
Definition tx_get : Tx Db := λ d, inr (d, d).
Definition tx_put (f : Db → Db) : Tx unit := λ d, inr (tt, f d).
Definition tx_of_res {A} (r : Res Exn A) : Tx A := λ d,
  match r with inl e => inl e | inr x => inr (x, d) end.

Definition transact {A} (m : Tx A) (d : Db) : Res Exn A * Db :=
  match m d with
  | inl e => (inl e, d)
  | inr (x, d') => (inr x, d')
  end.

(** One statement each; a write returns its [rowcount]. *)
Section statements.
Context {R : Type} (get : Db → list R) (set : list R → Db → Db).

Definition tx_select (p : R → Prop) `{∀ r, Decision (p r)} : Tx (list R) :=
  λ d, inr (filter p (get d), d).
Definition tx_fetchone (p : R → Prop) `{∀ r, Decision (p r)} : Tx (option R) :=
  λ d, inr (fetchone p (get d), d).
Definition tx_count (p : R → Prop) `{∀ r, Decision (p r)} : Tx Z :=
  λ d, inr (count p (get d), d).
Definition tx_update (p : R → Prop) `{∀ r, Decision (p r)} (f : R → R) : Tx Z :=
  λ d, inr (count p (get d), set (update_where p f (get d)) d).
Definition tx_delete (p : R → Prop) `{∀ r, Decision (p r)} : Tx Z :=
  λ d, inr (count p (get d), set (delete_where p (get d)) d).
(** [INSERT]; [clash] says which rows violate a unique index. *)
Definition tx_insert (clash : Db → R → bool) (r : R) : Tx unit :=
  λ d, if clash d r then inl IntegrityError else inr (tt, set (get d ++ [r]) d).
End statements.

(** The rows each INSERT must not collide with. *)
Definition account_clash (d : Db) (a : Account.t) : bool :=
  violates (Some ∘ Account.id) a (accounts d)
  || idx_accounts_thumbprint_unique d && violates Account.jwk_thumbprint a (accounts d).
Definition nonce_clash (d : Db) (n : Nonce.t) : bool :=
  violates (Some ∘ Nonce.nonce) n (nonces d).
Definition order_clash (d : Db) (o : Order.t) : bool :=
  violates (Some ∘ Order.id) o (orders d).
Definition authz_clash (d : Db) (a : Authz.t) : bool :=
  violates (Some ∘ Authz.id) a (authorizations d).
Definition challenge_clash (d : Db) (c : Challenge.t) : bool :=
  violates (Some ∘ Challenge.id) c (challenges d).
Definition cert_clash (d : Db) (c : Cert.t) : bool :=
  violates (Some ∘ Cert.id) c (certificates d)
  || idx_certificates_order d && violates (Some ∘ Cert.order_id) c (certificates d).

Abbreviation insert_account := (tx_insert accounts set_accounts account_clash).
Abbreviation insert_nonce := (tx_insert nonces set_nonces nonce_clash).
Abbreviation insert_order := (tx_insert orders set_orders order_clash).
Abbreviation insert_authz := (tx_insert authorizations set_authorizations authz_clash).
Abbreviation insert_challenge := (tx_insert challenges set_challenges challenge_clash).
Abbreviation insert_cert := (tx_insert certificates set_certificates cert_clash).
Abbreviation update_accounts := (tx_update accounts set_accounts).
Abbreviation update_orders := (tx_update orders set_orders).
Abbreviation update_certs := (tx_update certificates set_certificates).

(** An UPDATE that changes account keys re-checks the thumbprint index; the
    statement fails as a whole when the result has duplicates. *)
Definition thumbprints_unique (t : list Account.t) : bool :=
  bool_decide (NoDup (omap Account.jwk_thumbprint t)).
Definition update_account_keys (p : Account.t → Prop) `{∀ r, Decision (p r)}
    (f : Account.t → Account.t) : Tx Z := λ d,
  let t := update_where p f (accounts d) in
  if idx_accounts_thumbprint_unique d && negb (thumbprints_unique t)
  then inl IntegrityError
  else inr (count p (accounts d), set_accounts t d).
