(* ===== verification/StoreAudit.v ===== *)
(** * Nonces, the audit log and the CRL watermark of [store.py] *)

From S2P Require Import Prelude PyStr Exn Json AuditBounds Sql Db.
From stdpp Require Import sorting.
Local Open Scope Z_scope.

(** ** Nonces *)

Definition NONCE_TTL_SECONDS : Z := 1800.
Definition NONCE_GC_PROBABILITY : Z := 100.
Definition NONCE_GC_LIMIT : nat := 5000.

(** [DELETE ... WHERE rowid IN (SELECT rowid ... LIMIT n)]: the first [n]
    matching rows go. *)
Fixpoint delete_first {R} (p : R → Prop) `{∀ r, Decision (p r)} (n : nat) (t : list R) :
    list R :=
  match n, t with
  | O, _ | _, [] => t
  | S n', r :: t' =>
    if decide (p r) then delete_first p n' t' else r :: delete_first p n t'
  end.

(** [Store.create_nonce]; [nonce] and [gc_int] are its uuids. *)
Definition create_nonce (now : Z) (nonce : string) (gc_int : Z) : Tx string :=
  insert_nonce {| Nonce.nonce := nonce; Nonce.created_at := now |};;
  (if gc_int mod NONCE_GC_PROBABILITY =? 0 then
     tx_put (λ d, set_nonces
       (delete_first (λ n, Nonce.created_at n < now - NONCE_TTL_SECONDS) NONCE_GC_LIMIT
          (nonces d)) d)
   else mret tt);;
  mret nonce.

(** [Store.consume_nonce]; a JSON value that is not a string is refused. *)
Definition consume_nonce (now : Z) (nonce : json) : Tx bool :=
  match nonce with
  | JStr nonce =>
    let cutoff := now - NONCE_TTL_SECONDS in
    let live n := Nonce.nonce n = nonce ∧ cutoff <= Nonce.created_at n in
    present ← tx_fetchone nonces live;
    match present with
    | None => mret false
    | Some _ => rowcount ← tx_delete nonces set_nonces live; mret (rowcount =? 1)
    end
  | _ => mret false
  end.

(** [Store.cleanup_expired_nonces] *)
Definition cleanup_expired_nonces (now : Z) : Tx Z :=
  tx_delete nonces set_nonces (λ n, Nonce.created_at n < now - NONCE_TTL_SECONDS).

(** ** The audit log *)

(** The keyword arguments of [record_audit] and of the [audit] mappings. *)
Record AuditArgs := {
  event_type : string;
  account_id : option string;
  order_id : option string;
  sans : list string;
  template : option string;
  requester : option string;
  outcome : string;
  details : option dict;
}.

(** [bound_value(requester)] *)
Definition bound_requester (r : option string) : option string :=
  r ≫= λ s, json_string (bound_value MAX_VALUE_CHARS 0 (JStr s)).

(** [Store._record_audit_in_conn]: the event returned is the row written. *)
Definition record_audit_in_conn (now : Z) (a : AuditArgs) : Tx Audit.t := λ d,
  let row := {|
    Audit.id := audit_seq d + 1;
    Audit.event_type := event_type a;
    Audit.account_id := account_id a;
    Audit.order_id := order_id a;
    Audit.sans := sans a;
    Audit.template := template a;
    Audit.requester := bound_requester (requester a);
    Audit.outcome := outcome a;
    Audit.details := bound_details (details a);
    Audit.timestamp := now |} in
  inr (row, set_audit_log (audit_log d ++ [row]) (audit_seq d + 1) d).

(** [Store.record_audit] *)
Definition record_audit (now : Z) (a : AuditArgs) : Tx Audit.t :=
  record_audit_in_conn now a.

(** [Store.update_audit_details] *)
Definition update_audit_details (audit_id : Z) (details : dict) : Tx bool := λ d,
  inr (bool_decide (0 < count (λ a, Audit.id a = audit_id) (audit_log d)),
       set_audit_log
         (update_where (λ a, Audit.id a = audit_id)
            (Audit.set_details (bound_details (Some details))) (audit_log d))
         (audit_seq d) d).

(** [Store.delete_audit_rows_before] *)
Definition delete_audit_rows_before (cutoff : Z) : Tx Z := λ d,
  inr (count (λ a, Audit.timestamp a < cutoff) (audit_log d),
       set_audit_log (delete_where (λ a, Audit.timestamp a < cutoff) (audit_log d))
         (audit_seq d) d).

(** [ORDER BY id DESC] *)
Definition audit_newer (a b : Audit.t) : Prop := Audit.id b <= Audit.id a.
#[export] Instance audit_newer_dec a b : Decision (audit_newer a b).
Proof. unfold audit_newer. apply _. Defined.

(** [Store.list_audit_events]; a negative LIMIT is no limit in SQLite. *)
Definition sql_limit {A} (limit : Z) (l : list A) : list A :=
  if limit <? 0 then l else take (Z.to_nat limit) l.
Definition list_audit_events (for_account for_event : option string) (limit : Z) :
    Tx (list Audit.t) := λ d,
  inr (sql_limit limit (merge_sort audit_newer
         (filter (λ a, (for_account = None ∨ Audit.account_id a = for_account)
                       ∧ (for_event = None ∨ Some (Audit.event_type a) = for_event))
            (audit_log d))), d).

(** [Store.audit_footprint], less the size of the database files. *)
Definition audit_footprint : Tx (Z * option Z * option Z) := λ d,
  let ts := map Audit.timestamp (audit_log d) in
  let opt f := match ts with [] => None | t :: ts => Some (fold_left f ts t) end in
  inr ((Z.of_nat (length ts), opt Z.min, opt Z.max), d).

(** ** The CRL watermark *)

(** [CrlWatermark] of crl_evidence.py *)
Record CrlWatermark := {
  issuer_key : string;
  crl_number : option string;
  this_update : option Z;
}.

(** [Store.read_crl_watermark] *)
Definition read_crl_watermark (key : string) : Tx (option CrlWatermark) :=
  row ← tx_fetchone crl_watermark (λ w, Watermark.issuer_key w = key);
  mret ((λ w, {| issuer_key := Watermark.issuer_key w;
                 crl_number := Watermark.crl_number w;
                 this_update := Some (Watermark.this_update w) |}) <$> row).

(** [Store.reset_crl_watermark] *)
Definition reset_crl_watermark (key : string) : Tx bool :=
  rowcount ← tx_delete crl_watermark set_crl_watermark (λ w, Watermark.issuer_key w = key);
  mret (0 <? rowcount).

(** Does the document advance the recorded row? *)
Definition watermark_advances (w : Watermark.t) (number : option string) (update : Z) :
    bool :=
  match number, Watermark.crl_number w with
  | Some n, Some n' =>
    match py_int n, py_int n' with
    | Some v, Some v' => v' <? v
    | _, _ => Watermark.this_update w <? update
    end
  | _, _ => Watermark.this_update w <? update
  end.

(** [Store._advance_crl_watermark_in_conn]: insert, or overwrite on conflict. *)
Definition advance_crl_watermark_in_conn (now : Z) (key : string)
    (number : option string) (update : Z) (source_url : option string) : Tx bool :=
  existing ← tx_fetchone crl_watermark (λ w, Watermark.issuer_key w = key);
  let row := {| Watermark.issuer_key := key; Watermark.crl_number := number;
                Watermark.this_update := update; Watermark.observed_at := now;
                Watermark.source_url := source_url |} in
  match existing with
  | None => tx_put (λ d, set_crl_watermark (crl_watermark d ++ [row]) d);; mret true
  | Some w =>
    if watermark_advances w number update
    then tx_update crl_watermark set_crl_watermark
           (λ w, Watermark.issuer_key w = key) (λ _, row);; mret true
    else mret false
  end.
