(* ===== verification/StoreAccounts.v ===== *)
(** * Accounts: creation, deactivation and key rollover in [store.py] *)

From S2P Require Import Prelude PyStr Exn Json Jwk Sql Db StoreAudit.
Local Open Scope Z_scope.

(** The audit row of an account operation: [account_id=record.id]. *)
Definition with_account_id (i : string) (a : AuditArgs) : AuditArgs :=
  {| event_type := event_type a; account_id := Some i; order_id := order_id a;
     sans := sans a; template := template a; requester := requester a;
     outcome := outcome a; details := details a |}.

Definition carries_account_id (a : AuditArgs) : bool :=
  match account_id a with Some _ => true | None => false end.

(** [Store._insert_account]; [id] is its uuid. *)
Definition insert_account_in_conn (now : Z) (id : string) (jwk : json)
    (eab_kid : string) (status : AccountStatus.t) (contact : option (list json)) :
    Tx Account.t :=
  thumbprint ← tx_of_res (jwk_thumbprint jwk);
  let row := {|
    Account.id := id;
    Account.status := status;
    Account.jwk_json := dump_json jwk;
    Account.eab_kid := eab_kid;
    Account.contact := default [] contact;
    Account.created_at := now;
    Account.jwk_thumbprint := Some thumbprint |} in
  insert_account row;;
  mret row.

(** [Store.create_account] *)
Definition create_account (now : Z) (id : string) (jwk : json) (eab_kid : string)
    (status : AccountStatus.t) (contact : option (list json)) : Tx Account.t :=
  insert_account_in_conn now id jwk eab_kid status contact.

(** [Store.create_account_with_audit] *)
Definition create_account_with_audit (now : Z) (id : string) (jwk : json)
    (eab_kid : string) (status : AccountStatus.t) (contact : option (list json))
    (audit : AuditArgs) (max_accounts_per_eab_kid : Z) : Tx (Account.t * Audit.t) :=
  if max_accounts_per_eab_kid <? 1 then tx_raise ValueError
  else if carries_account_id audit then tx_raise ValueError
  else
    count ← tx_count accounts (λ a, Account.eab_kid a = eab_kid);
    if max_accounts_per_eab_kid <=? count
    then tx_raise (EabAccountLimitExceeded eab_kid max_accounts_per_eab_kid count)
    else
      record ← insert_account_in_conn now id jwk eab_kid status contact;
      event ← record_audit_in_conn now (with_account_id (Account.id record) audit);
      mret (record, event).

(** [Store.get_account] *)
Definition get_account (id : string) : Tx (option Account.t) :=
  tx_fetchone accounts (λ a, Account.id a = id).

(** [Store.get_account_by_jwk] *)
Definition get_account_by_jwk (jwk : json) : Tx (option Account.t) :=
  thumbprint ← tx_of_res (jwk_thumbprint jwk);
  tx_fetchone accounts (λ a, Account.jwk_thumbprint a = Some thumbprint).

(** [Store.update_account_status] *)
Definition update_account_status (id : string) (status : AccountStatus.t) : Tx bool :=
  rowcount ← update_accounts
    (λ a, Account.id a = id ∧ Account.status a = AccountStatus.VALID)
    (Account.set_status status);
  mret (rowcount =? 1).

(** [Store._update_account_key_in_conn] *)
Definition update_account_key_in_conn (id : string) (new_jwk : json) (thumbprint : string) :
    Tx unit :=
  update_account_keys (λ a, Account.id a = id)
    (Account.set_key (dump_json new_jwk) (Some thumbprint));;
  mret tt.

(** [Store.update_account_key] *)
Definition update_account_key (id : string) (new_jwk : json) : Tx unit :=
  thumbprint ← tx_of_res (jwk_thumbprint new_jwk);
  update_account_key_in_conn id new_jwk thumbprint.

(** The rollovers the per-kid limiter counts: [account-key-changed] successes
    joined to the accounts of the kid. *)
Definition kid_of_account (d : Db) (i : option string) : option string :=
  i ≫= λ i, Account.eab_kid <$> fetchone (λ a, Account.id a = i) (accounts d).
Definition key_change_count (d : Db) (kid : string) (cutoff : Z) : Z :=
  count (λ al, kid_of_account d (Audit.account_id al) = Some kid
               ∧ Audit.event_type al = "account-key-changed"%string
               ∧ Audit.outcome al = "success"%string
               ∧ cutoff <= Audit.timestamp al) (audit_log d).

(** [str(account_row["jwk_thumbprint"])] *)
Definition thumbprint_str (a : Account.t) : string :=
  default "None"%string (Account.jwk_thumbprint a).

(** The rollover limit, counted inside the transaction. *)
Definition check_key_change_limit (now : Z) (row : Account.t)
    (rate_limit_window_seconds : option Z) (rate_limit_per_kid : Z) : Tx unit :=
  if 0 <? rate_limit_per_kid then
    match rate_limit_window_seconds with
    | Some window =>
      if window <? 1 then tx_raise ValueError
      else
        let kid := Account.eab_kid row in
        d ← tx_get;
        let count := key_change_count d kid (now - window) in
        if rate_limit_per_kid <=? count
        then tx_raise (KeyChangeRateLimitExceeded kid rate_limit_per_kid count window)
        else mret tt
    | None => tx_raise ValueError
    end
  else mret tt.

(** [Store.update_account_key_with_audit] *)
Definition update_account_key_with_audit (now : Z) (id : string) (new_jwk : json)
    (expected_old_thumbprint : string) (audit : AuditArgs)
    (rate_limit_window_seconds : option Z) (rate_limit_per_kid : Z) : Tx Audit.t :=
  if carries_account_id audit then tx_raise ValueError
  else
    thumbprint ← tx_of_res (jwk_thumbprint new_jwk);
    account_row ← tx_fetchone accounts (λ a, Account.id a = id);
    match account_row with
    | Some row =>
      if decide (thumbprint_str row = expected_old_thumbprint
                 ∧ Account.status row = AccountStatus.VALID) then
        check_key_change_limit now row rate_limit_window_seconds rate_limit_per_kid;;
        rowcount ← update_account_keys
          (λ a, Account.id a = id
                ∧ Account.jwk_thumbprint a = Some expected_old_thumbprint
                ∧ Account.status a = AccountStatus.VALID)
          (Account.set_key (dump_json new_jwk) (Some thumbprint));
        if negb (rowcount =? 1) then tx_raise AccountKeyStale
        else record_audit_in_conn now (with_account_id id audit)
      else tx_raise AccountKeyStale
    | None => tx_raise AccountKeyStale
    end.

(** [Store.eab_kids_with_accounts], as the kids in order of first account. *)
Definition eab_kids_with_accounts (kids : list string) : Tx (gset string) := λ d,
  inr (list_to_set (map Account.eab_kid
         (filter (λ a, Account.eab_kid a ∈ kids) (accounts d))), d).
