(* ===== verification/StoreOrders.v ===== *)
(** * Orders, authorizations and challenges in [store.py]

    Every status change is a compare-and-set UPDATE; a stay in [processing]
    is an enrollment lease named by [processing_generation]. *)

From S2P Require Import Prelude PyStr Json Exn Sql Db StoreAudit StoreAccounts.
From stdpp Require Import sorting.
Local Open Scope Z_scope.

(** ** CAS predicates and SET clauses *)

(** [id = ? AND status = ?] *)
Definition has_status (id : string) (s : OrderStatus.t) (o : Order.t) : Prop :=
  Order.id o = id ∧ Order.status o = s.
(** [id = ? AND status IN (?, ?)] *)
Definition has_status_in (id : string) (s1 s2 : OrderStatus.t) (o : Order.t) : Prop :=
  Order.id o = id ∧ (Order.status o = s1 ∨ Order.status o = s2).
(** [_processing_cas]: optionally narrowed to one lease generation. *)
Definition processing_cas (id : string) (expected_generation : option Z) (o : Order.t) :
    Prop :=
  has_status id OrderStatus.PROCESSING o
  ∧ (expected_generation = None ∨ Some (Order.processing_generation o) = expected_generation).

#[global] Instance has_status_dec id s o : Decision (has_status id s o).
Proof. unfold has_status. apply _. Defined.
#[global] Instance has_status_in_dec id s1 s2 o : Decision (has_status_in id s1 s2 o).
Proof. unfold has_status_in. apply _. Defined.
#[global] Instance processing_cas_dec id g o : Decision (processing_cas id g o).
Proof. unfold processing_cas. apply _. Defined.

Definition to_ready (now : Z) (o : Order.t) : Order.t :=
  Order.set_updated_at now
    (Order.set_processing_started_at None (Order.set_status OrderStatus.READY o)).
Definition to_valid (now : Z) (certificate_url : string) (o : Order.t) : Order.t :=
  Order.set_updated_at now (Order.set_processing_started_at None
    (Order.set_certificate_url (Some certificate_url)
      (Order.set_status OrderStatus.VALID o))).
Definition to_status (s : OrderStatus.t) (now : Z) (o : Order.t) : Order.t :=
  Order.set_updated_at now (Order.set_status s o).
Definition to_processing (now : Z) (o : Order.t) : Order.t :=
  Order.set_processing_generation (Order.processing_generation o + 1)
    (Order.set_processing_started_at (Some now)
      (Order.set_updated_at now (Order.set_status OrderStatus.PROCESSING o))).
Definition to_pending_ca (now : Z) (req_id : option string) (o : Order.t) : Order.t :=
  Order.set_updated_at now (Order.set_pending_ca_request_id req_id o).

(** One CAS: did it change exactly one row? *)
Definition cas_orders (p : Order.t → Prop) `{∀ o, Decision (p o)} (f : Order.t → Order.t) :
    Tx bool :=
  rowcount ← update_orders p f; mret (rowcount =? 1).

(** ** Pending CA requests *)

(** [Store.record_pending_ca_request] *)
Definition record_pending_ca_request (now : Z) (order_id req_id : string)
    (expected_generation : Z) : Tx bool :=
  cas_orders (λ o, Order.id o = order_id
                   ∧ Order.processing_generation o = expected_generation)
    (to_pending_ca now (Some req_id)).

(** [Store.clear_pending_ca_request] *)
Definition clear_pending_ca_request (now : Z) (order_id req_id : string) : Tx bool :=
  cas_orders (λ o, Order.id o = order_id
                   ∧ Order.pending_ca_request_id o = Some req_id)
    (to_pending_ca now None).

(** ** Reads *)

(** [Store.get_order] *)
Definition get_order (order_id : string) : Tx (option Order.t) :=
  tx_fetchone orders (λ o, Order.id o = order_id).

(** [Store.holds_processing_lease] *)
Definition holds_processing_lease (order_id : string) (generation : Z) : Tx bool :=
  row ← get_order order_id;
  mret match row with
       | None => false
       | Some row =>
         bool_decide (Order.status row = OrderStatus.PROCESSING)
         && (Order.processing_generation row =? generation)
       end.

(** [Store.processing_age_seconds] *)
Definition processing_age_seconds (now : Z) (order_id : string) : Tx (option Z) :=
  row ← get_order order_id;
  mret (row ≫= λ row, (λ started, now - started) <$> Order.processing_started_at row).

(** ** Transitions *)

(** [Store.acquire_processing_lease] *)
Definition acquire_processing_lease (now : Z) (order_id : string) : Tx (option Z) :=
  rowcount ← update_orders (has_status order_id OrderStatus.READY) (to_processing now);
  if negb (rowcount =? 1) then mret None
  else
    row ← get_order order_id;
    match row with
    | Some row => mret (Some (Order.processing_generation row))
    | None => tx_raise TypeError
    end.

(** [Store.transition_pending_to_ready] *)
Definition transition_pending_to_ready (now : Z) (order_id : string) : Tx bool :=
  cas_orders (has_status order_id OrderStatus.PENDING) (to_ready now).

(** [Store.transition_processing_to_ready] *)
Definition transition_processing_to_ready (now : Z) (order_id : string)
    (expected_generation : option Z) : Tx bool :=
  cas_orders (processing_cas order_id expected_generation) (to_ready now).

(** [Store.transition_processing_to_valid] *)
Definition transition_processing_to_valid (now : Z) (order_id certificate_url : string)
    (expected_generation : option Z) : Tx bool :=
  cas_orders (processing_cas order_id expected_generation) (to_valid now certificate_url).

(** [Store.transition_active_to_invalid] *)
Definition transition_active_to_invalid (now : Z) (order_id : string) : Tx bool :=
  cas_orders (has_status_in order_id OrderStatus.PENDING OrderStatus.READY)
    (to_status OrderStatus.INVALID now).

(** [Store.transition_processing_to_invalid] *)
Definition transition_processing_to_invalid (now : Z) (order_id : string)
    (expected_generation : option Z) : Tx bool :=
  cas_orders (processing_cas order_id expected_generation)
    (to_status OrderStatus.INVALID now).

(** [Store.transition_to_revoked] *)
Definition transition_to_revoked (now : Z) (order_id : string) : Tx bool :=
  cas_orders (has_status_in order_id OrderStatus.VALID OrderStatus.PROCESSING)
    (to_status OrderStatus.REVOKED now).

(** [Store.reclaim_processing_order] *)
Definition reclaim_processing_order (now : Z) (order_id : string)
    (to_valid_certificate_url : option string) (expected_generation : option Z)
    (pending_req_id : option string) (audit_event_type : string)
    (audit_account_id : option string) (audit_outcome : string) (audit_details : dict) :
    Tx (bool * option Audit.t) :=
  let set_clause :=
    match to_valid_certificate_url with
    | Some url => to_valid now url
    | None => to_ready now
    end in
  rowcount ← update_orders (processing_cas order_id expected_generation) set_clause;
  if negb (rowcount =? 1) then mret (false, None)
  else
    match pending_req_id with
    | Some req_id =>
      if decide (req_id = EmptyString) then mret 0
      else update_orders (λ o, Order.id o = order_id
                               ∧ Order.pending_ca_request_id o = Some req_id)
             (to_pending_ca now None)
    | None => mret 0
    end;;
    event ← record_audit_in_conn now
      {| event_type := audit_event_type; account_id := audit_account_id;
         order_id := Some order_id; sans := []; template := None; requester := None;
         outcome := audit_outcome; details := Some audit_details |};
    mret (true, Some event).

(** ** Lists and counts *)

(** [ORDER BY created_at DESC], and with [id DESC] to break ties. *)
Definition order_newer (a b : Order.t) : Prop := Order.created_at b <= Order.created_at a.
Definition order_newer_id (a b : Order.t) : Prop :=
  Order.created_at b < Order.created_at a
  ∨ (Order.created_at b = Order.created_at a ∧ String.leb (Order.id b) (Order.id a) = true).
#[global] Instance order_newer_dec a b : Decision (order_newer a b).
Proof. unfold order_newer. apply _. Defined.
#[global] Instance order_newer_id_dec a b : Decision (order_newer_id a b).
Proof. unfold order_newer_id. apply _. Defined.

(** [Store.list_orders_by_status] *)
Definition list_orders_by_status (status : OrderStatus.t) (limit : Z) : Tx (list Order.t) :=
  λ d, inr (sql_limit limit (merge_sort order_newer
              (filter (λ o, Order.status o = status) (orders d))), d).

(** [Store.list_orders_by_account] *)
Definition list_orders_by_account (account_id : string) (limit : Z) : Tx (list Order.t) :=
  λ d, inr (sql_limit limit (merge_sort order_newer_id
              (filter (λ o, Order.account_id o = account_id) (orders d))), d).

(** The orders of a kid's accounts since [cutoff]: the per-kid counter. *)
Definition recent_order_count_by_kid (d : Db) (eab_kid : string) (cutoff : Z) : Z :=
  count (λ o, kid_of_account d (Some (Order.account_id o)) = Some eab_kid
              ∧ cutoff <= Order.created_at o) (orders d).
Definition recent_order_count (d : Db) (cutoff : Z) : Z :=
  count (λ o, cutoff <= Order.created_at o) (orders d).

(** [Store.count_recent_orders_by_kid] *)
Definition count_recent_orders_by_kid (now : Z) (eab_kid : string) (window : Z) : Tx Z :=
  λ d, inr (recent_order_count_by_kid d eab_kid (now - window), d).
(** [Store.count_all_recent_orders] *)
Definition count_all_recent_orders (now : Z) (window : Z) : Tx Z :=
  λ d, inr (recent_order_count d (now - window), d).

(** ** The expiry sweep *)

Definition is_expired (expires now : Z) : bool := expires <=? now.

(** [range(0, len(l), 900)] slices. *)
Fixpoint batches {A} (fuel n : nat) (l : list A) : list (list A) :=
  match fuel, l with
  | O, _ | _, [] => []
  | S fuel, _ => take n l :: batches fuel n (drop n l)
  end.

Definition SWEEP_BATCH : nat := 900.

Definition sweep_batch (now : Z) (batch : list string) : Tx Z :=
  update_orders (λ o, Order.id o ∈ batch
                      ∧ (Order.status o = OrderStatus.PENDING
                         ∨ Order.status o = OrderStatus.READY))
    (to_status OrderStatus.INVALID now).

Fixpoint sweep_batches (now : Z) (total : Z) (bs : list (list string)) : Tx Z :=
  match bs with
  | [] => mret total
  | batch :: bs =>
    rowcount ← sweep_batch now batch;
    sweep_batches now (total + rowcount) bs
  end.

(** [Store.sweep_expired_orders] *)
Definition sweep_expired_orders (now : Z) : Tx Z :=
  rows ← tx_select orders (λ o, Order.status o = OrderStatus.PENDING
                                ∨ Order.status o = OrderStatus.READY);
  let expired_ids := map Order.id (filter (λ o, is_expired (Order.expires o) now) rows) in
  match expired_ids with
  | [] => mret 0
  | _ => sweep_batches now 0 (batches (length expired_ids) SWEEP_BATCH expired_ids)
  end.

(** ** Order creation and authorizations *)

(** The URL callbacks of [create_order_with_authz]. *)
Record UrlFns := {
  challenge_url_fn : string → string;
  authz_url_fn : string → string;
  finalize_url_fn : string → string;
}.

(** The rate limits, checked before anything is written. *)
Definition check_order_rate_limits (now : Z) (account_id : string) (window : option Z)
    (per_kid global : Z) : Tx unit :=
  if (0 <? per_kid) || (0 <? global) then
    match window with
    | None => tx_raise ValueError
    | Some window =>
      if window <? 1 then tx_raise ValueError
      else
        let cutoff := now - window in
        account_row ← get_account account_id;
        match account_row with
        | None => tx_raise ValueError
        | Some row =>
          let eab_kid := Account.eab_kid row in
          d ← tx_get;
          (if 0 <? per_kid then
             let count := recent_order_count_by_kid d eab_kid cutoff in
             if per_kid <=? count
             then tx_raise (OrderRateLimitExceeded "per-account" per_kid count window
                              (Some eab_kid))
             else mret tt
           else mret tt);;
          (if 0 <? global then
             let count := recent_order_count d cutoff in
             if global <=? count
             then tx_raise (OrderRateLimitExceeded "global" global count window None)
             else mret tt
           else mret tt)
        end
    end
  else mret tt.

(** The loop over the identifiers: one challenge and one authorization each.
    [uuid] numbers the [uuid4().hex] calls; [n] is the next. *)
Fixpoint insert_authzs (urls : UrlFns) (uuid : nat → string) (account_id order_id : string)
    (expires : Z) (n : nat) (identifiers : list dict) (authz_urls : list string) :
    Tx (list string) :=
  match identifiers with
  | [] => mret authz_urls
  | identifier :: identifiers =>
    let authz_id := uuid n in
    let challenge_id := uuid (1 + n)%nat in
    let token := uuid (2 + n)%nat +:+ uuid (3 + n)%nat in
    insert_challenge
      {| Challenge.id := challenge_id; Challenge.authz_id := authz_id;
         Challenge.type := "http-01"; Challenge.status := "pending";
         Challenge.token := token; Challenge.url := challenge_url_fn urls challenge_id;
         Challenge.validated_at := None |};;
    insert_authz
      {| Authz.id := authz_id; Authz.account_id := account_id; Authz.order_id := order_id;
         Authz.identifier := identifier; Authz.status := "pending";
         Authz.expires := expires |};;
    insert_authzs urls uuid account_id order_id expires (4 + n)%nat identifiers
      (authz_urls ++ [authz_url_fn urls authz_id])
  end.

(** [Store.create_order_with_authz] *)
Definition create_order_with_authz (now : Z) (uuid : nat → string)
    (order_expiry_seconds : Z) (account_id : string) (identifiers : list dict)
    (urls : UrlFns) (window : option Z) (per_kid global : Z) : Tx Order.t :=
  let order_id := uuid 0%nat in
  let expires := now + order_expiry_seconds in
  check_order_rate_limits now account_id window per_kid global;;
  let row := {|
    Order.id := order_id;
    Order.account_id := account_id;
    Order.status := OrderStatus.PENDING;
    Order.identifiers := identifiers;
    Order.authorizations := [];
    Order.finalize_url := finalize_url_fn urls order_id;
    Order.certificate_url := None;
    Order.expires := expires;
    Order.created_at := now;
    Order.updated_at := now;
    Order.processing_started_at := None;
    Order.processing_generation := 0;
    Order.pending_ca_request_id := None |} in
  insert_order row;;
  authz_urls ← insert_authzs urls uuid account_id order_id expires 1 identifiers [];
  update_orders (λ o, Order.id o = order_id) (Order.set_authorizations authz_urls);;
  mret (Order.set_authorizations authz_urls row).

(** [AuthorizationRecord] *)
Record AuthorizationRecord := {
  authz : Authz.t;
  authz_challenges : list Challenge.t;
}.

(** [Store.get_authorization] *)
Definition get_authorization (authz_id : string) : Tx (option AuthorizationRecord) :=
  row ← tx_fetchone authorizations (λ a, Authz.id a = authz_id);
  match row with
  | None => mret None
  | Some row =>
    challenge_rows ← tx_select challenges (λ c, Challenge.authz_id c = authz_id);
    mret (Some {| authz := row; authz_challenges := challenge_rows |})
  end.

(** [Store.get_challenge] *)
Definition get_challenge (challenge_id : string) : Tx (option Challenge.t) :=
  tx_fetchone challenges (λ c, Challenge.id c = challenge_id).

(** [Store.update_authorization_status] *)
Definition update_authorization_status (authz_id status : string) : Tx unit :=
  tx_update authorizations set_authorizations (λ a, Authz.id a = authz_id)
    (Authz.set_status status);;
  mret tt.

(** [Store.update_challenge_status] *)
Definition update_challenge_status (challenge_id status : string) (validated_at : option Z) :
    Tx unit :=
  tx_update challenges set_challenges (λ c, Challenge.id c = challenge_id)
    (Challenge.set_status status validated_at);;
  mret tt.
