(* ===== verification/Act.v ===== *)
(** * Programs that share a state

    A handler runs in a threadpool next to other handlers; what they share is
    the database, the CA and the process-wide flags.  An [Act] is a program
    cut at the points where it touches that shared state: each [Step] is one
    atomic action, or [None] while the action has to wait (a lock that is
    taken).  [run] runs a program alone; the module [Pool] interleaves several
    and gives the rule by which an invariant of all of them is proved thread
    by thread. *)

From S2P Require Import Prelude Exn Sql Db.

Inductive Act (W A : Type) :=
  | Done (r : Res Exn A)
  | Step (f : W → option (W * Act W A)).
Arguments Done {W A} r.
Arguments Step {W A} f.

Section act.
Context {W : Type}.

(** Continue with the outcome, value or exception. *)
Fixpoint act_then {A B} (m : Act W A) (k : Res Exn A → Act W B) : Act W B :=
  match m with
  | Done r => k r
  | Step f => Step (λ w,
      match f w with
      | Some (w', m') => Some (w', act_then m' k)
      | None => None
      end)
  end.

#[global] Instance act_ret : MRet (Act W) := λ A x, Done (inr x).
#[global] Instance act_bind : MBind (Act W) := λ A B k m,
  act_then m (λ r, match r with inl e => Done (inl e) | inr x => k x end).

Definition act_raise {A} (e : Exn) : Act W A := Done (inl e).
Definition act_of_res {A} (r : Res Exn A) : Act W A := Done r.

(** [try: m except: h]; [h] re-raises what it does not handle. *)
Definition act_try {A} (m : Act W A) (h : Exn → Act W A) : Act W A :=
  act_then m (λ r, match r with inl e => h e | inr x => Done (inr x) end).

(** [try: m finally: c] *)
Definition act_finally {A} (m : Act W A) (c : Act W unit) : Act W A :=
  act_then m (λ r, act_then c (λ rc,
    match rc with inl e => Done (inl e) | inr _ => Done r end)).

(** One atomic action, which never waits. *)
Definition act_atomic {A} (f : W → Res Exn A * W) : Act W A :=
  Step (λ w, let '(r, w') := f w in Some (w', Done r)).
Definition act_get {A} (f : W → A) : Act W A := act_atomic (λ w, (inr (f w), w)).
Definition act_modify (f : W → W) : Act W unit := act_atomic (λ w, (inr tt, f w)).

(** Wait until [p], and act in the same step. *)
Definition act_await (p : W → bool) (f : W → W) : Act W unit :=
  Step (λ w, if p w then Some (f w, Done (inr tt)) else None).

(** Run with nothing else running; [None] when it would wait for ever. *)
Fixpoint run {A} (m : Act W A) (w : W) : option (Res Exn A * W) :=
  match m with
  | Done r => Some (r, w)
  | Step f => match f w with Some (w', m') => run m' w' | None => None end
  end.

Lemma run_then {A B} (m : Act W A) (k : Res Exn A → Act W B) w :
  run (act_then m k) w =
  match run m w with Some (r, w') => run (k r) w' | None => None end.
Proof.
  revert m w. fix IH 1. intros [r|f] w; [done|].
  simpl. destruct (f w) as [[w' m']|]; [apply IH|done].
Qed.

Lemma run_bind {A B} (k : A → Act W B) (m : Act W A) w :
  run (m ≫= k) w =
  match run m w with
  | Some (inl e, w') => Some (inl e, w')
  | Some (inr x, w') => run (k x) w'
  | None => None
  end.
Proof.
  unfold mbind, act_bind. rewrite run_then. by destruct (run m w) as [[[e|x] w']|].
Qed.

Lemma run_atomic {A} (f : W → Res Exn A * W) w : run (act_atomic f) w = Some (f w).
Proof. simpl. by destruct (f w). Qed.
End act.

(** ** Transactions as actions

    A program that uses the store runs each [with self._connect()] block as
    one action of its own state: directly on a database, or inside a server
    whose store may fail.  The methods of the store that take more than one
    block are written against this interface. *)

Class TxRunner (W : Type) := run_tx : ∀ {A : Type}, Tx A → Act W A.

Definition tx {A} (m : Tx A) : Act Db A := act_atomic (transact m).
#[export] Instance tx_runner : TxRunner Db := @tx.

Lemma run_run_tx {A} (m : Tx A) (d : Db) : run (run_tx m) d = Some (transact m d).
Proof. apply (run_atomic (transact m)). Qed.

(** ** Interleaving *)

Module Pool.
Section pool.
Context {W A : Type}.

(** Any unfinished thread that need not wait takes its next action. *)
Inductive step : list (Act W A) * W → list (Act W A) * W → Prop :=
  | Thread i ts f w w' m' :
      ts !! i = Some (Step f) → f w = Some (w', m') →
      step (ts, w) (<[i := m']> ts, w').

End pool.

(** A thread's next action depends on the state, but its program is a finite
    tree: however the threads are scheduled, the pool comes to rest. *)
Section termination.
Context {W A : Type}.

Inductive next : Act W A → Act W A → Prop :=
  | Next f w w' m' : f w = Some (w', m') → next m' (Step f).

Lemma next_wf (m : Act W A) : Acc next m.
Proof.
  revert m. fix IH 1. intros [r|f].
  - constructor. intros m' Hm'. inversion Hm'.
  - assert (∀ w, match f w with Some (_, m') => Acc next m' | None => True end) as Hf.
    { intros w. destruct (f w) as [[w' m']|]; [apply IH|done]. }
    constructor. intros m' Hm'. inversion Hm' as [f0 w w' m0 Hw]; subst.
    specialize (Hf w). by rewrite Hw in Hf.
Qed.

Inductive next_pool : list (Act W A) → list (Act W A) → Prop :=
  | Next_here m m' ts : next m' m → next_pool (m' :: ts) (m :: ts)
  | Next_there m ts ts' : next_pool ts' ts → next_pool (m :: ts') (m :: ts).

Lemma next_pool_cons m ts :
  Acc next m → Acc next_pool ts → Acc next_pool (m :: ts).
Proof.
  intros Hm. revert ts. induction Hm as [m _ IHm]. intros ts Hts.
  induction Hts as [ts Hts IHts]. constructor. intros l Hl.
  inversion Hl; subst; [apply IHm; [done|by constructor]|by apply IHts].
Qed.

Lemma next_pool_wf (ts : list (Act W A)) : Acc next_pool ts.
Proof.
  induction ts as [|m ts IH]; [constructor; intros l Hl; inversion Hl|].
  apply next_pool_cons; [apply next_wf|done].
Qed.

Lemma step_next c c' : step (W:=W) (A:=A) c c' → next_pool c'.1 c.1.
Proof.
  intros [i ts f w w' m' Hi Hf]. simpl. revert i Hi.
  induction ts as [|m ts IH]; intros [|i] Hi; simplify_eq/=.
  - by constructor; econstructor.
  - constructor. by apply IH.
Qed.

Lemma step_wf c : Acc (flip (step (W:=W) (A:=A))) c.
Proof.
  destruct c as [ts w]. revert w. induction (next_pool_wf ts) as [ts _ IH].
  intros w. constructor. intros [ts' w'] Hstep. by apply IH, (step_next (ts, w) (ts', w')).
Qed.

(** Run the threads named by a schedule, as far as they can. *)
Definition exec (i : nat) (c : list (Act W A) * W) : list (Act W A) * W :=
  match c.1 !! i with
  | Some (Step f) =>
    match f c.2 with
    | Some (w', m') => (<[i := m']> c.1, w')
    | None => c
    end
  | _ => c
  end.
Fixpoint exec_all (is_ : list nat) (c : list (Act W A) * W) : list (Act W A) * W :=
  match is_ with
  | [] => c
  | i :: is_ => exec_all is_ (exec i c)
  end.

Lemma exec_steps i c : rtc step c (exec i c).
Proof.
  unfold exec. destruct c as [ts w]. simpl. destruct (ts !! i) as [[r|f]|] eqn:Hi; try reflexivity.
  destruct (f w) as [[w' m']|] eqn:Hf; [|reflexivity]. apply rtc_once. by econstructor.
Qed.
Lemma exec_all_steps is_ c : rtc step c (exec_all is_ c).
Proof.
  revert c. induction is_ as [|i is_ IH]; intros c; simpl; [reflexivity|].
  etrans; [apply exec_steps|apply IH].
Qed.

(** A program that runs alone runs as a pool of one. *)
Lemma run_steps (m : Act W A) w r w' :
  run m w = Some (r, w') → rtc step ([m], w) ([Done r], w').
Proof.
  revert m w. fix IH 1. intros [r0|f] w; simpl; [intros [= -> ->]; reflexivity|].
  destruct (f w) as [[w1 m1]|] eqn:Hf; [|done]. intros Hrun.
  eapply rtc_l; [|by apply IH]. by apply (Thread 0 [Step f] f w w1 m1).
Qed.
End termination.

(** ** Invariants, thread by thread

    Each thread carries a phase: what it has claimed of the shared state.
    [Inv] relates the state to the phases of all threads.  [safe i p m Q]:
    thread [i], in phase [p], keeps [Inv] with every action of [m], moving
    only its own phase, and ends in an outcome and phase satisfying [Q].  A
    thread that waits holds nothing itself, and some other one is [Busy]. *)
Section protocol.
Context {W P : Type} (Inv : W → list P → Prop) (Busy : P → Prop).

Fixpoint safe {A} (i : nat) (p : P) (m : Act W A) (Q : Res Exn A → P → Prop) : Prop :=
  match m with
  | Done r => Q r p
  | Step f => ∀ w ps, Inv w ps → ps !! i = Some p →
    match f w with
    | Some (w', m') => ∃ p', Inv w' (<[i := p']> ps) ∧ safe i p' m' Q
    | None => ¬ Busy p ∧ ∃ q, q ∈ ps ∧ Busy q
    end
  end.

Lemma safe_then {A B} i p (m : Act W A) (k : Res Exn A → Act W B) Q Q' :
  safe i p m Q → (∀ r p', Q r p' → safe i p' (k r) Q') → safe i p (act_then m k) Q'.
Proof.
  revert m p. fix IH 1. intros [r|f] p Hm Hk; [by apply Hk|].
  simpl in *. intros w ps Hinv Hp. specialize (Hm w ps Hinv Hp).
  destruct (f w) as [[w' m']|]; [|done]. destruct Hm as (p' & Hinv' & Hm').
  exists p'. split; [done|]. by apply IH.
Qed.

Lemma safe_mono {A} i p (m : Act W A) (Q Q' : Res Exn A → P → Prop) :
  safe i p m Q → (∀ r p', Q r p' → Q' r p') → safe i p m Q'.
Proof.
  revert m p. fix IH 1. intros [r|f] p Hm HQ; [by apply HQ|].
  simpl in *. intros w ps Hinv Hp. specialize (Hm w ps Hinv Hp).
  destruct (f w) as [[w' m']|]; [|done]. destruct Hm as (p' & Hinv' & Hm').
  exists p'. split; [done|]. by apply IH.
Qed.

Lemma safe_bind {A B} i p (m : Act W A) (k : A → Act W B) Q Q' :
  safe i p m Q →
  (∀ x p', Q (inr x) p' → safe i p' (k x) Q') →
  (∀ e p', Q (inl e) p' → Q' (inl e) p') →
  safe i p (m ≫= k) Q'.
Proof.
  intros Hm Hk He. unfold mbind, act_bind. eapply safe_then; [exact Hm|].
  intros [e|x] p' HQ; [by apply He|by apply Hk].
Qed.

Lemma safe_atomic {A} i p (f : W → Res Exn A * W) Q :
  (∀ w ps, Inv w ps → ps !! i = Some p →
     ∃ p', Inv (f w).2 (<[i := p']> ps) ∧ Q (f w).1 p') →
  safe i p (act_atomic f) Q.
Proof.
  intros Hf. simpl. intros w ps Hinv Hp.
  destruct (Hf w ps Hinv Hp) as (p' & Hinv' & HQ). destruct (f w) as [r w'].
  by exists p'.
Qed.

(** A pool of safe threads keeps the invariant along every interleaving. *)
Definition pool_safe {A} (Q : nat → Res Exn A → P → Prop) (ts : list (Act W A)) (w : W) :
    Prop :=
  ∃ ps, Inv w ps ∧ length ps = length ts ∧
    ∀ i m, ts !! i = Some m → ∃ p, ps !! i = Some p ∧ safe i p m (Q i).

Lemma pool_step_safe {A} Q (ts ts' : list (Act W A)) w w' :
  pool_safe Q ts w → step (ts, w) (ts', w') → pool_safe Q ts' w'.
Proof.
  intros (ps & Hinv & Hlen & Hts) Hstep.
  inversion Hstep as [i ts0 f w0 w1 m' Hi Hf]; subst.
  destruct (Hts i _ Hi) as (p & Hp & Hsafe). simpl in Hsafe.
  specialize (Hsafe w ps Hinv Hp). rewrite Hf in Hsafe.
  destruct Hsafe as (p' & Hinv' & Hsafe). exists (<[i := p']> ps).
  split; [done|]. split; [by rewrite !length_insert|].
  intros j m Hj. destruct (decide (i = j)) as [<-|Hij].
  - apply lookup_lt_Some in Hi as Hlt. rewrite list_lookup_insert_eq in Hj by done.
    injection Hj as <-. exists p'. split; [|done].
    apply list_lookup_insert_eq. by rewrite Hlen.
  - rewrite list_lookup_insert_ne in Hj by done. rewrite list_lookup_insert_ne by done.
    by apply Hts.
Qed.

Lemma pool_steps_safe {A} Q (c c' : list (Act W A) * W) :
  rtc step c c' → pool_safe Q c.1 c.2 → pool_safe Q c'.1 c'.2.
Proof.
  induction 1 as [c|[ts w] [ts1 w1] c' Hstep _ IH]; intros Hsafe; [done|].
  apply IH. by eapply pool_step_safe.
Qed.

(** No deadlock: a pool of safe threads that has come to rest has finished. *)
Lemma pool_rest {A} Q (ts : list (Act W A)) w :
  pool_safe Q ts w → (∀ i r p, Q i r p → ¬ Busy p) →
  nf step (ts, w) → ∃ rs, ts = map Done rs.
Proof.
  intros (ps & Hinv & Hlen & Hts) HQ Hrest.
  assert (∀ i f, ts !! i = Some (Step f) → f w = None) as Hwait.
  { intros i f Hi. destruct (f w) as [[w' m']|] eqn:Hf; [|done].
    destruct Hrest. eexists. by econstructor. }
  assert (∀ i m, ts !! i = Some m → ∃ r, m = Done r) as Hdone.
  { intros i [r|f] Hi; [by eexists|exfalso].
    destruct (Hts i _ Hi) as (p & Hp & Hsafe). specialize (Hsafe w ps Hinv Hp).
    rewrite (Hwait i f Hi) in Hsafe. destruct Hsafe as (_ & q & [j Hq]%list_elem_of_lookup & Hbusy).
    destruct (lookup_lt_is_Some_2 ts j) as [m Hj].
    { rewrite <- Hlen. by eapply lookup_lt_Some. }
    destruct (Hts j m Hj) as (q' & Hq' & Hsafe'). rewrite Hq in Hq'. injection Hq' as <-.
    destruct m as [r|g]; [by eapply HQ|]. specialize (Hsafe' w ps Hinv Hq).
    rewrite (Hwait j g Hj) in Hsafe'. by destruct Hsafe'. }
  clear -Hdone. induction ts as [|m ts IH]; [by exists []|].
  destruct (Hdone 0%nat m eq_refl) as [r ->]. destruct IH as [rs ->].
  { intros i m Hi. by apply (Hdone (S i)). }
  by exists (r :: rs).
Qed.
End protocol.
End Pool.
