(* ===== verification/RateLimit.v ===== *)
(** * The token bucket: [src/acme_adcs_ra/rate_limit.py]

    A Python float is a binary64: [spec_float] of the Standard Library, with
    its rounding.  The clock counts nanoseconds, which [time.monotonic]
    divides by 10^9. *)

From S2P Require Import Prelude PyStr Exn.
From Stdlib Require Import SpecFloat.
Local Open Scope Z_scope.

Definition prec : Z := 53.
Definition emax : Z := 1024.
Definition float_of_int (z : Z) : spec_float := binary_normalize prec emax z 0 false.
Definition fadd : spec_float → spec_float → spec_float := SFadd prec emax.
Definition fsub : spec_float → spec_float → spec_float := SFsub prec emax.
Definition fmul : spec_float → spec_float → spec_float := SFmul prec emax.
Definition fdiv : spec_float → spec_float → spec_float := SFdiv prec emax.

(** [min(a, b)] and [max(a, b)] keep the first of two that do not compare. *)
Definition fmin (a b : spec_float) : spec_float := if SFltb b a then b else a.
Definition fmax (a b : spec_float) : spec_float := if SFltb a b then b else a.

(** [int(x)]: toward zero; it raises on an infinity or a NaN. *)
Definition int_of_float (x : spec_float) : Res Exn Z :=
  match x with
  | S754_zero _ => Ok 0
  | S754_finite s m e =>
    let z := if 0 <=? e then Z.pos m * 2 ^ e else Z.pos m / 2 ^ (- e) in
    Ok (if s then - z else z)
  | S754_infinity _ => Raise (OtherException "OverflowError")
  | S754_nan => Raise ValueError
  end.

Definition monotonic (ns : Z) : spec_float := fdiv (float_of_int ns) (float_of_int (10 ^ 9)).

(** [TokenBucket] *)
Record TokenBucket := {
  capacity : spec_float;
  refill : spec_float;
  tokens : spec_float;
  updated : spec_float;
}.

(** [TokenBucket.__init__] *)
Definition make_bucket (cap : Z) (refill_per_second now : spec_float) : Res Exn TokenBucket :=
  if cap <? 1 then Raise ValueError
  else if SFleb refill_per_second (S754_zero false) then Raise ValueError
  else Ok {| capacity := float_of_int cap; refill := refill_per_second;
             tokens := float_of_int cap; updated := now |}.

(** The refill of [take] *)
Definition refilled (now : spec_float) (b : TokenBucket) : TokenBucket :=
  let elapsed := fsub now (updated b) in
  if SFltb (S754_zero false) elapsed then
    {| capacity := capacity b; refill := refill b;
       tokens := fmin (capacity b) (fadd (tokens b) (fmul elapsed (refill b)));
       updated := now |}
  else b.

(** [TokenBucket.take], of one token *)
Definition take_token (now : spec_float) (b : TokenBucket) : bool * TokenBucket :=
  let b := refilled now b in
  if SFltb (tokens b) (float_of_int 1) then (false, b)
  else (true, {| capacity := capacity b; refill := refill b;
                 tokens := fsub (tokens b) (float_of_int 1); updated := updated b |}).

(** [TokenBucket.retry_after_seconds] *)
Definition retry_after_seconds (b : TokenBucket) : Res Exn Z :=
  let deficit := fmax (S754_zero false) (fsub (float_of_int 1) (tokens b)) in
  (whole ←? int_of_float (fdiv deficit (refill b)); Ok (Z.max 1 (whole + 1)))%res.

(** A bucket of two refilled at half a token per second. *)
Section example.
Let half : spec_float := fdiv (float_of_int 1) (float_of_int 2).
Let bucket : TokenBucket :=
  {| capacity := float_of_int 2; refill := half; tokens := float_of_int 2;
     updated := float_of_int 0 |}.
Let after (ts : list Z) : list bool * TokenBucket :=
  fold_left (λ acc t, let '(ok, b) := take_token (monotonic (t * 10 ^ 9)) acc.2 in
                      (acc.1 ++ [ok], b)) ts ([], bucket).

Example take_ex : (after [0; 0; 0; 1; 2; 3]).1 = [true; true; false; false; true; false].
Proof. by vm_compute. Qed.
Example retry_ex : retry_after_seconds (after [0; 0; 0]).2 = Ok 3.
Proof. by vm_compute. Qed.
End example.

(** The wait is at least a second. *)
Lemma retry_after_positive b n : retry_after_seconds b = inr n → 1 ≤ n.
Proof.
  unfold retry_after_seconds. destruct (int_of_float _) as [|whole]; simpl; [done|].
  intros [= <-]. lia.
Qed.
