(* ===== verification/World.v ===== *)
(** * The server's shared state: [src/acme_adcs_ra/app_state.py]

    [ServerContext] as a configuration ([Config]) and a mutable [World]: the
    database, the process-wide registries, locks and latches, the state of the
    denial coalescer, and what the program does to the outside (requests to
    the CA, calls of the audit hook, error log lines).

    What the environment decides is part of the world too: the clocks, the
    store failures ([w_faults], one entry per transaction), the CA's answers
    ([w_ca], one per request) and the uuids.  Theorems quantify over it. *)

From S2P Require Import Prelude PyStr Exn Json Policy Sql Db Act StoreAudit RateLimit.
From Stdlib Require Import SpecFloat.
Local Open Scope Z_scope.

(** The fields of [RAConfig] the modelled code reads. *)
Record Config := {
  base_url : string;
  eab_allowlist : list (string * string);   (* kid, base64url of the MAC key *)
  allow_weak_credentials : bool;
  terms_of_service : option string;
  policy : IssuancePolicy;
  max_accounts_per_eab_kid : Z;
  order_expiry_seconds : Z;
  max_identifiers_per_order : Z;
  max_csr_size_bytes : Z;
  max_jws_body_size_bytes : Z;
  rate_limit_orders_per_window : Z;
  rate_limit_window_seconds : Z;
  rate_limit_global_per_window : Z;
  rate_limit_overrides : list (string * Z);
  rate_limit_key_changes_per_window : Z;
  reclaim_minimum_processing_age_seconds : Z;
  adcs_enrollment_max_pending : Z;
  audit_denial_coalesce_window_seconds : Z;
  audit_hook_configured : bool;
  admin_token : string;
  revocation_confirm_token : string;
  nonce_rate_limit_burst : Z;
  nonce_rate_limit_per_second : spec_float;
}.
Class ServerConfig := config : Config.

(** The keys of [eab_keys_by_kid()] *)
Definition eab_kids (c : Config) : list string := (eab_allowlist c).*1.

(** [uuid.uuid4()], by the number of draws before it. *)
Class UuidSource := uuid4 : nat → string.

(** ** The parts of the world *)

(** [_Window] of audit_coalesce.py; times are the monotonic clock's. *)
Module Window.
Record t := {
  audit_id : Z;
  opened_at : Z;
  last_touch : Z;
  first_seen : string;
  last_seen : string;
  base_details : dict;
  count : Z;
  kid_samples : list string;
  distinct_kids : list string;
  distinct_kids_truncated : bool;
}.
End Window.
Definition WindowKey : Type := string * string * string * string.

(** [EnrollmentResult] *)
Record EnrollmentResult := {
  er_cert_pem : string;
  er_chain_pem : list string;
  er_template : string;
  er_requester : string;
  er_metadata : dict;
}.

(** What a transaction may run into besides the program's own exceptions. *)
Inductive StoreFault :=
  | SqliteFault (msg : string)
  | FileSystemFault (msg : string).
Definition fault_exn (f : StoreFault) : Exn :=
  match f with
  | SqliteFault msg => OperationalError msg
  | FileSystemFault msg => OSError msg
  end.

(** What one [submit_csr] comes back with. *)
Inductive CaAnswer :=
  | CaIssues (r : EnrollmentResult)
  | CaRaises (e : Exn).

(** A request to the CA, with the order and lease it is made for. *)
Record Submission := {
  sub_order : string;
  sub_generation : Z;
  sub_account : string;
  sub_csr : string;
  sub_sans : list string;
}.

(** A certificate the CA has issued: its bytes when the RA received them, and
    the order it was requested for. *)
Record Issued := {
  iss_order : string;
  iss_pem : option string;
}.

(** An event handed to [audit_hook]: a committed row, or the hand-built one of
    [_emergency_issuance_orphan]. *)
Inductive SiemEvent :=
  | RowEvent (row : Audit.t)
  | EmergencyEvent (timestamp : Z) (event : AuditArgs).

(** The log lines at level error and above that name a certificate. *)
Inductive LogLine :=
  | LogQuarantined (serial : option string) (order_id : string)
  | LogQuarantineFailed (order_id : string)
  | LogNotRetrieved (req_id : option string) (order_id : string)
  | LogOrphaned (serial req_id order_id : string)
  | LogNoHook (serial : string)
  | LogPendingUnrecorded (req_id order_id : string)
  | LogLostRace (order_id cert_id : string).

Record World := MkWorld {
  w_db : Db;
  w_now : Z;                                (* the wall clock *)
  w_mono : Z;                               (* [time.monotonic] *)
  w_uuids : nat;                            (* uuids drawn *)
  w_faults : list (option StoreFault);      (* what the next transactions hit *)
  w_ca : list CaAnswer;                     (* what the CA will answer *)
  w_submitted : list Submission;            (* requests sent, in order *)
  w_inflight : list Submission;             (* ... and not yet answered *)
  w_issued : list Issued;                   (* certificates issued, in order *)
  w_active : gmap string Z;                 (* [ActiveEnrollments._active] *)
  w_locks : gset string;                    (* account locks held *)
  w_gate_pending : Z;                       (* [EnrollmentGate._pending] *)
  w_gate_closed : bool;
  w_halt : option string;                   (* [IssuanceHalt._reason] *)
  w_windows : list (WindowKey * Window.t);    (* [DenialCoalescer._windows] *)
  w_evicted : Z;
  w_emitted : list SiemEvent;               (* calls of the audit hook *)
  w_log : list LogLine;
  w_bucket : option TokenBucket;            (* [nonce_bucket] *)
  w_spent : gset nat;                       (* [request.state.acme_nonce_consumed] *)
}.

(** ** Setters *)

Section setters.
Implicit Type w : World.
Definition set_db x w := MkWorld x (w_now w) (w_mono w) (w_uuids w) (w_faults w) (w_ca w)
  (w_submitted w) (w_inflight w) (w_issued w) (w_active w) (w_locks w) (w_gate_pending w)
  (w_gate_closed w) (w_halt w) (w_windows w) (w_evicted w) (w_emitted w) (w_log w) (w_bucket w) (w_spent w).
Definition set_clock now mono w := MkWorld (w_db w) now mono (w_uuids w) (w_faults w) (w_ca w)
  (w_submitted w) (w_inflight w) (w_issued w) (w_active w) (w_locks w) (w_gate_pending w)
  (w_gate_closed w) (w_halt w) (w_windows w) (w_evicted w) (w_emitted w) (w_log w) (w_bucket w) (w_spent w).
Definition set_uuids x w := MkWorld (w_db w) (w_now w) (w_mono w) x (w_faults w) (w_ca w)
  (w_submitted w) (w_inflight w) (w_issued w) (w_active w) (w_locks w) (w_gate_pending w)
  (w_gate_closed w) (w_halt w) (w_windows w) (w_evicted w) (w_emitted w) (w_log w) (w_bucket w) (w_spent w).
Definition set_faults x w := MkWorld (w_db w) (w_now w) (w_mono w) (w_uuids w) x (w_ca w)
  (w_submitted w) (w_inflight w) (w_issued w) (w_active w) (w_locks w) (w_gate_pending w)
  (w_gate_closed w) (w_halt w) (w_windows w) (w_evicted w) (w_emitted w) (w_log w) (w_bucket w) (w_spent w).
Definition set_ca ca submitted inflight issued w :=
  MkWorld (w_db w) (w_now w) (w_mono w) (w_uuids w) (w_faults w) ca
  submitted inflight issued (w_active w) (w_locks w) (w_gate_pending w)
  (w_gate_closed w) (w_halt w) (w_windows w) (w_evicted w) (w_emitted w) (w_log w) (w_bucket w) (w_spent w).
Definition set_active x w := MkWorld (w_db w) (w_now w) (w_mono w) (w_uuids w) (w_faults w)
  (w_ca w) (w_submitted w) (w_inflight w) (w_issued w) x (w_locks w) (w_gate_pending w)
  (w_gate_closed w) (w_halt w) (w_windows w) (w_evicted w) (w_emitted w) (w_log w) (w_bucket w) (w_spent w).
Definition set_locks x w := MkWorld (w_db w) (w_now w) (w_mono w) (w_uuids w) (w_faults w)
  (w_ca w) (w_submitted w) (w_inflight w) (w_issued w) (w_active w) x (w_gate_pending w)
  (w_gate_closed w) (w_halt w) (w_windows w) (w_evicted w) (w_emitted w) (w_log w) (w_bucket w) (w_spent w).
Definition set_gate pending closed w := MkWorld (w_db w) (w_now w) (w_mono w) (w_uuids w)
  (w_faults w) (w_ca w) (w_submitted w) (w_inflight w) (w_issued w) (w_active w) (w_locks w)
  pending closed (w_halt w) (w_windows w) (w_evicted w) (w_emitted w) (w_log w) (w_bucket w) (w_spent w).
Definition set_halt x w := MkWorld (w_db w) (w_now w) (w_mono w) (w_uuids w) (w_faults w)
  (w_ca w) (w_submitted w) (w_inflight w) (w_issued w) (w_active w) (w_locks w)
  (w_gate_pending w) (w_gate_closed w) x (w_windows w) (w_evicted w) (w_emitted w) (w_log w) (w_bucket w) (w_spent w).
Definition set_windows x evicted w := MkWorld (w_db w) (w_now w) (w_mono w) (w_uuids w)
  (w_faults w) (w_ca w) (w_submitted w) (w_inflight w) (w_issued w) (w_active w) (w_locks w)
  (w_gate_pending w) (w_gate_closed w) (w_halt w) x evicted (w_emitted w) (w_log w) (w_bucket w) (w_spent w).
Definition set_emitted x w := MkWorld (w_db w) (w_now w) (w_mono w) (w_uuids w) (w_faults w)
  (w_ca w) (w_submitted w) (w_inflight w) (w_issued w) (w_active w) (w_locks w)
  (w_gate_pending w) (w_gate_closed w) (w_halt w) (w_windows w) (w_evicted w) x (w_log w) (w_bucket w) (w_spent w).
Definition set_log x w := MkWorld (w_db w) (w_now w) (w_mono w) (w_uuids w) (w_faults w)
  (w_ca w) (w_submitted w) (w_inflight w) (w_issued w) (w_active w) (w_locks w)
  (w_gate_pending w) (w_gate_closed w) (w_halt w) (w_windows w) (w_evicted w) (w_emitted w) x (w_bucket w) (w_spent w).
Definition set_bucket x w := MkWorld (w_db w) (w_now w) (w_mono w) (w_uuids w)
  (w_faults w) (w_ca w) (w_submitted w) (w_inflight w) (w_issued w) (w_active w) (w_locks w)
  (w_gate_pending w) (w_gate_closed w) (w_halt w) (w_windows w) (w_evicted w) (w_emitted w)
  (w_log w) x (w_spent w).
Definition set_spent x w := MkWorld (w_db w) (w_now w) (w_mono w) (w_uuids w)
  (w_faults w) (w_ca w) (w_submitted w) (w_inflight w) (w_issued w) (w_active w) (w_locks w)
  (w_gate_pending w) (w_gate_closed w) (w_halt w) (w_windows w) (w_evicted w) (w_emitted w)
  (w_log w) (w_bucket w) x.
End setters.

(** ** Effects

    An [Eff] is what one atomic action does: it may raise, and keeps the state
    it had reached when it did, as Python does. *)

Definition Eff (A : Type) : Type := World → Res Exn A * World.
#[export] Instance eff_ret : MRet Eff := λ A x w, (inr x, w).
#[export] Instance eff_bind : MBind Eff := λ A B k m w,
  match m w with
  | (inl e, w') => (inl e, w')
  | (inr x, w') => k x w'
  end.
Definition eff_get {A} (f : World → A) : Eff A := λ w, (inr (f w), w).
Definition eff_modify (f : World → World) : Eff unit := λ w, (inr tt, f w).

(** One transaction of the store, which an environment fault may fail. *)
Definition store {A} (m : Tx A) : Eff A := λ w,
  match w_faults w with
  | Some f :: fs => (inl (fault_exn f), set_faults fs w)
  | None :: fs => let '(r, d) := transact m (w_db w) in (r, set_db d (set_faults fs w))
  | [] => let '(r, d) := transact m (w_db w) in (r, set_db d w)
  end.

(** A call of a store method of one transaction: it reads the clock itself. *)
Definition db {A} (m : Z → Tx A) : Act World A :=
  act_atomic (λ w, store (m (w_now w)) w).
#[export] Instance world_runner : TxRunner World := λ A m, act_atomic (store m).

(** [emit_audit_hook]: nothing when no hook is configured, and a hook that
    raises is only logged. *)
Definition emit `{ServerConfig} (ev : SiemEvent) (w : World) : World :=
  if audit_hook_configured config then set_emitted (w_emitted w ++ [ev]) w else w.
Definition emit_audit_hook `{ServerConfig} (row : Audit.t) : Act World unit :=
  act_modify (emit (RowEvent row)).

(** [logger.error] and above *)
Definition log (line : LogLine) : Act World unit :=
  act_modify (λ w, set_log (w_log w ++ [line]) w).

(** [n] uuids, as a function of their index. *)
Definition fresh_uuids `{UuidSource} (n : nat) : Act World (nat → string) :=
  act_atomic (λ w, (inr (λ i, uuid4 (w_uuids w + i)%nat), set_uuids (w_uuids w + n)%nat w)).

(** [request.state.acme_nonce_consumed = True] *)
Definition mark_spent (request : nat) : Act World unit :=
  act_modify (λ w, set_spent ({[request]} ∪ w_spent w) w).

(** ** [ActiveEnrollments] *)

Definition active_count (order_id : string) (w : World) : Z :=
  default 0 (w_active w !! order_id).
Definition enrolling_enter (order_id : string) : Act World unit :=
  act_modify (λ w, set_active (<[order_id := active_count order_id w + 1]> (w_active w)) w).
Definition enrolling_exit (order_id : string) : Act World unit :=
  act_modify (λ w,
    let remaining := active_count order_id w - 1 in
    set_active (if 0 <? remaining then <[order_id := remaining]> (w_active w)
                else delete order_id (w_active w)) w).
(** [with ctx.active_enrollments.enrolling(order_id):] *)
Definition enrolling {A} (order_id : string) (body : Act World A) : Act World A :=
  enrolling_enter order_id;; act_finally body (enrolling_exit order_id).
Definition is_active (order_id : string) : Act World bool :=
  act_get (λ w, 0 <? active_count order_id w).

(** ** [AccountIssuanceLocks]

    [submitting] blocks the worker and [mutating] polls; both wait until the
    lock is free and take it. *)
Definition lock_account (account_id : string) : Act World unit :=
  act_await (λ w, bool_decide (account_id ∉ w_locks w))
    (λ w, set_locks ({[account_id]} ∪ w_locks w) w).
Definition unlock_account (account_id : string) : Act World unit :=
  act_modify (λ w, set_locks (w_locks w ∖ {[account_id]}) w).
Definition holding_lock {A} (account_id : string) (body : Act World A) : Act World A :=
  lock_account account_id;; act_finally body (unlock_account account_id).
Abbreviation submitting := holding_lock.
Abbreviation mutating := holding_lock.

(** ** [IssuanceHalt] *)

(** [IssuanceHalt.halt]: the first reason stays. *)
Definition halt (reason : string) : Act World unit :=
  act_modify (λ w, match w_halt w with
                   | None => set_halt (Some reason) w
                   | Some _ => w
                   end).

(** ** [EnrollmentGate] of enrollment.py *)

(** The admission under the state lock. *)
Definition gate_admit `{ServerConfig} : Act World unit :=
  act_atomic (λ w,
    if w_gate_closed w then (inl RuntimeError, w)
    else if adcs_enrollment_max_pending config <=? w_gate_pending w
    then (inl EnrollmentGateBusy, w)
    else (inr tt, set_gate (w_gate_pending w + 1) (w_gate_closed w) w)).
Definition gate_finished : Act World unit :=
  act_modify (λ w, set_gate (w_gate_pending w - 1) (w_gate_closed w) w).
(** [EnrollmentGate.run]: admitted work runs to its end. *)
Definition gate_run `{ServerConfig} {A} (fn : Act World A) : Act World A :=
  gate_admit;; act_finally fn gate_finished.

(** ** The CA

    [EnrollmentLeg.submit_csr] is a protocol; the leg behind it is not under
    the model.  The request leaves in one action and is answered in another. *)

Definition submission_sent (s : Submission) (w : World) : World :=
  set_ca (w_ca w) (w_submitted w ++ [s]) (s :: w_inflight w) (w_issued w) w.

#[export] Instance Submission_eq_dec : EqDecision Submission.
Proof. solve_decision. Defined.

Fixpoint remove_first {A} `{EqDecision A} (x : A) (l : list A) : list A :=
  match l with
  | [] => []
  | y :: l => if decide (y = x) then l else y :: remove_first x l
  end.

(** What an answer means was issued. *)
Definition issued_of (order_id : string) (a : CaAnswer) : list Issued :=
  match a with
  | CaIssues r => [{| iss_order := order_id; iss_pem := Some (er_cert_pem r) |}]
  | CaRaises (EnrollmentTransportError _ (Some _) pem _) =>
    [{| iss_order := order_id; iss_pem := pem |}]
  | CaRaises _ => []
  end.

Definition answer_received (s : Submission) : Eff EnrollmentResult := λ w,
  let a := default (CaRaises (EnrollmentTransportError "" None None [])) (head (w_ca w)) in
  (match a with CaIssues r => inr r | CaRaises e => inl e end,
   set_ca (tail (w_ca w)) (w_submitted w) (remove_first s (w_inflight w))
     (w_issued w ++ issued_of (sub_order s) a) w).

(** [ctx.enrollment.submit_csr] *)
Definition submit_csr (s : Submission) : Act World EnrollmentResult :=
  act_modify (submission_sent s);; act_atomic (answer_received s).

(** ** URLs *)

Section urls.
Context `{ServerConfig}.
Definition url (path : string) : string := rstrip_char "/" (base_url config) +:+ path.
Definition account_url (i : string) : string := url ("/acme/acct/" +:+ i).
Definition order_url (i : string) : string := url ("/acme/order/" +:+ i).
Definition authz_url (i : string) : string := url ("/acme/authz/" +:+ i).
Definition challenge_url (i : string) : string := url ("/acme/challenge/" +:+ i).
Definition finalize_url (i : string) : string := url ("/acme/finalize/" +:+ i).
Definition certificate_url (i : string) : string := url ("/acme/cert/" +:+ i).
Definition account_url_prefix : string := url "/acme/acct".
End urls.
