(* ===== verification/Coalesce.v ===== *)
(** * Coalesced denials: [src/acme_adcs_ra/audit_coalesce.py], and [_audit]

    [DenialCoalescer.record] holds its lock from the lookup of the window to
    the end of its store calls, so it is one action of the server: [coalesce].
    The monotonic clock counts nanoseconds. *)

From S2P Require Import Prelude PyStr Time Exn Json Sha256 AuditBounds Sql Db StoreAudit.
From S2P Require Import Act World.
From stdpp Require Import pretty sorting.
Local Open Scope Z_scope.

Definition COALESCED_EVENT_TYPES : list string :=
  ["account-creation-denied"; "account-request-denied"; "order-rate-limited";
   "key-change-rate-limited"; "finalize-csr-mismatch"; "finalize-policy-denied";
   "finalize-enrollment-admission-denied"; "admin-order-reclaim-not-found";
   "admin-order-reclaim-denied"; "admin-order-reclaim-noop"; "admin-list-orders";
   "admin-revocation-confirm-denied"; "admin-revocation-confirm-deferred";
   "admin-list-pending-revocations"; "revocation-issuer-evidence-recovery"]%string.

Definition GLOBAL_ADMIN_KEY_EVENT_TYPES : list string :=
  ["admin-order-reclaim-not-found"; "admin-order-reclaim-denied";
   "admin-order-reclaim-noop"; "admin-list-orders"; "admin-revocation-confirm-denied";
   "admin-revocation-confirm-deferred"; "admin-list-pending-revocations"]%string.

Definition MAX_KID_SAMPLES : nat := 10.
Definition MAX_OPEN_WINDOWS : nat := 1024.
Definition MAX_DISTINCT_KIDS : nat := 4096.
Definition NANOSECONDS : Z := 1000000000.

(** ** The dict of windows, in insertion order *)

Abbreviation windows := (list (WindowKey * Window.t)).
Fixpoint win_get (k : WindowKey) (ws : windows) : option Window.t :=
  match ws with
  | [] => None
  | kw :: ws => if decide (kw.1 = k) then Some kw.2 else win_get k ws
  end.
Fixpoint win_set (k : WindowKey) (x : Window.t) (ws : windows) : windows :=
  match ws with
  | [] => [(k, x)]
  | kw :: ws => if decide (kw.1 = k) then (k, x) :: ws else kw :: win_set k x ws
  end.
Definition win_pop (k : WindowKey) (ws : windows) : windows := filter (λ kw, kw.1 ≠ k) ws.

(** ** [_Window] *)

(** [_kid_digest] *)
Definition kid_digest (kid : string) : string := "sha256:" +:+ digest16 kid.

(** [_Window.summary] *)
Definition summary (x : Window.t) : dict :=
  [("denial_count", JNum (Window.count x)); ("first_seen", JStr (Window.first_seen x));
   ("last_seen", JStr (Window.last_seen x))]%string.

(** [float(window_seconds)], as [repr] prints it. *)
Definition float_repr (z : Z) : string := pretty z +:+ ".0".

(** Least recently touched first. *)
Definition touched_before (a b : WindowKey * Window.t) : Prop :=
  Window.last_touch a.2 <= Window.last_touch b.2.
#[export] Instance touched_before_dec a b : Decision (touched_before a b).
Proof. unfold touched_before. apply _. Defined.

Section coalescer.
Context `{ServerConfig}.

Definition window_seconds : Z := audit_denial_coalesce_window_seconds config.

(** [(now - w.opened_at) < self._window_seconds] *)
Definition live (now : Z) (x : Window.t) : bool :=
  now - Window.opened_at x <? window_seconds * NANOSECONDS.

(** [_evict_for_new_window], on the windows and the eviction counter *)
Definition evict_for_new_window (now : Z) (ws : windows) (evicted : Z) : windows * Z :=
  if decide (length ws < MAX_OPEN_WINDOWS)%nat then (ws, evicted)
  else
    let ws1 := filter (λ kw, live now kw.2 = true) ws in
    let evicted1 := evicted + Z.of_nat (length ws - length ws1) in
    if decide (length ws1 < MAX_OPEN_WINDOWS)%nat then (ws1, evicted1)
    else
      let n := (length ws1 - MAX_OPEN_WINDOWS + 1)%nat in
      let doomed := map fst (take n (merge_sort touched_before ws1)) in
      (filter (λ kw, kw.1 ∉ doomed) ws1, evicted1 + Z.of_nat n).

(** The counters [_extend] bumps, before the row is rewritten. *)
Definition extended (now : Z) (now_iso : string) (kid : option json) (x : Window.t) :
    Window.t :=
  let '(samples, kids, truncated) :=
    match kid with
    | Some (JStr kid) =>
      let digest := kid_digest kid in
      if decide (digest ∈ Window.distinct_kids x)
      then (Window.kid_samples x, Window.distinct_kids x, Window.distinct_kids_truncated x)
      else if decide (length (Window.distinct_kids x) < MAX_DISTINCT_KIDS)%nat then
        (if decide (length (Window.kid_samples x) < MAX_KID_SAMPLES)%nat
         then Window.kid_samples x ++ [digest] else Window.kid_samples x,
         Window.distinct_kids x ++ [digest], Window.distinct_kids_truncated x)
      else (Window.kid_samples x, Window.distinct_kids x, true)
    | _ => (Window.kid_samples x, Window.distinct_kids x, Window.distinct_kids_truncated x)
    end in
  {| Window.audit_id := Window.audit_id x;
     Window.opened_at := Window.opened_at x;
     Window.last_touch := now;
     Window.first_seen := Window.first_seen x;
     Window.last_seen := now_iso;
     Window.base_details := Window.base_details x;
     Window.count := Window.count x + 1;
     Window.kid_samples := samples;
     Window.distinct_kids := kids;
     Window.distinct_kids_truncated := truncated |}.

(** The details [_extend] rewrites the row with. *)
Definition extended_details (x : Window.t) : dict :=
  dict_update (Window.base_details x)
    [("denial_count", JNum (Window.count x));
     ("coalesce_window_seconds", JFloat (float_repr window_seconds));
     ("first_seen", JStr (Window.first_seen x)); ("last_seen", JStr (Window.last_seen x));
     ("kid_digests", JArr (map JStr (Window.kid_samples x)));
     ("distinct_kids", JNum (Z.of_nat (length (Window.distinct_kids x))));
     ("distinct_kids_truncated", JBool (Window.distinct_kids_truncated x))]%string.

(** [_extend]: False when the row is gone. *)
Definition extend (key : WindowKey) (x : Window.t) (kid : option json) : Eff bool := λ w,
  let x' := extended (w_mono w) (iso (w_now w)) kid x in
  store (update_audit_details (Window.audit_id x) (extended_details x'))
    (set_windows (win_set key x' (w_windows w)) (w_evicted w) w).

Definition with_details (d : dict) (a : AuditArgs) : AuditArgs :=
  {| event_type := event_type a; account_id := account_id a; order_id := order_id a;
     sans := sans a; template := template a; requester := requester a;
     outcome := outcome a; details := Some d |}.

(** The details without the coalescer's own markers. *)
Definition clean_details (a : AuditArgs) : dict :=
  dict_pop "coalescer_evictions" (dict_pop "previous_window" (default [] (details a))).

(** The coalescing key. *)
Definition window_key (a : AuditArgs) : WindowKey :=
  let d := clean_details a in
  let reason := py_str (default (JStr "") (dict_get "reason" d)) in
  let reason_key :=
    match dict_get "reason_code" d with
    | None | Some JNull => reason
    | Some code => py_str code
    end in
  let global := bool_decide (event_type a ∈ GLOBAL_ADMIN_KEY_EVENT_TYPES) in
  (event_type a, reason_key,
   if global then EmptyString else default EmptyString (account_id a),
   if global then EmptyString else default EmptyString (order_id a)).

(** The window a fresh row opens. *)
Definition fresh_window (now : Z) (kid : option json) (row : Audit.t) : Window.t :=
  let kids := match kid with Some (JStr kid) => [kid_digest kid] | _ => [] end in
  {| Window.audit_id := Audit.id row;
     Window.opened_at := now;
     Window.last_touch := now;
     Window.first_seen := iso (Audit.timestamp row);
     Window.last_seen := iso (Audit.timestamp row);
     Window.base_details := Audit.details row;
     Window.count := 1;
     Window.kid_samples := take MAX_KID_SAMPLES kids;
     Window.distinct_kids := kids;
     Window.distinct_kids_truncated := false |}.

(** The details of a row that opens a window. *)
Definition opening_details (d : dict) (closed : option dict) (evicted : Z) : dict :=
  let d := dict_set "denial_count" (JNum 1) d in
  let d := dict_set "coalesce_window_seconds" (JFloat (float_repr window_seconds)) d in
  let d := match closed with
           | Some s => dict_set "previous_window" (JObj s) d
           | None => d
           end in
  if evicted =? 0 then d else dict_set "coalescer_evictions" (JNum evicted) d.

(** The half of [record] that opens a new window. *)
Definition open_window (now : Z) (key : WindowKey) (a : AuditArgs) (closed : option dict) :
    Eff (option Audit.t) := λ w,
  let d := clean_details a in
  let '(ws, evicted) := evict_for_new_window now (w_windows w) (w_evicted w) in
  (row ← store (record_audit (w_now w)
           (with_details (opening_details d closed evicted) a));
   eff_modify (λ w,
     set_windows (win_set key (fresh_window now (dict_get "kid" d) row) (w_windows w))
       (w_evicted w) w);;
   mret (Some row)) (set_windows ws evicted w).

(** [DenialCoalescer.record]: the new row, or None when it was folded. *)
Definition coalesce (a : AuditArgs) : Eff (option Audit.t) := λ w,
  if negb (0 <? window_seconds) || negb (bool_decide (event_type a ∈ COALESCED_EVENT_TYPES))
  then (row ← store (record_audit (w_now w) a); mret (Some row)) w
  else
    let key := window_key a in
    let kid := dict_get "kid" (clean_details a) in
    let now := w_mono w in
    match win_get key (w_windows w) with
    | Some x =>
      if live now x then
        (kept ← extend key x kid;
         if kept : bool then mret None
         else
           eff_modify (λ w, set_windows (win_pop key (w_windows w)) (w_evicted w) w);;
           open_window now key a None) w
      else open_window now key a (Some (summary x)) w
    | None => open_window now key a None w
    end.

(** [_audit] of app_state.py: one row, or a fold, then the hook. *)
Definition audit_event (a : AuditArgs) : Eff unit :=
  row ← coalesce a;
  match row with
  | None => mret tt
  | Some row => eff_modify (emit (RowEvent row))
  end.
Definition audit (a : AuditArgs) : Act World unit := act_atomic (audit_event a).

(** [DenialCoalescer.close] *)
Definition close_windows (w : World) : World := set_windows [] (w_evicted w) w.
End coalescer.

(** The keyword arguments of an [_audit] call, most of them defaulted. *)
Definition event (event_type outcome : string) (account_id order_id : option string)
    (sans : list string) (template : option string) (details : dict) : AuditArgs :=
  {| StoreAudit.event_type := event_type; StoreAudit.account_id := account_id;
     StoreAudit.order_id := order_id; StoreAudit.sans := sans;
     StoreAudit.template := template; StoreAudit.requester := None;
     StoreAudit.outcome := outcome; StoreAudit.details := Some details |}.
