(* ===== verification/X509.v ===== *)
(** * Certificates as the store reads them, and the serial it keys them on

    The X.509 parser of the cryptography package is a parameter.  The hex
    presentation of a serial number is the code's own. *)

From S2P Require Import Prelude PyStr Exn.
Local Open Scope Z_scope.
Local Open Scope res_scope.

(** [x509.GeneralName], with the value of the one kind the code reads. *)
Inductive GeneralName :=
  | DNSName (value : string)
  | RFC822Name | IPAddress | UniformResourceIdentifier | OtherName | RegisteredID
  | DirectoryName.
#[export] Instance GeneralName_eq_dec : EqDecision GeneralName.
Proof. solve_decision. Defined.

(** The extensions the code looks up by OID.  [None]: not present.  For the
    ones whose value it type-checks, [Some None] is a value of another type. *)
Record Extensions := {
  subject_alternative_name : option (list GeneralName);
  basic_constraints : option (option bool);             (* ca *)
  key_usage : option (option (bool * bool));            (* key_cert_sign, crl_sign *)
  extended_key_usage : option (option (list string));   (* dotted OIDs *)
  ms_application_policies : bool;                       (* 1.3.6.1.4.1.311.21.10 *)
}.

(** What [x509.load_pem_x509_certificate] returns, as far as the code looks.
    [.extensions] may raise. *)
Record X509Cert := {
  cert_serial_number : Z;
  not_valid_before_utc : Z;
  not_valid_after_utc : Z;
  cert_extensions : Res Exn Extensions;
}.
Class CertParser := load_pem_x509_certificate : string → Res Exn X509Cert.

(** [csr.public_key()] *)
Inductive CsrKey :=
  | RsaKey (key_size : Z)
  | EcKey (curve_name : string)
  | OtherKey.

(** What [load_der_x509_csr] returns.  The properties that parse lazily may
    raise; a Common Name that is not text is [None]. *)
Record Csr := {
  is_signature_valid : Res Exn bool;
  csr_public_key : Res Exn CsrKey;
  csr_subject_rfc4514 : string;
  csr_common_names : list (option string);
  csr_extensions : Res Exn Extensions;
  csr_pem_text : string;                                (* public_bytes(PEM) *)
}.
Class CsrParser := load_der_x509_csr : list Z → Res Exn Csr.

(** [get_values_for_type(DNSName)] *)
Definition dns_names (names : list GeneralName) : list string :=
  omap (λ gn, match gn with DNSName v => Some v | _ => None end) names.

(** [format(n, "x")] *)
Definition hex_digit (z : Z) : ascii :=
  ascii_of_N (Z.to_N (if z <? 10 then 48 + z else 87 + z)).
Fixpoint hex_digits (fuel : nat) (n : Z) (acc : list ascii) : list ascii :=
  match fuel with
  | O => acc
  | S fuel =>
    let acc := hex_digit (n mod 16) :: acc in
    if n / 16 =? 0 then acc else hex_digits fuel (n / 16) acc
  end.
Definition format_x (n : Z) : string :=
  of_chars ((if n <? 0 then ["-"%char] else [])
            ++ hex_digits (S (Z.to_nat (Z.log2 (Z.abs n)))) (Z.abs n) []).

(** [canonical_serial] *)
Definition canonical_serial (serial_hex : string) : string :=
  let stripped := removeprefix (upper (strip serial_hex)) "0X" in
  let s := lstrip_char "0" stripped in
  if decide (s = EmptyString) then "0" else s.

(** [_serial_from_pem] *)
Definition serial_from_pem `{CertParser} (cert_pem : string) : Res Exn string :=
  cert ←? load_pem_x509_certificate cert_pem;
  Ok (canonical_serial (format_x (cert_serial_number cert))).

(** [_validity_from_pem] *)
Definition validity_from_pem `{CertParser} (cert_pem : string) : Res Exn (Z * Z) :=
  cert ←? load_pem_x509_certificate cert_pem;
  Ok (not_valid_before_utc cert, not_valid_after_utc cert).

Example format_x_ex : map format_x [0; 255; 4096] = ["0"; "ff"; "1000"]%string.
Proof. by vm_compute. Qed.
Example canonical_ex :
  map canonical_serial [" 0x00fF "; "0"; "ff"]%string = ["FF"; "0"; "FF"]%string.
Proof. by vm_compute. Qed.
