(* ===== verification/CsrCheck.v ===== *)
(** * What may be requested and what may be served

    [src/acme_adcs_ra/csr_validation.py], the gates a CSR passes before it
    reaches the CA, and [src/acme_adcs_ra/issued_certificate_validation.py],
    the checks of the certificate that comes back.  Parsing is a parameter
    (X509.v); the gates are the code's own. *)

From S2P Require Import Prelude PyStr Exn Json Policy X509.
Local Open Scope Z_scope.
Local Open Scope res_scope.

(** ** CSR gates *)

(** [if cond: raise bad_csr(...)] *)
Definition reject_if (cond : bool) (e : AcmeError) : Res Exn unit :=
  if cond then Raise (Acme e) else Ok tt.

(** [_reject_non_dns_sans] *)
Definition reject_non_dns_sans (san_value : list GeneralName) : Res Exn unit :=
  res_iter (λ gn, match gn with DNSName _ => Ok tt | _ => Raise (Acme bad_csr) end) san_value.

(** [_reject_wildcard_sans] *)
Definition reject_wildcard_sans (san_values : list string) : Res Exn unit :=
  res_iter (λ san, reject_if (has_char "*" san) bad_csr) san_values.

(** [validate_dns_name(name)] with its ValueError turned into badCSR *)
Definition valid_dns_or_bad_csr (name : string) : Res Exn unit :=
  match validate_dns_name name with
  | inl _ => Raise (Acme bad_csr)
  | inr _ => Ok tt
  end.

(** [_reject_invalid_dns_sans] *)
Definition reject_invalid_dns_sans (san_values : list string) : Res Exn unit :=
  res_iter valid_dns_or_bad_csr san_values.

(** [_validate_csr_key_strength] *)
Definition validate_csr_key_strength (csr : Csr) : Res Exn unit :=
  pub ←? csr_public_key csr;
  match pub with
  | RsaKey key_size => reject_if (key_size <? 2048) bad_csr
  | EcKey name =>
    reject_if (negb (bool_decide (name ∈ ["secp256r1"; "secp384r1"; "secp521r1"]%string))) bad_csr
  | OtherKey => Raise (Acme bad_csr)
  end.

(** [_reject_unrequested_common_names] *)
Definition reject_unrequested_common_names (csr : Csr) (requested_sans : list string) :
    Res Exn unit :=
  let authorized := map normal_name requested_sans in
  res_iter (λ common_name,
    match common_name with
    | None => Raise (Acme bad_csr)
    | Some common_name =>
      valid_dns_or_bad_csr common_name ;;?
      reject_if (negb (bool_decide (normal_name common_name ∈ authorized))) bad_csr
    end) (csr_common_names csr).

Definition SERVER_AUTH : string := "1.3.6.1.5.5.7.3.1".

(** [_reject_ca_capable_csr_extensions] *)
Definition reject_ca_capable_csr_extensions (csr : Csr) : Res Exn unit :=
  ext ←? csr_extensions csr;
  reject_if (match basic_constraints ext with Some (Some ca) => ca | _ => false end) bad_csr ;;?
  reject_if (match key_usage ext with
             | Some (Some (key_cert_sign, crl_sign)) => key_cert_sign || crl_sign
             | _ => false
             end) bad_csr ;;?
  reject_if (match extended_key_usage ext with
             | None => false
             | Some None => true
             | Some (Some oids) => negb (bool_decide (oids = [SERVER_AUTH]))
             end) bad_csr ;;?
  reject_if (ms_application_policies ext) bad_csr.

(** ** The issued certificate *)

Section issued.
Context `{CertParser}.

(** [x509.load_pem_x509_certificate], failures turned into a 500 *)
Definition load_issued (cert_pem : string) : Res Exn X509Cert :=
  match load_pem_x509_certificate cert_pem with
  | inl _ => Raise (Acme server_internal)
  | inr c => Ok c
  end.

(** [_NON_DNS_SAN_TYPES] *)
Definition NON_DNS_SAN_TYPES : list (GeneralName * string) :=
  [(RFC822Name, "RFC822Name (email)"); (IPAddress, "IPAddress");
   (UniformResourceIdentifier, "URI"); (OtherName, "OtherName");
   (RegisteredID, "RegisteredID"); (DirectoryName, "DirectoryName")]%string.

Record SanViolations := {
  issued_dns_sans : list string;
  unauthorized_dns : list string;
  non_dns_san_types : list string;
}.

(** [issued_cert_san_violations] *)
Definition issued_cert_san_violations (cert_pem : string) (requested_sans : list string) :
    Res Exn SanViolations :=
  issued ←? load_issued cert_pem;
  ext ←? cert_extensions issued;
  match subject_alternative_name ext with
  | None => Ok {| issued_dns_sans := []; unauthorized_dns := []; non_dns_san_types := [] |}
  | Some san_value =>
    let issued_dns := dns_names san_value in
    let authorized := map normal_name requested_sans in
    Ok {| issued_dns_sans := issued_dns;
          unauthorized_dns := filter (λ s, normal_name s ∉ authorized) issued_dns;
          non_dns_san_types := map snd (filter (λ tl, tl.1 ∈ san_value) NON_DNS_SAN_TYPES) |}
  end.

(** [_EKU_OID_LABELS] *)
Definition EKU_OID_LABELS : list (string * string) :=
  [("1.3.6.1.5.5.7.3.2", "clientAuth"); ("2.5.29.37.0", "anyExtendedKeyUsage");
   ("1.3.6.1.5.5.7.3.3", "codeSigning"); ("1.3.6.1.5.5.7.3.4", "emailProtection");
   ("1.3.6.1.5.5.7.3.8", "timeStamping"); ("1.3.6.1.4.1.311.20.2.2", "smartcardLogon");
   ("1.3.6.1.5.2.3.3", "pkinitKDC"); ("1.3.6.1.5.2.3.4", "pkinitClientAuth");
   ("1.3.6.1.5.2.3.5", "pkinitServerAuth")]%string.

Definition eku_label (oid : string) : string :=
  match find (λ kv, bool_decide (kv.1 = oid)) EKU_OID_LABELS with
  | Some kv => kv.2 +:+ " (" +:+ oid +:+ ")"
  | None => oid
  end.

(** [issued_cert_eku_violations]; iterating a value that is not an
    ExtendedKeyUsage raises TypeError. *)
Definition issued_cert_eku_violations (cert_pem : string) : Res Exn (list string) :=
  issued ←? load_issued cert_pem;
  ext ←? cert_extensions issued;
  match extended_key_usage ext with
  | None => Ok ["no Extended Key Usage extension (certificate is all-purpose)"%string]
  | Some None => Raise TypeError
  | Some (Some oids) =>
    let non_server := filter (λ o, o ≠ SERVER_AUTH) oids in
    Ok ((if decide (non_server = []) then []
         else [("EKU beyond serverAuth: " +:+ py_repr_list (map eku_label non_server))%string])
        ++ (if decide (SERVER_AUTH ∈ oids) then []
            else ["serverAuth EKU (1.3.6.1.5.5.7.3.1) absent"%string]))
  end.

(** [issued_cert_ca_capability_violations] *)
Definition issued_cert_ca_capability_violations (cert_pem : string) : Res Exn (list string) :=
  issued ←? load_issued cert_pem;
  ext ←? cert_extensions issued;
  Ok ((match basic_constraints ext with
       | Some (Some true) => ["BasicConstraints CA=true"%string]
       | _ => []
       end)
      ++ match key_usage ext with
         | Some (Some (key_cert_sign, crl_sign)) =>
           (if key_cert_sign : bool then ["KeyUsage keyCertSign=true"%string] else [])
           ++ (if crl_sign : bool then ["KeyUsage cRLSign=true"%string] else [])
         | _ => []
         end).

(** ** What the verdicts mean *)

(** A certificate that acts for nobody but the requested DNS names, as a TLS
    server and not as a CA. *)
Record bounded_cert (sans : list string) (ext : Extensions) : Prop := {
  bc_sans : ∀ gn, gn ∈ default [] (subject_alternative_name ext) →
    ∃ name, gn = DNSName name ∧ ∃ s, s ∈ sans ∧ normal_name s = normal_name name;
  bc_eku : ∃ oids, extended_key_usage ext = Some (Some oids)
    ∧ oids ≠ [] ∧ ∀ o, o ∈ oids → o = SERVER_AUTH;
  bc_ca : basic_constraints ext ≠ Some (Some true);
  bc_sign : ∀ kc crl, key_usage ext = Some (Some (kc, crl)) → kc = false ∧ crl = false;
}.

Lemma elem_of_dns_names name san : name ∈ dns_names san ↔ DNSName name ∈ san.
Proof.
  unfold dns_names. rewrite list_elem_of_omap. split.
  - by intros ([] & ? & [= ->]).
  - intros Hin. by exists (DNSName name).
Qed.

(** No violation of any of the three checks, exactly for such certificates. *)
Lemma san_clean_iff sans san :
  (filter (λ s, normal_name s ∉ map normal_name sans) (dns_names san) = []
   ∧ map snd (filter (λ tl, tl.1 ∈ san) NON_DNS_SAN_TYPES) = [])
  ↔ (∀ gn, gn ∈ san →
       ∃ name, gn = DNSName name ∧ ∃ s, s ∈ sans ∧ normal_name s = normal_name name).
Proof.
  assert (∀ name, normal_name name ∈ map normal_name sans
            ↔ ∃ s, s ∈ sans ∧ normal_name s = normal_name name) as Hauth.
  { intros name. rewrite list_elem_of_fmap. naive_solver. }
  rewrite filter_nil_iff. split.
  - intros [Hdns Hother%fmap_nil_inv] gn Hgn. rewrite filter_nil_iff in Hother.
    assert (∀ tl, tl ∈ NON_DNS_SAN_TYPES → tl.1 ≠ gn) as Hno.
    { intros tl Htl <-. by apply (Hother tl). }
    destruct gn as [name| | | | | |];
      try (exfalso; eapply (Hno (_, _)); [|done];
           unfold NON_DNS_SAN_TYPES; repeat first [by left|right]; fail).
    exists name. split; [done|]. apply Hauth, dec_stable. intros Hn.
    apply (Hdns name); [by apply elem_of_dns_names|done].
  - intros Hall. split.
    + intros name Hname Hn. apply elem_of_dns_names in Hname.
      destruct (Hall _ Hname) as (? & [= <-] & Hs). by apply Hn, Hauth.
    + apply (f_equal (map snd)) with (y := []), filter_nil_iff.
      intros tl Htl Hin. destruct (Hall _ Hin) as (name & Heq & _).
      unfold NON_DNS_SAN_TYPES in Htl. repeat (apply elem_of_cons in Htl as [->|Htl]; [done|]).
      by apply not_elem_of_nil in Htl.
Qed.

Lemma eku_clean_iff oids :
  ((if decide (filter (λ o, o ≠ SERVER_AUTH) oids = []) then []
    else [("EKU beyond serverAuth: "
           +:+ py_repr_list (map eku_label (filter (λ o, o ≠ SERVER_AUTH) oids)))%string])
   ++ (if decide (SERVER_AUTH ∈ oids) then []
       else ["serverAuth EKU (1.3.6.1.5.5.7.3.1) absent"%string])) = []
  ↔ oids ≠ [] ∧ ∀ o, o ∈ oids → o = SERVER_AUTH.
Proof.
  case_decide as Hns; rewrite filter_nil_iff in Hns.
  - assert (∀ o, o ∈ oids → o = SERVER_AUTH) as Hall
      by (intros o Ho; apply dec_stable, (Hns o Ho)).
    case_decide as Hsa; simpl; [split; [intros _; split; [|exact Hall]|done]|].
    { intros ->. by apply not_elem_of_nil in Hsa. }
    split; [done|]. intros [Hne _]. destruct oids as [|o oids]; [done|].
    destruct Hsa. rewrite (Hall o) by (by left). by left.
  - split; [by destruct (decide _)|]. intros [_ Hall]. destruct Hns.
    intros o Ho Hne. by apply Hne, Hall.
Qed.

(** All three verifiers of [_finalize_complete] pass. *)
Definition verified (cert_pem : string) (sans : list string) : Prop :=
  (∃ v, issued_cert_san_violations cert_pem sans = inr v
        ∧ unauthorized_dns v = [] ∧ non_dns_san_types v = [])
  ∧ issued_cert_eku_violations cert_pem = inr []
  ∧ issued_cert_ca_capability_violations cert_pem = inr [].

(** What the post-issuance verifiers accept: exactly a certificate that
    parses, whose every subject alternative name is a DNS name among the
    requested ones (case and trailing dots aside), whose extended key usage
    is serverAuth and nothing else, and that is not a CA and signs neither
    certificates nor CRLs. *)
Theorem verified_iff cert_pem sans :
  verified cert_pem sans ↔
  ∃ c ext, load_pem_x509_certificate cert_pem = inr c ∧ cert_extensions c = inr ext
           ∧ bounded_cert sans ext.
Proof.
  unfold verified, issued_cert_san_violations, issued_cert_eku_violations,
    issued_cert_ca_capability_violations, load_issued.
  destruct (load_pem_x509_certificate cert_pem) as [e|c]; simpl.
  { split; [by intros [(? & ? & _) _]|by intros (? & ? & ? & _)]. }
  destruct (cert_extensions c) as [e|ext] eqn:Hext; simpl.
  { split; [by intros [(? & ? & _) _]|intros (? & ? & [= <-] & ? & _); congruence]. }
  assert ((∃ v, match subject_alternative_name ext with
     | None => inr {| issued_dns_sans := []; unauthorized_dns := []; non_dns_san_types := [] |}
     | Some san_value =>
       inr {| issued_dns_sans := dns_names san_value;
              unauthorized_dns := filter (λ s, normal_name s ∉ map normal_name sans)
                                    (dns_names san_value);
              non_dns_san_types := map snd (filter (λ tl, tl.1 ∈ san_value) NON_DNS_SAN_TYPES) |}
     end = @inr Exn _ v ∧ unauthorized_dns v = [] ∧ non_dns_san_types v = [])
   ↔ ∀ gn, gn ∈ default [] (subject_alternative_name ext) →
       ∃ name, gn = DNSName name ∧ ∃ s, s ∈ sans ∧ normal_name s = normal_name name) as ->.
  { destruct (subject_alternative_name ext) as [san|]; simpl.
    - rewrite <- san_clean_iff. naive_solver.
    - split; [intros _ gn Hgn; by apply not_elem_of_nil in Hgn|]. intros _. by eexists. }
  split.
  - intros (Hsan & Heku & Hca). exists c, ext. split_and!; [done..|].
    destruct (extended_key_usage ext) as [[oids|]|] eqn:He; [|done..].
    injection Heku as Heku. apply eku_clean_iff in Heku. injection Hca as Hca.
    split; [done|by eexists|intros Hbc; by rewrite Hbc in Hca|].
    intros kc crl Hku. rewrite Hku in Hca.
    destruct (basic_constraints ext) as [[[]|]|], kc, crl; done.
  - intros (c' & ext' & [= <-] & Hext' & Hb). rewrite Hext in Hext'. injection Hext' as <-.
    destruct Hb as [Hsan (oids & Heku & Hoids) Hca Hsign]. split_and!; [done| |].
    + rewrite Heku. f_equal. by apply eku_clean_iff.
    + f_equal. destruct (basic_constraints ext) as [[[]|]|]; [done| | |];
        (destruct (key_usage ext) as [[[kc crl]|]|]; [|done..]);
        by destruct (Hsign _ _ eq_refl) as [-> ->].
Qed.
End issued.
