(* ===== verification/StoreCerts.v ===== *)
(** * Certificates in [store.py]: issuance, quarantine, revocation *)

From S2P Require Import Prelude PyStr Exn Json Sql Db Act X509 StoreAudit StoreOrders.
From stdpp Require Import sorting.
Local Open Scope Z_scope.

Section certs.
Context `{CertParser}.

(** The INSERT shared by the three writers of [certificates]. *)
Definition cert_row (id order_id account_id cert_pem : string) (chain_pem : list string)
    (template requester : string) (issued_at : Z) (metadata : option dict)
    (serial : string) (status : CertStatus.t) (reason revoked_at : option Z)
    (validity : Z * Z) : Cert.t :=
  {| Cert.id := id; Cert.order_id := order_id; Cert.account_id := account_id;
     Cert.cert_pem := cert_pem;
     Cert.chain_pem := dump_json (JArr (map JStr chain_pem));
     Cert.template := template; Cert.requester := requester;
     Cert.issued_at := issued_at; Cert.metadata := default [] metadata;
     Cert.serial_number := Some serial; Cert.status := status;
     Cert.revocation_reason := reason; Cert.revoked_at := revoked_at;
     Cert.ca_crl_updated := false;
     Cert.not_before := Some validity.1; Cert.not_after := Some validity.2 |}.

(** [Store._certificate_from_row]: a [chain_pem] that is not JSON raises. *)
Definition certificate_from_row (row : Cert.t) : Res Exn Cert.t :=
  match load_json (Cert.chain_pem row) with
  | inl e => inl e
  | inr _ => inr row
  end.
Definition certificate_from_opt (row : option Cert.t) : Tx (option Cert.t) :=
  match row with
  | None => mret None
  | Some row => c ← tx_of_res (certificate_from_row row); mret (Some c)
  end.

(** [Store.get_certificate_by_order] *)
Definition get_certificate_by_order (order_id : string) : Tx (option Cert.t) :=
  row ← tx_fetchone certificates
    (λ c, Cert.order_id c = order_id ∧ Cert.status c ≠ CertStatus.QUARANTINED);
  certificate_from_opt row.

(** [Store.create_certificate]; [id] is its uuid. *)
Definition create_certificate (now : Z) (id order_id account_id cert_pem : string)
    (chain_pem : list string) (template requester : string) (metadata : option dict) :
    Tx Cert.t :=
  serial ← tx_of_res (serial_from_pem cert_pem);
  validity ← tx_of_res (validity_from_pem cert_pem);
  let row := cert_row id order_id account_id cert_pem chain_pem template requester now
               metadata serial CertStatus.VALID None None validity in
  insert_cert row;;
  mret row.

(** The arguments of an issuance or quarantine that go to the audit row. *)
Definition issuance_audit (event_type account_id order_id template requester : string)
    (sans : list string) (outcome : string) (details : dict) : AuditArgs :=
  {| event_type := event_type; account_id := Some account_id;
     order_id := Some order_id; sans := sans; template := Some template;
     requester := Some requester; outcome := outcome; details := Some details |}.

(** [url.rsplit("/", 1)[-1]] *)
Definition rsplit_slash (url : string) : string :=
  default EmptyString (last (PyStr.split "/" url)).

(** [winner["certificate_url"]], when there is one, cut to the id. *)
Definition winner_certificate_id (winner : option Order.t) : json :=
  match winner ≫= Order.certificate_url with
  | Some url => if decide (url = EmptyString) then JNull else JStr (rsplit_slash url)
  | None => JNull
  end.

(** The transaction of [Store.record_issuance]. *)
Definition record_issuance_in_conn (now : Z) (existing : option Cert.t)
    (cert_id : string) (issued_at : Z) (order_id account_id cert_pem : string)
    (chain_pem : list string) (template requester : string) (metadata : option dict)
    (serial : string) (validity : Z * Z) (certificate_url : string)
    (sans : list string) (csr_subject : string) (expected_generation : option Z) :
    Tx (bool * Audit.t) :=
  match existing with
  | Some _ => mret tt
  | None => insert_cert
      (cert_row cert_id order_id account_id cert_pem chain_pem template requester
         issued_at metadata serial CertStatus.VALID None None validity)
  end;;
  rowcount ← update_orders (processing_cas order_id expected_generation)
    (λ o, Order.set_certificate_url (Some certificate_url)
            (Order.set_status OrderStatus.VALID o));
  let audit := λ event_type outcome details,
    issuance_audit event_type account_id order_id template requester sans outcome details in
  if rowcount =? 1 then
    event ← record_audit_in_conn now (audit "certificate-issued" "success"
      [("certificate_id", JStr cert_id); ("serial", JStr serial);
       ("csr_subject", JStr csr_subject)]%string);
    mret (true, event)
  else
    winner ← get_order order_id;
    event ← record_audit_in_conn now (audit "finalize-enrollment-race" "failed"
      [("certificate_id", JStr cert_id); ("serial", JStr serial);
       ("winner_certificate_id", winner_certificate_id winner);
       ("reason", JStr "lost-processing-cas")]%string);
    mret (false, event).

(** [Store.record_issuance]: the lookup is a transaction of its own. *)
Definition record_issuance {W} `{TxRunner W} (now : Z) (uuid order_id account_id cert_pem : string)
    (chain_pem : list string) (template requester : string) (metadata : option dict)
    (certificate_url_fn : string → string) (sans : list string) (csr_subject : string)
    (expected_generation : option Z) : Act W (Cert.t * bool * Audit.t) :=
  existing ← run_tx (get_certificate_by_order order_id);
  let cert_id := from_option Cert.id uuid existing in
  let issued_at := from_option Cert.issued_at now existing in
  serial ← act_of_res (serial_from_pem cert_pem);
  validity ← act_of_res (validity_from_pem cert_pem);
  res ← run_tx (record_issuance_in_conn now existing cert_id issued_at order_id account_id
              cert_pem chain_pem template requester metadata serial validity
              (certificate_url_fn cert_id) sans csr_subject expected_generation);
  mret (cert_row cert_id order_id account_id cert_pem chain_pem template requester
          issued_at metadata serial CertStatus.VALID None None validity, res.1, res.2).

(** [(metadata or {}).get("req_id", "")] *)
Definition metadata_req_id (metadata : option dict) : json :=
  default (JStr EmptyString) (dict_get "req_id" (default [] metadata)).

(** [Store.quarantine_certificate] *)
Definition quarantine_certificate (now : Z) (uuid order_id account_id cert_pem : string)
    (chain_pem : list string) (template requester : string) (metadata : option dict)
    (event_type : string) (violations : list string) (reason : string)
    (sans : list string) (extra_details : option dict) : Tx (Cert.t * Audit.t) :=
  serial ← tx_of_res (serial_from_pem cert_pem);
  validity ← tx_of_res (validity_from_pem cert_pem);
  let row := cert_row uuid order_id account_id cert_pem chain_pem template requester now
               metadata serial CertStatus.QUARANTINED (Some 0) (Some now) validity in
  insert_cert row;;
  update_orders (has_status_in order_id OrderStatus.PROCESSING OrderStatus.READY)
    (Order.set_status OrderStatus.INVALID);;
  event ← record_audit_in_conn now
    (issuance_audit event_type account_id order_id template requester sans "failed"
       (dict_update
         [("certificate_id", JStr uuid); ("serial", JStr serial);
          ("req_id", metadata_req_id metadata);
          ("violations", JArr (map JStr violations)); ("reason", JStr reason);
          ("quarantined", JBool true); ("pending_ca_revocation", JBool true)]%string
         (default [] extra_details)));
  mret (row, event).

(** [Store.get_certificate] *)
Definition get_certificate (cert_id : string) : Tx (option Cert.t) :=
  row ← tx_fetchone certificates (λ c, Cert.id c = cert_id);
  certificate_from_opt row.

(** [Store.get_certificate_by_serial] *)
Definition get_certificate_by_serial (serial_hex : string) (account_id : option string) :
    Tx (option Cert.t) :=
  let lookup := canonical_serial serial_hex in
  row ← tx_fetchone certificates
    (λ c, Cert.serial_number c = Some lookup
          ∧ (account_id = None ∨ Some (Cert.account_id c) = account_id));
  certificate_from_opt row.

(** [RevocationUpdate] *)
Record RevocationUpdate := { record : option Cert.t; won_cas : bool }.

(** [id = ? AND status = 'valid'] *)
Definition revocable (cert_id : string) (c : Cert.t) : Prop :=
  Cert.id c = cert_id ∧ Cert.status c = CertStatus.VALID.
#[global] Instance revocable_dec cert_id c : Decision (revocable cert_id c).
Proof. unfold revocable. apply _. Defined.

(** [Store.record_revocation] *)
Definition record_revocation (now : Z) (cert_id order_id account_id : string)
    (reason revoked_at : option Z) (sans : list string) (audit_details : dict) :
    Tx (RevocationUpdate * option Audit.t) :=
  let timestamp := default now revoked_at in
  rowcount ← update_certs (revocable cert_id)
    (Cert.set_revoked CertStatus.REVOKED reason (Some timestamp));
  row ← tx_fetchone certificates (λ c, Cert.id c = cert_id);
  match row with
  | None => mret ({| record := None; won_cas := false |}, None)
  | Some row =>
    if negb (rowcount =? 1) then
      c ← tx_of_res (certificate_from_row row);
      mret ({| record := Some c; won_cas := false |}, None)
    else
      update_orders (has_status_in order_id OrderStatus.VALID OrderStatus.PROCESSING)
        (to_status OrderStatus.REVOKED now);;
      event ← record_audit_in_conn now
        {| event_type := "certificate-revoked"; account_id := Some account_id;
           order_id := Some order_id; sans := sans; template := None;
           requester := None; outcome := "success"; details := Some audit_details |};
      c ← tx_of_res (certificate_from_row row);
      mret ({| record := Some c; won_cas := true |}, Some event)
  end.

(** The transaction of [Store.revoke_certificate]: [None] when no row was
    updated. *)
Definition revoke_certificate_in_conn (now : Z) (cert_id : string)
    (reason revoked_at : option Z) : Tx (option RevocationUpdate) :=
  let timestamp := default now revoked_at in
  rowcount ← update_certs (revocable cert_id)
    (Cert.set_revoked CertStatus.REVOKED reason (Some timestamp));
  if rowcount =? 1 then
    row ← tx_fetchone certificates (λ c, Cert.id c = cert_id);
    match row with
    | None => mret (Some {| record := None; won_cas := false |})
    | Some row =>
      c ← tx_of_res (certificate_from_row row);
      mret (Some {| record := Some c; won_cas := true |})
    end
  else mret None.

(** [Store.revoke_certificate] *)
Definition revoke_certificate {W} `{TxRunner W} (now : Z) (cert_id : string)
    (reason revoked_at : option Z) : Act W RevocationUpdate :=
  res ← run_tx (revoke_certificate_in_conn now cert_id reason revoked_at);
  match res with
  | Some update => mret update
  | None =>
    c ← run_tx (get_certificate cert_id);
    mret {| record := c; won_cas := false |}
  end.

(** Awaiting a CA-side revocation. *)
Definition awaiting_ca (c : Cert.t) : Prop :=
  (Cert.status c = CertStatus.REVOKED ∨ Cert.status c = CertStatus.QUARANTINED)
  ∧ Cert.ca_crl_updated c = false.
#[global] Instance awaiting_ca_dec c : Decision (awaiting_ca c).
Proof. unfold awaiting_ca. apply _. Defined.

(** [ORDER BY revoked_at DESC]: NULLs sort as smallest. *)
Definition revoked_newer (a b : Cert.t) : Prop :=
  match Cert.revoked_at a, Cert.revoked_at b with
  | _, None => True
  | None, Some _ => False
  | Some x, Some y => y <= x
  end.
#[global] Instance revoked_newer_dec a b : Decision (revoked_newer a b).
Proof. unfold revoked_newer. repeat case_match; apply _. Defined.

(** [[self._certificate_from_row(row) for row in rows]] *)
Fixpoint certificates_from_rows (rows : list Cert.t) : Tx (list Cert.t) :=
  match rows with
  | [] => mret []
  | row :: rows =>
    c ← tx_of_res (certificate_from_row row);
    cs ← certificates_from_rows rows;
    mret (c :: cs)
  end.

(** [Store.list_revoked_certificates] *)
Definition list_revoked_certificates (limit : Z) : Tx (list Cert.t) :=
  rows ← tx_select certificates awaiting_ca;
  certificates_from_rows (sql_limit limit (merge_sort revoked_newer rows)).

(** [serial_number = ?] and awaiting: what a confirmation flips. *)
Definition confirmable (serial : string) (c : Cert.t) : Prop :=
  Cert.serial_number c = Some serial ∧ awaiting_ca c.
#[global] Instance confirmable_dec serial c : Decision (confirmable serial c).
Proof. unfold confirmable. apply _. Defined.

(** [Store.confirm_ca_revocation] *)
Definition confirm_ca_revocation (serial_hex : string) : Tx bool :=
  rowcount ← update_certs (confirmable (canonical_serial serial_hex))
    (Cert.set_ca_crl_updated true);
  mret (rowcount =? 1).

(** [Store.confirm_ca_revocation_with_audit] *)
Definition confirm_ca_revocation_with_audit (now : Z) (serial_hex : string)
    (audit : AuditArgs) (watermark_advance : option CrlWatermark)
    (watermark_source_url : option string) : Tx (bool * option Audit.t) :=
  rowcount ← update_certs (confirmable (canonical_serial serial_hex))
    (Cert.set_ca_crl_updated true);
  if negb (rowcount =? 1) then mret (false, None)
  else
    match watermark_advance with
    | Some w =>
      match this_update w with
      | Some update =>
        advance_crl_watermark_in_conn now (issuer_key w) (crl_number w) update
          watermark_source_url;; mret tt
      | None => mret tt
      end
    | None => mret tt
    end;;
    event ← record_audit_in_conn now audit;
    mret (true, Some event).
End certs.
