(* ===== verification/Responses.v ===== *)
(** * Responses: [src/acme_adcs_ra/serializers.py] and [JSONResponse] *)

From S2P Require Import Prelude PyStr Time Exn Json Sql Db StoreOrders Act World.
Local Open Scope Z_scope.

Record Response := {
  status_code : Z;
  content : json;
  headers : list (string * string);
}.

(** [JSONResponse(content=...)], with one header when given. *)
Definition json_response (status : Z) (body : json) (hs : list (string * string)) : Response :=
  {| status_code := status; content := body; headers := hs |}.
Definition retry_after_header (s : string) : list (string * string) := [("Retry-After", s)]%string.

Section serializers.
Context `{ServerConfig}.

(** [_account_to_json] *)
Definition account_to_json (a : Account.t) : json := JObj
  [("status", JStr (AccountStatus.value (Account.status a)));
   ("contact", JArr (Account.contact a));
   ("orders", JStr (url ("/acme/acct/" +:+ Account.id a +:+ "/orders")))]%string.

(** A column that is NULL or the empty string is left out. *)
Definition if_truthy (k : string) (v : option string) : dict :=
  match v with
  | Some s => if decide (s = EmptyString) then [] else [(k, JStr s)]
  | None => []
  end.

(** [_order_to_json] *)
Definition order_to_json (o : Order.t) : json := JObj
  ([("status", JStr (OrderStatus.value (Order.status o)));
    ("expires", JStr (iso (Order.expires o)));
    ("identifiers", JArr (map JObj (Order.identifiers o)));
    ("authorizations", JArr (map JStr (Order.authorizations o)));
    ("finalize", JStr (Order.finalize_url o))]%string
   ++ if_truthy "certificate" (Order.certificate_url o)
   ++ if_truthy "processing_started_at" (iso <$> Order.processing_started_at o)).

(** [_challenge_to_json] *)
Definition challenge_to_json (c : Challenge.t) : json := JObj
  ([("type", JStr (Challenge.type c)); ("status", JStr (Challenge.status c));
    ("url", JStr (Challenge.url c)); ("token", JStr (Challenge.token c))]%string
   ++ if_truthy "validated" (iso <$> Challenge.validated_at c)).

(** [_authz_to_json] *)
Definition authz_to_json (a : AuthorizationRecord) : json := JObj
  [("status", JStr (Authz.status (authz a)));
   ("identifier", JObj (Authz.identifier (authz a)));
   ("expires", JStr (iso (Authz.expires (authz a))));
   ("challenges", JArr (map challenge_to_json (authz_challenges a)))]%string.

(** [_order_to_admin_json] *)
Definition order_to_admin_json (o : Order.t) : json := JObj
  ([("id", JStr (Order.id o)); ("account_id", JStr (Order.account_id o));
    ("status", JStr (OrderStatus.value (Order.status o)));
    ("expires", JStr (iso (Order.expires o)));
    ("created_at", JStr (iso (Order.created_at o)));
    ("updated_at", JStr (iso (Order.updated_at o)))]%string
   ++ if_truthy "processing_started_at" (iso <$> Order.processing_started_at o)).
End serializers.
