(* ===== verification/Finalize.v ===== *)
(** * Finalizing an order: [src/acme_adcs_ra/finalize.py]

    The handlers' helpers, each a program over the server's world: every
    store call, CA call, audit row and log line in the order the code makes
    them, on every path, exceptions included. *)

From S2P Require Import Prelude PyStr Time Exn Json Base64 Policy Jwk Sql Db StoreAudit.
From S2P Require Import StoreAccounts StoreOrders Act World Coalesce X509 CsrCheck StoreCerts.
From S2P Require Import Responses AuditBounds.
From stdpp Require Import sorting.
Local Open Scope Z_scope.

Section finalize.
Context `{ServerConfig, UuidSource, CertParser, CsrParser}.

(** What a helper that answers early returns. *)
Inductive Outcome (A : Type) :=
  | Respond (r : Response)
  | Continue (x : A).
Arguments Respond {A} r.
Arguments Continue {A} x.

Abbreviation acme_raise e := (act_raise (Acme e)).

(** The 200 answer with the order, and the one that asks to poll. *)
Definition order_response (o : Order.t) : Response := json_response 200 (order_to_json o) [].
Definition poll_response (o : Order.t) : Response :=
  json_response 200 (order_to_json o) (retry_after_header "3").

(** [_refresh_order_or_500] *)
Definition refresh_order_or_500 (order_id : string) : Act World Order.t :=
  refreshed ← db (λ _, get_order order_id);
  match refreshed with
  | None => acme_raise server_internal
  | Some o => mret o
  end.

(** [_finalize_existing_cert] *)
Definition finalize_existing_cert (order_id account_id : string) (existing_cert : Cert.t) :
    Act World Response :=
  refreshed ← refresh_order_or_500 order_id;
  if decide (Order.status refreshed = OrderStatus.PROCESSING) then
    applied ← db (λ now, transition_processing_to_valid now order_id
                (certificate_url (Cert.id existing_cert))
                (Some (Order.processing_generation refreshed)));
    (if applied : bool then
       audit (event "finalize-order-reconciled" "success" (Some account_id) (Some order_id)
         [] None
         [("certificate_id", JStr (Cert.id existing_cert));
          ("prior_status", JStr (OrderStatus.value (Order.status refreshed)))]%string)
     else mret tt);;
    refreshed ← refresh_order_or_500 order_id;
    mret (order_response refreshed)
  else mret (order_response refreshed).

(** [_finalize_expired_order]: Continue is the code's None. *)
Definition finalize_expired_order (order_id account_id : string) (order : Order.t) :
    Act World (Outcome unit) :=
  now ← act_get w_now;
  if negb (is_expired (Order.expires order) now) then mret (Continue tt)
  else
    applied ← db (λ now, transition_active_to_invalid now order_id);
    if applied : bool then
      audit (event "finalize-expired-order" "denied" (Some account_id) (Some order_id)
        [] None [("expires", JStr (iso (Order.expires order)))]%string);;
      acme_raise order_not_ready
    else
      refreshed ← refresh_order_or_500 order_id;
      if decide (Order.status refreshed = OrderStatus.VALID)
      then mret (Respond (order_response refreshed))
      else if decide (Order.status refreshed = OrderStatus.PROCESSING)
      then mret (Respond (poll_response refreshed))
      else acme_raise order_not_ready.

(** The DNS identifiers of the order, lowercased. *)
Definition order_dns (o : Order.t) : list string :=
  omap (λ i, match dict_get "type" i, dict_get "value" i with
             | Some (JStr t), Some (JStr v) =>
               if decide (t = "dns"%string) then Some (lower v) else None
             | _, _ => None
             end) (Order.identifiers o).

(** [sorted(s for s in requested_sans if s.lower() not in order_dns)] *)
Definition out_of_order (o : Order.t) (requested_sans : list string) : list string :=
  merge_sort code_point_le
    (filter (λ s, lower s ∉ order_dns o) requested_sans).

(** The part of [_finalize_parse_and_validate_csr] up to the SANs: no store. *)
Definition parse_csr (payload : dict) : Res Exn (Csr * list string) :=
  match dict_get "csr" payload with
  | Some (JStr csr_b64) =>
    if decide (csr_b64 = EmptyString) then Raise (Acme bad_csr)
    else match base64url_decode csr_b64 with
    | inl _ => Raise (Acme bad_csr)
    | inr csr_der =>
      if max_csr_size_bytes config <? Z.of_nat (length csr_der) then Raise (Acme bad_csr)
      else match load_der_x509_csr csr_der with
      | inl _ => Raise (Acme bad_csr)
      | inr csr =>
        (valid ←? is_signature_valid csr;
         reject_if (negb valid) bad_csr ;;?
         validate_csr_key_strength csr ;;?
         ext ←? csr_extensions csr;
         san_values ←?
           match subject_alternative_name ext with
           | None => Ok []
           | Some san_value =>
             reject_non_dns_sans san_value ;;?
             reject_wildcard_sans (dns_names san_value) ;;?
             reject_invalid_dns_sans (dns_names san_value) ;;?
             Ok (dns_names san_value)
           end;
         reject_ca_capable_csr_extensions csr ;;?
         Ok (csr, san_values))%res
      end
    end
  | _ => Raise (Acme bad_csr)
  end.

(** [_finalize_parse_and_validate_csr] *)
Definition finalize_parse_and_validate_csr (payload : dict) (order : Order.t)
    (account_id order_id : string) :
    Act World (Csr * string * list string * PolicyDecision) :=
  parsed ← act_of_res (parse_csr payload);
  let '(csr, requested_sans) := parsed in
  let csr_subject := csr_subject_rfc4514 csr in
  let out := out_of_order order requested_sans in
  if negb (bool_decide (out = [])) then
    audit (event "finalize-csr-mismatch" "denied" (Some account_id) (Some order_id)
      requested_sans None
      [("reason", JStr "CSR SANs not in order identifiers");
       ("reason_code", JStr "csr-san-mismatch");
       ("out_of_order", JArr (map JStr out))]%string);;
    acme_raise rejected_identifier
  else
    account ← db (λ _, get_account account_id);
    match account with
    | None => acme_raise unauthorized
    | Some account =>
      let decision := evaluate (policy config) (Account.eab_kid account) csr_subject
                        requested_sans in
      if negb (allowed decision) then
        audit (event "finalize-policy-denied" "denied" (Some account_id) (Some order_id)
          requested_sans None
          [("reason", JStr (reason decision));
           ("reason_code", JStr (reason_code decision))]%string);;
        if has_sub "out of scope" (reason decision) || has_sub "no SANs" (reason decision)
        then acme_raise rejected_identifier
        else acme_raise bad_csr
      else
        act_of_res (reject_unrequested_common_names csr requested_sans);;
        mret (csr, csr_subject, requested_sans, decision)
    end.

(** [_finalize_transition_to_processing] *)
Definition finalize_transition_to_processing (order_id : string) :
    Act World (Outcome Z) :=
  generation ← db (λ now, acquire_processing_lease now order_id);
  match generation with
  | Some generation => mret (Continue generation)
  | None =>
    refreshed ← refresh_order_or_500 order_id;
    if decide (Order.status refreshed = OrderStatus.PROCESSING)
    then mret (Respond (poll_response refreshed))
    else mret (Respond (order_response refreshed))
  end.

(** [_abandon_if_lease_lapsed]: Continue is the code's None. *)
Definition abandon_if_lease_lapsed (order_id account_id : string)
    (requested_sans : list string) (decision : PolicyDecision) (generation : Z) :
    Act World (Outcome unit) :=
  held ← db (λ _, holds_processing_lease order_id generation);
  if held : bool then mret (Continue tt)
  else
    order ← refresh_order_or_500 order_id;
    audit (event "finalize-enrollment-abandoned" "denied" (Some account_id) (Some order_id)
      requested_sans (Policy.template decision)
      [("reason", JStr "processing-lease-lapsed"); ("stage", JStr "before-submit");
       ("held_generation", JNum generation);
       ("current_generation", JNum (Order.processing_generation order));
       ("current_status", JStr (OrderStatus.value (Order.status order)))]%string);;
    mret (Respond (poll_response order)).

(** [exc.req_id], as the audit details carry it *)
Definition json_opt (s : option string) : json :=
  match s with Some s => JStr s | None => JNull end.

(** [_quarantine_transport_orphan], for an exception carrying [req_id],
    [cert_pem] and [chain_pem] *)
Definition quarantine_transport_orphan (order_id account_id : string)
    (requested_sans : list string) (template : option string)
    (error : string) (req_id cert_pem : option string) (chain_pem : list string)
    (generation : Z) : Act World Response :=
  let orphan_event details :=
    event "finalize-enrollment-transport-orphan" "failed" (Some account_id) (Some order_id)
      requested_sans template details in
  match cert_pem with
  | Some cert_pem =>
    uuid ← fresh_uuids 1;
    act_try
      (res ← db (λ now, quarantine_certificate now (uuid 0%nat) order_id account_id cert_pem
                   chain_pem (default EmptyString template) EmptyString
                   (Some [("req_id", JStr (default EmptyString req_id))]%string)
                   "finalize-enrollment-transport-orphan" [error]
                   ("the CA issued this certificate, but the RA could not complete "
                    +:+ "enrollment (chain fetch or chain validation failed), so it was "
                    +:+ "never honoured")
                   requested_sans
                   (Some [("ca_issued", JBool true); ("transport_error", JStr error)]%string));
       emit_audit_hook res.2;;
       log (LogQuarantined (Cert.serial_number res.1) order_id))
      (λ _,
       log (LogQuarantineFailed order_id);;
       audit (orphan_event
         [("error", JStr error); ("ca_issued", JBool true); ("req_id", json_opt req_id);
          ("quarantined", JBool false); ("quarantine_error", JStr "see logs")]%string))
  | None =>
    log (LogNotRetrieved req_id order_id);;
    audit (orphan_event
      [("error", JStr error); ("ca_issued", JBool true); ("req_id", json_opt req_id);
       ("quarantined", JBool false);
       ("reason", JStr ("the CA issued but the RA never received the certificate bytes; "
                        +:+ "revoke by ReqID at the CA manually"))]%string)
  end;;
  db (λ now, transition_processing_to_invalid now order_id (Some generation));;
  order ← refresh_order_or_500 order_id;
  mret (json_response 500 (order_to_json order) []).

(** The [except] clauses of [_submit_enrollment_inner] *)
Definition enrollment_failed (order_id account_id : string) (requested_sans : list string)
    (decision : PolicyDecision) (generation : Z) (exc : Exn) :
    Act World (Outcome EnrollmentResult) :=
  let failure name outcome details :=
    event name outcome (Some account_id) (Some order_id) requested_sans
      (Policy.template decision) details in
  match exc with
  | EnrollmentDenied msg =>
    applied ← db (λ now, transition_processing_to_ready now order_id (Some generation));
    audit (failure "finalize-enrollment-denied" "denied"
      [("error", JStr msg); ("revert_applied", JBool applied)])%string;;
    if negb applied then
      refreshed ← refresh_order_or_500 order_id;
      mret (Respond (order_response refreshed))
    else acme_raise rejected_identifier
  | EnrollmentPending msg req_id =>
    recorded ← db (λ now, record_pending_ca_request now order_id req_id generation);
    audit (failure "finalize-enrollment-pending" "failed"
      [("error", JStr msg); ("ca_issued", JBool false); ("req_id", JStr req_id);
       ("pending_recorded", JBool recorded)])%string;;
    (if negb recorded then log (LogPendingUnrecorded req_id order_id) else mret tt);;
    order ← refresh_order_or_500 order_id;
    mret (Respond (json_response 503 (order_to_json order) (retry_after_header "300")))
  | EnrollmentTransportError msg req_id cert_pem chain_pem =>
    if ca_issued req_id then
      r ← quarantine_transport_orphan order_id account_id requested_sans
            (Policy.template decision) msg req_id cert_pem chain_pem generation;
      mret (Respond r)
    else
      audit (failure "finalize-enrollment-transport-failed" "failed"
        [("error", JStr msg); ("ca_issued", JBool false)])%string;;
      order ← refresh_order_or_500 order_id;
      mret (Respond (json_response 503 (order_to_json order) (retry_after_header "30")))
  | exc =>
    audit (failure "finalize-enrollment-failed" "failed"
      [("error", JStr (exn_str exc))])%string;;
    acme_raise server_internal
  end.

(** [_submit_enrollment_inner] *)
Definition submit_enrollment_inner (order_id account_id : string)
    (requested_sans : list string) (csr_pem : string) (decision : PolicyDecision)
    (generation : Z) : Act World (Outcome EnrollmentResult) :=
  act_then
    (submit_csr {| sub_order := order_id; sub_generation := generation;
                   sub_account := account_id; sub_csr := csr_pem;
                   sub_sans := requested_sans |})
    (λ r, match r with
          | inr result => mret (Continue result)
          | inl exc =>
            enrollment_failed order_id account_id requested_sans decision generation exc
          end).

(** [jwk_thumbprint(json.loads(account.jwk_json))] *)
Definition stored_thumbprint (a : Account.t) : Res Exn string :=
  (jwk ←? load_json (Account.jwk_json a); jwk_thumbprint jwk)%res.

(** [_finalize_submit_enrollment] *)
Definition finalize_submit_enrollment (order_id account_id authenticated_thumbprint : string)
    (requested_sans : list string) (csr : Csr) (decision : PolicyDecision)
    (generation : Z) : Act World (Outcome EnrollmentResult) :=
  submitting account_id (
    account ← db (λ _, get_account account_id);
    current_thumbprint ←
      match account with
      | Some a => t ← act_of_res (stored_thumbprint a); mret (Some t)
      | None => mret None
      end;
    let eab_allowlisted :=
      match account with
      | Some a => bool_decide (Account.eab_kid a ∈ eab_kids config)
      | None => false
      end in
    let key_matches := bool_decide (current_thumbprint = Some authenticated_thumbprint) in
    let is_valid :=
      match account with
      | Some a => bool_decide (Account.status a = AccountStatus.VALID)
      | None => false
      end in
    if negb (is_valid && key_matches && eab_allowlisted) then
      applied ← db (λ now, transition_processing_to_ready now order_id (Some generation));
      audit (event "finalize-enrollment-abandoned" "denied" (Some account_id) (Some order_id)
        requested_sans (Policy.template decision)
        [("reason", JStr "account-authorization-changed"); ("stage", JStr "before-submit");
         ("account_status", JStr (from_option (AccountStatus.value ∘ Account.status)
                                    "missing" account));
         ("key_matches_authenticated_request", JBool key_matches);
         ("eab_kid_allowlisted", JBool eab_allowlisted);
         ("revert_applied", JBool applied)])%string;;
      acme_raise unauthorized
    else
      stale ← abandon_if_lease_lapsed order_id account_id requested_sans decision generation;
      match stale with
      | Respond r => mret (Respond r)
      | Continue _ =>
        submit_enrollment_inner order_id account_id requested_sans (csr_pem_text csr)
          decision generation
      end).

(** [_quarantine_and_fail]: it always raises. *)
Definition quarantine_and_fail (order_id account_id : string) (requested_sans : list string)
    (result : EnrollmentResult) (event_type : string) (violations : list string)
    (reason : string) (extra_details : option dict) : Act World Response :=
  uuid ← fresh_uuids 1;
  act_try
    (res ← db (λ now, quarantine_certificate now (uuid 0%nat) order_id account_id
                 (er_cert_pem result) (er_chain_pem result) (er_template result)
                 (er_requester result) (Some (er_metadata result)) event_type violations
                 reason requested_sans extra_details);
     emit_audit_hook res.2;;
     log (LogQuarantined (Cert.serial_number res.1) order_id))
    (λ _,
     log (LogQuarantineFailed order_id);;
     audit (issuance_audit event_type account_id order_id (er_template result)
       (er_requester result) requested_sans "failed"
       (dict_update
         [("violations", JArr (map JStr violations)); ("reason", JStr reason);
          ("quarantined", JBool false); ("quarantine_error", JStr "see logs")]%string
         (default [] extra_details))));;
  acme_raise server_internal.

(** [_UNWRITABLE_STORE_MARKERS] *)
Definition UNWRITABLE_STORE_MARKERS : list string :=
  ["disk is full"; "database or disk is full"; "readonly database"; "read-only database";
   "attempt to write a readonly database"; "disk i/o error"; "unable to open database file";
   "database disk image is malformed"; "no space left"]%string.

(** [_store_is_unwritable] *)
Definition store_is_unwritable (exc : Exn) : bool :=
  match exc with
  | IntegrityError => false
  | OSError _ => true
  | _ => existsb (λ marker, has_sub marker (lower (exn_str exc))) UNWRITABLE_STORE_MARKERS
  end.

(** [_emergency_issuance_orphan]: nothing here touches the store. *)
Definition emergency_issuance_orphan (order_id account_id : string)
    (requested_sans : list string) (result : EnrollmentResult) (exc : Exn) :
    Act World unit :=
  let serial := match serial_from_pem (er_cert_pem result) with
                | inl _ => EmptyString
                | inr s => s
                end in
  let req_id := py_str (default (JStr EmptyString) (dict_get "req_id" (er_metadata result))) in
  log (LogOrphaned serial req_id order_id);;
  let unwritable := store_is_unwritable exc in
  now ← act_get w_now;
  let orphan_event :=
    issuance_audit "finalize-issuance-record-failed" account_id order_id
      (er_template result) (er_requester result) requested_sans "failed"
      [("ca_issued", JBool true); ("serial", JStr serial); ("req_id", JStr req_id);
       ("recorded", JBool false); ("store_error", JStr (exn_str exc));
       ("store_unwritable", JBool unwritable); ("issuance_halted", JBool unwritable);
       ("reason", JStr ("the CA issued this certificate and the RA could not persist it; "
                        +:+ "no store row exists and it must be revoked by hand"));
       ("emergency_offbox_only", JBool true)]%string in
  (if audit_hook_configured config
   then act_modify (emit (EmergencyEvent now orphan_event))
   else log (LogNoHook serial));;
  if unwritable
  then halt ("post-issuance store failure on order " +:+ order_id +:+ " (serial "
             +:+ (if decide (serial = EmptyString) then "unknown" else serial) +:+ "): "
             +:+ exn_str exc)%string
  else mret tt.

(** The SAN violations, as [_finalize_complete] words them. *)
Definition san_violation_texts (v : SanViolations) (requested_sans : list string) :
    list string :=
  (if decide (unauthorized_dns v = []) then []
   else [("unauthorized DNS SANs: " +:+ py_repr_list (unauthorized_dns v) +:+ " (authorized="
          +:+ py_repr_list requested_sans +:+ ")")%string])
  ++ (if decide (non_dns_san_types v = []) then []
      else [("non-DNS SAN types present: " +:+ py_repr_list (non_dns_san_types v)
             +:+ " (only DNS SANs are permitted)")%string]).

(** The successful end of [_finalize_complete]: record, emit, answer. *)
Definition record_and_respond (order_id account_id : string) (requested_sans : list string)
    (csr_subject : string) (result : EnrollmentResult) (generation : Z) :
    Act World Response :=
  uuid ← fresh_uuids 1;
  now ← act_get w_now;
  recorded ← act_try
    (record_issuance now (uuid 0%nat) order_id account_id (er_cert_pem result)
       (er_chain_pem result) (er_template result) (er_requester result)
       (Some (er_metadata result)) certificate_url requested_sans csr_subject
       (Some generation))
    (λ exc,
     emergency_issuance_orphan order_id account_id requested_sans result exc;;
     act_raise exc);
  let '(cert_record, applied, ev) := recorded in
  emit_audit_hook ev;;
  (if negb applied then log (LogLostRace order_id (Cert.id cert_record)) else mret tt);;
  refreshed_order ← refresh_order_or_500 order_id;
  mret (order_response refreshed_order).

(** [_finalize_complete] *)
Definition finalize_complete (order_id account_id : string) (requested_sans : list string)
    (csr_subject : string) (result : EnrollmentResult) (generation : Z) :
    Act World Response :=
  let fail := quarantine_and_fail order_id account_id requested_sans result in
  v ← act_of_res (issued_cert_san_violations (er_cert_pem result) requested_sans);
  if negb (bool_decide (unauthorized_dns v = []) && bool_decide (non_dns_san_types v = []))
  then
    fail "finalize-issued-cert-san-mismatch" (san_violation_texts v requested_sans)
      ("issued cert SANs outside order scope -- ADCS template likely misconfigured "
       +:+ "(it must take only DNS SANs from the request)")
      (Some [("issued_dns_sans", JArr (map JStr (issued_dns_sans v)));
             ("unauthorized_dns_sans", JArr (map JStr (unauthorized_dns v)));
             ("non_dns_san_types", JArr (map JStr (non_dns_san_types v)))])%string
  else
    eku_violations ← act_of_res (issued_cert_eku_violations (er_cert_pem result));
    if negb (bool_decide (eku_violations = [])) then
      fail "finalize-issued-cert-eku-mismatch"%string eku_violations
        ("issued cert is not serverAuth-only -- the ADCS template must issue the "
         +:+ "serverAuth EKU and nothing else")%string None
    else
      ca_capability_violations ←
        act_of_res (issued_cert_ca_capability_violations (er_cert_pem result));
      if negb (bool_decide (ca_capability_violations = [])) then
        fail "finalize-issued-cert-ca-capability"%string ca_capability_violations
          "issued cert is CA-capable -- the ADCS template is dangerously misconfigured"%string
          None
      else
        record_and_respond order_id account_id requested_sans csr_subject result generation.
End finalize.
Arguments Respond {A} r.
Arguments Continue {A} x.
