(* ===== verification/RoutesOrders.v ===== *)
(** * Order routes: [src/acme_adcs_ra/routes/orders.py]

    [authenticate path] is [authenticate_account(ctx, request, path)] for the
    request being served: the payload, the account and the thumbprint of the
    key that signed it.  What a handler does after it is here. *)

From S2P Require Import Prelude PyStr Time Exn Json Policy Sql Db StoreAudit StoreAccounts.
From S2P Require Import StoreOrders Act World Coalesce X509 CsrCheck StoreCerts.
From S2P Require Import Responses Finalize.
Local Open Scope Z_scope.

Section orders.
Context `{ServerConfig, UuidSource, CertParser, CsrParser}.

Abbreviation acme_raise e := (act_raise (Acme e)).
Definition Authenticated : Type := dict * Account.t * string.

(** The overrides of the per-kid limit, by kid. *)
Definition limit_for (kid : string) (default_limit : Z) : Z :=
  match find (λ kv, bool_decide (kv.1 = kid)) (rate_limit_overrides config) with
  | Some kv => kv.2
  | None => default_limit
  end.

(** The denial both limits share. *)
Definition rate_limit_denied (account_id why scope : string) (limit window count : Z)
    (kid : dict) : Act World unit :=
  audit (event "order-rate-limited" "denied" (Some account_id) None [] None
    ([("reason", JStr why); ("limit", JNum limit); ("window_seconds", JNum window);
      ("count", JNum count); ("scope", JStr scope)]%string ++ kid));;
  acme_raise (rate_limited (Some window)).

(** [_check_rate_limit] *)
Definition check_rate_limit (account_id : string) : Act World unit :=
  let window := rate_limit_window_seconds config in
  let per_kid_limit := rate_limit_orders_per_window config in
  (if 0 <? per_kid_limit then
     account ← db (λ _, get_account account_id);
     match account with
     | None => acme_raise unauthorized
     | Some account =>
       let kid := Account.eab_kid account in
       let limit := limit_for kid per_kid_limit in
       if 0 <? limit then
         count ← db (λ now, count_recent_orders_by_kid now kid window);
         if limit <=? count
         then rate_limit_denied account_id "per-account-limit" "per-account" limit window
                count [("kid", JStr kid)]%string
         else mret tt
       else mret tt
     end
   else mret tt);;
  let global_limit := rate_limit_global_per_window config in
  if 0 <? global_limit then
    global_count ← db (λ now, count_all_recent_orders now window);
    if global_limit <=? global_count
    then rate_limit_denied account_id "global-limit" "global" global_limit window
           global_count []
    else mret tt
  else mret tt.

(** One element of the identifiers loop of [new_order]. *)
Definition checked_identifier (item : json) : Res Exn dict :=
  match item with
  | JObj item =>
    match dict_get "type" item, dict_get "value" item with
    | Some (JStr ident_type), Some (JStr value) =>
      if negb (bool_decide (ident_type = "dns"%string))
         || bool_decide (value = EmptyString)
      then Raise (Acme unsupported_identifier)
      else if has_char "*" value then Raise (Acme rejected_identifier)
      else match validate_dns_name value with
      | inl _ => Raise (Acme rejected_identifier)
      | inr _ => Ok [("type", JStr "dns"); ("value", JStr value)]%string
      end
    | _, _ => Raise (Acme unsupported_identifier)
    end
  | _ => Raise (Acme malformed)
  end.
Fixpoint checked_identifiers (items : list json) : Res Exn (list dict) :=
  match items with
  | [] => Ok []
  | item :: items =>
    (i ←? checked_identifier item; is_ ←? checked_identifiers items; Ok (i :: is_))%res
  end.

(** The identifiers of a newOrder payload. *)
Definition parse_identifiers (payload : dict) : Res Exn (list dict) :=
  match dict_get "identifiers" payload with
  | Some (JArr items) =>
    if decide (items = []) then Raise (Acme malformed)
    else if max_identifiers_per_order config <? Z.of_nat (length items)
    then Raise (Acme malformed)
    else checked_identifiers items
  | _ => Raise (Acme malformed)
  end.

(** The URL callbacks the route passes. *)
Definition url_fns : UrlFns :=
  {| challenge_url_fn := challenge_url; authz_url_fn := authz_url;
     finalize_url_fn := World.finalize_url |}.

(** The SANs of the order-created event. *)
Definition identifier_values (identifiers : list dict) : list string :=
  omap (λ i, dict_get "value" i ≫= json_string) identifiers.

(** The handler of [OrderRateLimitExceeded] in [new_order] *)
Definition new_order_rate_limited (account_id scope : string) (limit count window : Z)
    (eab_kid : option string) : Act World Response :=
  audit (event "order-rate-limited" "denied" (Some account_id) None [] None
    ([("reason", JStr (scope +:+ "-limit")); ("reason_code", JStr scope);
      ("limit", JNum limit); ("window_seconds", JNum window); ("count", JNum count);
      ("scope", JStr scope)]%string
     ++ match eab_kid with Some kid => [("kid", JStr kid)]%string | None => [] end));;
  acme_raise (rate_limited (Some window)).

(** [new_order], once authenticated *)
Definition new_order_as (auth : Authenticated) : Act World Response :=
  let '(payload, account, _) := auth in
  let account_id := Account.id account in
  check_rate_limit account_id;;
  identifiers ← act_of_res (parse_identifiers payload);
  let per_kid_limit :=
    limit_for (Account.eab_kid account) (rate_limit_orders_per_window config) in
  uuid ← fresh_uuids (1 + 4 * length identifiers);
  created ← act_then
    (db (λ now, create_order_with_authz now uuid (order_expiry_seconds config) account_id
           identifiers url_fns (Some (rate_limit_window_seconds config)) per_kid_limit
           (rate_limit_global_per_window config)))
    (λ r, match r with
          | inr order => mret (Continue order)
          | inl (OrderRateLimitExceeded scope limit count window eab_kid) =>
            resp ← new_order_rate_limited account_id scope limit count window eab_kid;
            mret (Respond resp)
          | inl e => act_raise e
          end);
  match created with
  | Respond resp => mret resp
  | Continue order =>
    audit (event "order-created" "success" (Some account_id) (Some (Order.id order))
      (identifier_values identifiers) None
      [("identifier_count", JNum (Z.of_nat (length identifiers)))]%string);;
    mret (json_response 201 (order_to_json order)
            [("Location", order_url (Order.id order))]%string)
  end.

(** [get_order], once authenticated *)
Definition get_order_as (order_id : string) (auth : Authenticated) : Act World Response :=
  let '(payload, account, _) := auth in
  if negb (bool_decide (payload = [])) then acme_raise malformed
  else
    order ← db (λ _, get_order order_id);
    match order with
    | Some order =>
      if decide (Order.account_id order = Account.id account)
      then mret (json_response 200 (order_to_json order) [])
      else acme_raise unauthorized
    | None => acme_raise unauthorized
    end.

(** The handler of [EnrollmentGateBusy] in [finalize_order] *)
Definition admission_denied (order_id account_id : string) (requested_sans : list string)
    (decision : PolicyDecision) (generation : Z) : Act World (Outcome EnrollmentResult) :=
  reverted ← db (λ now, transition_processing_to_ready now order_id (Some generation));
  audit (event "finalize-enrollment-admission-denied" "denied" (Some account_id)
    (Some order_id) requested_sans (Policy.template decision)
    [("reason", JStr "enrollment-capacity"); ("reason_code", JStr "enrollment-capacity");
     ("revert_applied", JBool reverted)]%string);;
  acme_raise (rate_limited (Some 3)).

(** The block under [active_enrollments.enrolling(order_id)] *)
Definition enroll (order_id account_id authenticated_thumbprint : string) (csr : Csr)
    (csr_subject : string) (requested_sans : list string) (decision : PolicyDecision) :
    Act World Response :=
  transition ← finalize_transition_to_processing order_id;
  match transition with
  | Respond resp => mret resp
  | Continue generation =>
    halted ← act_get w_halt;
    match halted with
    | Some _ => acme_raise issuance_halted
    | None =>
      enrollment_result ← act_try
        (gate_run (finalize_submit_enrollment order_id account_id authenticated_thumbprint
           requested_sans csr decision generation))
        (λ e, match e with
              | EnrollmentGateBusy =>
                admission_denied order_id account_id requested_sans decision generation
              | e => act_raise e
              end);
      match enrollment_result with
      | Respond resp => mret resp
      | Continue result =>
        finalize_complete order_id account_id requested_sans csr_subject result generation
      end
    end
  end.

(** [finalize_order], once authenticated *)
Definition finalize_order_as (order_id : string) (auth : Authenticated) :
    Act World Response :=
  let '(payload, account, authenticated_thumbprint) := auth in
  let account_id := Account.id account in
  order ← db (λ _, get_order order_id);
  match order with
  | None => acme_raise unauthorized
  | Some order =>
    if negb (bool_decide (Order.account_id order = account_id)) then acme_raise unauthorized
    else if decide (Order.status order = OrderStatus.VALID)
    then mret (order_response order)
    else
      existing_cert ← db (λ _, get_certificate_by_order order_id);
      match existing_cert with
      | Some existing_cert => finalize_existing_cert order_id account_id existing_cert
      | None =>
        if decide (Order.status order = OrderStatus.PROCESSING)
        then mret (poll_response order)
        else
          expired_resp ← finalize_expired_order order_id account_id order;
          match expired_resp with
          | Respond resp => mret resp
          | Continue _ =>
            if negb (bool_decide (Order.status order = OrderStatus.READY))
            then acme_raise order_not_ready
            else
              parsed ← finalize_parse_and_validate_csr payload order account_id order_id;
              let '(csr, csr_subject, requested_sans, decision) := parsed in
              enrolling order_id
                (enroll order_id account_id authenticated_thumbprint csr csr_subject
                   requested_sans decision)
          end
      end
  end.

(** The routes: authenticate, then handle. *)
Context (authenticate : string → Act World Authenticated).
Definition new_order : Act World Response :=
  auth ← authenticate "/acme/new-order"; new_order_as auth.
Definition get_order_route (order_id : string) : Act World Response :=
  auth ← authenticate ("/acme/order/" +:+ order_id); get_order_as order_id auth.
Definition finalize_order (order_id : string) : Act World Response :=
  auth ← authenticate ("/acme/finalize/" +:+ order_id); finalize_order_as order_id auth.
End orders.
