(* ===== verification/RoutesAdmin.v ===== *)
(** * Administrative routes: [src/acme_adcs_ra/routes/admin.py]

    Nonce and order maintenance and the recovery of orders stuck in
    [processing].  Each handler takes the [Authorization] header of its
    request. *)

From S2P Require Import Prelude PyStr Time Exn Json Sha256 Sql Db StoreAudit StoreAccounts.
From S2P Require Import StoreOrders Act World Coalesce X509 CsrCheck StoreCerts Responses.
From S2P Require Import Finalize.
Local Open Scope Z_scope.

(** ** Credentials *)

(** [_bearer_token]: the bytes after the scheme. *)
Definition bearer_token (authorization : option string) : Res Exn (list Z) :=
  let header := default EmptyString authorization in
  if startswith header "Bearer "
  then Ok (map code (drop 7 (chars header)))
  else Raise (Acme unauthorized).

(** [hmac.compare_digest] *)
Definition compare_digest (a b : list Z) : bool := bool_decide (a = b).

Section admin.
Context `{ServerConfig, CertParser}.

Abbreviation acme_raise e := (act_raise (Acme e)).

(** [_require_admin_token] *)
Definition require_admin_token (authorization : option string) : Res Exn unit :=
  if decide (admin_token config = EmptyString) then Raise (Acme unauthorized)
  else
    (token ←? bearer_token authorization;
     if compare_digest token (utf8 (admin_token config)) then Ok tt
     else Raise (Acme unauthorized))%res.

(** [_require_revocation_authority]: the confirm token or the admin token *)
Definition require_revocation_authority (authorization : option string) : Res Exn unit :=
  (provided ←? bearer_token authorization;
   if existsb (λ candidate, negb (bool_decide (candidate = EmptyString))
                            && compare_digest provided (utf8 candidate))
        [revocation_confirm_token config; admin_token config]
   then Ok tt else Raise (Acme unauthorized))%res.

(** [_require_revocation_confirm_token] *)
Definition require_revocation_confirm_token (authorization : option string) : Res Exn unit :=
  if decide (revocation_confirm_token config = EmptyString) then Raise (Acme unauthorized)
  else
    (token ←? bearer_token authorization;
     if compare_digest token (utf8 (revocation_confirm_token config)) then Ok tt
     else Raise (Acme unauthorized))%res.

(** ** Maintenance *)

(** [cleanup_nonces] *)
Definition cleanup_nonces (authorization : option string) : Act World Response :=
  act_of_res (require_admin_token authorization);;
  deleted ← db cleanup_expired_nonces;
  (if 0 <? deleted then
     audit (event "admin-nonce-cleanup" "success" None None [] None
       [("deleted", JNum deleted)]%string)
   else mret tt);;
  mret (json_response 200 (JObj [("deleted", JNum deleted)]%string) []).

(** [sweep_expired_orders] *)
Definition sweep_expired_orders_route (authorization : option string) : Act World Response :=
  act_of_res (require_admin_token authorization);;
  invalidated ← db sweep_expired_orders;
  (if 0 <? invalidated then
     audit (event "admin-expired-order-sweep" "success" None None [] None
       [("invalidated", JNum invalidated)]%string)
   else mret tt);;
  mret (json_response 200 (JObj [("invalidated", JNum invalidated)]%string) []).

(** The statuses [list_orders] filters by. *)
Definition order_status_of (s : string) : option OrderStatus.t :=
  find (λ st, bool_decide (OrderStatus.value st = s))
    [OrderStatus.PROCESSING; OrderStatus.VALID; OrderStatus.INVALID; OrderStatus.READY;
     OrderStatus.PENDING; OrderStatus.REVOKED].

(** [list_orders] *)
Definition list_orders (authorization : option string) (status : string) (limit : Z) :
    Act World Response :=
  act_of_res (require_admin_token authorization);;
  match order_status_of status with
  | None => acme_raise malformed
  | Some st =>
    if negb ((1 <=? limit) && (limit <=? 500)) then acme_raise malformed
    else
      orders ← db (λ _, list_orders_by_status st limit);
      audit (event "admin-list-orders" "success" None None [] None
        [("reason_code", JStr "read-only-list"); ("status", JStr status);
         ("limit", JNum limit); ("returned", JNum (Z.of_nat (length orders)))]%string);;
      mret (json_response 200
              (JObj [("orders", JArr (map order_to_admin_json orders))]%string) [])
  end.

(** ** Reclaim *)

(** A refused reclaim: its audit row, then malformed. *)
Definition reclaim_denied (order_id : string) (order : Order.t) (why : string)
    (details : dict) : Act World unit :=
  audit (event "admin-order-reclaim-denied" "failed" (Some (Order.account_id order))
    (Some order_id) [] None
    ([("reason", JStr why); ("reason_code", JStr why)]%string ++ details)).

(** The last step: the store's atomic reclaim, and the answer. *)
Definition reclaim_commit (order_id : string) (order : Order.t)
    (ca_verified_no_issuance : bool) (pending_req_id : option string)
    (to_valid_certificate_url : option string) : Act World Response :=
  let had_certificate := bool_decide (is_Some to_valid_certificate_url) in
  let new_status := if had_certificate then OrderStatus.VALID else OrderStatus.READY in
  res ← db (λ now, reclaim_processing_order now order_id to_valid_certificate_url
              (Some (Order.processing_generation order)) pending_req_id
              "admin-order-reclaimed" (Some (Order.account_id order)) "success"
              [("new_status", JStr (OrderStatus.value new_status));
               ("had_certificate", JBool had_certificate);
               ("ca_verified_no_issuance", JBool ca_verified_no_issuance);
               ("ca_request_resolved", json_opt pending_req_id)]%string);
  let '(applied, ev) := res in
  if negb applied then
    refreshed ← refresh_order_or_500 order_id;
    reclaim_denied order_id order "lost-race"
      [("current_status", JStr (OrderStatus.value (Order.status refreshed)))]%string;;
    mret (order_response refreshed)
  else
    match ev with Some ev => emit_audit_hook ev | None => mret tt end;;
    refreshed ← refresh_order_or_500 order_id;
    mret (order_response refreshed).

(** The certificate lookup and the operator's assertion. *)
Definition reclaim_decide (order_id : string) (order : Order.t)
    (ca_verified_no_issuance : bool) (pending_req_id : option string) :
    Act World Response :=
  existing_cert ← db (λ _, get_certificate_by_order order_id);
  match existing_cert with
  | Some existing_cert =>
    reclaim_commit order_id order ca_verified_no_issuance pending_req_id
      (Some (certificate_url (Cert.id existing_cert)))
  | None =>
    if negb ca_verified_no_issuance then
      reclaim_denied order_id order "ca-verification-not-asserted" [];;
      acme_raise malformed
    else reclaim_commit order_id order ca_verified_no_issuance pending_req_id None
  end.

(** The age floor and the outstanding CA request. *)
Definition reclaim_checks (order_id : string) (order : Order.t)
    (ca_verified_no_issuance : bool) (ca_request_resolved : string) :
    Act World Response :=
  age_seconds ← db (λ now, processing_age_seconds now order_id);
  let minimum := reclaim_minimum_processing_age_seconds config in
  let too_young := match age_seconds with Some age => age <? minimum | None => false end in
  if too_young then
    reclaim_denied order_id order "still-within-enrollment-window"
      [("processing_age_seconds", JFloat (float_repr (default 0 age_seconds)));
       ("minimum_seconds", JNum minimum)]%string;;
    acme_raise malformed
  else
    (* NULL and the empty string are both no request *)
    let pending_req_id :=
      Order.pending_ca_request_id order ≫= λ r,
        if decide (r = EmptyString) then None else Some r in
    match pending_req_id with
    | Some req_id =>
      if negb (bool_decide (ca_request_resolved = req_id)) then
        reclaim_denied order_id order "ca-request-pending"
          [("pending_ca_request_id", JStr req_id);
           ("asserted", JStr ca_request_resolved)]%string;;
        acme_raise malformed
      else reclaim_decide order_id order ca_verified_no_issuance pending_req_id
    | None => reclaim_decide order_id order ca_verified_no_issuance pending_req_id
    end.

(** [reclaim_processing_order] *)
Definition reclaim_route (authorization : option string) (order_id : string)
    (ca_verified_no_issuance : bool) (ca_request_resolved : string) : Act World Response :=
  act_of_res (require_admin_token authorization);;
  order ← db (λ _, get_order order_id);
  match order with
  | None =>
    audit (event "admin-order-reclaim-not-found" "failed" None None [] None
      [("reason", JStr "order-not-found"); ("reason_code", JStr "order-not-found");
       ("sample_order_id", JStr order_id)]%string);;
    acme_raise not_found
  | Some order =>
    if negb (bool_decide (Order.status order = OrderStatus.PROCESSING)) then
      audit (event "admin-order-reclaim-noop" "noop" (Some (Order.account_id order))
        (Some order_id) [] None
        [("reason", JStr "not-processing"); ("reason_code", JStr "not-processing");
         ("order_status", JStr (OrderStatus.value (Order.status order)))]%string);;
      mret (order_response order)
    else
      active ← is_active order_id;
      if active : bool then
        reclaim_denied order_id order "enrollment-in-flight" [];;
        acme_raise malformed
      else
        reclaim_checks order_id order ca_verified_no_issuance ca_request_resolved
  end.
End admin.
