(* ===== verification/RoutesAccounts.v ===== *)
(** * Account routes: [src/acme_adcs_ra/routes/accounts.py] and the locked half
    of [src/acme_adcs_ra/routes/key_change.py]

    Deactivation and key rollover: the two mutations that exclude, through the
    account's issuance lock, a certificate request in flight. *)

From S2P Require Import Prelude PyStr Exn Json Jwk Sql Db StoreAudit StoreAccounts.
From S2P Require Import StoreOrders Act World Coalesce X509 CsrCheck StoreCerts Responses.
From S2P Require Import Finalize RoutesOrders.
Local Open Scope Z_scope.

Section accounts.
Context `{ServerConfig}.

Abbreviation acme_raise e := (act_raise (Acme e)).

(** [enforce_account_usable] of app_state.py *)
Definition enforce_account_usable (account : Account.t) : Act World unit :=
  if negb (bool_decide (Account.status account = AccountStatus.VALID)) then
    audit (event "account-request-denied" "denied" (Some (Account.id account)) None [] None
      [("reason", JStr "account-not-valid");
       ("account_status", JStr (AccountStatus.value (Account.status account)))]%string);;
    acme_raise unauthorized
  else if negb (bool_decide (Account.eab_kid account ∈ eab_kids config)) then
    audit (event "account-request-denied" "denied" (Some (Account.id account)) None [] None
      [("reason", JStr "eab-kid-not-allowlisted"); ("kid", JStr (Account.eab_kid account))]%string);;
    acme_raise unauthorized
  else mret tt.

(** The block under [account_issuance_locks.mutating] in [account_resource] *)
Definition deactivate_locked (account : Account.t) (authenticated_thumbprint : string) :
    Act World unit :=
  current ← db (λ _, get_account (Account.id account));
  match current with
  | None => acme_raise unauthorized
  | Some current =>
    enforce_account_usable current;;
    thumbprint ← act_of_res (stored_thumbprint current);
    if negb (bool_decide (thumbprint = authenticated_thumbprint)) then
      audit (event "account-deactivation-stale" "denied" (Some (Account.id account)) None []
        None [("reason", JStr "account-key-changed")]%string);;
      acme_raise unauthorized
    else
      applied ← db (λ _, update_account_status (Account.id account) AccountStatus.DEACTIVATED);
      audit (event "account-deactivated" "success" (Some (Account.id account)) None [] None
        [("eab_kid", JStr (Account.eab_kid account)); ("applied", JBool applied)]%string)
  end.

(** [account_resource], once authenticated *)
Definition account_resource_as (account_id : string) (auth : Authenticated) :
    Act World Response :=
  let '(payload, account, authenticated_thumbprint) := auth in
  if negb (bool_decide (Account.id account = account_id)) then acme_raise unauthorized
  else
    match dict_get "status" payload with
    | None | Some JNull => mret (json_response 200 (account_to_json account) [])
    | Some requested_status =>
      if negb (bool_decide (requested_status
                 = JStr (AccountStatus.value AccountStatus.DEACTIVATED)))
      then acme_raise malformed
      else
        mutating (Account.id account) (deactivate_locked account authenticated_thumbprint);;
        refreshed ← db (λ _, get_account (Account.id account));
        match refreshed with
        | None => acme_raise unauthorized
        | Some refreshed => mret (json_response 200 (account_to_json refreshed) [])
        end
    end.

(** [account_orders], once authenticated *)
Definition account_orders_as (account_id : string) (auth : Authenticated) :
    Act World Response :=
  let '(payload, account, _) := auth in
  if negb (bool_decide (Account.id account = account_id)) then acme_raise unauthorized
  else if negb (bool_decide (payload = [])) then acme_raise malformed
  else
    orders ← db (λ _, list_orders_by_account (Account.id account) 500);
    mret (json_response 200
      (JObj [("orders", JArr (map (λ o, JStr (order_url (Order.id o))) orders))]%string) []).

(** The block under [account_issuance_locks.mutating] in [key_change] *)
Definition key_change_locked (account : Account.t) (new_jwk : json)
    (new_key_thumbprint authenticated_thumbprint : string) :
    Act World (Response * Audit.t) :=
  let account_id := Account.id account in
  current ← db (λ _, get_account account_id);
  match current with
  | None => act_raise AccountKeyStale
  | Some current =>
    enforce_account_usable current;;
    let success := json_response 200 (account_to_json current) [] in
    thumbprint ← act_of_res (stored_thumbprint current);
    if negb (bool_decide (thumbprint = authenticated_thumbprint))
    then act_raise AccountKeyStale
    else
      ev ← db (λ now, update_account_key_with_audit now account_id new_jwk
                 authenticated_thumbprint
                 {| event_type := "account-key-changed"; StoreAudit.account_id := None;
                    order_id := None; sans := []; template := None; requester := None;
                    outcome := "success";
                    details := Some
                      [("eab_kid", JStr (Account.eab_kid account));
                       ("new_key_thumbprint", JStr new_key_thumbprint)]%string |}
                 (Some (rate_limit_window_seconds config))
                 (rate_limit_key_changes_per_window config));
      mret (success, ev)
  end.

(** The rotation of [key_change]: the lock, and what its failures become. *)
Definition rotate_key (account : Account.t) (new_jwk : json)
    (new_key_thumbprint authenticated_thumbprint : string) : Act World Response :=
  let account_id := Account.id account in
  res ← act_try
    (mutating account_id
       (key_change_locked account new_jwk new_key_thumbprint authenticated_thumbprint))
    (λ e, match e with
          | AccountKeyStale =>
            audit (event "key-change-stale" "denied" (Some account_id) None [] None
              [("reason", JStr "account-key-or-status-changed")]%string);;
            acme_raise unauthorized
          | KeyChangeRateLimitExceeded kid limit count window =>
            audit (event "key-change-rate-limited" "denied" (Some account_id) None [] None
              [("reason", JStr "per-account-limit"); ("limit", JNum limit);
               ("window_seconds", JNum window); ("count", JNum count);
               ("scope", JStr "per-account"); ("kid", JStr kid)]%string);;
            acme_raise (rate_limited (Some window))
          | IntegrityError =>
            existing ← db (λ _, get_account_by_jwk new_jwk);
            match existing with
            | Some existing =>
              if negb (bool_decide (Account.id existing = account_id))
              then acme_raise bad_public_key else act_raise IntegrityError
            | None => act_raise IntegrityError
            end
          | e => act_raise e
          end);
  emit_audit_hook res.2;;
  mret res.1.
End accounts.
