(* ===== verification/ServerJws.v ===== *)
(** * Authenticating a request: [src/acme_adcs_ra/server_jws.py] and
    [authenticate_account] of [src/acme_adcs_ra/app_state.py]

    From the request's octets to the account whose key signed them.  The nonce
    is used up by one transaction of the store; everything else reads. *)

From S2P Require Import Prelude PyStr Exn Base64 Json Jwk Sql Db StoreAudit StoreAccounts.
From S2P Require Import StoreOrders Act World Coalesce X509 CsrCheck StoreCerts Responses.
From S2P Require Import Finalize RoutesOrders RoutesAccounts Jws Http Url.
Local Open Scope Z_scope.

(** [try: r except JWSValidationError (and its subclasses): raise e] *)
Definition jws_error {A} (e : Exn) (r : Res Exn A) : Res Exn A :=
  match r with
  | inl err => if is_jws_validation_error err then Raise e else Raise err
  | inr x => Ok x
  end.

Section server_jws.
Context `{ServerConfig, JsonLoads, SignatureBackend, KeyBackend, NetlocCheck}.

Abbreviation acme_raise e := (act_raise (Acme e)).

(** [_parse_jws_body] *)
Definition parse_jws_body (request : Request) : Res Exn dict :=
  (require_jose_json request ;;?
   body ←? read_body_limited request (max_jws_body_size_bytes config) BODY_TOTAL_TIMEOUT;
   if bool_decide (body = []) then Raise (Acme malformed)
   else
     data ←? loads_or (Acme malformed) body;
     match data with
     | JObj jws => Ok jws
     | _ => Raise (Acme malformed)
     end)%res.

(** The protected header of a JWS, before the nonce is looked at. *)
Definition protected_header (jws : dict) : Res Exn dict :=
  (jws_error (Acme malformed) (require_flattened jws) ;;?
   match dict_get "protected" jws with
   | Some (JStr protected_b64) =>
     header ←? or_else (Acme malformed) (loads_b64 protected_b64);
     match header with
     | JObj header => Ok header
     | _ => Raise (Acme malformed)
     end
   | _ => Raise (Acme malformed)
   end)%res.

(** [_consume_nonce] *)
Definition consume_header_nonce (header : dict) : Act World unit :=
  if negb (truthy (dict_get "nonce" header)) then acme_raise bad_nonce
  else match dict_get "nonce" header with
  | Some (JStr nonce) =>
    consumed ← db (λ now, consume_nonce now (JStr nonce));
    if (consumed : bool) then mret tt else acme_raise bad_nonce
  | _ => acme_raise bad_nonce
  end.

(** [_parse_jws_header] *)
Definition parse_jws_header (request : Request) (expected_url : string) :
    Act World (dict * dict) :=
  jws ← act_of_res (parse_jws_body request);
  header ← act_of_res (protected_header jws);
  consume_header_nonce header;;
  mark_spent (request_id request);;
  act_of_res (verify_url header expected_url);;
  mret (header, jws).

(** [_verify_jws_signature] *)
Definition verify_jws_signature (jws : dict) (public_key : PublicKey) : Res Exn dict :=
  (payload ←?
     match verify_flattened_jws jws public_key with
     | inl UnsupportedSignatureAlgorithmError => Raise (Acme bad_signature_algorithm)
     | r => jws_error (Acme unauthorized) r
     end;
   if bool_decide (payload = []) then Ok []
   else
     decoded ←? loads_or (Acme malformed) payload;
     match decoded with
     | JObj payload => Ok payload
     | _ => Raise (Acme malformed)
     end)%res.

(** The kid of an existing account's header. *)
Definition header_kid (header : dict) : Res Exn string :=
  if negb (truthy (dict_get "kid" header)) then Raise (Acme malformed)
  else match dict_get "kid" header with
  | Some (JStr kid) =>
    if bool_decide (is_Some (dict_get "jwk" header)) then Raise (Acme malformed) else Ok kid
  | _ => Raise (Acme malformed)
  end.

(** The key stored for an account, and its thumbprint. *)
Definition stored_key (account : Account.t) : Res Exn (PublicKey * string) :=
  (jwk ←? load_json (Account.jwk_json account);
   public_key ←? public_key_from_jwk jwk;
   thumbprint ←? jwk_thumbprint jwk;
   Ok (public_key, thumbprint))%res.

(** [verify_existing_account_jws] *)
Definition verify_existing_account_jws (request : Request) (expected_url : string) :
    Act World (dict * dict * string * string) :=
  parsed ← parse_jws_header request expected_url;
  let '(header, jws) := parsed in
  kid ← act_of_res (header_kid header);
  account_id ← act_of_res (kid_to_account_id kid account_url_prefix);
  account ← db (λ _, get_account account_id);
  match account with
  | None => acme_raise unauthorized
  | Some account =>
    key ← act_of_res (or_else (Acme bad_public_key) (stored_key account));
    payload ← act_of_res (verify_jws_signature jws key.1);
    mret (header, payload, account_id, key.2)
  end.

(** [verify_new_account_jws] *)
Definition verify_new_account_jws (request : Request) (expected_url : string) :
    Act World (dict * dict * dict) :=
  parsed ← parse_jws_header request expected_url;
  let '(header, jws) := parsed in
  match dict_get "jwk" header with
  | Some (JObj account_jwk) =>
    if bool_decide (is_Some (dict_get "kid" header)) then acme_raise malformed
    else
      public_key ← act_of_res
        (or_else (Acme bad_public_key) (public_key_from_jwk (JObj account_jwk)));
      payload ← act_of_res (verify_jws_signature jws public_key);
      mret (header, payload, account_jwk)
  | _ => acme_raise malformed
  end.

(** [authenticate_account]: with the header in front of what the routes use. *)
Definition authenticate_account (request : Request) (path : string) :
    Act World (dict * Authenticated) :=
  verified ← verify_existing_account_jws request (url path);
  let '(header, payload, account_id, authenticated_thumbprint) := verified in
  account ← db (λ _, get_account account_id);
  match account with
  | None => acme_raise unauthorized
  | Some account =>
    enforce_account_usable account;;
    mret (header, (payload, account, authenticated_thumbprint))
  end.
Definition authenticate (request : Request) (path : string) : Act World Authenticated :=
  auth ← authenticate_account request path; mret auth.2.
End server_jws.
