(* ===== verification/RoutesNewAccount.v ===== *)
(** * Account creation and key rollover

    [new_account] of [src/acme_adcs_ra/routes/accounts.py] and
    [routes/key_change.py].  An account is created under an external account
    binding: a MAC of
    the account's key under a credential of the allow list. *)

From S2P Require Import Prelude PyStr Json Exn Base64 Jwk Jws Http Url Sql Db StoreAudit.
From S2P Require Import StoreAccounts StoreOrders Act World Coalesce X509 CsrCheck StoreCerts.
From S2P Require Import Responses Finalize RoutesOrders RoutesAccounts ServerJws.
Local Open Scope Z_scope.

(** ** The floor on kids: [eab_kid_floor.py] *)

Definition MIN_EAB_KID_CHARS : Z := 22.

(** [assert_eab_kids_meet_floor], without its warnings. *)
Definition assert_eab_kids_meet_floor (c : Config) : Act World unit :=
  if allow_weak_credentials c then mret tt
  else
    let short := filter (λ kid, slen kid < MIN_EAB_KID_CHARS) (eab_kids c) in
    if bool_decide (short = []) then mret tt
    else
      in_use ← db (λ _, eab_kids_with_accounts short);
      if bool_decide (filter (λ kid, kid ∉ in_use) short = []) then mret tt
      else act_raise RuntimeError.

Section new_account.
Context `{ServerConfig, UuidSource, JsonLoads, SignatureBackend, KeyBackend, NetlocCheck}.
Context `{FloatEq}.

Abbreviation acme_raise e := (act_raise (Acme e)).

(** [RAConfig.eab_key_bytes] *)
Definition eab_key_bytes (c : Config) (kid : string) : Res Exn (option (list Z)) :=
  match find (λ kv, bool_decide (kv.1 = kid)) (eab_allowlist c) with
  | Some kv => (key ←? base64url_decode kv.2; Ok (Some key))%res
  | None => Ok None
  end.

(** An account that exists already: 200, and its URL. *)
Definition existing_account (a : Account.t) : Response :=
  json_response 200 (account_to_json a) [("Location", account_url (Account.id a))]%string.

(** A refusal of the binding: the audit row, then the problem. *)
Definition creation_denied (why : string) (more : dict) : Act World unit :=
  audit (event "account-creation-denied" "failed" None None [] None
    (("reason", JStr why) :: more)%string).
Definition binding_refused {A} (why : string) (more : dict) : Act World A :=
  creation_denied why more;; acme_raise bad_external_account_binding.

Definition is_str (v : option json) : bool :=
  match v with Some (JStr _) => true | _ => false end.

(** The binding's members and kid, before anything is verified. *)
Definition eab_header_kid (eab_jws : dict) : Act World (dict * string) :=
  if negb (is_str (dict_get "protected" eab_jws) && is_str (dict_get "payload" eab_jws)
           && is_str (dict_get "signature" eab_jws))
  then binding_refused "EAB protected/payload/signature must be strings" []
  else
    let protected_b64 := py_str (default JNull (dict_get "protected" eab_jws)) in
    match loads_b64 protected_b64 with
    | inl _ => binding_refused "invalid EAB protected header" []
    | inr (JObj eab_header) =>
      match dict_get "kid" eab_header with
      | None | Some JNull => binding_refused "EAB protected header missing kid" []
      | Some (JStr kid) =>
        if bool_decide (kid = EmptyString)
        then binding_refused "EAB protected header missing kid" []
        else mret (eab_header, kid)
      | Some _ => binding_refused "EAB kid must be a string" []
      end
    | inr _ => binding_refused "EAB protected header is not a JSON object" []
    end.

(** The key a kid stands for: one that decodes to no octets is none. *)
Definition eab_mac_key (kid : string) : Act World (list Z) :=
  mac_key ← act_of_res (eab_key_bytes config kid);
  match mac_key with
  | Some (b :: key) => mret (b :: key)
  | _ => binding_refused "unknown EAB kid" [("kid", JStr kid)]%string
  end.

Definition verified_binding (eab_jws account_jwk : dict) (mac_key : list Z) (kid : string)
    (new_account_url : string) : Act World string :=
  act_try
    (verified_kid ← act_of_res (verify_eab_jws eab_jws account_jwk mac_key (Some new_account_url));
     match verified_kid with
     | JStr verified_kid => mret verified_kid
     | _ => act_raise TypeError
     end)
    (λ e, if is_jws_validation_error e
          then binding_refused "EAB MAC verification failed" [("kid", JStr kid)]%string
          else act_raise e).

(** The creation, its audit row, and what a lost race becomes. *)
Definition created_account (account_jwk eab_header : dict) (verified_kid : string)
    (contact : list json) : Act World (Response + Account.t * Audit.t) :=
  uuid ← fresh_uuids 1;
  act_try
    (res ← db (λ now, create_account_with_audit now (uuid 0%nat) (JObj account_jwk)
        verified_kid AccountStatus.VALID (Some contact)
        {| event_type := "account-created"; StoreAudit.account_id := None;
           order_id := None; sans := []; template := None; requester := None;
           outcome := "success";
           details := Some
             [("eab_kid", JStr verified_kid);
              ("alg", default JNull (dict_get "alg" eab_header))]%string |}
        (max_accounts_per_eab_kid config));
     mret (inr res))
    (λ e, match e with
          | EabAccountLimitExceeded kid limit count =>
            winner ← db (λ _, get_account_by_jwk (JObj account_jwk));
            match winner with
            | Some winner => mret (inl (existing_account winner))
            | None =>
              binding_refused "eab-account-limit"
                [("kid", JStr kid); ("limit", JNum limit); ("count", JNum count)]%string
            end
          | IntegrityError =>
            winner ← db (λ _, get_account_by_jwk (JObj account_jwk));
            match winner with
            | Some winner => mret (inl (existing_account winner))
            | None => act_raise IntegrityError
            end
          | e => act_raise e
          end).

(** The body of a 201: the account with the binding it was made under. *)
Definition created_body (account : Account.t) (eab_jws payload : dict) : json :=
  let account_members := match account_to_json account with JObj m => m | _ => [] end in
  let body := dict_set "externalAccountBinding" (JObj eab_jws) account_members in
  match terms_of_service config with
  | Some tos =>
    if bool_decide (tos = EmptyString) then JObj body
    else JObj (dict_set "termsOfServiceAgreed"
                 (default (JBool false) (dict_get "termsOfServiceAgreed" payload)) body)
  | None => JObj body
  end.

(** [new_account] *)
Definition new_account (request : Request) : Act World Response :=
  let new_account_url := url "/acme/new-acct" in
  verified ← verify_new_account_jws request new_account_url;
  let '(_, payload, account_jwk) := verified in
  existing ← db (λ _, get_account_by_jwk (JObj account_jwk));
  match existing with
  | Some existing => mret (existing_account existing)
  | None =>
    if bool_decide (dict_get "onlyReturnExisting" payload = Some (JBool true))
    then acme_raise account_does_not_exist
    else match dict_get "externalAccountBinding" payload with
    | Some (JObj eab_jws) =>
      header_kid ← eab_header_kid eab_jws;
      let '(eab_header, eab_kid) := header_kid in
      mac_key ← eab_mac_key eab_kid;
      verified_kid ← verified_binding eab_jws account_jwk mac_key eab_kid new_account_url;
      match default (JArr []) (dict_get "contact" payload) with
      | JArr contact =>
        created ← created_account account_jwk eab_header verified_kid contact;
        match created with
        | inl response => mret response
        | inr (account, ev) =>
          emit_audit_hook ev;;
          mret (json_response 201 (created_body account eab_jws payload)
                  [("Location", account_url (Account.id account))]%string)
        end
      | _ => acme_raise malformed
      end
    | _ => binding_refused "missing externalAccountBinding" []
    end
  end.
End new_account.

(** ** Key rollover: [routes/key_change.py] *)

Local Open Scope res_scope.

Section key_change.
Context `{ServerConfig, JsonLoads, SignatureBackend, KeyBackend, NetlocCheck, FloatEq}.

Abbreviation acme_raise e := (act_raise (Acme e)).

(** [a.get(k) != b.get(l)]: an absent member is [None]. *)
Definition member_eq (a b : option json) : bool := py_eq (default JNull a) (default JNull b).

(** The inner protected header, with the new key it embeds. *)
Definition inner_header (outer_header inner_jws : dict) : Res Exn dict :=
  if negb (bool_decide (is_Some (dict_get "protected" inner_jws))) then Raise (Acme malformed)
  else
    jws_error (Acme malformed) (require_flattened inner_jws) ;;?
    header ←?
      match dict_get "protected" inner_jws with
      | Some (JStr protected_b64) => or_else (Acme malformed) (loads_b64 protected_b64)
      | _ => Raise (Acme malformed)
      end;
    match header with
    | JObj header =>
      match dict_get "jwk" header with
      | Some (JObj _) =>
        if negb (member_eq (dict_get "url" header) (dict_get "url" outer_header))
        then Raise (Acme malformed)
        else if bool_decide (is_Some (dict_get "nonce" header)) then Raise (Acme malformed)
        else if bool_decide (is_Some (dict_get "kid" header)) then Raise (Acme malformed)
        else Ok header
      | _ => Raise (Acme malformed)
      end
    | _ => Raise (Acme malformed)
    end.

(** The inner payload, once the new key has verified it. *)
Definition inner_payload (inner_jws : dict) (new_jwk : json) : Res Exn dict :=
  new_public_key ←? or_else (Acme bad_public_key) (public_key_from_jwk new_jwk);
  octets ←?
    match verify_flattened_jws inner_jws new_public_key with
    | inl UnsupportedSignatureAlgorithmError => Raise (Acme bad_signature_algorithm)
    | r => jws_error (Acme unauthorized) r
    end;
  payload ←? loads_or (Acme malformed) octets;
  match payload with
  | JObj payload => Ok payload
  | _ => Raise (Acme malformed)
  end.

(** The three keys agree: the payload's old key is the account's, the new one
    another. *)
Definition key_thumbprints (outer_header payload : dict) (account : Account.t)
    (new_jwk : json) : Res Exn string :=
  if negb (member_eq (dict_get "account" payload) (dict_get "kid" outer_header))
  then Raise (Acme malformed)
  else match dict_get "oldKey" payload with
  | Some (JObj old_key_jwk) =>
    old_key_thumbprint ←? jws_error (Acme malformed) (jwk_thumbprint (JObj old_key_jwk));
    current ←? stored_thumbprint account;
    if negb (bool_decide (old_key_thumbprint = current)) then Raise (Acme unauthorized)
    else
      new_key_thumbprint ←? jws_error (Acme malformed) (jwk_thumbprint new_jwk);
      if bool_decide (new_key_thumbprint = old_key_thumbprint) then Raise (Acme malformed)
      else Ok new_key_thumbprint
  | _ => Raise (Acme malformed)
  end.

(** Everything [key_change] checks of the two messages. *)
Definition validated_rollover (outer_header inner_jws : dict) (account : Account.t) :
    Res Exn (json * string) :=
  header ←? inner_header outer_header inner_jws;
  let new_jwk := default JNull (dict_get "jwk" header) in
  payload ←? inner_payload inner_jws new_jwk;
  new_key_thumbprint ←? key_thumbprints outer_header payload account new_jwk;
  Ok (new_jwk, new_key_thumbprint).

(** [key_change] *)
Definition key_change (request : Request) : Act World Response :=
  (auth ← authenticate_account request "/acme/key-change";
   let '(outer_header, (outer_payload, account, authenticated_thumbprint)) := auth in
   rollover ← act_of_res (validated_rollover outer_header outer_payload account);
   let '(new_jwk, new_key_thumbprint) := rollover in
   existing ← db (λ _, get_account_by_jwk new_jwk);
   match existing with
   | Some _ => acme_raise bad_public_key
   | None => rotate_key account new_jwk new_key_thumbprint authenticated_thumbprint
   end)%stdpp.
End key_change.
