(* ===== verification/RoutesAuthz.v ===== *)
(** * Authorizations and certificates: [routes/authorizations.py] and
    [routes/certificates.py] under [src/acme_adcs_ra/]

    What follows authentication; the request enters as in [RoutesOrders]. *)

From S2P Require Import Prelude PyStr Time Exn Json Jwk Sql Db StoreAudit StoreAccounts.
From S2P Require Import StoreOrders Act World Coalesce X509 CsrCheck StoreCerts.
From S2P Require Import Responses Finalize RoutesOrders.
Local Open Scope Z_scope.

Section authz.
Context `{ServerConfig, CertParser}.

Abbreviation acme_raise e := (act_raise (Acme e)).

(** [post_authorization], once authenticated *)
Definition post_authorization_as (authz_id : string) (auth : Authenticated) :
    Act World Response :=
  let '(payload, account, _) := auth in
  if negb (bool_decide (payload = [])) then acme_raise malformed
  else
    record ← db (λ _, get_authorization authz_id);
    match record with
    | Some record =>
      if negb (bool_decide (Authz.account_id (authz record) = Account.id account))
      then acme_raise unauthorized
      else mret (json_response 200 (authz_to_json record) [])
    | None => acme_raise unauthorized
    end.

(** The loop of [_maybe_ready_order]: is every authorization valid? *)
Fixpoint all_authorizations_valid (urls : list string) : Act World bool :=
  match urls with
  | [] => mret true
  | authz_url :: urls =>
    record ← db (λ _, get_authorization (rsplit_slash authz_url));
    match record with
    | Some record =>
      if bool_decide (Authz.status (authz record) = "valid"%string)
      then all_authorizations_valid urls else mret false
    | None => mret false
    end
  end.

(** [_maybe_ready_order] *)
Definition maybe_ready_order (order_id : string) : Act World unit :=
  order ← db (λ _, get_order order_id);
  match order with
  | None => mret tt
  | Some order =>
    if negb (bool_decide (Order.status order = OrderStatus.PENDING)) then mret tt
    else
      now ← act_get w_now;
      if is_expired (Order.expires order) now then mret tt
      else
        ready ← all_authorizations_valid (Order.authorizations order);
        if (ready : bool) then
          db (λ now, transition_pending_to_ready now order_id);;
          mret tt
        else mret tt
  end.

(** [_up_link] *)
Definition up_link (authz_id : string) : list (string * string) :=
  [("Link", "<" +:+ authz_url authz_id +:+ ">;rel=" +:+ String "034" ("up" +:+ String "034" ""))]%string.

(** [post_challenge], once authenticated *)
Definition post_challenge_as (challenge_id : string) (auth : Authenticated) :
    Act World Response :=
  let '(payload, account, _) := auth in
  let account_id := Account.id account in
  challenge ← db (λ _, get_challenge challenge_id);
  match challenge with
  | None => acme_raise unauthorized
  | Some challenge =>
    record ← db (λ _, get_authorization (Challenge.authz_id challenge));
    match record with
    | None => acme_raise unauthorized
    | Some record =>
      let az := authz record in
      if negb (bool_decide (Authz.account_id az = account_id)) then acme_raise unauthorized
      else if negb (bool_decide (payload = [])) then acme_raise malformed
      else if bool_decide (Challenge.status challenge = "valid"%string)
      then mret (json_response 200 (challenge_to_json challenge) (up_link (Authz.id az)))
      else
        validated_at ← act_get w_now;
        db (λ _, update_challenge_status challenge_id "valid" (Some validated_at));;
        db (λ _, update_authorization_status (Challenge.authz_id challenge) "valid");;
        maybe_ready_order (Authz.order_id az);;
        refreshed ← db (λ _, get_challenge challenge_id);
        match refreshed with
        | None => acme_raise server_internal
        | Some refreshed =>
          audit (event "challenge-validated" "success" (Some account_id)
            (Some (Authz.order_id az)) [] None
            [("challenge_id", JStr challenge_id); ("authz_id", JStr (Authz.id az))]%string);;
          mret (json_response 200 (challenge_to_json refreshed) (up_link (Authz.id az)))
        end
    end
  end.

(** ** Certificates *)

(** ["".join(v)] of a decoded column. *)
Fixpoint join_strings (l : list json) : Res Exn string :=
  match l with
  | [] => Ok EmptyString
  | JStr s :: l => (rest ←? join_strings l; Ok (s +:+ rest))%res
  | _ => Raise TypeError
  end.
Definition join_json (v : json) : Res Exn string :=
  match v with
  | JArr l => join_strings l
  | JStr s => Ok s
  | JObj m => Ok (String.concat "" m.*1)
  | _ => Raise TypeError
  end.

(** [_certificate_response]: 410 without a body, or the PEM chain. *)
Definition certificate_response (cert : Cert.t) : Res Exn Response :=
  if bool_decide (Cert.status cert = CertStatus.REVOKED)
  then Ok (json_response 410 JNull [])
  else if negb (bool_decide (Cert.status cert = CertStatus.VALID))
  then Ok (json_response 410 JNull [])
  else
    (chain ←? load_json (Cert.chain_pem cert);
     body ←? join_json chain;
     Ok (json_response 200 (JStr (Cert.cert_pem cert +:+ body))
           [("Content-Type", "application/pem-certificate-chain")]%string))%res.

(** [post_certificate], once authenticated *)
Definition post_certificate_as (cert_id : string) (auth : Authenticated) :
    Act World Response :=
  let '(payload, account, _) := auth in
  if negb (bool_decide (payload = [])) then acme_raise malformed
  else
    cert ← db (λ _, get_certificate cert_id);
    match cert with
    | Some cert =>
      if negb (bool_decide (Cert.account_id cert = Account.id account))
      then acme_raise unauthorized
      else act_of_res (certificate_response cert)
    | None => acme_raise unauthorized
    end.
End authz.
