(* ===== verification/RoutesRevocation.v ===== *)
(** * Revocation: [src/acme_adcs_ra/routes/revocation.py] and the legs of
    [src/acme_adcs_ra/revocation.py]

    The server records the revocation; the CA's list is written by an operator
    out of band.  [CertDer] is the X.509 library on DER: the serial number of
    a certificate and its re-encoding. *)

From S2P Require Import Prelude PyStr Exn Base64 Json Jwk Sql Db StoreAudit StoreAccounts.
From S2P Require Import StoreOrders Act World Coalesce X509 CsrCheck StoreCerts Responses.
From S2P Require Import Finalize RoutesOrders Jws.
Local Open Scope Z_scope.

(** [load_der_x509_certificate], as the serial number and [public_bytes(DER)],
    and [public_bytes(DER)] of what [load_pem_x509_certificate] returns. *)
Class CertDer := {
  load_der_x509_certificate : list Z → Res Exn (Z * list Z);
  pem_public_bytes : string → list Z;
}.

(** ** The legs *)

(** [RevocationResult] *)
Record RevocationResult := {
  rr_revoked : bool;
  rr_reason : option Z;
  rr_revoked_at : option Z;
  rr_metadata : list (string * string);
}.

(** The implementations of the [RevocationLeg] protocol. *)
Inductive RevocationLeg := FakeRevocationLeg | CertsrvRevocationLeg.

Definition SCOPE_RA_STORE_ONLY : string := "ra-store-only".

(** [FakeRevocationLeg.revoke] *)
Definition fake_revoke (now : Z) (reason : option Z) : RevocationResult :=
  {| rr_revoked := true; rr_reason := reason; rr_revoked_at := Some now;
     rr_metadata := [("source", "fake"); ("revocation_scope", "ca-crl");
                     ("ca_crl_updated", "true")]%string |}.

(** [_serial_from_pem] of revocation.py *)
Definition leg_serial `{CertParser} (cert_pem : string) : Res Exn string :=
  (cert ←? load_pem_x509_certificate cert_pem;
   Ok (upper (format_x (cert_serial_number cert))))%res.

(** [CertsrvRevocationLeg.revoke] *)
Definition certsrv_revoke `{CertParser} (now : Z) (cert_pem : string) (reason : option Z) :
    Res Exn RevocationResult :=
  (serial_hex ←? leg_serial cert_pem;
   Ok {| rr_revoked := true; rr_reason := reason; rr_revoked_at := Some now;
         rr_metadata := [("revocation_scope", SCOPE_RA_STORE_ONLY);
                         ("ca_crl_updated", "false"); ("serial", serial_hex)]%string |})%res.

Definition leg_revoke `{CertParser} (leg : RevocationLeg) (now : Z) (cert_pem : string)
    (reason : option Z) : Res Exn RevocationResult :=
  match leg with
  | FakeRevocationLeg => Ok (fake_revoke now reason)
  | CertsrvRevocationLeg => certsrv_revoke now cert_pem reason
  end.

(** [metadata.get(k, d)] *)
Definition meta_get (k d : string) (m : list (string * string)) : string :=
  match find (λ kv, bool_decide (kv.1 = k)) m with Some kv => kv.2 | None => d end.

(** ** The route *)

(** [_VALID_REVOCATION_REASONS] *)
Definition VALID_REVOCATION_REASONS : list Z := [0; 1; 2; 3; 4; 5; 6; 9; 10].

Section revocation.
Context `{ServerConfig, CertParser, CertDer}.
Context (revocation : RevocationLeg).

Abbreviation acme_raise e := (act_raise (Acme e)).

(** [_dns_sans] *)
Definition dns_sans (cert : X509Cert) : Res Exn (list string) :=
  (extensions ←? cert_extensions cert;
   Ok (match subject_alternative_name extensions with
       | Some names => dns_names names
       | None => []
       end))%res.

(** The certificate a payload submits; [cert] is the deprecated spelling. *)
Definition submitted_certificate (payload : dict) : Res Exn (Z * list Z) :=
  let field :=
    match dict_get "certificate" payload with
    | None | Some JNull => dict_get "cert" payload
    | v => v
    end in
  match field with
  | Some (JStr cert_b64) =>
    if bool_decide (cert_b64 = EmptyString) then Raise (Acme malformed)
    else
      (cert_der ←? or_else (Acme malformed) (base64url_decode cert_b64);
       or_else (Acme malformed) (load_der_x509_certificate cert_der))%res
  | _ => Raise (Acme malformed)
  end.

Definition revocation_reason_of (payload : dict) : Res Exn (option Z) :=
  match dict_get "reason" payload with
  | None | Some JNull => Ok None
  | Some (JNum z) =>
    if bool_decide (z ∈ VALID_REVOCATION_REASONS) then Ok (Some z)
    else Raise (Acme bad_revocation_reason)
  | Some _ => Raise (Acme bad_revocation_reason)
  end.

Definition json_reason (reason : option Z) : json :=
  match reason with Some z => JNum z | None => JNull end.

Definition empty_response (hs : list (string * string)) : Response := json_response 200 JNull hs.

(** The details of the audit row, from the leg's metadata. *)
Definition revocation_details (cert : Cert.t) (serial_hex : string) (reason : option Z)
    (meta : list (string * string)) : dict :=
  let req_id := dict_get "req_id" (Cert.metadata cert) in
  [("certificate_id", JStr (Cert.id cert)); ("serial", JStr serial_hex);
   ("reason", json_reason reason);
   ("revocation_scope", JStr (meta_get "revocation_scope" "ra-store-only" meta));
   ("ca_crl_updated", JStr (meta_get "ca_crl_updated" "false" meta))]%string
  ++ if truthy req_id then [("req_id", default JNull req_id)]%string else [].

Definition runbook : string :=
  "scripts/Revoke-Cert.ps1 (run by a CA officer; see docs/threat-model.md "
  +:+ String "167" "E)".

(** The header that tells the operator the CA's list is not written. *)
Definition out_of_band_header (cert : Cert.t) (serial_hex : string)
    (meta : list (string * string)) : list (string * string) :=
  if bool_decide (meta_get "ca_crl_updated" "false" meta = "false"%string) then
    let req_id := dict_get "req_id" (Cert.metadata cert) in
    [("X-Acme-Ra-Out-Of-Band-Revocation",
      json_dumps (JObj
        ([("ca_crl_updated", JBool false);
          ("revocation_scope", JStr (meta_get "revocation_scope" "ra-store-only" meta));
          ("serial", JStr serial_hex);
          ("runbook", JStr runbook)]%string
         ++ if truthy req_id then [("req_id", default JNull req_id)]%string else [])))]%string
  else [].

(** The transaction of the revocation and the response to it. *)
Definition revocation_recorded (account_id : string) (cert : Cert.t) (serial_hex : string)
    (reason : option Z) (sans : list string) (result : RevocationResult) :
    Act World Response :=
  now ← act_get w_now;
  let revoked_at := default now (rr_revoked_at result) in
  let recorded_reason :=
    match rr_reason result with Some z => Some z | None => reason end in
  recorded ← db (λ now, record_revocation now (Cert.id cert) (Cert.order_id cert) account_id
    recorded_reason (Some revoked_at) sans
    (revocation_details cert serial_hex reason (rr_metadata result)));
  let '(update, ev) := recorded in
  match record update with
  | None => acme_raise not_found
  | Some _ =>
    if negb (won_cas update) then mret (empty_response [])
    else
      match ev with Some ev => emit_audit_hook ev | None => mret tt end;;
      mret (empty_response (out_of_band_header cert serial_hex (rr_metadata result)))
  end.

(** [revoke_cert], once authenticated *)
Definition revoke_cert_as (auth : Authenticated) : Act World Response :=
  let '(payload, account, _) := auth in
  let account_id := Account.id account in
  submitted ← act_of_res (submitted_certificate payload);
  reason ← act_of_res (revocation_reason_of payload);
  let serial_hex := canonical_serial (format_x submitted.1) in
  cert ← db (λ _, get_certificate_by_serial serial_hex (Some account_id));
  match cert with
  | None => acme_raise not_found
  | Some cert =>
    stored ← act_of_res
      (match load_pem_x509_certificate (Cert.cert_pem cert) with
       | inl ValueError => Raise (Acme server_internal)
       | r => r
       end);
    if negb (bool_decide (submitted.2 = pem_public_bytes (Cert.cert_pem cert)))
    then acme_raise malformed
    else
      cert_sans ← act_of_res (dns_sans stored);
      if bool_decide (Cert.status cert = CertStatus.REVOKED) then mret (empty_response [])
      else
        now ← act_get w_now;
        match leg_revoke revocation now (Cert.cert_pem cert) reason with
        | inl e =>
          audit (event "certificate-revoked" "failed" (Some account_id)
            (Some (Cert.order_id cert)) cert_sans None
            [("certificate_id", JStr (Cert.id cert)); ("serial", JStr serial_hex);
             ("error", JStr (exn_str e))]%string);;
          acme_raise server_internal
        | inr result =>
          revocation_recorded account_id cert serial_hex reason cert_sans result
        end
  end.
End revocation.
