(* ===== verification/Server.v ===== *)
(** * The composition root: [src/acme_adcs_ra/server.py], with
    [routes/acme.py] and [routes/directory.py]

    Which route a request reaches, what an [AcmeError] becomes, and the nonce
    every response to a request that spent one is owed.  An exception that is
    no [AcmeError] leaves the application: the framework's own 500. *)

From S2P Require Import Prelude PyStr Exn Json Jwk Sql Db StoreAudit StoreAccounts.
From S2P Require Import StoreOrders RateLimit Act World Coalesce X509 CsrCheck.
From S2P Require Import StoreCerts Responses Finalize RoutesOrders RoutesAccounts Jws Http Url.
From S2P Require Import ServerJws RoutesNewAccount RoutesAuthz RoutesRevocation.
From Stdlib Require Import SpecFloat.
Local Open Scope Z_scope.

Section server.
Context `{ServerConfig, UuidSource}.

Abbreviation acme_raise e := (act_raise (Acme e)).

(** ** The nonce bucket *)

(** [_default_nonce_bucket] *)
Definition default_nonce_bucket (now : spec_float) : Res Exn (option TokenBucket) :=
  if SFleb (nonce_rate_limit_per_second config) (S754_zero false)
     || (nonce_rate_limit_burst config <? 1)
  then Ok None
  else (b ←? make_bucket (nonce_rate_limit_burst config)
               (nonce_rate_limit_per_second config) now; Ok (Some b))%res.

(** [bucket is None or bucket.take()] *)
Definition bucket_admits : Act World bool :=
  act_atomic (λ w,
    match w_bucket w with
    | None => (inr true, w)
    | Some b =>
      let '(ok, b) := take_token (monotonic (w_mono w)) b in (inr ok, set_bucket (Some b) w)
    end).

(** [bucket.retry_after_seconds()], or [1] without a bucket. *)
Definition bucket_retry : Act World Z :=
  act_atomic (λ w,
    match w_bucket w with
    | None => (inr 1, w)
    | Some b => (retry_after_seconds b, w)
    end).

(** ** Minting *)

(** [uuid.hex] and [uuid.int] of the text form *)
Definition uuid_hex (u : string) : string :=
  of_chars (filter (λ c, bool_decide (c = "-"%char) = false) (chars u)).
Definition hex_value (c : ascii) : Z :=
  if in_range 48 57 c then code c - 48 else code c - 87.
Definition uuid_int (u : string) : Z :=
  fold_left (λ n c, n * 16 + hex_value c) (chars (uuid_hex u)) 0.

(** [Store.create_nonce], with its three uuids *)
Definition mint_nonce : Act World string :=
  uuid ← fresh_uuids 3;
  db (λ now, create_nonce now (uuid_hex (uuid 0%nat) +:+ uuid_hex (uuid 1%nat))
               (uuid_int (uuid 2%nat))).

(** ** [directory.py] *)

Definition directory : Response :=
  json_response 200 (JObj
    [("newNonce", JStr (url "/acme/new-nonce")); ("newAccount", JStr (url "/acme/new-acct"));
     ("newOrder", JStr (url "/acme/new-order")); ("revokeCert", JStr (url "/acme/revoke-cert"));
     ("keyChange", JStr (url "/acme/key-change"));
     ("meta", JObj (("externalAccountRequired", JBool true) ::
        match terms_of_service config with
        | Some tos =>
          if bool_decide (tos = EmptyString) then [] else [("termsOfService", JStr tos)]
        | None => []
        end))]%string) [].

(** [_nonce_response] *)
Definition nonce_response : Act World Response :=
  admitted ← bucket_admits;
  if (admitted : bool) then
    nonce ← mint_nonce;
    mret (json_response 204 JNull [("Replay-Nonce", nonce); ("Cache-Control", "no-store")]%string)
  else
    retry ← bucket_retry;
    acme_raise (rate_limited (Some retry)).

(** ** Problems *)

(** [_problem]: the type and status of [to_problem]; title and detail are
    prose. *)
Definition problem (e : AcmeError) (extra : list (string * string)) : Response :=
  {| status_code := status e;
     content := JObj [("type", JStr (typ e)); ("status", JNum (status e))]%string;
     headers :=
       [("Content-Type", "application/problem+json")]%string
       ++ match retry_after e with
          | Some n => [("Retry-After", py_str (JNum n))]%string
          | None => []
          end
       ++ extra |}.

Definition is_sqlite_error (e : Exn) : bool :=
  match e with IntegrityError | OperationalError _ => true | _ => false end.
Definition is_os_error (e : Exn) : bool := match e with OSError _ => true | _ => false end.

(** [acme_exception_handler]: a badNonce carries a nonce or is none. *)
Definition acme_exception_handler (e : AcmeError) : Act World Response :=
  if negb (bool_decide (typ e = typ bad_nonce)) then mret (problem e [])
  else
    admitted ← bucket_admits;
    nonce ←
      (if (admitted : bool) then
         act_try (nonce ← mint_nonce; mret (Some nonce))
           (λ err, if is_sqlite_error err || is_os_error err then mret None else act_raise err)
       else mret None);
    match nonce with
    | Some nonce => mret (problem e [("Replay-Nonce", nonce)]%string)
    | None =>
      retry ← bucket_retry;
      mret (problem (rate_limited (Some retry)) [])
    end.

(** ** [ReplayNonceMiddleware] *)

Definition has_nonce (r : Response) : bool :=
  existsb (λ kv, bool_decide (lower kv.1 = "replay-nonce"%string)) (headers r).

(** [_owed_nonce] *)
Definition owed_nonce (request : nat) (r : Response) : Act World bool :=
  if has_nonce r then mret false
  else
    consumed ← act_get (λ w, bool_decide (request ∈ w_spent w));
    if status_code r <? 400 then mret consumed
    else if negb consumed then mret false
    else bucket_admits.

(** [_mint]: any failure costs the header only. *)
Definition mint : Act World (option string) :=
  act_try (nonce ← mint_nonce; mret (Some nonce)) (λ _, mret None).

Definition add_header (k v : string) (r : Response) : Response :=
  {| status_code := status_code r; content := content r; headers := headers r ++ [(k, v)] |}.

(** The middleware around the application, exception handler included. *)
Definition with_nonce (request : nat) (r : Response) : Act World Response :=
  owed ← owed_nonce request r;
  if (owed : bool) then
    nonce ← mint;
    mret (match nonce with Some n => add_header "replay-nonce" n r | None => r end)
  else mret r.
Definition handled (r : Res Exn Response) : Act World Response :=
  match r with
  | inr r => mret r
  | inl (Acme e) => acme_exception_handler e
  | inl e => act_raise e
  end.
Definition serve (request : nat) (route : Act World Response) : Act World Response :=
  act_then route (λ r, response ← handled r; with_nonce request response).
End server.

(** ** The routes *)

Inductive Route :=
  | Directory | NewNonce | NewAccount | NewOrder | RevokeCert | KeyChange
  | AccountResource (id : string) | AccountOrders (id : string) | GetOrder (id : string)
  | Finalize (id : string) | PostAuthorization (id : string) | PostChallenge (id : string)
  | PostCertificate (id : string).

Section routes.
Context `{ServerConfig, UuidSource, CertParser, CsrParser, CertDer}.
Context `{JsonLoads, SignatureBackend, KeyBackend, NetlocCheck, FloatEq}.
Context (revocation : RevocationLeg).

Definition route_path (r : Route) : string :=
  match r with
  | Directory => "/directory" | NewNonce => "/acme/new-nonce"
  | NewAccount => "/acme/new-acct" | NewOrder => "/acme/new-order"
  | RevokeCert => "/acme/revoke-cert" | KeyChange => "/acme/key-change"
  | AccountResource i => "/acme/acct/" +:+ i
  | AccountOrders i => "/acme/acct/" +:+ i +:+ "/orders"
  | GetOrder i => "/acme/order/" +:+ i | Finalize i => "/acme/finalize/" +:+ i
  | PostAuthorization i => "/acme/authz/" +:+ i
  | PostChallenge i => "/acme/challenge/" +:+ i
  | PostCertificate i => "/acme/cert/" +:+ i
  end%string.

(** The handlers that begin with [authenticate_account] on their own path. *)
Definition with_account (request : Request) (r : Route)
    (handler : Authenticated → Act World Response) : Act World Response :=
  auth ← authenticate request (route_path r); handler auth.

Definition acme_route (request : Request) (r : Route) : Act World Response :=
  match r with
  | Directory => mret directory
  | NewNonce => nonce_response
  | NewAccount => new_account request
  | NewOrder => new_order (authenticate request)
  | RevokeCert => with_account request r (revoke_cert_as revocation)
  | KeyChange => key_change request
  | AccountResource i => with_account request r (account_resource_as i)
  | AccountOrders i => with_account request r (account_orders_as i)
  | GetOrder i => get_order_route (authenticate request) i
  | Finalize i => finalize_order (authenticate request) i
  | PostAuthorization i => with_account request r (post_authorization_as i)
  | PostChallenge i => with_account request r (post_challenge_as i)
  | PostCertificate i => with_account request r (post_certificate_as i)
  end.

(** One request, from its octets to its response. *)
Definition acme_request (request : Request) (r : Route) : Act World Response :=
  serve (request_id request) (acme_route request r).
End routes.
