(* ===== verification/StoreRecovery.v ===== *)
(** * Stored chains, certificate validity and startup migrations in [store.py]

    Chain recovery for certificates the CA returned no chain for, the validity
    summary the audit retention floor is computed from, and what opening an
    older database does to its rows. *)

From S2P Require Import Prelude PyStr Json Exn Jwk Sql Db StoreAudit StoreAccounts X509 StoreCerts.
From stdpp Require Import sorting.
Local Open Scope Z_scope.

(** ** Chains *)

(** [chain_pem IN ('[]', '')] *)
Definition chain_empty (t : json_text) : Prop :=
  t = JText (JArr []) ∨ t = JBad EmptyString.
#[global] Instance chain_empty_dec t : Decision (chain_empty t).
Proof. unfold chain_empty. apply _. Defined.

(** [ORDER BY issued_at DESC, id DESC] *)
Definition cert_newer (a b : Cert.t) : Prop :=
  Cert.issued_at b < Cert.issued_at a
  ∨ (Cert.issued_at b = Cert.issued_at a ∧ String.leb (Cert.id b) (Cert.id a) = true).
#[global] Instance cert_newer_dec a b : Decision (cert_newer a b).
Proof. unfold cert_newer. apply _. Defined.

(** One row's contribution: unparseable, non-list and empty chains give none. *)
Definition chain_of_row (row : Cert.t) : option (string * list json) :=
  match load_json (Cert.chain_pem row) with
  | inr (JArr (e :: es)) => Some (Cert.id row, e :: es)
  | _ => None
  end.

(** [Store.list_certificate_chains] *)
Definition list_certificate_chains (limit : Z) : Tx (list (string * list json)) :=
  rows ← tx_select certificates (λ c, ¬ chain_empty (Cert.chain_pem c));
  mret (omap chain_of_row (sql_limit limit (merge_sort cert_newer rows))).

(** [Store.attach_recovered_chain_with_audit] *)
Definition attach_recovered_chain_with_audit (now : Z) (cert_id : string)
    (chain_pem : list string) (audit : AuditArgs) : Tx (option Cert.t * option Audit.t) :=
  rowcount ← update_certs
    (λ c, Cert.id c = cert_id ∧ chain_empty (Cert.chain_pem c))
    (Cert.set_chain_pem (dump_json (JArr (map JStr chain_pem))));
  if negb (rowcount =? 1) then mret (None, None)
  else
    row ← tx_fetchone certificates (λ c, Cert.id c = cert_id);
    match row with
    | None => mret (None, None)
    | Some row =>
      event ← record_audit_in_conn now audit;
      c ← tx_of_res (certificate_from_row row);
      mret (Some c, Some event)
    end.

(** ** Validity *)

(** [julianday(t)] in units of 2{^-31} days: SQLite keeps milliseconds and
    returns the double nearest [ms / 86400000.0]; between the years 1029 and
    6771 doubles of that size are 2{^-31} apart. *)
Definition div_half_even (a b : Z) : Z :=
  let q := a / b in let r := a mod b in
  if 2 * r <? b then q
  else if b <? 2 * r then q + 1
  else if Z.even q then q else q + 1.
Definition UNIX_EPOCH_JD_MS : Z := 210866760000000.
Definition JD_SCALE : Z := 2 ^ 31.
Definition julianday (t : Z) : Z :=
  div_half_even ((UNIX_EPOCH_JD_MS + t * 1000) * JD_SCALE) 86400000.

(** [math.ceil] of a difference of two [julianday]s. *)
Definition ceil_days (d : Z) : Z := - ((- d) / JD_SCALE).

Definition validity_unknown (c : Cert.t) : Prop :=
  Cert.not_before c = None ∨ Cert.not_after c = None.
#[global] Instance validity_unknown_dec c : Decision (validity_unknown c).
Proof. unfold validity_unknown. apply _. Defined.

Definition cert_julian_days (c : Cert.t) : option Z :=
  na ← Cert.not_after c; nb ← Cert.not_before c; Some (julianday na - julianday nb).

Definition max_opt (m : option Z) (x : Z) : option Z :=
  Some (match m with None => x | Some y => Z.max y x end).

(** [Store.certificate_validity_summary] *)
Definition certificate_validity_summary : Tx (option Z * Z) := λ d,
  let unknown := count validity_unknown (certificates d) in
  if (Z.of_nat (length (certificates d)) =? 0) || negb (unknown =? 0)
  then inr ((None, unknown), d)
  else
    match fold_left max_opt (omap cert_julian_days (certificates d)) None with
    | None => inr ((None, unknown), d)
    | Some longest => inr ((Some (ceil_days longest), unknown), d)
    end.

(** ** Startup migrations

    What [Store._init_schema] does to the rows of an existing database, in one
    transaction: derive missing serials (or refuse to start), derive missing
    validity (best effort), re-encode account keys canonically (or refuse to
    start on a collision) and install the two UNIQUE indexes when the rows
    allow it.  The [ALTER TABLE]s that add or drop columns have no counterpart:
    a [Db] already has the columns, with NULLs where a legacy row has none. *)

(** Raise inside a pass over rows that stops at the first exception the
    [except (ValueError, TypeError, AttributeError)] does not name. *)
Definition is_parse_error (e : Exn) : bool :=
  match e with ValueError | TypeError => true | _ => false end.

(** ** Account keys *)

(** One row of pass 1: the thumbprint it will hold, and its rewrite. *)
Definition plan_account (a : Account.t) : string * option (json * string * string) :=
  match res_bind (λ jwk, res_bind (λ canonical, res_bind (λ tp, inr (jwk, canonical, tp))
                                     (jwk_thumbprint canonical))
                          (canonicalize_jwk jwk))
                 (load_json (Account.jwk_json a)) with
  | inl _ => (thumbprint_str a, None)
  | inr (jwk, canonical, tp) =>
    (tp, if decide (canonical ≠ jwk ∨ Some tp ≠ Account.jwk_thumbprint a)
         then Some (canonical, tp, Account.id a) else None)
  end.

Fixpoint apply_account_updates (updates : list (json * string * string)) : Tx unit :=
  match updates with
  | [] => mret tt
  | (jwk, tp, id) :: updates =>
    update_account_keys (λ a, Account.id a = id)
      (Account.set_key (dump_json jwk) (Some tp));;
    apply_account_updates updates
  end.

(** [Store._migrate_accounts_canonical_jwk] *)
Definition migrate_accounts_canonical_jwk : Tx unit :=
  d ← tx_get;
  let plan := map plan_account (accounts d) in
  if decide (NoDup plan.*1) then
    apply_account_updates (omap snd plan);;
    d' ← tx_get;
    if thumbprints_unique (accounts d') then mret tt else tx_raise StoreMigrationError
  else tx_raise StoreMigrationError.

(** ** Unique indexes: an IntegrityError on creation is logged and passed over. *)

(** [Store._migrate_certificates_unique_order_index] *)
Definition migrate_certificates_unique_order_index : Tx unit :=
  tx_put (λ d, set_indexes
    (idx_certificates_order d || bool_decide (NoDup (map Cert.order_id (certificates d))))
    (idx_accounts_thumbprint_unique d) d).

(** [Store._migrate_accounts_unique_thumbprint_index] *)
Definition migrate_accounts_unique_thumbprint_index : Tx unit :=
  tx_put (λ d, set_indexes (idx_certificates_order d)
    (idx_accounts_thumbprint_unique d || thumbprints_unique (accounts d)) d).

Section certs.
Context `{CertParser}.

(** ** Serials *)

(** [serial_number IS NULL OR serial_number = ''] *)
Definition serial_missing (c : Cert.t) : Prop :=
  Cert.serial_number c = None ∨ Cert.serial_number c = Some EmptyString.
#[global] Instance serial_missing_dec c : Decision (serial_missing c).
Proof. unfold serial_missing. apply _. Defined.

(** Partition by whether [f] parses; other exceptions propagate. *)
Fixpoint derive {A} (f : string → Res Exn A) (rows : list Cert.t) :
    Res Exn (list (A * Cert.t) * list string) :=
  match rows with
  | [] => inr ([], [])
  | row :: rows =>
    match f (Cert.cert_pem row) with
    | inl e =>
      if is_parse_error e
      then res_bind (λ r, inr (r.1, Cert.id row :: r.2)) (derive f rows)
      else inl e
    | inr x => res_bind (λ r, inr ((x, row) :: r.1, r.2)) (derive f rows)
    end
  end.

(** A derived serial clashes with an earlier derived row of the account, or
    with another row already holding it. *)
Fixpoint serial_conflict (certs : list Cert.t) (seen : list (string * string))
    (derived : list (string * Cert.t)) : bool :=
  match derived with
  | [] => false
  | (serial, c) :: derived =>
    let key := (serial, Cert.account_id c) in
    if bool_decide (key ∈ seen) then true
    else
      match fetchone (λ r, Cert.serial_number r = Some serial
                           ∧ Cert.account_id r = Cert.account_id c
                           ∧ Cert.id r ≠ Cert.id c) certs with
      | Some _ => true
      | None => serial_conflict certs (key :: seen) derived
      end
  end.

Definition apply_serials (derived : list (string * Cert.t)) : Tx unit :=
  tx_put (λ d, fold_left (λ d sc,
    set_certificates (update_where (λ c, Cert.id c = Cert.id sc.2)
      (Cert.set_serial_number (Some sc.1)) (certificates d)) d) derived d).

(** [Store._backfill_certificate_serials] *)
Definition backfill_certificate_serials : Tx unit :=
  rows ← tx_select certificates serial_missing;
  match rows with
  | [] => mret tt
  | _ =>
    r ← tx_of_res (derive serial_from_pem rows);
    match r.2 with
    | _ :: _ => tx_raise StoreMigrationError
    | [] =>
      d ← tx_get;
      if serial_conflict (certificates d) [] r.1 then tx_raise StoreMigrationError
      else
        apply_serials r.1;;
        remaining ← tx_count certificates serial_missing;
        if remaining =? 0 then mret tt else tx_raise StoreMigrationError
    end
  end.

(** ** Validity *)

(** [Store._backfill_certificate_validity] *)
Definition backfill_certificate_validity : Tx unit :=
  rows ← tx_select certificates (λ c, Cert.not_after c = None);
  r ← tx_of_res (derive validity_from_pem rows);
  tx_put (λ d, fold_left (λ d vc,
    set_certificates (update_where (λ c, Cert.id c = Cert.id vc.2)
      (Cert.set_validity (Some vc.1.1) (Some vc.1.2)) (certificates d)) d) r.1 d).

(** [Store._init_schema], on the rows. *)
Definition init_schema : Tx unit :=
  backfill_certificate_serials;;
  backfill_certificate_validity;;
  migrate_certificates_unique_order_index;;
  migrate_accounts_canonical_jwk;;
  migrate_accounts_unique_thumbprint_index.
End certs.
