(* ===== verification/IssuerRecovery.v ===== *)
(** * Issuers of stored certificates: [src/acme_adcs_ra/issuer_recovery.py], and
    the issuer lookup of [src/acme_adcs_ra/crl_evidence.py]

    Names, signatures and encodings of certificates are the cryptography
    package's: [IssuerBackend].  Which certificate is taken for the issuer of
    which, and how far the search goes, is the code's. *)

From S2P Require Import Prelude PyStr Sha256 Exn Json X509.
From stdpp Require Import pretty.
Local Open Scope Z_scope.
Local Open Scope res_scope.

(** [x509.Certificate] as far as an issuer search looks. *)
Class IssuerBackend := {
  Certificate : Type;
  Name : Type;
  #[global] Name_eq_dec :: EqDecision Name;
  load_certificate : string → Res Exn Certificate;       (* load_pem_x509_certificate *)
  load_certificates : string → Res Exn (list Certificate);
  subject : Certificate → Name;
  issuer : Certificate → Name;
  verify_directly_issued_by : Certificate → Certificate → Res Exn unit;
  chain_extensions : Certificate → Res Exn Extensions;
  certificate_der : Certificate → list Z;
  certificate_pem : Certificate → string;
  spki_der : Certificate → list Z;
  name_der : Name → list Z;
  rfc4514_string : Name → string;
}.

(** [InvalidSignature] of the cryptography package *)
Definition InvalidSignature : Exn := OtherException "InvalidSignature".
Definition AttributeError : Exn := OtherException "AttributeError".

(** [for e in chain_pem]: any JSON value may have been stored. *)
Definition iterate (v : json) : Res Exn (list json) :=
  match v with
  | JArr l => Ok l
  | JStr s => Ok (map (λ c, JStr (of_chars [c])) (chars s))
  | JObj d => Ok (map (λ kv, JStr kv.1) d)
  | _ => Raise TypeError
  end.
(** [e.encode("utf-8")] *)
Definition encode (v : json) : Res Exn string :=
  match v with JStr s => Ok s | _ => Raise AttributeError end.

Section recovery.
Context `{IssuerBackend}.

(** [certificate_fingerprint] *)
Definition certificate_fingerprint (c : Certificate) : string :=
  upper (hex (sha256 (certificate_der c))).

(** [is_ca_certificate] *)
Definition is_ca_certificate (c : Certificate) : Res Exn bool :=
  match chain_extensions c with
  | inl ValueError => Ok false
  | inl e => Raise e
  | inr extensions =>
    match basic_constraints extensions with
    | None | Some None => Ok false
    | Some (Some ca) =>
      if negb ca then Ok false
      else match key_usage extensions with
      | None | Some None => Ok true
      | Some (Some (key_cert_sign, _)) => Ok key_cert_sign
      end
    end
  end.

(** [try: child.verify_directly_issued_by(candidate) except (ValueError,
    TypeError, InvalidSignature): continue] *)
Definition signed_by_candidate (child candidate : Certificate) : Res Exn bool :=
  match verify_directly_issued_by child candidate with
  | inr _ => Ok true
  | inl e =>
    if bool_decide (e = ValueError ∨ e = TypeError ∨ e = InvalidSignature) then Ok false
    else Raise e
  end.

(** ** [_issuing_ca_certificate] of crl_evidence.py *)

Fixpoint first_issuer (leaf : Certificate) (candidates : list Certificate) :
    Res Exn (option Certificate) :=
  match candidates with
  | [] => Ok None
  | candidate :: candidates =>
    if negb (bool_decide (subject candidate = issuer leaf)) then first_issuer leaf candidates
    else
      signed ←? signed_by_candidate leaf candidate;
      if (signed : bool) then Ok (Some candidate) else first_issuer leaf candidates
  end.
Fixpoint first_issuer_in (leaf : Certificate) (chain : list json) :
    Res Exn (option Certificate) :=
  match chain with
  | [] => Ok None
  | entry :: chain =>
    pem ←? encode entry;
    match load_certificates pem with
    | inl ValueError => first_issuer_in leaf chain
    | inl e => Raise e
    | inr candidates =>
      found ←? first_issuer leaf candidates;
      match found with
      | Some c => Ok (Some c)
      | None => first_issuer_in leaf chain
      end
    end
  end.
Definition issuing_ca_certificate (cert_pem : string) (chain_pem : json) :
    Res Exn (option Certificate) :=
  match load_certificate cert_pem with
  | inl ValueError => Ok None
  | inl e => Raise e
  | inr leaf => chain ←? iterate chain_pem; first_issuer_in leaf chain
  end.

(** [_watermark_key] *)
Definition watermark_key (ca_cert : Certificate) : string :=
  hex (sha256 (name_der (subject ca_cert) ++ 0 :: spki_der ca_cert)).

(** [crl_watermark_key] *)
Definition crl_watermark_key (cert_pem : string) (chain_pem : json) :
    Res Exn (option string) :=
  ca_cert ←? issuing_ca_certificate cert_pem chain_pem;
  Ok (watermark_key <$> ca_cert).

(** ** Candidates from the stored chains *)

Definition MAX_CHAIN_DEPTH : nat := 8.
Definition DEFAULT_MAX_ROWS : Z := 1000.
Definition DEFAULT_MAX_CANDIDATES : Z := 64.

Record CandidateIssuer := {
  candidate_certificate : Certificate;
  fingerprint : string;
  source_certificate_id : string;
}.
Definition candidate_pem (c : CandidateIssuer) : string :=
  certificate_pem (candidate_certificate c).

(** The loops of [collect_candidate_issuers]; the flag is [truncated], which
    leaves them all. *)
Fixpoint collect_parsed (max_candidates : Z) (id : string) (parsed : list Certificate)
    (candidates : list CandidateIssuer) : Res Exn (list CandidateIssuer * bool) :=
  match parsed with
  | [] => Ok (candidates, false)
  | c :: parsed =>
    is_ca ←? is_ca_certificate c;
    let fp := certificate_fingerprint c in
    if negb is_ca || bool_decide (fp ∈ map fingerprint candidates)
    then collect_parsed max_candidates id parsed candidates
    else if max_candidates <=? Z.of_nat (length candidates) then Ok (candidates, true)
    else
      collect_parsed max_candidates id parsed
        (candidates ++ [{| candidate_certificate := c; fingerprint := fp;
                           source_certificate_id := id |}])
  end.
Fixpoint collect_entries (max_candidates : Z) (id : string) (entries : list json)
    (candidates : list CandidateIssuer) : Res Exn (list CandidateIssuer * bool) :=
  match entries with
  | [] => Ok (candidates, false)
  | entry :: entries =>
    pem ←? encode entry;
    match load_certificates pem with
    | inl (ValueError | TypeError) => collect_entries max_candidates id entries candidates
    | inl e => Raise e
    | inr parsed =>
      r ←? collect_parsed max_candidates id parsed candidates;
      if (r.2 : bool) then Ok r else collect_entries max_candidates id entries r.1
    end
  end.
Fixpoint collect_rows (max_rows max_candidates : Z) (chains : list (string * list json))
    (candidates : list CandidateIssuer) (rows_scanned : Z) :
    Res Exn (list CandidateIssuer * Z * bool) :=
  match chains with
  | [] => Ok (candidates, rows_scanned, false)
  | (certificate_id, chain_pem) :: chains =>
    if max_rows <=? rows_scanned then Ok (candidates, rows_scanned, true)
    else
      r ←? collect_entries max_candidates certificate_id chain_pem candidates;
      if (r.2 : bool) then Ok (r.1, rows_scanned + 1, true)
      else collect_rows max_rows max_candidates chains r.1 (rows_scanned + 1)
  end.
(** [collect_candidate_issuers] *)
Definition collect_candidate_issuers (chains : list (string * list json))
    (max_rows max_candidates : Z) : Res Exn (list CandidateIssuer * Z * bool) :=
  collect_rows max_rows max_candidates chains [] 0.

(** ** The chain *)

(** [_direct_issuer] *)
Fixpoint direct_issuer (child : Certificate) (candidates : list CandidateIssuer)
    (consumed : list string) : Res Exn (option CandidateIssuer) :=
  match candidates with
  | [] => Ok None
  | candidate :: candidates =>
    if bool_decide (fingerprint candidate ∈ consumed)
       || negb (bool_decide (subject (candidate_certificate candidate) = issuer child))
    then direct_issuer child candidates consumed
    else
      signed ←? signed_by_candidate child (candidate_certificate candidate);
      if (signed : bool) then Ok (Some candidate) else direct_issuer child candidates consumed
  end.

(** The loop of [build_verified_chain], [depth] turns of it. *)
Fixpoint build_path (depth : nat) (current : Certificate) (candidates : list CandidateIssuer)
    (consumed : list string) : Res Exn (list CandidateIssuer) :=
  match depth with
  | O => Ok []
  | S depth =>
    found ←? direct_issuer current candidates consumed;
    match found with
    | None => Ok []
    | Some link =>
      let c := candidate_certificate link in
      if bool_decide (subject c = issuer c) then Ok [link]
      else
        rest ←? build_path depth c candidates (fingerprint link :: consumed);
        Ok (link :: rest)
    end
  end.
Definition build_verified_chain (leaf : Certificate) (candidates : list CandidateIssuer) :
    Res Exn (list CandidateIssuer) :=
  build_path MAX_CHAIN_DEPTH leaf candidates [].

Record RecoveryOutcome := {
  recovered_chain : list string;                         (* chain_pem *)
  fingerprints : list string;
  subjects : list string;
  source_certificate_ids : list string;
  rows_scanned : Z;
  candidates_considered : Z;
  truncated : bool;
  recovery_detail : string;
}.
(** [RecoveryOutcome.recovered] *)
Definition recovered (o : RecoveryOutcome) : bool := negb (bool_decide (recovered_chain o = [])).

Definition nothing_recovered (rows candidates : Z) (truncated : bool) (detail : string) :
    RecoveryOutcome :=
  {| recovered_chain := []; fingerprints := []; subjects := []; source_certificate_ids := [];
     rows_scanned := rows; candidates_considered := candidates; truncated := truncated;
     recovery_detail := detail |}.

(** [recover_issuer_chain] *)
Definition recover_issuer_chain (cert_pem : string) (chains : list (string * list json))
    (max_rows max_candidates : Z) : Res Exn RecoveryOutcome :=
  match load_certificate cert_pem with
  | inl (ValueError | TypeError) =>
    Ok (nothing_recovered 0 0 false "the stored certificate is not valid PEM")
  | inl e => Raise e
  | inr leaf =>
    collected ←? collect_candidate_issuers chains max_rows max_candidates;
    let '(candidates, rows, truncated) := collected in
    let n := pretty (Z.of_nat (length candidates)) in
    if bool_decide (candidates = []) then
      Ok (nothing_recovered rows 0 truncated
            ("no stored chain holds any CA certificate, so there is nothing to recover from ("
             +:+ pretty rows +:+ " chain(s) scanned)"))
    else
      path ←? build_verified_chain leaf candidates;
      if bool_decide (path = []) then
        Ok (nothing_recovered rows (Z.of_nat (length candidates)) truncated
              ("none of the " +:+ n +:+ " distinct CA certificate(s) in " +:+ pretty rows
               +:+ " stored chain(s) signed this certificate"))
      else
        Ok {| recovered_chain := map candidate_pem path;
              fingerprints := map fingerprint path;
              subjects := map (rfc4514_string ∘ subject ∘ candidate_certificate) path;
              source_certificate_ids := map source_certificate_id path;
              rows_scanned := rows; candidates_considered := Z.of_nat (length candidates);
              truncated := truncated;
              recovery_detail :=
                "recovered " +:+ pretty (Z.of_nat (length path))
                +:+ " issuer certificate(s) by signature from " +:+ n
                +:+ " distinct candidate(s) in " +:+ pretty rows +:+ " stored chain(s)" |}
  end.
End recovery.
