(* ===== verification/Enrollment.v ===== *)
(** * The CA client: [src/acme_adcs_ra/enrollment.py]

    [CertsrvEnrollmentLeg.submit_csr]: what is asked of [/certsrv/], how its
    pages are read, and what the caller is told on every path.  The network is
    [Certsrv]: what each request is answered with, and whether the deadline has
    passed at the points where the code looks.  X.509 and PKCS#7 parsing are
    the cryptography package's: [IssuerBackend] and [EnrollBackend].  Module
    [Negotiate] is the authentication in front of it, negotiate_auth.py. *)

From S2P Require Import Prelude PyStr Sha256 Json Exn Base64 Re Db World X509 IssuerRecovery.
From stdpp Require Import pretty.
Local Open Scope Z_scope.

(** ** Octets and text *)

(** [body.decode("latin-1")] *)
Definition latin1 (body : list Z) : string :=
  of_chars (map (λ b, ascii_of_N (Z.to_N b)) body).
(** [body.decode("ascii")] *)
Definition decode_ascii (body : list Z) : Res Exn string :=
  if forallb (λ b, b <? 128) body then Ok (latin1 body) else Raise ValueError.
(** [text.encode("ascii")] *)
Definition encode_ascii (text : string) : Res Exn string :=
  if is_ascii text then Ok text else Raise ValueError.
(** [bytes.strip], [bytes.lstrip], and [\s] in a pattern of octets *)
Definition is_byte_space (b : Z) : bool := bool_decide (9 ≤ b ≤ 13 ∨ b = 32).
Definition lstrip_bytes (body : list Z) : list Z := drop_while is_byte_space body.
Definition strip_bytes (body : list Z) : list Z := rdrop_while is_byte_space (lstrip_bytes body).

(** [" ".join(text[:n].split())] *)
Definition snippet (n : nat) (text : string) : string :=
  of_chars (join_chars " " (words is_space [] (take n (chars text)))).

(** [base64.b64decode]: characters outside the alphabet are passed over, unless
    [validate] is set.  ([validate] as the interpreters since 3.11 do it, and
    with padding where none is due refused.) *)
Definition std_b64 (c : ascii) : bool :=
  bool_decide (is_Some (b64_index c)) && negb (code c =? 45) && negb (code c =? 95).
Definition url_only (c : ascii) : bool := (code c =? 45) || (code c =? 95).
Definition b64decode (l : list ascii) : Res Exn (list Z) :=
  match a2b (filter (λ c, url_only c = false) l) 0 0 0 [] with
  | Some bs => Ok bs
  | None => Raise ValueError
  end.
Definition b64decode_strict (l : list ascii) : Res Exn (list Z) :=
  let n := length (filter (λ c, std_b64 c = true) l) in
  let data := take n l in
  if forallb std_b64 data && bool_decide (drop n l = pad_of n)
     && negb (bool_decide ((n `mod` 4)%nat = 1%nat))
  then b64decode l
  else Raise ValueError.

(** ** [_parse_certfnsh_disposition] *)

Inductive Disposition := issued | pending | denied | unknown.
#[export] Instance Disposition_eq_dec : EqDecision Disposition.
Proof. solve_decision. Defined.

Definition digits : Pattern := [Open; Many 1 false is_digit; Close].
Definition script_block : Pattern :=
  ilit "<script" ++ [Boundary; Many 0 false (but ">")] ++ lit ">" ++ [Many 0 true any]
  ++ ilit "</script>".
Definition html_comment : Pattern := lit "<!--" ++ [Many 0 true any] ++ lit "-->".
Definition download_link : Pattern := lit "certnew.cer?ReqID=" ++ digits ++ lit "&".
Definition disposition_message : Pattern :=
  lit "The disposition message is " ++ quoted ++ [Open; Many 1 false (but quote); Close].
Definition was_denied : Pattern := ilit "your certificate request was denied".
Definition request_id_link : Pattern := lit "ReqID=" ++ digits.
Definition request_id_text : Pattern := ilit "Your Request Id is " ++ digits.
Definition certificate_pending : Pattern := ilit "Certificate Pending".
Definition quoted_phrase : Pattern :=
  [Boundary; Many 1 false is_word; Many 1 false is_space] ++ quoted
  ++ [Open; Many 5 false (but quote); Close] ++ quoted.

(** The page without its scripts and comments. *)
Definition clean_page (body : string) : string := erase html_comment (erase script_block body).

(** Step 4: the first quoted phrase that is no URL. *)
Definition is_message (candidate : string) : bool :=
  negb (has_sub "://" candidate) && negb (has_sub "certnew.cer" (lower candidate)).
Definition loose_denial (clean : string) : option string :=
  head (filter (λ c, is_message c = true) (finditer quoted_phrase clean)).

(** The text of step 5. *)
Definition unrecognized (body : string) (status_code : Z) (locale : string) : string :=
  let start := ("unrecognized certfnsh.asp response (HTTP " +:+ pretty status_code)%string in
  if bool_decide (locale = "en"%string)
  then (start +:+ "); body: " +:+ snippet 400 body)%string
  else (start +:+ ", locale=" +:+ py_repr locale +:+ "); "
        +:+ "no locale-independent signal matched -- check CA locale setting. body: "
        +:+ snippet 400 body)%string.

Definition parse_certfnsh_disposition (body : string) (status_code : Z) (locale : string) :
    Disposition * string :=
  let is_english := bool_decide (locale = "en"%string) in
  let clean := clean_page body in
  match search download_link clean with
  | Some req_id => (issued, req_id)
  | None =>
    match (if is_english then search disposition_message clean else None) with
    | Some msg => (denied, msg)
    | None =>
      if is_english && occurs was_denied clean
      then (denied, "the CA denied the request"%string)
      else match search request_id_link clean with
      | Some req_id => (pending, req_id)
      | None =>
        match (if is_english then search request_id_text clean else None) with
        | Some req_id => (pending, req_id)
        | None =>
          if is_english && occurs certificate_pending clean then (pending, "?"%string)
          else match (if is_english then None else loose_denial clean) with
          | Some candidate => (denied, candidate)
          | None => (unknown, unrecognized body status_code locale)
          end
        end
      end
    end
  end.

(** ** Certificates and chains *)

Class EnrollBackend `{IssuerBackend} := {
  load_der_certificate : list Z → Res Exn Certificate;   (* load_der_x509_certificate *)
  load_der_pkcs7 : list Z → Res Exn (list Certificate);  (* load_der_pkcs7_certificates *)
  certificate_spki : Certificate → Res Exn (list Z);     (* of public_key() *)
  common_names : Certificate → Res Exn (list (option string));  (* None: not text *)
  SigningRequest : Type;
  load_csr : string → Res Exn SigningRequest;            (* load_pem_x509_csr *)
  csr_spki : SigningRequest → Res Exn (list Z);
}.

Definition transport_error {A} (msg : string) : Res Exn A :=
  Raise (EnrollmentTransportError msg None None []).

(** [except (TypeError, ValueError)] *)
Definition unreadable (e : Exn) : bool := bool_decide (e = TypeError ∨ e = ValueError).

Section parsing.
Context `{EnrollBackend}.
Local Open Scope res_scope.

(** [_parse_cert_body] *)
Definition parse_cert_body (body : list Z) : Res Exn string :=
  if startswith (latin1 (lstrip_bytes body)) "-----BEGIN CERTIFICATE"
  then decode_ascii (strip_bytes body)
  else
    let cleaned := filter (λ b, b ∉ [10; 13; 32]) body in
    der ←? b64decode_strict (chars (latin1 cleaned));
    cert ←? load_der_certificate der;
    Ok (certificate_pem cert).

(** [x509.load_pem_x509_certificate(pem.encode("ascii"))] *)
Definition load_pem (pem : string) : Res Exn Certificate :=
  pem ←? encode_ascii pem; load_certificate pem.
Definition load_pem_csr (pem : string) : Res Exn SigningRequest :=
  pem ←? encode_ascii pem; load_csr pem.

(** [try: m except (TypeError, ValueError) as exc: raise
    EnrollmentTransportError(text)] *)
Definition or_transport_error {A} (text : string) (m : Res Exn A) : Res Exn A :=
  match m with
  | inr x => Ok x
  | inl e => if unreadable e then transport_error (text +:+ exn_str e) else Raise e
  end.

Definition authorized_name (name : string) : string := lower (rstrip_char "." name).
Definition check_common_name (requested_sans : list string) (cn : option string) : Res Exn unit :=
  match cn with
  | None => transport_error "certnew.cer returned a non-text subject Common Name"
  | Some common_name =>
    if bool_decide (authorized_name common_name ∈ map authorized_name requested_sans) then Ok tt
    else transport_error ("certnew.cer returned an out-of-scope subject Common Name: "
                          +:+ py_repr common_name)
  end.

(** [_validate_issued_certificate_binding] *)
Definition validate_issued_certificate_binding (cert_pem csr_pem : string)
    (requested_sans : list string) : Res Exn unit :=
  both ←? or_transport_error "unable to validate issued certificate against CSR: "
    (cert ←? load_pem cert_pem; csr ←? load_pem_csr csr_pem; Ok (cert, csr));
  cert_key ←? certificate_spki both.1;
  csr_key ←? csr_spki both.2;
  if bool_decide (cert_key ≠ csr_key) then
    transport_error "certnew.cer returned a certificate whose public key does not match the CSR"
  else
    names ←? common_names both.1;
    res_iter (check_common_name requested_sans) names.

(** [[f(x) for x in l]] *)
Fixpoint res_map {A B} (f : A → Res Exn B) (l : list A) : Res Exn (list B) :=
  match l with
  | [] => Ok []
  | x :: l => y ←? f x; ys ←? res_map f l; Ok (y :: ys)
  end.

(** [_validate_chain_binds_to_leaf] *)
Definition validate_chain_binds_to_leaf (cert_pem : string) (chain_pem : list string) :
    Res Exn unit :=
  both ←? or_transport_error "unable to parse the issued certificate or its chain: "
    (leaf ←? load_pem cert_pem; chain ←? res_map load_pem chain_pem; Ok (leaf, chain));
  found ←? first_issuer both.1 both.2;
  match found with
  | Some _ => Ok tt
  | None =>
    transport_error
      ("certnew.p7b returned a chain that does not issue the certificate just issued (leaf issuer "
       +:+ py_repr (rfc4514_string (issuer both.1)) +:+ "; chain subjects "
       +:+ py_repr_list (map (λ c, rfc4514_string (subject c)) both.2)
       +:+ "). The CA may have been re-keyed, or certcarc.asp reported the wrong renewal generation.")
  end.

(** ** [_parse_pkcs7_chain] *)

Definition is_label (c : ascii) : bool :=
  in_range 65 90 c || is_digit c || bool_decide (c = " "%char).
Definition pem_block : Pattern :=
  lit "-----BEGIN " ++ [Many 1 false is_label] ++ lit "-----" ++ [Open; Many 0 true any; Close]
  ++ lit "-----END " ++ [Many 1 false is_label] ++ lit "-----".

(** The octets of the blocks, or of the whole body. *)
Definition block_octets (text : string) : option (list Z) :=
  match encode_ascii (of_chars (filter (λ c, is_space c = false) (chars text))) with
  | inr s => match b64decode (chars s) with inr bs => Some bs | inl _ => None end
  | inl _ => None
  end.
Definition pkcs7_blobs (body : list Z) : list (list Z) :=
  match omap block_octets (finditer pem_block (latin1 body)) with
  | [] =>
    match b64decode (chars (latin1 (filter (λ b, is_byte_space b = false) body))) with
    | inr bs => [bs]
    | inl _ => []
    end
  | blobs => blobs
  end.

(** One turn of the loop over the blobs. *)
Definition blob_certificates (der : list Z) : Res Exn (list Certificate) :=
  match load_der_pkcs7 der with
  | inr certs => Ok certs
  | inl e =>
    if unreadable e then
      match load_der_certificate der with
      | inr cert => Ok [cert]
      | inl e => if unreadable e then Ok [] else Raise e
      end
    else Raise e
  end.

Definition parse_pkcs7_chain (body : list Z) : Res Exn (list string) :=
  certs ←? res_map blob_certificates (pkcs7_blobs body);
  if bool_decide (concat certs = []) then
    transport_error ("certnew.p7b did not contain a parseable chain (len="
                     +:+ pretty (Z.of_nat (length body)) +:+ "); body: "
                     +:+ snippet 300 (latin1 body))
  else Ok (map certificate_pem (concat certs)).
End parsing.

(** ** The network *)

Inductive HttpRequest :=
  | Post (url : string) (data : list (string * string))
  | Get (url : string) (params : list (string * string)).

(** One turn of the read loop, up to the empty chunk that ends the body. *)
Inductive BodyRead :=
  | Late                                                 (* the deadline's test *)
  | ReadFails (text : string)
  | Chunk (octets : list Z).
Inductive Body :=
  | Streamed (reads : list BodyRead) (late_at_end : bool)
  | Buffered (late_before : bool) (content : list Z) (late_after : bool).
Record HttpResponse := {
  status_code : Z;
  location : option string;
  content_length : option string;
  content_type : option string;
  encoding : option string;
  status_text : string;                                  (* of [raise_for_status]'s error *)
  body_of : Body;
}.
(** What a request meets: [expired_before] and [expired_after] are the tests of
    [_deadline_timeout] before it is sent and after its answer is read. *)
Record Exchange := {
  expired_before : bool;
  reply : string + HttpResponse;                         (* an exception's text *)
  expired_after : bool;
}.
Class Certsrv := {
  answer : HttpRequest → Exchange;
  decode_as : string → list Z → option string;           (* None: no such codec *)
  utf8_text : list Z → string;
  expired_when_caught : bool;
}.

(** [CertsrvEnrollmentLeg], with what the process's environment tells it. *)
Record CertsrvLeg := {
  host : string;
  leg_template : string;
  ca_name : option string;
  total_timeout_text : string;
  leg_locale : string;
  max_response_bytes : Z;
  session_factory : bool;                                (* is one given *)
  session_opens : Res Exn unit;
  platform_is_win32 : bool;
  userdomain : string;
  username : string;
}.

Definition deadline_expired : Exn :=
  EnrollmentTransportError "ADCS enrollment total deadline expired" None None [].

(** ** Reading one answer *)

Section reading.
Context `{Certsrv}.
Local Open Scope res_scope.

(** [_reject_redirect] *)
Definition reject_redirect (resp : HttpResponse) (what : string) : Res Exn unit :=
  if (300 <=? status_code resp) && (status_code resp <? 400) then
    transport_error
      (what +:+ " returned HTTP " +:+ pretty (status_code resp) +:+ " redirecting to "
       +:+ py_repr (default "<none>"%string (location resp))
       +:+ "; /certsrv/ must not redirect and the RA will not "
       +:+ "follow one while carrying the gMSA's Kerberos identity")
  else Ok tt.
(** [resp.raise_for_status()] of requests *)
Definition raise_for_status (resp : HttpResponse) : Res Exn unit :=
  if (400 <=? status_code resp) && (status_code resp <? 600)
  then Raise (OtherException (status_text resp)) else Ok tt.

Fixpoint read_chunks (max_bytes : Z) (reads : list BodyRead) (received : list Z) :
    Res Exn (list Z) :=
  if max_bytes <? Z.of_nat (length received) then Ok received
  else match reads with
  | [] => Ok received
  | Late :: _ => Raise deadline_expired
  | ReadFails text :: _ => Raise (OtherException text)
  | Chunk octets :: reads =>
    if bool_decide (octets = []) then Ok received
    else read_chunks max_bytes reads (received ++ octets)
  end.

(** [_read_capped_body] *)
Definition read_capped_body (resp : HttpResponse) (max_bytes : Z) (what : string) :
    Res Exn (list Z) :=
  let too_long text :=
    transport_error (what +:+ text +:+ pretty max_bytes +:+ "-byte limit") in
  let declared := content_length resp ≫= py_int in
  if from_option (λ n, max_bytes <? n) false declared then
    too_long (" declared " +:+ default EmptyString (content_length resp) +:+ " bytes, over the ")%string
  else match body_of resp with
  | Buffered late_before content late_after =>
    if (late_before || late_after)%bool then Raise deadline_expired
    else if max_bytes <? Z.of_nat (length content) then
      too_long (" returned " +:+ pretty (Z.of_nat (length content)) +:+ " bytes, over the ")%string
    else Ok content
  | Streamed reads late_at_end =>
    body ←? read_chunks max_bytes reads [];
    if late_at_end then Raise deadline_expired
    else if max_bytes <? Z.of_nat (length body) then too_long " returned more than the "
    else Ok body
  end.

(** [_decode_body] *)
Definition decode_body (body : list Z) (resp : HttpResponse) : string :=
  let codec := match encoding resp with
               | Some e => if bool_decide (e = EmptyString) then "utf-8"%string else e
               | None => "utf-8"%string
               end in
  default (utf8_text body) (decode_as codec body).
End reading.

(** ** [submit_csr] *)

(** The locals that tell what the CA has committed to. *)
Record Committed := {
  issued_req_id : option string;
  issued_cert_pem : option string;
  issued_chain_pem : list string;
}.
Definition nothing_issued : Committed :=
  {| issued_req_id := None; issued_cert_pem := None; issued_chain_pem := [] |}.

(** The body of the [try]: its exceptions are seen with the locals as they
    are then. *)
Definition Leg (A : Type) : Type := Committed → Res Exn A * Committed.
#[export] Instance leg_ret : MRet Leg := λ A x c, (Ok x, c).
#[export] Instance leg_bind : MBind Leg := λ A B k m c,
  match m c with
  | (inr x, c) => k x c
  | (inl e, c) => (Raise e, c)
  end.
Definition lift {A} (m : Res Exn A) : Leg A := λ c, (m, c).
Definition commit (f : Committed → Committed) : Leg unit := λ c, (Ok tt, f c).
Definition set_req_id (r : string) (c : Committed) : Committed :=
  {| issued_req_id := Some r; issued_cert_pem := issued_cert_pem c;
     issued_chain_pem := issued_chain_pem c |}.
Definition set_cert_pem (p : string) (c : Committed) : Committed :=
  {| issued_req_id := issued_req_id c; issued_cert_pem := Some p;
     issued_chain_pem := issued_chain_pem c |}.
Definition set_chain_pem (l : list string) (c : Committed) : Committed :=
  {| issued_req_id := issued_req_id c; issued_cert_pem := issued_cert_pem c;
     issued_chain_pem := l |}.

Section submit.
Context `{EnrollBackend, Certsrv}.
Context (leg : CertsrvLeg).

(** One request: deadline, send, refuse redirects and errors, read, use the
    body, deadline. *)
Definition exchange {A} (what : string) (r : HttpRequest)
    (use : HttpResponse → list Z → Leg A) : Leg A :=
  let x := answer r in
  if expired_before x then lift (Raise deadline_expired)
  else match reply x with
  | inl text => lift (Raise (OtherException text))
  | inr resp =>
    lift (reject_redirect resp what);;
    lift (raise_for_status resp);;
    body ← lift (read_capped_body resp (max_response_bytes leg) what);
    a ← use resp body;
    lift (if expired_after x then Raise deadline_expired else Ok a)
  end.

Definition base : string := "https://" +:+ host leg +:+ "/certsrv".

(** 1. Submit the CSR. *)
Definition certfnsh_request (csr_pem : string) : HttpRequest :=
  Post (base +:+ "/certfnsh.asp")
    [("Mode", "newreq"); ("CertRequest", csr_pem);
     ("CertAttrib",
      "CertificateTemplate:" +:+ leg_template leg +:+ of_chars [ascii_of_nat 13; ascii_of_nat 10]);
     ("FriendlyType", "Saved-Request Certificate"); ("TargetStoreFlags", "0");
     ("SaveCert", "yes")]%string.
Definition certfnsh (csr_pem : string) : Leg (Disposition * string) :=
  exchange "certfnsh.asp" (certfnsh_request csr_pem) (λ resp body,
    mret (parse_certfnsh_disposition (decode_body body resp) (status_code resp) (leg_locale leg))).

Definition request_id (d : Disposition * string) : Res Exn string :=
  match d with
  | (pending, detail) =>
    Raise (EnrollmentPending
      ("certificate pending at the CA (ReqID=" +:+ detail +:+ "); "
       +:+ "check the CA -- manager approval may be on, "
       +:+ "or the template policy deferred the request") detail)
  | (denied, detail) => Raise (EnrollmentDenied ("CA denied the request: " +:+ detail))
  | (unknown, detail) => transport_error detail
  | (issued, detail) => Ok detail
  end.

(** 2. Fetch the issued certificate. *)
Definition certnew_request (req_id : string) : HttpRequest :=
  Get (base +:+ "/certnew.cer") [("ReqID", req_id); ("Enc", "b64")]%string.
Definition certnew (req_id : string) : Leg string :=
  exchange "certnew.cer" (certnew_request req_id) (λ resp body,
    lift (match parse_cert_body body with
          | inr pem => Ok pem
          | inl exc =>
            Raise (EnrollmentTransportError
              ("certnew.cer did not return a parseable certificate (content-type "
               +:+ match content_type resp with Some ct => py_repr ct | None => "None" end
               +:+ "): " +:+ exn_str exc +:+ "; body: " +:+ snippet 400 (decode_body body resp))
              (Some req_id) None [])
          end)).

Definition check_binding (cert_pem csr_pem : string) (requested_sans : list string) :
    Res Exn unit :=
  match load_pem_csr csr_pem with
  | inr _ => validate_issued_certificate_binding cert_pem csr_pem requested_sans
  | inl e =>
    if unreadable e then
      if session_factory leg then Ok tt
      else transport_error "enrollment leg received an invalid CSR from the finalize path"
    else Raise e
  end.

(** 3. Fetch the chain of the CA's present key. *)
Definition renewals_in (page : string) : string :=
  default "0"%string (search (lit "var nRenewals=" ++ digits ++ lit ";") page).
Definition certcarc : Leg string :=
  exchange "certcarc.asp" (Get (base +:+ "/certcarc.asp") []) (λ resp body,
    mret (renewals_in (decode_body body resp))).
Definition chain_request (renewals : string) : HttpRequest :=
  Get (base +:+ "/certnew.p7b") [("ReqID", "CACert"); ("Renewal", renewals); ("Enc", "b64")]%string.
Definition certnew_chain (cert_pem renewals : string) : Leg (list string) :=
  exchange "certnew.p7b" (chain_request renewals) (λ resp body,
    chain_pem ← lift (parse_pkcs7_chain body);
    commit (set_chain_pem chain_pem);;
    lift (validate_chain_binds_to_leaf cert_pem chain_pem);;
    mret chain_pem).

(** The body of the [try]. *)
Definition enroll (csr_pem : string) (requested_sans : list string) :
    Leg (string * string * list string) :=
  disposition ← certfnsh csr_pem;
  req_id ← lift (request_id disposition);
  commit (set_req_id req_id);;
  cert_pem ← certnew req_id;
  commit (set_cert_pem cert_pem);;
  lift (check_binding cert_pem csr_pem requested_sans);;
  renewals ← certcarc;
  chain_pem ← certnew_chain cert_pem renewals;
  mret (req_id, cert_pem, chain_pem).

(** Its [except] clauses. *)
Definition reported (e : Exn) (c : Committed) : Exn :=
  match e with
  | EnrollmentDenied _ | EnrollmentPending _ _ => e
  | EnrollmentTransportError msg req_id _ _ =>
    match req_id, issued_req_id c with
    | None, Some r =>
      EnrollmentTransportError msg (Some r) (issued_cert_pem c) (issued_chain_pem c)
    | _, _ => e
    end
  | _ =>
    EnrollmentTransportError
      (if expired_when_caught then
         "ADCS enrollment exceeded its " +:+ total_timeout_text leg
         +:+ "s total deadline (" +:+ exn_str e +:+ ")"
       else "ADCS enrollment transport error: " +:+ exn_str e)
      (issued_req_id c) (issued_cert_pem c) (issued_chain_pem c)
  end.

(** [_requester] *)
Definition process_requester : string :=
  if bool_decide (userdomain leg = EmptyString) then username leg
  else userdomain leg +:+ "\" +:+ username leg.

Definition result_metadata (req_id : string) : dict :=
  [("req_id", JStr req_id); ("host", JStr (host leg)); ("source", JStr "certsrv");
   ("requester_source", JStr "process-environment")]%string
  ++ match ca_name leg with
     | Some name =>
       if bool_decide (name = EmptyString) then [] else [("ca_name"%string, JStr name)]
     | None => []
     end.

(** [CertsrvEnrollmentLeg.submit_csr] *)
Definition submit_csr (csr_pem : string) (requested_sans : list string) :
    Res Exn EnrollmentResult :=
  if negb (platform_is_win32 leg) && negb (session_factory leg)
  then Raise (OtherException "NotImplementedError")
  else match session_opens leg with
  | inl e => Raise e
  | inr _ =>
    match enroll csr_pem requested_sans nothing_issued with
    | (inl e, c) => Raise (reported e c)
    | (inr (req_id, cert_pem, chain_pem), _) =>
      Ok {| er_cert_pem := cert_pem; er_chain_pem := chain_pem; er_template := leg_template leg;
            er_requester := process_requester; er_metadata := result_metadata req_id |}
    end
  end.
End submit.

(** [FakeEnrollmentLeg.submit_csr]; the two texts are package data. *)
Definition fake_submit_csr (fake_cert fake_chain account_id : string)
    (requested_sans : list string) : EnrollmentResult :=
  {| er_cert_pem := fake_cert; er_chain_pem := [fake_chain]; er_template := "ACME-ServerAuth";
     er_requester := account_id;
     er_metadata :=
       [("source", JStr "fake");
        ("sans", JStr (of_chars (join_chars "," (map chars requested_sans))))]%string |}.

(** ** Negotiate: [src/acme_adcs_ra/negotiate_auth.py]

    The handshake the session runs before a page of the CA is seen.  SSPI and
    the certificate's hash algorithm are the platform's ([Sspi]); the server's
    certificate and its answers are arguments.  The history of a response,
    which nothing of the RA reads, is left out. *)

Module Negotiate.
Local Open Scope res_scope.

Definition TLS_SERVER_END_POINT : list Z := utf8 "tls-server-end-point:".
Definition NEGOTIATE_DRAIN_MAX_BYTES : Z := 64 * 1024.

(** [hashes.HashAlgorithm] *)
Inductive HashAlgorithm := MD5 | SHA1 | SHA2 (h : HashAlg) | OtherAlgorithm (f : list Z → list Z).
Class Sspi := {
  signature_hash_algorithm : list Z → Res Exn (option HashAlgorithm);
  SecurityContext : Type;
  client : list Z → Res Exn SecurityContext;          (* of the channel binding *)
  client_step : option (list Z) → SecurityContext → Res Exn (option (list Z) * SecurityContext);
}.

(** A response: its body is buffered ([None]), or is read off the connection,
    which gives so many octets or raises. *)
Record Response := {
  status_code : Z;
  www_authenticate : string;
  set_cookie : string;
  raw_body : option (Exn + Z);
}.
Record Request := { authorization : option string; cookie : option string }.

(** [_bounded_drain]: the octets taken, and whether the connection is closed. *)
Definition bounded_drain (r : Response) : Z * bool :=
  match raw_body r with
  | None => (0, false)
  | Some (inl _) => (0, true)
  | Some (inr n) =>
    let taken := Z.min n (NEGOTIATE_DRAIN_MAX_BYTES + 1) in
    (taken, NEGOTIATE_DRAIN_MAX_BYTES <? taken)
  end.

(** [base64.b64encode]: the URL-safe digits and padding, in the other alphabet. *)
Definition std_char (c : ascii) : ascii :=
  if bool_decide (c = "-"%char) then "+"%char else if bool_decide (c = "_"%char) then "/"%char else c.
Definition b64encode (bs : list Z) : list ascii :=
  map std_char (b64_encode bs) ++ pad_of (length (b64_encode bs)).

(** [_challenge_token] *)
Definition part_token (part : string) : option string :=
  let part := strip part in
  if bool_decide (lower (of_chars (take 9 (chars part))) = "negotiate"%string) then
    let token := strip (of_chars (drop 9 (chars part))) in
    if bool_decide (token = EmptyString) then None else Some token
  else None.
Definition challenge_token (header : string) : Res Exn (option (list Z)) :=
  match omap part_token (PyStr.split "," header) with
  | [] => Ok None
  | token :: _ =>
    if is_ascii token then bs ←? b64decode (chars token); Ok (Some bs) else Raise ValueError
  end.

Section negotiate.
Context `{Sspi}.

(** [tls_server_end_point_digest] *)
Definition tls_server_end_point_digest (cert_der : list Z) : Res Exn (list Z) :=
  sig_hash ←? signature_hash_algorithm cert_der;
  let algorithm :=
    match sig_hash with
    | None | Some MD5 | Some SHA1 => digest SHA256
    | Some (SHA2 h) => digest h
    | Some (OtherAlgorithm f) => f
    end in
  Ok (TLS_SERVER_END_POINT ++ algorithm cert_der).
(** [_channel_binding_app_data]: computed once; [probe] is what
    [_server_cert_der] comes to. *)
Definition channel_binding_app_data (probe : Res Exn (list Z)) (app_data : option (list Z)) :
    Res Exn (list Z) :=
  match app_data with
  | Some data => Ok data
  | None => der ←? probe; tls_server_end_point_digest der
  end.

(** What a handshake has done: the requests it sent, the octets it took off
    each challenge, and the channel binding it has in store. *)
Record Handshake := MkHandshake {
  sent : list Request;
  drained : list Z;
  app_data : option (list Z);
}.
Definition next_request (request : Request) (out_token : list Z) (current : Response) : Request :=
  {| authorization := Some ("Negotiate " +:+ of_chars (b64encode out_token))%string;
     cookie := if bool_decide (set_cookie current = EmptyString) then cookie request
               else Some (set_cookie current) |}.

(** The loop of [_authenticate]; the server answers by the requests sent so
    far.  It has no bound of its own: [None] is a handshake still going on. *)
Context (answer : list Request → Res Exn Response).
Fixpoint legs (fuel : nat) (context : SecurityContext) (in_token : option (list Z))
    (request : Request) (current : Response) (h : Handshake) :
    option (Res Exn Response * Handshake) :=
  match fuel with
  | O => None
  | S fuel =>
    match client_step in_token context with
    | inl e => Some (Raise e, h)
    | inr (None, _) | inr (Some [], _) => Some (Ok current, h)
    | inr (Some out_token, context) =>
      let request := next_request request out_token current in
      let h := MkHandshake (sent h ++ [request]) (drained h ++ [(bounded_drain current).1]) (app_data h) in
      match answer (sent h) with
      | inl e => Some (Raise e, h)
      | inr nxt =>
        if negb (status_code nxt =? 401) then Some (Ok nxt, h)
        else match challenge_token (www_authenticate nxt) with
        | inl e => Some (Raise e, h)
        | inr None => Some (Ok nxt, h)
        | inr (Some token) => legs fuel context (Some token) request nxt h
        end
      end
    end
  end.
(** [_authenticate] *)
Definition authenticate (fuel : nat) (probe : Res Exn (list Z)) (data : option (list Z))
    (request : Request) (response : Response) : option (Res Exn Response * Handshake) :=
  let idle := MkHandshake [] [] data in
  if negb (status_code response =? 401) then Some (Ok response, idle)
  else if negb (has_sub "negotiate" (lower (www_authenticate response))) then Some (Ok response, idle)
  else match channel_binding_app_data probe data with
  | inl e => Some (Raise e, idle)
  | inr cbt =>
    let h := MkHandshake [] [] (Some cbt) in
    match client cbt with
    | inl e => Some (Raise e, h)
    | inr context => legs fuel context None request response h
    end
  end.
End negotiate.
(** *** What a handshake does *)

Lemma a2b_std l quad left pads out :
  a2b (map std_char l) quad left pads out = a2b l quad left pads out.
Proof.
  assert (∀ c, bool_decide (std_char c = "="%char) = bool_decide (c = "="%char)
               ∧ b64_index (std_char c) = b64_index c) as Hc.
  { refine (ascii_forall (λ c, _) _). by vm_compute. }
  revert quad left pads out. induction l as [|c l IH]; intros; [done|]. cbn [map a2b].
  destruct (Hc c) as [-> ->]. repeat case_match; auto.
Qed.
Lemma std_char_plain c : url_only (std_char c) = false.
Proof. revert c. refine (ascii_forall (λ c, _) _). by vm_compute. Qed.
Lemma b64decode_encode bs : Forall is_byte bs → b64decode (b64encode bs) = Ok bs.
Proof.
  intros Hbs. unfold b64encode, b64decode.
  assert (pad_of (length (b64_encode bs)) = map std_char (pad_of (length (b64_encode bs)))) as ->
    by (unfold pad_of; by rewrite fmap_replicate).
  rewrite <- map_app.
  assert (∀ l, filter (λ c, url_only c = false) (map std_char l) = map std_char l) as ->.
  { intros l. induction l as [|c l IH]; [done|]. cbn [map].
    by rewrite filter_cons, decide_True, IH by apply std_char_plain. }
  by rewrite a2b_std, a2b_encode.
Qed.

Section negotiate_theorems.
Context `{Sspi} (answer : list Request → Res Exn Response).

(** A request of a handshake carries a token of the client. *)
Definition carries_token (r : Request) : Prop :=
  ∃ token, token ≠ [] ∧ authorization r = Some ("Negotiate " +:+ of_chars (b64encode token))%string.
Definition handshake_ok (h : Handshake) : Prop :=
  Forall carries_token (sent h)
  ∧ Forall (λ n, n ≤ NEGOTIATE_DRAIN_MAX_BYTES + 1) (drained h)
  ∧ length (drained h) = length (sent h).

Lemma bounded_drain_limit r : (bounded_drain r).1 ≤ NEGOTIATE_DRAIN_MAX_BYTES + 1.
Proof. unfold bounded_drain. destruct (raw_body r) as [[]|]; simpl; unfold NEGOTIATE_DRAIN_MAX_BYTES; lia. Qed.
Lemma handshake_ok_snoc h request out_token current :
  handshake_ok h → out_token ≠ [] →
  handshake_ok (MkHandshake (sent h ++ [next_request request out_token current])
                  (drained h ++ [(bounded_drain current).1]) (app_data h)).
Proof.
  intros (Hsent & Hdrained & Hlen) Htoken. split_and!; simpl.
  - apply Forall_app. split; [done|]. constructor; [by exists out_token|done].
  - apply Forall_app. split; [done|]. constructor; [apply bounded_drain_limit|done].
  - rewrite !length_app. simpl. lia.
Qed.

Lemma legs_spec fuel context in_token request current h r h' :
  handshake_ok h → legs answer fuel context in_token request current h = Some (r, h') →
  handshake_ok h' ∧ app_data h' = app_data h
  ∧ ∀ resp, r = Ok resp → (sent h' = sent h ∧ resp = current) ∨ answer (sent h') = Ok resp.
Proof.
  revert context in_token request current h.
  induction fuel as [|fuel IH]; intros context in_token request current h Hok; cbn [legs]; [done|].
  destruct (client_step in_token context) as [e|[[[|b out]|] context']].
  1,2,4: intros [= <- <-]; split_and!; try done; intros resp [= <-]; by left.
  set (h1 := MkHandshake _ _ _).
  assert (handshake_ok h1) as Hok1 by by apply handshake_ok_snoc.
  destruct (answer (sent h1)) as [e|nxt] eqn:Hanswer; [by intros [= <- <-]|].
  destruct (status_code nxt =? 401); cbn [negb];
    [|intros [= <- <-]; split_and!; try done; intros resp [= <-]; by right].
  destruct (challenge_token (www_authenticate nxt)) as [e|[token|]];
    [by intros [= <- <-]| |intros [= <- <-]; split_and!; try done; intros resp [= <-]; by right].
  intros (Hok' & Hdata & Hresp)%IH; [|done]. split_and!; [done..|].
  intros resp Hr. destruct (Hresp resp Hr) as [[Hsent ->]|]; [|by right].
  right. by rewrite Hsent.
Qed.

(** A handshake is only begun for a 401 that asks for Negotiate, and only with
    a channel binding; every request of it carries a token of the client,
    which decodes to what SSPI gave; no more than the cap and one octet is read
    of any challenge; and what the session is given is the answer to the last
    request, or the challenge itself where no request was sent. *)
Theorem negotiate_handshake fuel probe data request response r h :
  authenticate answer fuel probe data request response = Some (r, h) →
  handshake_ok h
  ∧ (sent h ≠ [] → status_code response = 401
                   ∧ has_sub "negotiate" (lower (www_authenticate response)) = true
                   ∧ ∃ cbt, channel_binding_app_data probe data = Ok cbt ∧ app_data h = Some cbt)
  ∧ ∀ resp, r = Ok resp → (sent h = [] ∧ resp = response) ∨ answer (sent h) = Ok resp.
Proof.
  assert (∀ d, handshake_ok (MkHandshake [] [] d)) as Hidle by done.
  unfold authenticate. destruct (Z.eqb_spec (status_code response) 401) as [H401|]; cbn [negb];
    [|intros [= <- <-]; split_and!; try done; intros resp [= <-]; by left].
  destruct (has_sub "negotiate" (lower (www_authenticate response))) eqn:Hneg; cbn [negb];
    [|intros [= <- <-]; split_and!; try done; intros resp [= <-]; by left].
  destruct (channel_binding_app_data probe data) as [e|cbt]; [by intros [= <- <-]|].
  destruct (client cbt) as [e|context]; [by intros [= <- <-]|].
  intros (Hok & Hdata & Hresp)%legs_spec; [|done]. split_and!; [done| |done].
  intros _. split_and!; [done..|]. by exists cbt.
Qed.

(** It ends where the client does not give tokens for ever. *)
Theorem negotiate_ends (rank : SecurityContext → nat)
    (Hrank : ∀ token context out context',
       client_step token context = Ok (Some out, context') → (rank context' < rank context)%nat)
    fuel context in_token request current h :
  (rank context < fuel)%nat → is_Some (legs answer fuel context in_token request current h).
Proof.
  revert context in_token request current h.
  induction fuel as [|fuel IH]; intros context in_token request current h Hlt; [lia|]. cbn [legs].
  destruct (client_step in_token context) as [e|[[[|b out]|] context']] eqn:Hstep; try done.
  apply Hrank in Hstep. repeat case_match; try done. apply IH. lia.
Qed.
End negotiate_theorems.

(** The binding of a certificate signed with SHA-1 is made with SHA-256. *)
Example challenge_token_ex :
  (challenge_token "Basic realm=x, NEGOTIATE  aGk=", challenge_token "Negotiate",
   b64encode (utf8 "hi?>"), challenge_token "negotiate aGk, Negotiate bG8=")
  = (Ok (Some (utf8 "hi")), Ok None, chars "aGk/Pg==", Raise ValueError).
Proof. by vm_compute. Qed.
End Negotiate.
