(* ===== verification/CrlEvidence.v ===== *)
(** * What a CRL proves: [src/acme_adcs_ra/crl_evidence.py], after the document
    has been fetched

    [fetch_crl_evidence] from the line that parses the document, and the
    watermark.  The CRL itself is the cryptography package's: [CrlBackend].
    X.509 times are whole seconds; [now] is the clock, in microseconds. *)

From S2P Require Import Prelude PyStr Time Exn Json Sha256 Sql Db X509 StoreAudit IssuerRecovery.
From stdpp Require Import pretty.
Local Open Scope Z_scope.
Local Open Scope res_scope.

(** [x509.ReasonFlags] *)
Inductive ReasonFlag :=
  | unspecified | key_compromise | ca_compromise | affiliation_changed | superseded
  | cessation_of_operation | certificate_hold | privilege_withdrawn | aa_compromise
  | remove_from_crl.
#[export] Instance ReasonFlag_eq_dec : EqDecision ReasonFlag.
Proof. solve_decision. Defined.
Definition reason_name (r : ReasonFlag) : string :=
  match r with
  | unspecified => "unspecified" | key_compromise => "key_compromise"
  | ca_compromise => "ca_compromise" | affiliation_changed => "affiliation_changed"
  | superseded => "superseded" | cessation_of_operation => "cessation_of_operation"
  | certificate_hold => "certificate_hold" | privilege_withdrawn => "privilege_withdrawn"
  | aa_compromise => "aa_compromise" | remove_from_crl => "remove_from_crl"
  end.

Section crl.
Context `{IssuerBackend}.

(** [x509.CertificateRevocationList]; an extension that is absent is [None],
    and reading one may raise. *)
Record Crl := {
  is_signature_valid : Certificate → Res Exn bool;       (* under its public key *)
  last_update_utc : option Z;
  next_update_utc : option Z;
  crl_number_extension : Res Exn (option Z);
  delta_crl_indicator : Res Exn bool;
  revoked_entry : Z → option (Res Exn (option ReasonFlag)); (* by serial: its CRLReason *)
}.
Class CrlBackend := {
  load_der_x509_crl : list Z → Res Exn Crl;
  load_pem_x509_crl : list Z → Res Exn Crl;
}.
Context `{CrlBackend}.

Definition CLOCK_SKEW : Z := 300.

Definition CRL_VERIFIED : string := "crl-verified".
Definition AGENT_ASSERTED : string := "agent-asserted".

Inductive Verdict := WATERMARK_FIRST | WATERMARK_NEWER | WATERMARK_EQUAL | WATERMARK_OLDER
  | WATERMARK_INDETERMINATE.
#[export] Instance Verdict_eq_dec : EqDecision Verdict.
Proof. solve_decision. Defined.
Definition verdict_text (v : Verdict) : string :=
  match v with
  | WATERMARK_FIRST => "first" | WATERMARK_NEWER => "newer" | WATERMARK_EQUAL => "equal"
  | WATERMARK_OLDER => "older" | WATERMARK_INDETERMINATE => "indeterminate"
  end.

(** [CrlEvidence]: times as the instants whose [isoformat] it holds. *)
Record CrlEvidence := {
  revoked : bool;
  checked : bool;
  detail : string;
  evidence_number : option string;                       (* crl_number *)
  evidence_this_update : option Z;
  evidence_next_update : option Z;
  evidence_issuer_key : option string;
  watermark_verdict : option Verdict;
  issuer_missing : bool;
}.
Definition verification (e : CrlEvidence) : string :=
  if checked e && revoked e then CRL_VERIFIED else AGENT_ASSERTED.
Definition regressed (e : CrlEvidence) : bool :=
  bool_decide (watermark_verdict e = Some WATERMARK_OLDER).

(** [CrlEvidence(revoked=False, checked=False, detail=...)] *)
Definition no_evidence (detail : string) : CrlEvidence :=
  {| revoked := false; checked := false; detail := detail; evidence_number := None;
     evidence_this_update := None; evidence_next_update := None; evidence_issuer_key := None;
     watermark_verdict := None; issuer_missing := false |}.

(** [datetime.isoformat] of a whole second in UTC *)
Definition isoformat (t : Z) : string := of_chars (take 19 (chars (iso t))) +:+ "+00:00".
Definition isoformat_opt (t : option Z) : string :=
  match t with Some t => isoformat t | None => "None" end.

Definition by_order (seen served : Z) : Verdict :=
  if seen <? served then WATERMARK_NEWER
  else if served =? seen then WATERMARK_EQUAL else WATERMARK_OLDER.

(** The comparison of the two dates. *)
Definition compare_dates (watermark : CrlWatermark) (this_update : option Z) : Verdict :=
  match this_update, StoreAudit.this_update watermark with
  | Some served, Some seen => by_order seen served
  | _, _ => WATERMARK_INDETERMINATE
  end.

(** [compare_to_watermark] *)
Definition compare_to_watermark (watermark : option CrlWatermark)
    (crl_number : option string) (this_update : option Z) : Verdict :=
  match watermark with
  | None => WATERMARK_FIRST
  | Some watermark =>
    match crl_number, StoreAudit.crl_number watermark with
    | Some served, Some seen =>
      match py_int seen, py_int served with
      | Some seen, Some served => by_order seen served
      | _, _ => compare_dates watermark this_update
      end
    | _, _ => compare_dates watermark this_update
    end
  end.

(** The three tests of freshness; [None] when the document passes. *)
Definition stale (crl : Crl) (now max_age_seconds : Z) : option CrlEvidence :=
  let this := last_update_utc crl in
  match next_update_utc crl with
  | None =>
    Some {| revoked := false; checked := false;
            detail := "CRL has no nextUpdate, so its freshness cannot be established";
            evidence_number := None; evidence_this_update := this;
            evidence_next_update := None; evidence_issuer_key := None;
            watermark_verdict := None; issuer_missing := false |}
  | Some next =>
    let refused detail :=
      Some {| revoked := false; checked := false; detail := detail; evidence_number := None;
              evidence_this_update := this; evidence_next_update := Some next;
              evidence_issuer_key := None; watermark_verdict := None;
              issuer_missing := false |} in
    if next * 10 ^ 6 <? now then refused ("CRL expired at " +:+ isoformat next)%string
    else match this with
    | None => None
    | Some this =>
      if now + CLOCK_SKEW * 10 ^ 6 <? this * 10 ^ 6
      then refused ("CRL thisUpdate " +:+ isoformat this +:+ " is in the future")%string
      else
        let age := now - this * 10 ^ 6 in
        if max_age_seconds * 10 ^ 6 <? age
        then refused ("CRL is " +:+ pretty (Z.quot age (10 ^ 6)) +:+ "s old, over the "
                      +:+ pretty max_age_seconds +:+ "s freshness limit")%string
        else None
    end
  end.

(** What the entry of a serial says of it. *)
Definition entry_revokes (entry : option (Res Exn (option ReasonFlag))) :
    Res Exn (bool * string) :=
  match entry with
  | None => Ok (false, "serial is NOT listed on the CRL")
  | Some reason =>
    reason ←? reason;
    match reason with
    | Some remove_from_crl =>
      Ok (false, "serial is listed on the CRL with reason removeFromCRL, which means the "
                 +:+ "certificate was taken OFF hold and is NOT revoked")
    | Some r => Ok (true, "serial is listed on the CRL (reason=" +:+ reason_name r +:+ ")")
    | None => Ok (true, "serial is listed on the CRL (reason=unspecified)")
    end
  end%string.

(** A document of the issuer, fresh: delta, watermark and entry. *)
Definition verified_document (crl : Crl) (serial_number : Z) (key : string)
    (watermark : option CrlWatermark) (enforce_monotonic : bool) : Res Exn CrlEvidence :=
  number ←? crl_number_extension crl;
  let crl_number := pretty <$> number in
  let this := last_update_utc crl in
  let evidence revoked checked detail verdict :=
    Ok {| revoked := revoked; checked := checked; detail := detail;
          evidence_number := crl_number; evidence_this_update := this;
          evidence_next_update := next_update_utc crl; evidence_issuer_key := Some key;
          watermark_verdict := verdict; issuer_missing := false |} in
  delta ←? delta_crl_indicator crl;
  if (delta : bool) then
    evidence false false
      ("CRL is a delta CRL (DeltaCRLIndicator present); it lists only changes since a base "
       +:+ "CRL and cannot prove a serial's current revocation state. Point "
       +:+ "revocation_confirm_crl_url at the base CRL.") None
  else
    let verdict := compare_to_watermark watermark crl_number this in
    if bool_decide (verdict = WATERMARK_OLDER) && enforce_monotonic then
      evidence false false
        ("crl-evidence-regressed: served CRL (number=" +:+ default "None" crl_number
         +:+ ", thisUpdate=" +:+ isoformat_opt this
         +:+ ") is older than the newest already acted on for this CA (number="
         +:+ default "None" (watermark ≫= StoreAudit.crl_number) +:+ ", thisUpdate="
         +:+ isoformat_opt (watermark ≫= StoreAudit.this_update) +:+ ")")
        (Some verdict)
    else
      entry ←? entry_revokes (revoked_entry crl serial_number);
      evidence entry.1 true entry.2 (Some verdict).

(** [for loader in (load_der_x509_crl, load_pem_x509_crl)] *)
Definition load_crl (body : list Z) : Res Exn (option Crl) :=
  match load_der_x509_crl body with
  | inr crl => Ok (Some crl)
  | inl ValueError =>
    match load_pem_x509_crl body with
    | inr crl => Ok (Some crl)
    | inl ValueError => Ok None
    | inl e => Raise e
    end
  | inl e => Raise e
  end.

(** [fetch_crl_evidence], on the document it fetched *)
Definition document_evidence (body : list Z) (serial_number : Z) (cert_pem : string)
    (chain_pem : json) (now max_age_seconds : Z) (watermark : option CrlWatermark)
    (enforce_monotonic : bool) : Res Exn CrlEvidence :=
  crl ←? load_crl body;
  match crl with
  | None => Ok (no_evidence "CRL is neither valid DER nor PEM")
  | Some crl =>
    ca_cert ←? issuing_ca_certificate cert_pem chain_pem;
    match ca_cert with
    | None =>
      Ok {| revoked := false; checked := false;
            detail := "could not locate the issuing CA certificate in the stored chain, so "
                      +:+ "the CRL signature cannot be verified";
            evidence_number := None; evidence_this_update := None;
            evidence_next_update := None; evidence_issuer_key := None;
            watermark_verdict := None; issuer_missing := true |}
    | Some ca_cert =>
      valid ←? is_signature_valid crl ca_cert;
      if negb valid then
        Ok (no_evidence "CRL signature does not verify against the certificate's issuer")
      else match stale crl now max_age_seconds with
      | Some evidence => Ok evidence
      | None =>
        verified_document crl serial_number (watermark_key ca_cert) watermark
          enforce_monotonic
      end
    end
  end.
End crl.
