(* ===== verification/Config.v ===== *)
(** * The settings: [src/acme_adcs_ra/config.py]

    What [RAConfig] accepts: the constraints of its fields and its validators,
    in the order pydantic runs them.  Where a value comes from (environment,
    file) and the warnings are not modelled; a refusal is a [ValueError]
    whatever its text. *)

From S2P Require Import Prelude PyStr Exn Base64 Policy RateLimit Url.
From Stdlib Require Import SpecFloat.
Local Open Scope Z_scope.
Local Open Scope res_scope.

Definition MIN_EAB_MAC_KEY_BYTES : Z := 32.
Definition MIN_ADMIN_TOKEN_CHARS : Z := 32.

(** [EABEntry] *)
Record EABEntry := { kid : string; mac_key : string }.

Inductive SiemSink := jsonl | syslog | hec.
Inductive SyslogProto := udp | tcp.
#[export] Instance SiemSink_eq_dec : EqDecision SiemSink.
Proof. solve_decision. Defined.
#[export] Instance SyslogProto_eq_dec : EqDecision SyslogProto.
Proof. solve_decision. Defined.

(** [RAConfig]: the fields with a constraint or a validator. *)
Record RAConfig := {
  eab_allowlist : list EABEntry;
  san_scopes : list (string * list string);              (* kid, dns_patterns *)
  max_accounts_per_eab_kid : Z;
  adcs_enrollment_timeout_seconds : spec_float;
  adcs_enrollment_total_timeout_seconds : spec_float;
  adcs_enrollment_max_workers : Z;
  adcs_enrollment_max_pending : Z;
  base_url : string;
  tls_certfile : option string;
  tls_keyfile : option string;
  max_admin_body_size_bytes : Z;
  rate_limit_key_changes_per_window : Z;
  audit_offbox_required : bool;
  audit_offbox_allow_unauthenticated_syslog : bool;
  audit_denial_coalesce_window_seconds : Z;
  audit_retention_days : Z;
  audit_prune_enabled : bool;
  audit_store_warn_mib : Z;
  audit_jsonl_max_mib : Z;
  audit_jsonl_keep : Z;
  siem_sink : SiemSink;
  siem_syslog_proto : SyslogProto;
  siem_syslog_timeout_seconds : spec_float;
  siem_hec_url : string;
  siem_hec_token : string;
  siem_hec_queue_max : Z;
  admin_token : string;
  revocation_confirm_token : string;
  revocation_confirm_crl_url : string;
  revocation_confirm_require_crl_evidence : bool;
  revocation_confirm_crl_timeout_seconds : spec_float;
  revocation_confirm_crl_total_timeout_seconds : spec_float;
  revocation_confirm_crl_max_workers : Z;
  revocation_confirm_crl_max_pending : Z;
  allow_weak_credentials : bool;
}.

(** [if refused: raise ValueError(...)] *)
Definition refuse_if (b : bool) : Res Exn unit := if b then Raise ValueError else Ok tt.

(** ** Fields *)

(** One pattern of [SANScope._validate_dns_patterns]. *)
Definition validate_dns_pattern (p : string) : Res Exn unit :=
  let rest := of_chars (drop 2 (chars p)) in
  let wild := has_char "*" p in
  if wild && negb (startswith p "*." && negb (has_char "*" rest)
                   && negb (bool_decide (rest = EmptyString)))
  then Raise ValueError
  else match validate_dns_name (if wild then rest else p) with
  | inr _ => Ok tt
  | inl _ => Raise ValueError
  end.
Definition validate_dns_patterns (v : list string) : Res Exn unit := res_iter validate_dns_pattern v.

(** The [ge] and [gt] of the fields; every field is looked at, and any failure
    fails the whole. *)
Definition positive_float (x : spec_float) : bool := SFltb (S754_zero false) x.
Definition field_constraints (c : RAConfig) : bool :=
  (1 <=? max_accounts_per_eab_kid c)
  && positive_float (adcs_enrollment_timeout_seconds c)
  && positive_float (adcs_enrollment_total_timeout_seconds c)
  && (1 <=? adcs_enrollment_max_workers c) && (1 <=? adcs_enrollment_max_pending c)
  && (0 <=? rate_limit_key_changes_per_window c)
  && (0 <=? audit_denial_coalesce_window_seconds c) && (0 <=? audit_retention_days c)
  && (0 <=? audit_store_warn_mib c) && (0 <=? audit_jsonl_max_mib c)
  && (0 <=? audit_jsonl_keep c) && positive_float (siem_syslog_timeout_seconds c)
  && (1 <=? siem_hec_queue_max c).
Definition validate_fields (c : RAConfig) : Res Exn unit :=
  refuse_if (negb (field_constraints c));;?
  res_iter (λ scope, validate_dns_patterns scope.2) (san_scopes c).

(** ** Validators *)

Section validators.
Context `{NetlocCheck}.

Definition audit_pruning_is_not_available (c : RAConfig) : Res Exn unit :=
  refuse_if (audit_prune_enabled c).

Definition base_url_is_a_bare_origin (c : RAConfig) : Res Exn unit :=
  parts ←? urlsplit (base_url c);
  if bool_decide (scheme parts ∉ ["http"; "https"]%string) then Raise ValueError
  else if bool_decide (netloc parts = EmptyString) then Raise ValueError
  else if bool_decide (path parts ∉ [""; "/"]%string) then Raise ValueError
  else refuse_if (negb (bool_decide (query parts = EmptyString))
                  || negb (bool_decide (fragment parts = EmptyString))).

Fixpoint no_duplicate_kids (seen : list string) (entries : list EABEntry) : Res Exn unit :=
  match entries with
  | [] => Ok tt
  | entry :: entries =>
    if bool_decide (kid entry ∈ seen) then Raise ValueError
    else no_duplicate_kids (kid entry :: seen) entries
  end.
Definition no_duplicate_eab_kids (c : RAConfig) : Res Exn unit :=
  no_duplicate_kids [] (eab_allowlist c).

(** The problems of one entry, of a token, and of the two tokens, counted. *)
Definition eab_problems (entry : EABEntry) : Res Exn nat :=
  let name := if bool_decide (strip (kid entry) = EmptyString)
                 || negb (bool_decide (kid entry = strip (kid entry))) then 1%nat else 0%nat in
  match base64url_decode (mac_key entry) with
  | inl ValueError => Ok (S name)
  | inl e => Raise e
  | inr key_bytes =>
    Ok (if Z.of_nat (length key_bytes) <? MIN_EAB_MAC_KEY_BYTES then S name else name)
  end.
Fixpoint all_eab_problems (entries : list EABEntry) : Res Exn nat :=
  match entries with
  | [] => Ok 0%nat
  | entry :: entries => n ←? eab_problems entry; k ←? all_eab_problems entries; Ok (n + k)%nat
  end.
Definition token_problems (token : string) : nat :=
  if negb (bool_decide (token = EmptyString)) && (slen token <? MIN_ADMIN_TOKEN_CHARS)
  then 1 else 0.
Definition shared_token_problems (c : RAConfig) : nat :=
  if negb (bool_decide (admin_token c = EmptyString))
     && negb (bool_decide (revocation_confirm_token c = EmptyString))
     && bool_decide (admin_token c = revocation_confirm_token c)
  then 1 else 0.
Definition credentials_are_strong (c : RAConfig) : Res Exn unit :=
  if allow_weak_credentials c then Ok tt
  else
    n ←? all_eab_problems (eab_allowlist c);
    let problems := (n + token_problems (admin_token c)
                     + token_problems (revocation_confirm_token c)
                     + shared_token_problems c)%nat in
    refuse_if (negb (bool_decide (problems = 0%nat))).

Definition offbox_audit_when_required (c : RAConfig) : Res Exn unit :=
  if negb (audit_offbox_required c)
  then refuse_if (audit_offbox_allow_unauthenticated_syslog c)
  else if bool_decide (siem_sink c = jsonl) then Raise ValueError
  else if bool_decide (siem_sink c = syslog) then
    if bool_decide (siem_syslog_proto c = udp) then Raise ValueError
    else refuse_if (negb (audit_offbox_allow_unauthenticated_syslog c))
  else
    hec_url ←? urlsplit (siem_hec_url c);
    refuse_if (negb (bool_decide (scheme hec_url = "https"%string))
               || bool_decide (hostname hec_url = None)
               || bool_decide (is_Some (username hec_url))
               || bool_decide (is_Some (password hec_url))
               || bool_decide (siem_hec_token c = EmptyString)).

Definition crl_evidence_is_obtainable (c : RAConfig) : Res Exn unit :=
  refuse_if (revocation_confirm_require_crl_evidence c
             && bool_decide (revocation_confirm_crl_url c = EmptyString)).

Definition crl_timeouts_are_coherent (c : RAConfig) : Res Exn unit :=
  refuse_if (SFleb (revocation_confirm_crl_total_timeout_seconds c) (S754_zero false)
             || SFltb (adcs_enrollment_total_timeout_seconds c)
                      (adcs_enrollment_timeout_seconds c)
             || (adcs_enrollment_max_pending c <? adcs_enrollment_max_workers c)
             || (revocation_confirm_crl_max_workers c <? 1)
             || (revocation_confirm_crl_max_pending c <? 1)
             || (revocation_confirm_crl_max_pending c <? revocation_confirm_crl_max_workers c)
             || (max_admin_body_size_bytes c <? 1)
             || SFltb (revocation_confirm_crl_total_timeout_seconds c)
                      (revocation_confirm_crl_timeout_seconds c)).

(** A [Path] is true whatever it names. *)
Definition tls_cert_key_paired (c : RAConfig) : Res Exn unit :=
  refuse_if (negb (bool_decide (is_Some (tls_certfile c) ↔ is_Some (tls_keyfile c)))).

(** [RAConfig(...)] *)
Definition load_config (c : RAConfig) : Res Exn unit :=
  validate_fields c;;?
  audit_pruning_is_not_available c;;?
  base_url_is_a_bare_origin c;;?
  no_duplicate_eab_kids c;;?
  credentials_are_strong c;;?
  offbox_audit_when_required c;;?
  crl_evidence_is_obtainable c;;?
  crl_timeouts_are_coherent c;;?
  tls_cert_key_paired c.
End validators.
