(* ===== verification/Siem.v ===== *)
(** * The audit stream: [src/acme_adcs_ra/siem.py]

    [SiemEmitter]: which sink is enabled, what the delivery probe
    demonstrates, the JSONL mirror and its rotation, and the bounded queue of
    the two sinks that leave the host.  What the collector or the file system
    answers is an argument or a field of the state; log lines are not
    modelled. *)

From S2P Require Import Prelude PyStr Exn Json Url Config.
From stdpp Require Import pretty.
Local Open Scope Z_scope.
Local Open Scope res_scope.

(** [SiemConfig], the fields that decide something *)
Record SiemConfig := {
  sink : SiemSink;
  jsonl_path : option string;
  syslog_host : string;
  syslog_proto : SyslogProto;
  hec_url : string;
  hec_token : string;
  jsonl_max_mib : Z;
  jsonl_keep : Z;
  hec_queue_max : Z;
}.

(** ** Which sink is enabled *)

Section emitter.
Context `{NetlocCheck}.

(** [hec_url_is_safe] *)
Definition hec_url_is_safe (u : string) : Res Exn bool :=
  parsed_hec ←? urlparse u;
  Ok (bool_decide (scheme parsed_hec = "https"%string)
      && bool_decide (is_Some (hostname parsed_hec))
      && bool_decide (username parsed_hec = None)
      && bool_decide (password parsed_hec = None)).

(** [SiemEmitter.__init__]: the value of [enabled].  [syslog_set_up] tells
    whether [_setup_syslog] succeeded, [jsonl_opens] whether the path could be
    opened for appending. *)
Definition emitter_enabled (c : SiemConfig) (syslog_set_up jsonl_opens : bool) : Res Exn bool :=
  match sink c with
  | syslog => Ok (negb (bool_decide (syslog_host c = EmptyString)) && syslog_set_up)
  | hec =>
    safe ←? hec_url_is_safe (hec_url c);
    Ok (safe && negb (bool_decide (hec_token c = EmptyString)))
  | jsonl => Ok (bool_decide (is_Some (jsonl_path c)) && jsonl_opens)
  end.
End emitter.

(** [SiemEmitter], as the rest of the server sees it: [delivery] is what a
    probe event meets. *)
Record SiemEmitter := {
  siem_config : SiemConfig;
  enabled : bool;
  delivery : Res Exn unit;
}.

(** [probe_offbox_delivery] *)
Definition probe_offbox_delivery (s : SiemEmitter) : bool * string :=
  let cfg := siem_config s in
  if negb (enabled s) then (false, "the SIEM emitter is disabled")
  else match sink cfg with
  | hec =>
    match delivery s with
    | inr _ => (true, "HEC acknowledged a probe event with a 2xx")
    | inl exc => (false, "HEC rejected the startup probe: " +:+ exn_str exc)
    end
  | syslog =>
    match delivery s with
    | inl exc => (false, "syslog refused the startup probe: " +:+ exn_str exc)
    | inr _ =>
      if bool_decide (syslog_proto cfg = udp) then
        (false, "syslog is configured over UDP, which is fire-and-forget: "
                +:+ "the socket accepts every datagram whether or not a "
                +:+ "collector exists, so delivery can never be demonstrated. "
                +:+ "Use syslog_proto=tcp to at least prove a live transport, "
                +:+ "or the HEC sink to prove receipt.")
      else
        (true, "syslog TCP send completed with no transport error; the "
               +:+ "collector is reachable but syslog cannot acknowledge receipt")
    end
  | jsonl => (false, "sink 'jsonl' is not an off-box sink")
  end%string.

(** ** What one HEC answer counts as *)

(** What opening the request ends in: a status, or an exception. *)
Definition is_2xx (status : Z) : bool := (200 <=? status) && (status <? 300).

(** ** The JSONL mirror *)

(** The files: [0] is the path itself, [i] is [path.i].  Each operation of the
    file system takes the next entry of [fs_faults]: [true] makes it raise an
    [OSError] and change nothing. *)
Record Mirror := MkMirror {
  files : gmap nat string;
  fs_faults : list bool;
}.
Definition fs_op {A} (f : gmap nat string → A * gmap nat string) (m : Mirror) :
    Res Exn A * Mirror :=
  match fs_faults m with
  | true :: fs => (Raise (OSError "file system"), MkMirror (files m) fs)
  | fs => let '(x, t) := f (files m) in (Ok x, MkMirror t (tail fs))
  end.

(** [src.replace(dst)] *)
Definition move (i j : nat) (t : gmap nat string) : gmap nat string :=
  match t !! i with
  | Some content => <[j := content]> (delete i t)
  | None => t
  end.

(** The loop of [_rotate_jsonl_if_needed], from [i] down to 1, and the move of
    the path itself. *)
Fixpoint shift_files (i : nat) (m : Mirror) : Mirror :=
  match i with
  | O => (fs_op (λ t, (tt, move 0 1 t)) m).2
  | S i' =>
    if bool_decide (is_Some (files m !! i)) then
      match fs_op (λ t, (tt, move i (S i) t)) m with
      | (inr _, m) => shift_files i' m
      | (inl _, m) => m
      end
    else shift_files i' m
  end.

Definition file_size (i : nat) (t : gmap nat string) : Z := from_option slen 0 (t !! i).

(** [_rotate_jsonl_if_needed]: [OSError]s are only logged. *)
Definition rotate_jsonl_if_needed (c : SiemConfig) (m : Mirror) : Mirror :=
  let max_bytes := jsonl_max_mib c * 1024 * 1024 in
  if max_bytes <=? 0 then m
  else match fs_op (λ t, (file_size 0 t, t)) m with
  | (inl _, m) => m
  | (inr size, m) =>
    if size <? max_bytes then m
    else
      let keep := Z.to_nat (Z.max (jsonl_keep c) 0) in
      match keep with
      | O => (fs_op (λ t, (tt, <[0%nat := EmptyString]> t)) m).2
      | S i => shift_files i m
      end
  end.

(** [_to_jsonl]; [line] is the text that is written, with its line end.  Making
    the directory and appending are one operation. *)
Definition to_jsonl (c : SiemConfig) (line : string) (m : Mirror) : Mirror :=
  match jsonl_path c with
  | None => m
  | Some _ =>
    match fs_op (λ t, (tt, <[0%nat := (default EmptyString (t !! 0%nat) +:+ line)%string]> t)) m with
    | (inl _, m) => m
    | (inr _, m) => rotate_jsonl_if_needed c m
    end
  end.

(** [jsonl_bytes] *)
Definition jsonl_bytes (c : SiemConfig) (t : gmap nat string) : Z :=
  match jsonl_path c with
  | None => 0
  | Some _ =>
    fold_right Z.add 0
      (map (λ i, file_size i t) (seq 0 (S (Z.to_nat (Z.max (jsonl_keep c) 0)))))
  end.

(** ** The queue of an off-box sink *)

(** The counters, and the pool, each read and written under [_sink_lock]. *)
Record Queue := MkQueue {
  pool_open : bool;
  sink_inflight : Z;
  sink_dropped : Z;
  offbox_failures : Z;
  offbox_delivered : Z;
  offbox_last_error : option string;
}.
Definition queue_init : Queue := MkQueue true 0 0 0 0 None.

(** [_submit_bounded] *)
Definition submit_bounded (c : SiemConfig) (q : Queue) : Queue :=
  if negb (pool_open q) then q
  else if hec_queue_max c <=? sink_inflight q
  then MkQueue (pool_open q) (sink_inflight q) (sink_dropped q + 1) (offbox_failures q)
         (offbox_delivered q) (offbox_last_error q)
  else MkQueue (pool_open q) (sink_inflight q + 1) (sink_dropped q) (offbox_failures q)
         (offbox_delivered q) (offbox_last_error q).

(** [_record_offbox_result] *)
Definition record_offbox_result (error : option string) (q : Queue) : Queue :=
  match error with
  | None =>
    MkQueue (pool_open q) (sink_inflight q) (sink_dropped q) 0 (offbox_delivered q + 1)
      (offbox_last_error q)
  | Some e =>
    MkQueue (pool_open q) (sink_inflight q) (sink_dropped q) (offbox_failures q + 1)
      (offbox_delivered q) (Some e)
  end.

(** The end of [_syslog_send] and [_hec_post]. *)
Definition send_finished (q : Queue) : Queue :=
  MkQueue (pool_open q) (sink_inflight q - 1) (sink_dropped q) (offbox_failures q)
    (offbox_delivered q) (offbox_last_error q).

(** [_hec_post_inner] on what the request ended in: every way is recorded
    once, but a status that is not 2xx twice when the caller wants to know. *)
Definition hec_post_inner (answer : string + Z) (raise_on_error : bool) (q : Queue) :
    Res Exn unit * Queue :=
  match answer with
  | inl error =>
    (if raise_on_error then Raise (OtherException error) else Ok tt,
     record_offbox_result (Some error) q)
  | inr status =>
    if is_2xx status then (Ok tt, record_offbox_result None q)
    else
      let error := ("HTTP " +:+ pretty status)%string in
      let q := record_offbox_result (Some error) q in
      if raise_on_error
      then (Raise RuntimeError, record_offbox_result (Some ("RuntimeError: " +:+ error)%string) q)
      else (Ok tt, q)
  end.

(** [SiemEmitter.close], as far as the queue sees it *)
Definition close_queue (q : Queue) : Queue :=
  MkQueue false (sink_inflight q) (sink_dropped q) (offbox_failures q) (offbox_delivered q)
    (offbox_last_error q).
