(* ===== verification/SiemTransport.v ===== *)
(** * Leaving the host: the transports of [src/acme_adcs_ra/siem.py]

    The syslog handler that raises ([_RaisingSysLogHandler]): resolving and
    connecting under one deadline, sending, and what a failed send leaves
    behind; the delivery of one event over syslog or HEC; and the two sinks
    with their worker threads as a step relation.  What the resolver, the peers
    and the collector do is an argument.  At the end, what the counters say of
    the events that left the host. *)

From S2P Require Import Prelude PyStr Exn Json Url Config Siem.
Local Open Scope Z_scope.

(** ** Resolving and connecting under a deadline *)

Definition is_os_error (e : Exn) : bool := match e with OSError _ => true | _ => false end.
Definition TimedOut : Exn := OSError "timed out".

(** The monotonic clock, and the sockets of the process that are not closed. *)
Record Net := MkNet {
  now : Z;
  open_sockets : gset nat;
  fresh_socket : nat;
}.
Definition wait_for (d : Z) (n : Net) : Net := MkNet (now n + d) (open_sockets n) (fresh_socket n).
Definition open_socket (n : Net) : Net :=
  MkNet (now n) ({[fresh_socket n]} ∪ open_sockets n) (S (fresh_socket n)).
Definition close_socket (s : nat) (n : Net) : Net :=
  MkNet (now n) (open_sockets n ∖ {[s]}) (fresh_socket n).

(** What the resolver answers, and after how long; what connecting to an
    address meets. *)
Definition Address : Type := string.
Record Resolution := { resolve_after : Z; resolved : Exn + list Address }.
Inductive Attempt :=
  | NoSocket (exc : Exn)                       (* socket.socket raises *)
  | Connects (after : Z)
  | Refuses (after : Z) (exc : Exn).
Record Network := {
  resolver : Resolution;
  peer : Address → Attempt;
}.

(** [_getaddrinfo_within] *)
Definition getaddrinfo_within (net : Network) (deadline : Z) (n : Net) :
    Res Exn (list Address) * Net :=
  let remaining := deadline - now n in
  if remaining <=? 0 then (Raise TimedOut, n)
  else
    let r := resolver net in
    if remaining <? resolve_after r then (Raise TimedOut, wait_for remaining n)
    else
      let n := wait_for (resolve_after r) n in
      match resolved r with
      | inl exc => (Raise exc, n)
      | inr [] => (Raise (OSError "getaddrinfo returns an empty list"), n)
      | inr infos => (Ok infos, n)
      end.

(** A connected socket with its timeout. *)
Record Sock := { sock_id : nat; sock_address : Address; sock_timeout : option Z }.

(** One [connect] under a timeout. *)
Definition connect_within (remaining : Z) (a : Attempt) (n : Net) : option Exn * Net :=
  match a with
  | NoSocket exc => (Some exc, n)
  | Connects after =>
    if remaining <? after then (Some TimedOut, wait_for remaining n)
    else (None, wait_for after n)
  | Refuses after exc =>
    if remaining <? after then (Some TimedOut, wait_for remaining n)
    else (Some exc, wait_for after n)
  end.

(** The loop over the addresses: the last error is raised.  An error that is
    no [OSError] is not caught. *)
Fixpoint connect_first (net : Network) (deadline : Z) (infos : list Address) (err : Exn) (n : Net) :
    Res Exn Sock * Net :=
  match infos with
  | [] => (Raise err, n)
  | sa :: infos =>
    let remaining := deadline - now n in
    if remaining <=? 0 then (Raise TimedOut, n)
    else match peer net sa with
    | NoSocket exc =>
      if is_os_error exc then connect_first net deadline infos exc n else (Raise exc, n)
    | attempt =>
      let candidate := fresh_socket n in
      match connect_within remaining attempt (open_socket n) with
      | (None, n) =>
        (Ok {| sock_id := candidate; sock_address := sa; sock_timeout := Some remaining |}, n)
      | (Some exc, n) =>
        if is_os_error exc
        then connect_first net deadline infos exc (close_socket candidate n)
        else (Raise exc, n)
      end
    end
  end.

(** ** The handler *)

(** [_apply_send_timeout], on a stream socket *)
Definition apply_send_timeout (send_timeout : Z) (s : Sock) : Sock :=
  {| sock_id := sock_id s; sock_address := sock_address s; sock_timeout := Some send_timeout |}.

(** [_create_stream_socket_within] *)
Definition create_stream_socket_within (net : Network) (timeout : Z) (n : Net) :
    Res Exn Sock * Net :=
  let deadline := now n + timeout in
  match getaddrinfo_within net deadline n with
  | (inl exc, n) => (Raise exc, n)
  | (inr infos, n) =>
    match connect_first net deadline infos (OSError "no address") n with
    | (inl exc, n) => (Raise exc, n)
    | (inr sock, n) => (Ok (apply_send_timeout timeout sock), n)
    end
  end.

(** A handler for TCP: its socket; and what the collector has been sent, whole. *)
Record Handler := MkHandler {
  handler_socket : option Sock;
  net_state : Net;
  wire : list string;
}.

(** What sending over a socket comes to: all of it, or an exception after some
    time, and whether closing a broken socket raises. *)
Record Sending := { send_error : option Exn; send_after : Z; close_raises : bool }.

(** [handleError]: the dead stream is dropped, and the error goes on. *)
Definition handle_error (sending : Sending) (exc : Exn) (h : Handler) : Res Exn unit * Handler :=
  let n :=
    match handler_socket h with
    | Some s => if close_raises sending then net_state h else close_socket (sock_id s) (net_state h)
    | None => net_state h
    end in
  (Raise exc, MkHandler None n (wire h)).

(** [SysLogHandler.emit] with the methods of [_RaisingSysLogHandler]: a missing
    socket is created first; a send that takes longer than the timeout of the
    socket raises. *)
Definition ready_socket (net : Network) (send_timeout : Z) (h : Handler) : Res Exn Sock * Handler :=
  match handler_socket h with
  | Some s => (Ok s, h)
  | None =>
    match create_stream_socket_within net send_timeout (net_state h) with
    | (inr s, n) => (Ok s, MkHandler (Some s) n (wire h))
    | (inl exc, n) => (Raise exc, MkHandler None n (wire h))
    end
  end.
Definition send_over (sending : Sending) (msg : string) (s : Sock) (h : Handler) :
    Res Exn unit * Handler :=
  let limit := default (send_after sending) (sock_timeout s) in
  if limit <? send_after sending
  then handle_error sending TimedOut
         (MkHandler (handler_socket h) (wait_for limit (net_state h)) (wire h))
  else
    let n := wait_for (send_after sending) (net_state h) in
    match send_error sending with
    | Some exc => handle_error sending exc (MkHandler (handler_socket h) n (wire h))
    | None => (Ok tt, MkHandler (handler_socket h) n (wire h ++ [msg]))
    end.
Definition emit (net : Network) (send_timeout : Z) (sending : Sending) (msg : string) (h : Handler) :
    Res Exn unit * Handler :=
  match ready_socket net send_timeout h with
  | (inl exc, h) => handle_error sending exc h
  | (inr s, h) => send_over sending msg s h
  end.

(** ** One event *)

(** [_wrap_event] *)
Definition SCHEMA_VERSION : string := "acme-adcs-ra-audit/1".
Definition wrap_event (instance : string) (event : dict) : dict :=
  dict_update [("schema_version", JStr SCHEMA_VERSION); ("instance", JStr instance)]%string event.

(** What is posted: the envelope of an event, and its headers. *)
Definition hec_envelope (hec_index hec_sourcetype : string) (time : json) (event : dict) : dict :=
  [("event", JObj event); ("sourcetype", JStr hec_sourcetype); ("time", time)]%string
  ++ if bool_decide (hec_index = EmptyString) then [] else [("index"%string, JStr hec_index)].
Definition hec_headers (token : string) : list (string * string) :=
  [("Authorization", "Splunk " +:+ token); ("Content-Type", "application/json")]%string.

(** [_syslog_send]; [msg] is the event as text. *)
Definition syslog_send (net : Network) (send_timeout : Z) (sending : Sending) (msg : string)
    (hq : Handler * Queue) : Handler * Queue :=
  let '(r, h) := emit net send_timeout sending msg hq.1 in
  let error := match r with inl exc => Some (exn_str exc) | inr _ => None end in
  (h, send_finished (record_offbox_result error hq.2)).

(** [_hec_post]; [answer] is what opening the request comes to. *)
Definition hec_post (answer : string + Z) (q : Queue) : Queue :=
  send_finished (hec_post_inner answer false q).2.
Definition hec_accepted (answer : string + Z) : bool :=
  match answer with inr status => is_2xx status | inl _ => false end.

(** ** The sinks and their workers *)

(** The emitter: its counters, its handler, the work queue of the pool and the
    events its threads have in hand; then what became of the other events. *)
Record Emitter := MkEmitter {
  queue : Queue;
  handler : Handler;
  logger_open : bool;
  pending : list string;
  running : list string;
  delivered : list string;           (* the transport took them *)
  lost : list string;                (* the transport failed *)
  dropped : list string;             (* no room in the queue *)
  cancelled : list string;           (* in the queue when the pool was shut down *)
  refused : list string;             (* handed over after that *)
  unsent : list string;              (* taken up after the logger was closed *)
}.
Definition emitter_init (h : Handler) : Emitter :=
  MkEmitter queue_init h true [] [] [] [] [] [] [] [].

Section emitter.
Context (c : SiemConfig) (send_timeout : Z).

(** The threads of the pool. *)
Definition max_workers : nat := match sink c with hec => 2 | _ => 1 end.

(** [_to_syslog] where the logger is gone already: it returns. *)
Definition turn_away (e : string) (s : Emitter) : Emitter :=
  MkEmitter (queue s) (handler s) (logger_open s) (pending s) (running s) (delivered s) (lost s)
    (dropped s) (cancelled s) (refused s ++ [e]) (unsent s).
(** [_to_syslog] and [_to_hec]: [_submit_bounded]. *)
Definition submit (e : string) (s : Emitter) : Emitter :=
  let q := submit_bounded c (queue s) in
  if negb (pool_open (queue s)) then
    turn_away e s
  else if hec_queue_max c <=? sink_inflight (queue s) then
    MkEmitter q (handler s) (logger_open s) (pending s) (running s) (delivered s) (lost s)
      (dropped s ++ [e]) (cancelled s) (refused s) (unsent s)
  else
    MkEmitter q (handler s) (logger_open s) (pending s ++ [e]) (running s) (delivered s) (lost s)
      (dropped s) (cancelled s) (refused s) (unsent s).

Definition to_syslog (e : string) (s : Emitter) : Emitter :=
  if logger_open s then submit e s else turn_away e s.

(** A worker has done with [e]: what is left in hand is [rest]. *)
Definition syslog_done (net : Network) (sending : Sending) (e : string) (rest : list string)
    (s : Emitter) : Emitter :=
  if logger_open s then
    let '(h, q) := syslog_send net send_timeout sending e (handler s, queue s) in
    let sent := match (emit net send_timeout sending e (handler s)).1 with
                | inr _ => true | inl _ => false end in
    MkEmitter q h (logger_open s) (pending s) rest
      (delivered s ++ if sent then [e] else []) (lost s ++ if sent then [] else [e])
      (dropped s) (cancelled s) (refused s) (unsent s)
  else
    MkEmitter (send_finished (record_offbox_result None (queue s))) (handler s) (logger_open s)
      (pending s) rest (delivered s) (lost s) (dropped s) (cancelled s) (refused s) (unsent s ++ [e]).
Definition hec_done (answer : string + Z) (e : string) (rest : list string) (s : Emitter) : Emitter :=
  MkEmitter (hec_post answer (queue s)) (handler s) (logger_open s) (pending s) rest
    (delivered s ++ if hec_accepted answer then [e] else [])
    (lost s ++ if hec_accepted answer then [] else [e])
    (dropped s) (cancelled s) (refused s) (unsent s).

(** The two halves of [close]: the handlers, and the pool. *)
Definition close_logger (s : Emitter) : Emitter :=
  let h := handler s in
  let n := match handler_socket h with
           | Some sock => close_socket (sock_id sock) (net_state h)
           | None => net_state h
           end in
  MkEmitter (queue s) (MkHandler None n (wire h)) false (pending s) (running s) (delivered s) (lost s)
    (dropped s) (cancelled s) (refused s) (unsent s).
Definition close_pool (s : Emitter) : Emitter :=
  MkEmitter (close_queue (queue s)) (handler s) (logger_open s) [] (running s) (delivered s) (lost s)
    (dropped s) (cancelled s ++ pending s) (refused s) (unsent s).

(** Request threads hand events over (the label), workers take them up and
    finish them, and the emitter may be closed, in any order.  A thread may have
    looked at the logger before it was closed. *)
Inductive step : option string → Emitter → Emitter → Prop :=
  | step_submit e s : step (Some e) s (submit e s)
  | step_turn_away e s :
      sink c = syslog → logger_open s = false → step (Some e) s (turn_away e s)
  | step_take e rest s :
      pending s = e :: rest → (length (running s) < max_workers)%nat →
      step None s
        (MkEmitter (queue s) (handler s) (logger_open s) rest (running s ++ [e]) (delivered s)
           (lost s) (dropped s) (cancelled s) (refused s) (unsent s))
  | step_syslog net sending l1 e l2 s :
      sink c = syslog → running s = l1 ++ e :: l2 →
      step None s (syslog_done net sending e (l1 ++ l2) s)
  | step_hec answer l1 e l2 s :
      sink c = hec → running s = l1 ++ e :: l2 → step None s (hec_done answer e (l1 ++ l2) s)
  | step_close_logger s : step None s (close_logger s)
  | step_close_pool s : logger_open s = false → step None s (close_pool s).

(** The states after the events [es] have been handed over. *)
Inductive history : list string → Emitter → Prop :=
  | history_init h : wire h = [] → history [] (emitter_init h)
  | history_step es l s s' : history es s → step l s s' → history (es ++ option_list l) s'.

(** [export]: an event with its additions, as a line of the mirror or as the
    text that is handed to the sink's workers.  [dumps] is [json.dumps] with
    the keys sorted. *)
Definition export (enabled : bool) (instance : string) (dumps : dict → string) (event : dict)
    (me : Mirror * Emitter) : Mirror * Emitter :=
  if negb enabled then me
  else
    let text := dumps (wrap_event instance event) in
    match sink c with
    | jsonl => (to_jsonl c (text +:+ String (ascii_of_nat 10) EmptyString)%string me.1, me.2)
    | syslog => (me.1, to_syslog text me.2)
    | hec => (me.1, submit text me.2)
    end.
(** An event of an enabled sink that leaves the host is a step of the emitter,
    and the mirror is left alone. *)
Lemma export_step instance dumps event m s :
  sink c ≠ jsonl →
  step (Some (dumps (wrap_event instance event))) s (export true instance dumps event (m, s)).2
  ∧ (export true instance dumps event (m, s)).1 = m.
Proof.
  unfold export, to_syslog. cbn [negb fst snd]. intros Hsink.
  destruct (sink c) eqn:Hc; [done| |by split; [constructor|]].
  split; [|done]. destruct (logger_open s) eqn:Hlog; by constructor.
Qed.
End emitter.

(** ** Nothing waits past its deadline, and no socket is left open *)

(** Time does not run backwards, and what connecting raises is an [OSError]. *)
Definition attempt_ok (a : Attempt) : Prop :=
  match a with
  | NoSocket exc => is_os_error exc = true
  | Connects after => 0 ≤ after
  | Refuses after exc => 0 ≤ after ∧ is_os_error exc = true
  end.
Definition network_ok (net : Network) : Prop :=
  0 ≤ resolve_after (resolver net) ∧ ∀ sa, attempt_ok (peer net sa).

Definition owned (s : option Sock) : gset nat := from_option (λ s, {[sock_id s]}) ∅ s.
Definition handler_ok (send_timeout : Z) (h : Handler) : Prop :=
  ∀ s, handler_socket h = Some s →
    sock_timeout s = Some send_timeout ∧ sock_id s ∈ open_sockets (net_state h).

Lemma getaddrinfo_within_spec net deadline n r n' :
  network_ok net → getaddrinfo_within net deadline n = (r, n') →
  now n ≤ now n' ≤ Z.max (now n) deadline ∧ open_sockets n' = open_sockets n
  ∧ (∀ infos, r = Ok infos → resolved (resolver net) = inr infos).
Proof.
  intros [Htime _]. unfold getaddrinfo_within.
  destruct (Z.leb_spec (deadline - now n) 0) as [|Hrem].
  { intros [= <- <-]. split_and!; [lia..|done|done]. }
  destruct (Z.ltb_spec (deadline - now n) (resolve_after (resolver net))).
  { intros [= <- <-]. simpl. split_and!; [lia..|done|done]. }
  destruct (resolved (resolver net)) as [exc|[|sa infos]]; intros [= <- <-]; simpl;
    (split_and!; [lia..|done|by intros ? [=]; simplify_eq]).
Qed.

Lemma connect_first_spec net deadline infos err n r n' :
  network_ok net → connect_first net deadline infos err n = (r, n') →
  now n ≤ now n' ≤ Z.max (now n) deadline
  ∧ match r with
    | inr s => sock_address s ∈ infos ∧ (∃ d, peer net (sock_address s) = Connects d)
               ∧ sock_id s ∈ open_sockets n'
               ∧ open_sockets n' ⊆ {[sock_id s]} ∪ open_sockets n
    | inl _ => open_sockets n' ⊆ open_sockets n
    end.
Proof.
  intros Hnet. destruct Hnet as [_ Hpeers]. revert err n.
  induction infos as [|sa infos IH]; intros err n; cbn [connect_first].
  { intros [= <- <-]. split; [lia|done]. }
  destruct (Z.leb_spec (deadline - now n) 0) as [|Hrem].
  { intros [= <- <-]. split; [lia|done]. }
  assert (∀ exc m, now n ≤ now m ≤ Z.max (now n) deadline → open_sockets m ⊆ open_sockets n →
    connect_first net deadline infos exc m = (r, n') →
    now n ≤ now n' ≤ Z.max (now n) deadline
    ∧ match r with
      | inr s => sock_address s ∈ sa :: infos ∧ (∃ d, peer net (sock_address s) = Connects d)
                 ∧ sock_id s ∈ open_sockets n' ∧ open_sockets n' ⊆ {[sock_id s]} ∪ open_sockets n
      | inl _ => open_sockets n' ⊆ open_sockets n
      end) as Hnext.
  { intros exc m Hnow Hopen Hrun. destruct (IH exc m Hrun) as [Hnow' Hr]. split; [lia|].
    destruct r as [e|s]; [set_solver|]. destruct Hr as (Hin & Hconn & Hid & Hsub).
    split_and!; [by right|done|done|set_solver]. }
  pose proof (Hpeers sa) as Hok. destruct (peer net sa) as [exc|after|after exc] eqn:Hpeer; simpl in Hok.
  - rewrite Hok. intros Hrun. eapply Hnext; [|reflexivity|exact Hrun]. lia.
  - cbn [connect_within]. destruct (Z.ltb_spec (deadline - now n) after); simpl.
    + intros Hrun. eapply Hnext; [| |exact Hrun]; simpl; [lia|set_solver].
    + intros [= <- <-]. simpl. split; [lia|]. split_and!; [by left|by eexists|set_solver|set_solver].
  - destruct Hok as [Hafter Hos]. cbn [connect_within].
    destruct (Z.ltb_spec (deadline - now n) after); simpl; [|rewrite Hos]; intros Hrun;
      (eapply Hnext; [| |exact Hrun]; simpl; [lia|set_solver]).
Qed.

Lemma create_stream_spec net t n r n' :
  network_ok net → 0 ≤ t → create_stream_socket_within net t n = (r, n') →
  now n ≤ now n' ≤ now n + t
  ∧ match r with
    | inr s => sock_timeout s = Some t ∧ sock_id s ∈ open_sockets n'
               ∧ open_sockets n' ⊆ {[sock_id s]} ∪ open_sockets n
               ∧ (∃ infos, resolved (resolver net) = inr infos ∧ sock_address s ∈ infos)
               ∧ ∃ d, peer net (sock_address s) = Connects d
    | inl _ => open_sockets n' ⊆ open_sockets n
    end.
Proof.
  intros Hnet Ht. unfold create_stream_socket_within.
  destruct (getaddrinfo_within _ _ _) as [[exc|infos] m] eqn:Hget.
  - apply getaddrinfo_within_spec in Hget as (Hnow & Hopen & _); [|done].
    intros [= <- <-]. rewrite Hopen. split; [lia|done].
  - apply getaddrinfo_within_spec in Hget as (Hnow & Hopen & Hres); [|done].
    destruct (connect_first _ _ _ _ _) as [[exc|s] m'] eqn:Hconn;
      apply connect_first_spec in Hconn as [Hnow' Hs]; try done;
      intros [= <- <-]; rewrite Hopen in Hs; (split; [lia|]); [done|].
    destruct Hs as (Hin & Hpeer & Hid & Hsub). simpl. split_and!; [done..| |done]. eauto.
Qed.

Lemma ready_socket_spec net t h r h' :
  network_ok net → 0 ≤ t → handler_ok t h → ready_socket net t h = (r, h') →
  now (net_state h) ≤ now (net_state h') ≤ now (net_state h) + (if handler_socket h then 0 else t)
  ∧ wire h' = wire h
  ∧ open_sockets (net_state h') ∖ owned (handler_socket h')
      ⊆ open_sockets (net_state h) ∖ owned (handler_socket h)
  ∧ match r with
    | inr s => handler_socket h' = Some s ∧ sock_timeout s = Some t
               ∧ sock_id s ∈ open_sockets (net_state h')
    | inl _ => handler_socket h = None ∧ handler_socket h' = None
    end.
Proof.
  intros Hnet Ht Hh. unfold ready_socket. destruct (handler_socket h) as [s|] eqn:Hs.
  { intros [= <- <-]. rewrite Hs. destruct (Hh s Hs). split_and!; (lia || done). }
  destruct (create_stream_socket_within _ _ _) as [[exc|s] n] eqn:Hrun;
    apply create_stream_spec in Hrun as [Hnow Hspec]; try done; intros [= <- <-]; simpl.
  - split_and!; [lia..|done|set_solver|done|done].
  - destruct Hspec as (Htime & Hid & Hsub & _). split_and!; (lia || done || set_solver).
Qed.
Lemma send_over_spec t sending msg s h r h' :
  0 ≤ t → 0 ≤ send_after sending → handler_socket h = Some s → sock_timeout s = Some t →
  sock_id s ∈ open_sockets (net_state h) → send_over sending msg s h = (r, h') →
  now (net_state h) ≤ now (net_state h') ≤ now (net_state h) + t
  ∧ handler_ok t h'
  ∧ (close_raises sending = false →
     open_sockets (net_state h') ∖ owned (handler_socket h')
       ⊆ open_sockets (net_state h) ∖ owned (handler_socket h))
  ∧ match r with
    | inr _ => wire h' = wire h ++ [msg] ∧ send_error sending = None ∧ send_after sending ≤ t
               ∧ is_Some (handler_socket h')
    | inl _ => wire h' = wire h ∧ handler_socket h' = None
    end.
Proof.
  intros Ht Hafter Hs Htime Hid. unfold send_over. rewrite Htime, Hs.
  unfold handle_error. cbn [handler_socket net_state wire from_option id].
  destruct (Z.ltb_spec t (send_after sending)) as [|Hle].
  { intros [= <- <-]. destruct (close_raises sending); simpl;
      (split_and!; [lia..|done|set_solver|done|done]). }
  destruct (send_error sending) as [exc|]; intros [= <- <-].
  - destruct (close_raises sending); simpl; (split_and!; [lia..|done|set_solver|done|done]).
  - simpl. split_and!; try (lia || done). by intros s' [= <-].
Qed.

(** C33 Handing one event to a syslog collector over TCP takes no longer than
    the configured timeout, or twice that where a connection had to be made
    first, however many addresses the collector has and whatever the resolver
    and the peers do.  The call returns exactly when the whole event was
    written; when it raises, nothing counts as sent and the dead connection is
    gone, so that the next event connects anew.  No socket but the handler's
    own is left open, and that one has the timeout. *)
Theorem emit_within_deadline net t sending msg h r h'
    (Hnet : network_ok net) (Ht : 0 ≤ t) (Hsend : 0 ≤ send_after sending)
    (Hh : handler_ok t h) (Hemit : emit net t sending msg h = (r, h')) :
  now (net_state h) ≤ now (net_state h')
  ∧ now (net_state h') ≤ now (net_state h) + (if handler_socket h then t else 2 * t)
  ∧ handler_ok t h'
  ∧ (close_raises sending = false →
     open_sockets (net_state h') ∖ owned (handler_socket h')
       ⊆ open_sockets (net_state h) ∖ owned (handler_socket h))
  ∧ match r with
    | inr _ => wire h' = wire h ++ [msg] ∧ send_error sending = None ∧ send_after sending ≤ t
               ∧ is_Some (handler_socket h')
    | inl _ => wire h' = wire h ∧ handler_socket h' = None
    end.
Proof.
  unfold emit in Hemit. destruct (ready_socket net t h) as [[exc|s] h1] eqn:Hready.
  - apply ready_socket_spec in Hready as (Hnow & Hw & Hopen & Hs & Hs1); [|done..].
    rewrite Hs, Hs1 in *. unfold handle_error in Hemit. rewrite Hs1 in Hemit.
    injection Hemit as <- <-. simpl. split_and!; (lia || done).
  - apply ready_socket_spec in Hready as (Hnow & Hw & Hopen & Hs & Htime & Hid); [|done..].
    apply (send_over_spec t) in Hemit as (Hnow' & Hok & Hopen' & Hr); [|done..].
    rewrite Hw in Hr. split_and!; [lia| |done| |done].
    + destruct (handler_socket h); lia.
    + intros Hclose. etrans; [by apply Hopen'|done].
Qed.

(** ** What the counters say *)

Section accounting.
Context (c : SiemConfig) (send_timeout : Z).

Record accounted (es : list string) (s : Emitter) : Prop := {
  acc_events : es ≡ₚ delivered s ++ lost s ++ unsent s ++ running s ++ pending s
                     ++ dropped s ++ cancelled s ++ refused s;
  acc_inflight : sink_inflight (queue s)
                 = Z.of_nat (length (running s) + length (pending s) + length (cancelled s));
  acc_bound : sink_inflight (queue s) ≤ Z.max 0 (hec_queue_max c);
  acc_dropped : sink_dropped (queue s) = Z.of_nat (length (dropped s));
  acc_delivered : offbox_delivered (queue s) = Z.of_nat (length (delivered s) + length (unsent s));
  acc_unsent : logger_open s = true → unsent s = [];
  acc_cancelled : pool_open (queue s) = true → cancelled s = [];
  acc_refused : logger_open s = true → refused s = [];
  acc_close : logger_open s = true → pool_open (queue s) = true;
  acc_closed : pool_open (queue s) = false → pending s = [];
  acc_workers : (length (running s) ≤ max_workers c)%nat;
  acc_wire : sink c = syslog → wire (handler s) = delivered s;
  acc_order : sink c = syslog → delivered s ++ running s ++ pending s `sublist_of` es;
}.

Lemma turn_away_accounted es e s :
  logger_open s = false → accounted es s → accounted (es ++ [e]) (turn_away e s).
Proof.
  intros Hlog []. split; simpl; try done.
  - rewrite acc_events0. solve_Permutation.
  - by rewrite Hlog.
  - intros. by apply sublist_inserts_r, acc_order0.
Qed.
Lemma submit_accounted es e s : accounted es s → accounted (es ++ [e]) (submit c e s).
Proof.
  intros Hacc. unfold submit, submit_bounded.
  destruct (pool_open (queue s)) eqn:Hpool; cbn [negb]; [destruct Hacc; rewrite Hpool in *|].
  - destruct (Z.leb_spec (hec_queue_max c) (sink_inflight (queue s))).
    + split; simpl; try done; [rewrite acc_events0; solve_Permutation|rewrite length_app; simpl; lia|].
      intros. by apply sublist_inserts_r, acc_order0.
    + split; simpl; try done; try lia.
      * rewrite acc_events0. solve_Permutation.
      * rewrite length_app. simpl. lia.
      * intros. rewrite !app_assoc. apply sublist_app; [|done]. rewrite <- app_assoc. by apply acc_order0.
  - apply turn_away_accounted; [|done]. destruct (logger_open s) eqn:Hlog; [|done].
    apply (acc_close _ _ Hacc) in Hlog. congruence.
Qed.

(** One worker has one event in hand. *)
Lemma one_in_hand es s l1 e l2 :
  accounted es s → sink c = syslog → running s = l1 ++ e :: l2 → l1 = [] ∧ l2 = [].
Proof.
  intros Hacc Hsink Hrun. pose proof (acc_workers _ _ Hacc) as Hlen. unfold max_workers in Hlen.
  rewrite Hsink, Hrun, length_app in Hlen. simpl in Hlen.
  by destruct l1, l2; simpl in Hlen; try lia.
Qed.
Lemma emit_wire net sending msg h :
  wire (emit net send_timeout sending msg h).2
  = wire h ++ match (emit net send_timeout sending msg h).1 with inr _ => [msg] | inl _ => [] end.
Proof.
  assert (∀ s h, wire (send_over sending msg s h).2
                 = wire h ++ match (send_over sending msg s h).1 with inr _ => [msg] | inl _ => [] end)
    as Hsend.
  { intros s h'. unfold send_over, handle_error. repeat case_match; simpl; by rewrite ?app_nil_r. }
  unfold emit, ready_socket, handle_error. destruct (handler_socket h); [apply Hsend|].
  destruct (create_stream_socket_within _ _ _) as [[exc|s] n]; [simpl; by rewrite app_nil_r|].
  apply (Hsend s (MkHandler (Some s) n (wire h))).
Qed.

Lemma syslog_done_accounted net sending es e l1 l2 s :
  sink c = syslog → running s = l1 ++ e :: l2 → accounted es s →
  accounted es (syslog_done send_timeout net sending e (l1 ++ l2) s).
Proof.
  intros Hsink Hrun Hacc. destruct (one_in_hand _ _ _ _ _ Hacc Hsink Hrun) as [-> ->].
  destruct Hacc. simpl in Hrun. rewrite Hrun in *. unfold syslog_done.
  destruct (logger_open s) eqn:Hlog.
  - unfold syslog_send. cbn [fst snd]. pose proof (emit_wire net sending e (handler s)) as Hwire.
    destruct (emit net send_timeout sending e (handler s)) as [[exc|[]] h]; simpl in *;
      (split; simpl; rewrite ?app_nil_r; try done; try lia).
    + rewrite acc_events0. solve_Permutation.
    + intros. by rewrite Hwire, app_nil_r, acc_wire0.
    + intros. etrans; [|by apply acc_order0]. apply sublist_app; [done|]. by constructor.
    + rewrite acc_events0. solve_Permutation.
    + rewrite length_app. simpl. lia.
    + intros. by rewrite Hwire, acc_wire0.
    + intros. rewrite <- app_assoc. by apply acc_order0.
  - split; simpl in *; rewrite ?length_app; simpl; try done; try lia.
    + rewrite acc_events0. solve_Permutation.
    + intros. etrans; [|by apply acc_order0]. apply sublist_app; [done|]. by constructor.
Qed.
Lemma hec_done_accounted answer es e l1 l2 s :
  sink c = hec → running s = l1 ++ e :: l2 → accounted es s →
  accounted es (hec_done answer e (l1 ++ l2) s).
Proof.
  intros Hsink Hrun []. rewrite Hrun in *. rewrite length_app in *. simpl in *.
  unfold hec_done, hec_post, hec_post_inner, hec_accepted.
  destruct answer as [error|status]; [|destruct (is_2xx status)]; cbn [snd];
    (split; simpl; rewrite ?app_nil_r, ?length_app; try done; try congruence; try (simpl; lia));
    rewrite acc_events0; solve_Permutation.
Qed.
Lemma close_accounted es s :
  accounted es s → accounted es (close_logger s)
  ∧ (logger_open s = false → accounted es (close_pool s)).
Proof.
  intros []. split; [|intros Hlog]; (split; simpl; try done).
  - rewrite acc_events0. solve_Permutation.
  - rewrite length_app. lia.
  - by rewrite Hlog.
  - intros. etrans; [|by apply acc_order0]. rewrite app_nil_r. by apply sublist_app, sublist_inserts_r.
Qed.
Lemma take_accounted es e rest s :
  pending s = e :: rest → (length (running s) < max_workers c)%nat → accounted es s →
  accounted es (MkEmitter (queue s) (handler s) (logger_open s) rest (running s ++ [e]) (delivered s)
                  (lost s) (dropped s) (cancelled s) (refused s) (unsent s)).
Proof.
  intros Hpend Hlen []. rewrite Hpend in *. split; simpl; rewrite ?length_app; simpl in *; try done; try lia.
  - rewrite acc_events0. solve_Permutation.
  - intros Hpool. by specialize (acc_closed0 Hpool).
  - intros. rewrite <- app_assoc. by apply acc_order0.
Qed.

End accounting.

(** ** A collector with two addresses *)

(** The first refuses after two ticks, the second takes the connection after
    three. *)
Definition demo_network : Network :=
  {| resolver := {| resolve_after := 1; resolved := inr ["10.0.0.1"; "10.0.0.2"]%string |};
     peer := λ sa, if bool_decide (sa = "10.0.0.1"%string) then Refuses 2 (OSError "refused")
                   else Connects 3 |}.
Definition demo_sending : Sending := {| send_error := None; send_after := 1; close_raises := false |}.
Definition idle : Handler := MkHandler None (MkNet 100 ∅ 5) [].
Definition demo_config : SiemConfig :=
  {| sink := syslog; jsonl_path := None; syslog_host := "collector"; syslog_proto := tcp;
     hec_url := ""; hec_token := ""; jsonl_max_mib := 0; jsonl_keep := 0; hec_queue_max := 1 |}.

Example emit_ex :
  ((emit demo_network 10 demo_sending "event" idle).1,
   now (net_state (emit demo_network 10 demo_sending "event" idle).2),
   (emit demo_network 5 demo_sending "event" idle).1,
   now (net_state (emit demo_network 5 demo_sending "event" idle).2))
  = (Ok tt, 107, Raise TimedOut, 105).
Proof. by vm_compute. Qed.
Lemma emit_within_deadline_witness :
  ∃ h', emit demo_network 10 demo_sending "event" idle = (Ok tt, h')
  ∧ now (net_state h') ≤ now (net_state idle) + 2 * 10 ∧ handler_ok 10 h'
  ∧ open_sockets (net_state h') ∖ owned (handler_socket h') ⊆ ∅ ∧ wire h' = ["event"]%string.
Proof.
  eexists. split; [by vm_compute|].
  edestruct (emit_within_deadline demo_network 10 demo_sending "event" idle (Ok tt))
    as (_ & Hnow & Hok & Hopen & Hwire & _); [| | | |by vm_compute|].
  - split; [done|]. intros sa. cbn. by case_bool_decide.
  - lia.
  - done.
  - done.
  - split_and!; [exact Hnow|exact Hok| |exact Hwire].
    etrans; [by apply Hopen|]. simpl. set_solver.
Defined.

(** One event is sent, one is in the queue when the sink is closed, one finds no
    room. *)
Definition demo_emitter : Emitter :=
  syslog_done 10 demo_network demo_sending "a" []
    (MkEmitter (queue (submit demo_config "a" (emitter_init idle))) idle true [] ["a"%string]
       [] [] [] [] [] []).
Lemma demo_history : history demo_config 10 ["a"]%string demo_emitter.
Proof.
  assert (history demo_config 10 ["a"%string] (submit demo_config "a" (emitter_init idle))) as H1.
  { apply (history_step _ _ [] (Some "a"%string) (emitter_init idle)); [by apply history_init|constructor]. }
  eapply (history_step _ _ _ None) in H1; [|by eapply (step_take _ _ "a" []); [reflexivity|cbv; lia]].
  eapply (history_step _ _ _ None) in H1;
    [|by apply (step_syslog _ _ demo_network demo_sending [] "a" [])]. exact H1.
Qed.

(** An event that a worker takes up after the logger was closed is counted as
    delivered, although nothing was sent. *)
Example unsent_counts :
  let s := syslog_done 10 demo_network demo_sending "a" []
             (close_logger (MkEmitter (queue (submit demo_config "a" (emitter_init idle))) idle true []
                              ["a"%string] [] [] [] [] [] [])) in
  offbox_delivered (queue s) = 1 ∧ wire (handler s) = [].
Proof. by vm_compute. Qed.
