(* ===== verification/CrlFetch.v ===== *)
(** * Fetching a CRL: the transfer of [fetch_crl_evidence] in
    [src/acme_adcs_ra/crl_evidence.py]

    The network is [Cdp]: what the resolver answers, and what each attempt to
    send a request to an address meets.  Deadlines are part of it: each point
    at which the code looks at the watchdog's flag or at the clock is a
    boolean of the environment.  The code's own part is which requests are
    sent, to which addresses, and what becomes of the answers. *)

From S2P Require Import Prelude PyStr Exn Json X509 StoreAudit Url IssuerRecovery.
From S2P Require Import CrlEvidence.
From stdpp Require Import pretty.
Local Open Scope Z_scope.
Local Open Scope res_scope.

(** ** The network *)

(** An exception of the transfer: whether it is a [RequestException], its
    text, and whether [_past_deadline] holds when it is caught. *)
Record TransferError := {
  is_request_exception : bool;
  error_text : string;
  past_deadline : bool;
}.
(** One turn of the read loop. *)
Inductive Read :=
  | Flagged                                              (* the loop's test fails *)
  | ReadFails (e : TransferError)
  | Chunk (octets : list Z) (deadline_passed : bool).
Record Answer := {
  flagged_on_entry : bool;
  status : Z;
  location : option string;
  status_error : TransferError;                          (* of [raise_for_status] *)
  reads : list Read;                                     (* then the end of the body *)
  flagged_at_end : bool;
}.
Inductive Attempt :=
  | TooLate                                              (* before the request is sent *)
  | SendFails (e : TransferError)
  | Answers (a : Answer).
Record Hop := {
  hop_expired : bool;
  attempt : string → Attempt;                            (* by address *)
  vet_past_deadline : bool;
}.
Class Cdp := {
  getaddrinfo : string → option Z → option (list string);
  hop : nat → string → Hop;                              (* by turn and URL *)
}.

(** [CrlOptions]: the keyword arguments of [fetch_crl_evidence]. *)
Record CrlOptions := {
  total_timeout_text : string;
  max_bytes : Z;
  max_age_seconds : Z;
  follow_redirects : bool;
  enforce_monotonic : bool;
}.

Definition MAX_CRL_REDIRECTS : nat := 4.

(** [_DEFAULT_PORTS] *)
Definition default_port (scheme : string) : option Z :=
  if bool_decide (scheme = "http"%string) then Some 80
  else if bool_decide (scheme = "https"%string) then Some 443 else None.

(** [_effective_port] *)
Definition effective_port (parsed : ParseResult) : Res Exn (option Z) :=
  port ←? port parsed;
  Ok (match port with Some port => Some port | None => default_port (scheme parsed) end).

(** [tuple(dict.fromkeys(l))] *)
Definition fromkeys (l : list string) : list string :=
  fold_left (λ seen s, if bool_decide (s ∈ seen) then seen else seen ++ [s]) l [].

Definition is_http (scheme : string) : bool :=
  bool_decide (scheme = "http"%string) || bool_decide (scheme = "https"%string).

Section fetch.
Context `{NetlocCheck, Cdp}.

(** [_resolve_addresses] *)
Definition resolve_addresses (host : string) (port : option Z) : list string :=
  match getaddrinfo host port with Some infos => fromkeys infos | None => [] end.

(** [_vet_redirect]: the URL to follow, or why not. *)
Definition vet_redirect (location current_url : string) (origin : ParseResult) :
    Res Exn (string + string) :=
  target ←? urljoin current_url location;
  parsed ←? urlparse target;
  match hostname parsed with
  | Some host =>
    if negb (is_http (scheme parsed))
    then Ok (inr ("target is not an http(s) URL with a host: " +:+ py_repr target))%string
    else
      let origin_host := lower (default EmptyString (hostname origin)) in
      if negb (bool_decide (lower host = origin_host)) then
        Ok (inr ("target leaves the configured CRL host (" +:+ py_repr origin_host +:+ " -> "
                 +:+ py_repr (lower host) +:+ ")"))%string
      else if bool_decide (scheme origin = "https"%string)
              && bool_decide (scheme parsed = "http"%string)
      then Ok (inr "target downgrades https to http"%string)
      else
        origin_port ←? effective_port origin;
        let upgrade := bool_decide (scheme origin = "http"%string)
                       && bool_decide (scheme parsed = "https"%string)
                       && bool_decide (origin_port = default_port "http") in
        let allowed_ports :=
          origin_port :: if upgrade then [default_port "https"] else [] in
        port ←? effective_port parsed;
        if bool_decide (port ∉ allowed_ports) then
          let text p := match p with Some n => pretty n | None => "None"%string end in
          Ok (inr ("target changes the port (" +:+ text origin_port +:+ " -> " +:+ text port
                   +:+ "); same host, different service"))%string
        else Ok (inl target)
  | None => Ok (inr ("target is not an http(s) URL with a host: " +:+ py_repr target))%string
  end.

(** [_open_pinned_response]: each address in turn.  With the addresses a
    request was sent to. *)
Definition deadline_expired : TransferError :=
  {| is_request_exception := true; error_text := "CRL retrieval deadline expired";
     past_deadline := true |}.
Fixpoint open_pinned (h : Hop) (addresses : list string) (last_error : TransferError) :
    (TransferError + Answer) * list string :=
  match addresses with
  | [] => (inl last_error, [])
  | address :: addresses =>
    match attempt h address with
    | TooLate => (inl deadline_expired, [])
    | SendFails e =>
      let '(r, sent) := open_pinned h addresses e in (r, address :: sent)
    | Answers a => (inr a, [address])
    end
  end.

(** [deadline_evidence] *)
Definition deadline_evidence (text : string) (received : nat) (cause : string) : CrlEvidence :=
  no_evidence ("CRL retrieval exceeded its " +:+ text +:+ "s total deadline after "
               +:+ pretty (Z.of_nat received) +:+ " bytes"
               +:+ if bool_decide (cause = EmptyString) then EmptyString
                   else " (" +:+ cause +:+ ")")%string.

(** The two exception clauses. *)
Definition transfer_failed (text : string) (received : nat) (e : TransferError) : CrlEvidence :=
  if past_deadline e then deadline_evidence text received (error_text e)
  else no_evidence ((if is_request_exception e then "CRL fetch failed: "
                     else "CRL read failed: ") +:+ error_text e)%string.

(** The read loop: the body, or the evidence that there is none. *)
Fixpoint read_document (o : CrlOptions) (rs : list Read) (flagged : bool) (body : list Z) :
    CrlEvidence + list Z :=
  match rs with
  | [] =>
    if flagged then inl (deadline_evidence (total_timeout_text o) (length body) EmptyString)
    else inr body
  | Flagged :: _ => inl (deadline_evidence (total_timeout_text o) (length body) EmptyString)
  | ReadFails e :: _ => inl (transfer_failed (total_timeout_text o) (length body) e)
  | Chunk octets deadline_passed :: rs =>
    if bool_decide (octets = []) then
      if flagged then inl (deadline_evidence (total_timeout_text o) (length body) EmptyString)
      else inr body
    else
      let body := body ++ octets in
      if max_bytes o <? Z.of_nat (length body)
      then inl (no_evidence ("CRL exceeded " +:+ pretty (max_bytes o) +:+ " bytes")%string)
      else if (deadline_passed : bool)
      then inl (deadline_evidence (total_timeout_text o) (length body) EmptyString)
      else read_document o rs flagged body
  end.

(** What an answer leads to: an end, or another URL. *)
Inductive Next :=
  | Stop (r : CrlEvidence + list Z)
  | Follow (url : string).

Definition answered (o : CrlOptions) (h : Hop) (url : string) (origin : ParseResult)
    (a : Answer) : Next :=
  let refused detail := Stop (inl (no_evidence detail)) in
  let code := pretty (status a) in
  if flagged_on_entry a
  then Stop (inl (deadline_evidence (total_timeout_text o) 0 EmptyString))
  else if (300 <=? status a) && (status a <? 400) then
    if negb (follow_redirects o) then
      refused ("CRL fetch returned " +:+ code +:+ " and redirects are disabled. Point "
               +:+ "revocation_confirm_crl_url at the final CRL URL, or set "
               +:+ "revocation_confirm_crl_follow_redirects=true if this CDP must redirect.")%string
    else match location a with
    | None | Some EmptyString =>
      refused ("CRL fetch returned " +:+ code +:+ " with no Location header")%string
    | Some location =>
      match vet_redirect location url origin with
      | inr (inl target) => Follow target
      | inr (inr refusal) => refused ("CRL fetch refused a redirect: " +:+ refusal)%string
      | inl e =>
        Stop (inl (transfer_failed (total_timeout_text o) 0
                     {| is_request_exception := false; error_text := exn_str e;
                        past_deadline := vet_past_deadline h |}))
      end
    end
  else if (400 <=? status a) && (status a <? 600)
  then Stop (inl (transfer_failed (total_timeout_text o) 0 (status_error a)))
  else Stop (read_document o (reads a) (flagged_at_end a) []).

(** The hops: [turns] more of [MAX_CRL_REDIRECTS + 1], with every request
    sent, as URL and address. *)
Fixpoint fetch_hops (o : CrlOptions) (turns : nat) (url : string) (origin : ParseResult)
    (addresses : list string) : (CrlEvidence + list Z) * list (string * string) :=
  match turns with
  | O =>
    (inl (no_evidence ("CRL fetch exceeded " +:+ pretty (Z.of_nat MAX_CRL_REDIRECTS)
                       +:+ " redirects without reaching a document")%string), [])
  | S turns =>
    let h := hop (MAX_CRL_REDIRECTS - turns) url in
    if hop_expired h
    then (inl (deadline_evidence (total_timeout_text o) 0 EmptyString), [])
    else
      let '(opened, sent) := open_pinned h addresses deadline_expired in
      let trace := map (pair url) sent in
      match opened with
      | inl e => (inl (transfer_failed (total_timeout_text o) 0 e), trace)
      | inr a =>
        match answered o h url origin a with
        | Stop r => (r, trace)
        | Follow target =>
          let '(r, more) := fetch_hops o turns target origin addresses in
          (r, trace ++ more)
        end
      end
  end.

(** The transfer of [fetch_crl_evidence]. *)
Definition fetch_document (o : CrlOptions) (crl_url : string) :
    Res Exn ((CrlEvidence + list Z) * list (string * string)) :=
  parsed ←? urlparse crl_url;
  match hostname parsed with
  | Some host =>
    if negb (is_http (scheme parsed))
    then Ok (inl (no_evidence ("CRL URL must be http(s) with a host: " +:+ py_repr crl_url)%string), [])
    else
      port ←? effective_port parsed;
      let pinned_addresses := resolve_addresses host port in
      if bool_decide (pinned_addresses = []) then
        Ok (inl (no_evidence ("CRL host " +:+ py_repr host
                              +:+ " did not resolve to any address")%string), [])
      else Ok (fetch_hops o (S MAX_CRL_REDIRECTS) crl_url parsed pinned_addresses)
  | None =>
    Ok (inl (no_evidence ("CRL URL must be http(s) with a host: " +:+ py_repr crl_url)%string), [])
  end.

Context `{IssuerBackend}.
Context `{CrlBackend}.

(** [fetch_crl_evidence]; [now] is the clock when the document is read. *)
Definition fetch_crl_evidence (o : CrlOptions) (crl_url : string) (serial_number : Z)
    (cert_pem : string) (chain_pem : json) (watermark : option CrlWatermark) (now : Z) :
    Res Exn CrlEvidence :=
  fetched ←? fetch_document o crl_url;
  match fetched.1 with
  | inl evidence => Ok evidence
  | inr body =>
    document_evidence body serial_number cert_pem chain_pem now (max_age_seconds o) watermark
      (enforce_monotonic o)
  end.
End fetch.
