(* ===== verification/CrlGate.v ===== *)
(** * The CRL evidence gate: [CrlEvidenceGate] of
    [src/acme_adcs_ra/crl_evidence.py]

    The gate lives on the event loop: what it does between two awaits is one
    step, and a callback of a future runs in a step of its own, some time after
    the future is done.  A flight is a retrieval on the gate's executor; it is
    numbered in the order of submission. *)

From S2P Require Import Prelude Exn.
From stdpp Require Import pretty.

(** [CrlEvidenceGate]: [_inflight], with every flight ever submitted (its key),
    those that are done, and those whose [_clear] has not run. *)
Record Gate := MkGate {
  max_workers : Z;
  max_pending : Z;
  pool_size : option Z;                                  (* [_executor] *)
  inflight : gmap string nat;
  closed : bool;
  flights : list string;
  settled : gset nat;
  uncleared : gset nat;
}.

(** [CrlEvidenceGate()] *)
Definition gate_init (workers pending : Z) : Gate := MkGate workers pending None ∅ false [] ∅ ∅.

(** [set_limits] *)
Definition set_limits (workers pending : Z) (g : Gate) : Gate :=
  MkGate (match pool_size g with None => workers | Some _ => max_workers g end) pending
    (pool_size g) (inflight g) (closed g) (flights g) (settled g) (uncleared g).

(** [_pool().submit(fn)], and the registration of the flight. *)
Definition submit (key : string) (g : Gate) : Gate :=
  let f := length (flights g) in
  MkGate (max_workers g) (max_pending g) (Some (default (max_workers g) (pool_size g)))
    (<[key := f]> (inflight g)) (closed g) (flights g ++ [key]) (settled g)
    ({[f]} ∪ uncleared g).
Definition set_inflight (m : gmap string nat) (g : Gate) : Gate :=
  MkGate (max_workers g) (max_pending g) (pool_size g) m (closed g) (flights g) (settled g)
    (uncleared g).

(** [run], up to its await: the flight the caller waits for. *)
Definition gate_run (key : string) (g : Gate) : Res Exn nat * Gate :=
  if closed g then (Raise RuntimeError, g)
  else
    let pending := inflight g !! key in
    let '(pending, g) :=
      match pending with
      | Some f =>
        if bool_decide (f ∈ settled g) then (None, set_inflight (delete key (inflight g)) g)
        else (pending, g)
      | None => (None, g)
      end in
    match pending with
    | Some f => (Ok f, g)
    | None =>
      let n := Z.of_nat (size (inflight g)) in
      if (max_pending g <=? n)%Z then
        (Raise (CrlEvidenceGateBusy (pretty n +:+ " CRL evidence retrievals already in progress (limit "
                                     +:+ pretty (max_pending g) +:+ ")")%string), g)
      else (Ok (length (flights g)), submit key g)
    end.

(** A flight is done: it returned, raised or was cancelled. *)
Definition settle (f : nat) (g : Gate) : Gate :=
  MkGate (max_workers g) (max_pending g) (pool_size g) (inflight g) (closed g) (flights g)
    ({[f]} ∪ settled g) (uncleared g).

(** [_clear]: only its own entry. *)
Definition clear (f : nat) (g : Gate) : Gate :=
  let key := default ""%string (flights g !! f) in
  let m := if bool_decide (inflight g !! key = Some f) then delete key (inflight g)
           else inflight g in
  MkGate (max_workers g) (max_pending g) (pool_size g) m (closed g) (flights g) (settled g)
    (uncleared g ∖ {[f]}).

(** [close]: the executor is shut down, and queued flights are cancelled. *)
Definition close (g : Gate) : Gate :=
  MkGate (max_workers g) (max_pending g) None (inflight g) true (flights g) (settled g)
    (uncleared g).

(** [drain].  A turn of the loop runs the callbacks that are due; [newly] are the
    flights that are done in the meantime. *)
Definition DRAIN_MAX_TURNS : nat := 8.
Definition settled_entries (g : Gate) : list nat :=
  filter (λ f, f ∈ settled g) (map_to_list (inflight g)).*2.
Definition run_callbacks (fs : list nat) (g : Gate) : Gate := fold_left (λ g f, clear f g) fs g.
Definition loop_turn (newly : list nat) (g : Gate) : Gate :=
  fold_left (λ g f, settle f g) newly (run_callbacks (elements (settled g ∩ uncleared g)) g).
Fixpoint drain (turns : list (list nat)) (g : Gate) : Gate :=
  match turns with
  | [] => g
  | newly :: turns =>
    if bool_decide (settled_entries g = []) then g else drain turns (loop_turn newly g)
  end.

(** What the loop does next. *)
Inductive gate_step : Gate → Gate → Prop :=
  | step_run key g : gate_step g (gate_run key g).2
  | step_settle f g : (f < length (flights g))%nat → gate_step g (settle f g)
  | step_clear f g : f ∈ settled g → f ∈ uncleared g → gate_step g (clear f g)
  | step_close g : gate_step g (close g).

(** ** What the gate promises *)

(** The key of a flight, and whether it is still going. *)
Definition flight_of (g : Gate) (f : nat) (key : string) : Prop := flights g !! f = Some key.
Definition live (g : Gate) (f : nat) : Prop := (f < length (flights g))%nat ∧ f ∉ settled g.

Record gate_ok (g : Gate) : Prop := {
  ok_entries : ∀ key f, inflight g !! key = Some f → flight_of g f key;
  ok_live : ∀ f key, flight_of g f key → f ∉ settled g → inflight g !! key = Some f;
  ok_size : (Z.of_nat (size (inflight g)) ≤ max_pending g)%Z;
  ok_settled : ∀ f, f ∈ settled g → (f < length (flights g))%nat;
}.

Lemma gate_ok_init workers pending : (0 ≤ pending)%Z → gate_ok (gate_init workers pending).
Proof.
  intros Hp. by split; simpl; intros.
Qed.

Lemma size_delete_le (m : gmap string nat) key : (size (delete key m) ≤ size m)%nat.
Proof. apply map_subseteq_size, delete_subseteq. Qed.

(** An entry that may go: its flight is done. *)
Lemma gate_ok_delete key f g :
  gate_ok g → inflight g !! key = Some f → f ∈ settled g →
  gate_ok (set_inflight (delete key (inflight g)) g).
Proof.
  intros [He Hl Hs Hd] Hf Hset. split; simpl; [| | |done].
  - intros k x Hx. apply lookup_delete_Some in Hx as [_ Hx]. by apply He.
  - intros x k Hx Hns. rewrite lookup_delete_Some. split; [|by apply Hl].
    intros <-. pose proof (Hl _ _ Hx Hns). congruence.
  - pose proof (size_delete_le (inflight g) key). lia.
Qed.

Lemma flight_snoc g key f k :
  flight_of (submit key g) f k ↔ flight_of g f k ∨ (f = length (flights g) ∧ k = key).
Proof.
  unfold flight_of. simpl. destruct (decide (f < length (flights g))%nat) as [Hlt|Hge].
  - rewrite lookup_app_l by done. intuition lia.
  - rewrite (lookup_ge_None_2 (flights g)) by lia. rewrite lookup_app_r by lia.
    destruct (decide (f = length (flights g))) as [->|Hne].
    + rewrite Nat.sub_diag. simpl. naive_solver.
    + rewrite lookup_ge_None_2 by (simpl; lia). naive_solver.
Qed.

Lemma gate_ok_submit key g :
  gate_ok g → inflight g !! key = None → (Z.of_nat (size (inflight g)) < max_pending g)%Z →
  gate_ok (submit key g).
Proof.
  intros [He Hl Hs Hd] Hnone Hlt. split.
  - intros k f. simpl. rewrite flight_snoc. intros [[<- <-]|[_ Hf]]%lookup_insert_Some;
      [by right|left; by apply He].
  - intros f k [Hf|[-> ->]]%flight_snoc Hns; simpl in *.
    + pose proof (Hl _ _ Hf Hns). rewrite lookup_insert_ne; [done|congruence].
    + by rewrite lookup_insert_eq.
  - simpl. rewrite map_size_insert_None by done. lia.
  - simpl. intros f Hf. rewrite length_app. simpl. specialize (Hd f Hf). lia.
Qed.

Lemma gate_ok_run key g : gate_ok g → gate_ok (gate_run key g).2.
Proof.
  intros Hok. unfold gate_run. destruct (closed g); [done|].
  destruct (inflight g !! key) as [f|] eqn:Hf.
  - case_bool_decide as Hset; [|done]. destruct (_ <=? _)%Z eqn:Hle.
    + by eapply gate_ok_delete.
    + apply Z.leb_gt in Hle. apply gate_ok_submit; [|by apply lookup_delete_eq|done].
      by eapply gate_ok_delete.
  - destruct (_ <=? _)%Z eqn:Hle; [done|]. apply Z.leb_gt in Hle. by apply gate_ok_submit.
Qed.

(** A new flight is going on, under its key. *)
Lemma live_submit key g :
  gate_ok g → live (submit key g) (length (flights g)) ∧ flight_of (submit key g) (length (flights g)) key.
Proof.
  intros Hok. split; [|apply flight_snoc; by right]. split; simpl.
  - rewrite length_app. simpl. lia.
  - intros Hs%(ok_settled _ Hok). lia.
Qed.
Lemma gate_run_live key g f g' :
  gate_ok g → gate_run key g = (inr f, g') → live g' f ∧ flight_of g' f key.
Proof.
  intros Hok. unfold gate_run. destruct (closed g); [done|].
  destruct (inflight g !! key) as [x|] eqn:Hx; simpl.
  - case_bool_decide as Hset; simpl.
    + destruct (_ <=? _)%Z; [done|]. intros [= <- <-].
      apply (live_submit key (set_inflight _ g)). by eapply gate_ok_delete.
    + intros [= <- <-]. pose proof (ok_entries _ Hok _ _ Hx) as Hf. split; [split|]; [|done..].
      by eapply lookup_lt_Some.
  - destruct (_ <=? _)%Z; [done|]. intros [= <- <-]. by apply live_submit.
Qed.

Lemma gate_ok_step g g' : gate_ok g → gate_step g g' → gate_ok g'.
Proof.
  intros Hok Hstep. destruct Hstep as [key g|f g Hlt|f g Hset Hun|g].
  - by apply gate_ok_run.
  - destruct Hok as [He Hl Hs Hd]. split; simpl; [done| |done|set_solver].
    intros x k Hx Hns. apply Hl; [done|set_solver].
  - destruct Hok as [He Hl Hs Hd]. unfold clear.
    case_bool_decide as Hk; [|by split].
    apply (gate_ok_delete _ f g) in Hk; [|by split|done]. by destruct Hk.
  - by destruct Hok.
Qed.

Lemma gate_ok_steps g g' : gate_ok g → rtc gate_step g g' → gate_ok g'.
Proof. intros Hok Hr. induction Hr; [done|]. eauto using gate_ok_step. Qed.

(** No more flights are going on than entries are registered. *)
Lemma live_registered g fs :
  gate_ok g → NoDup fs → Forall (live g) fs → (length fs ≤ size (inflight g))%nat.
Proof.
  intros Hok Hnd Hfs. rewrite <- length_map_to_list, <- (length_fmap snd).
  apply submseteq_length, NoDup_submseteq; [done|]. intros f Hf.
  rewrite Forall_forall in Hfs. destruct (Hfs f Hf) as [[key Hk]%lookup_lt_is_Some_2 Hns].
  apply list_elem_of_fmap. exists (key, f). split; [done|].
  apply elem_of_map_to_list. by apply (ok_live _ Hok).
Qed.

(** C19 Single flight and admission.  However the callers, the executor and
    the callbacks interleave: two retrievals that are going on are for
    different keys, so a certificate is fetched for once at a time; at most
    [max_pending] go on; and a caller is only ever given a retrieval of its own
    key that is still going on, never one whose answer is already in. *)
Theorem single_flight workers pending g :
  (0 ≤ pending)%Z → rtc gate_step (gate_init workers pending) g →
  (∀ f f' key, live g f → live g f' → flight_of g f key → flight_of g f' key → f = f')
  ∧ (∀ fs, NoDup fs → Forall (live g) fs → (Z.of_nat (length fs) ≤ max_pending g)%Z)
  ∧ ∀ key f g', gate_run key g = (inr f, g') → live g' f ∧ flight_of g' f key.
Proof.
  intros Hp Hsteps. pose proof (gate_ok_steps _ _ (gate_ok_init workers pending Hp) Hsteps) as Hok.
  split_and!.
  - intros f f' key [_ Hf] [_ Hf'] Hk Hk'.
    pose proof (ok_live _ Hok _ _ Hk Hf). pose proof (ok_live _ Hok _ _ Hk' Hf'). congruence.
  - intros fs Hnd Hfs. pose proof (live_registered _ _ Hok Hnd Hfs). pose proof (ok_size _ Hok). lia.
  - intros key f g'. by apply gate_run_live.
Qed.

(** Two callers for one key, and the first flight's callback running late. *)
Definition demo_gate : Gate :=
  clear 0 (gate_run "a" (settle 0 (gate_run "a" (gate_run "a" (gate_init 2 2)).2).2)).2.
Lemma single_flight_witness :
  flights demo_gate = ["a"; "a"]%string ∧ settled demo_gate = {[0%nat]}
  ∧ live demo_gate 1 ∧ inflight demo_gate !! "a"%string = Some 1%nat.
Proof.
  assert (rtc gate_step (gate_init 2 2) demo_gate) as Hsteps.
  { unfold demo_gate. eapply rtc_l; [apply (step_run "a")|]. eapply rtc_l; [apply (step_run "a")|].
    eapply rtc_l; [apply (step_settle 0); vm_compute; lia|]. eapply rtc_l; [apply (step_run "a")|].
    apply rtc_once, (step_clear 0); vm_compute; set_solver. }
  destruct (single_flight 2 2 demo_gate) as (_ & _ & Hrun); [done|exact Hsteps|].
  destruct (Hrun "a"%string 1%nat demo_gate) as [Hlive _]; [by vm_compute|].
  split; [done|]. split; [set_solver|]. split; [exact Hlive|done].
Defined.

(** ** What [drain] is for *)

(** An entry's callback is still to come. *)
Definition callbacks_due (g : Gate) : Prop :=
  ∀ key f, inflight g !! key = Some f → f ∈ uncleared g ∧ flight_of g f key.

Lemma clear_entry f g key x :
  inflight (clear f g) !! key = Some x →
  inflight g !! key = Some x ∧ (flight_of g x key → x ≠ f).
Proof.
  unfold clear, flight_of. simpl. case_bool_decide as Hf.
  - intros [Hne Hx]%lookup_delete_Some. split; [done|]. intros Hk ->. by rewrite Hk in Hne.
  - intros Hx. split; [done|]. intros Hk ->. by rewrite Hk in Hf.
Qed.
Lemma run_callbacks_entry fs g key x :
  callbacks_due g → inflight (run_callbacks fs g) !! key = Some x →
  inflight g !! key = Some x ∧ x ∉ fs.
Proof.
  intros Hdue. assert (∀ k y, inflight g !! k = Some y → flight_of g y k) as Hkey by apply Hdue.
  clear Hdue. revert g Hkey. induction fs as [|f fs IH]; intros g Hkey Hx; simpl in Hx; [by split; [|apply not_elem_of_nil]|].
  apply IH in Hx as [[Hx Hne]%clear_entry Hnotin].
  - split; [done|]. apply not_elem_of_cons. auto.
  - intros k y [Hy _]%clear_entry. by apply Hkey.
Qed.
Lemma run_callbacks_same fs g :
  flights (run_callbacks fs g) = flights g ∧ settled (run_callbacks fs g) = settled g
  ∧ ∀ x, x ∈ uncleared g → x ∉ fs → x ∈ uncleared (run_callbacks fs g).
Proof.
  revert g. induction fs as [|f fs IH]; intros g; simpl; [done|].
  destruct (IH (clear f g)) as (Hf & Hs & Hu). rewrite Hf, Hs. split_and!; [done..|].
  intros x Hx [Hne Hnotin]%not_elem_of_cons. apply Hu; [simpl; set_solver|done].
Qed.
Lemma settle_all_same fs g :
  inflight (fold_left (λ g f, settle f g) fs g) = inflight g
  ∧ flights (fold_left (λ g f, settle f g) fs g) = flights g
  ∧ uncleared (fold_left (λ g f, settle f g) fs g) = uncleared g.
Proof. revert g. induction fs as [|f fs IH]; intros g; simpl; [done|]. by destruct (IH (settle f g)) as (-> & -> & ->). Qed.

Lemma callbacks_due_step g g' : callbacks_due g → gate_step g g' → callbacks_due g'.
Proof.
  intros Hdue Hstep. assert (∀ k h, callbacks_due h → callbacks_due (submit k h)) as Hsubmit.
  { intros k h Hh key f. simpl. rewrite flight_snoc. intros [[<- <-]|[Hne Hf]]%lookup_insert_Some.
    - split; [set_solver|by right].
    - destruct (Hh _ _ Hf). split; [set_solver|by left]. }
  assert (∀ k h, callbacks_due h → callbacks_due (set_inflight (delete k (inflight h)) h)) as Hdel.
  { intros k h Hh key f. simpl. intros [_ Hf]%lookup_delete_Some. by apply Hh. }
  destruct Hstep as [key g|f g _|f g _ _|g]; try done.
  - unfold gate_run. repeat case_match; simplify_eq/=; auto.
  - intros key x Hx. destruct (run_callbacks_entry [f] g key x Hdue Hx) as [Hin Hne%not_elem_of_cons].
    destruct (Hdue _ _ Hin). split; [simpl; set_solver|done].
Qed.
Lemma callbacks_due_steps g g' : callbacks_due g → rtc gate_step g g' → callbacks_due g'.
Proof. intros Hdue Hr. induction Hr; eauto using callbacks_due_step. Qed.

Lemma loop_turn_due newly g : callbacks_due g → callbacks_due (loop_turn newly g).
Proof.
  intros Hdue key x. unfold loop_turn, flight_of.
  destruct (settle_all_same newly (run_callbacks (elements (settled g ∩ uncleared g)) g)) as (-> & -> & ->).
  destruct (run_callbacks_same (elements (settled g ∩ uncleared g)) g) as (-> & _ & Hu).
  intros [Hx Hnotin]%run_callbacks_entry; [|done]. destruct (Hdue _ _ Hx). auto.
Qed.
Lemma settled_entries_nil g :
  settled_entries g = [] ↔ ∀ key f, inflight g !! key = Some f → f ∉ settled g.
Proof.
  unfold settled_entries. rewrite filter_nil_iff. split.
  - intros Hall key f Hf. apply Hall, list_elem_of_fmap. exists (key, f).
    split; [done|by apply elem_of_map_to_list].
  - intros Hall f Hf. apply list_elem_of_fmap in Hf as ([key ?] & -> & Hf%elem_of_map_to_list).
    by eapply Hall.
Qed.

(** After a drain the gate counts only retrievals that are going on, whenever
    no retrieval is done during its last turn: the lag of the callbacks does
    not cost a caller its place. *)
Theorem drain_counts_live workers pending g turns :
  rtc gate_step (gate_init workers pending) g → last turns = Some [] →
  settled_entries (drain turns g) = [].
Proof.
  intros Hsteps. assert (callbacks_due g) as Hdue.
  { eapply callbacks_due_steps; [|done]. by intros key f. }
  clear Hsteps. revert g Hdue. induction turns as [|newly turns IH]; intros g Hdue Hlast; [done|].
  simpl. case_bool_decide as Hnil; [done|]. destruct turns as [|newly' turns].
  - injection Hlast as ->. simpl. rewrite settled_entries_nil. unfold loop_turn. simpl.
    destruct (run_callbacks_same (elements (settled g ∩ uncleared g)) g) as (_ & -> & _).
    intros key f [Hf Hnotin]%run_callbacks_entry; [|done]. destruct (Hdue _ _ Hf).
    set_solver.
  - apply IH; [by apply loop_turn_due|done].
Qed.
