(* ===== verification/RoutesConfirm.v ===== *)
(** * The CA-side revocation loop: the rest of [src/acme_adcs_ra/routes/admin.py]

    The agent at the CA pulls the pending revocations, revokes them there, and
    confirms each; the server looks for the serial on the CA's list before it
    takes the agent's word.  [gate] runs the retrieval under the evidence gate
    of [CrlGate]; [cdp] is the network, by retrieval. *)

From S2P Require Import Prelude PyStr Time Exn Json Sql Db StoreAudit StoreAccounts StoreOrders.
From S2P Require Import Act World Coalesce X509 CsrCheck StoreCerts Responses Finalize Jws Http.
From S2P Require Import Url RoutesAdmin StoreRecovery IssuerRecovery CrlEvidence CrlFetch.
Local Open Scope Z_scope.

(** The fields of [RAConfig] this half reads. *)
Record ConfirmSettings := {
  revocation_confirm_crl_url : string;
  revocation_confirm_require_crl_evidence : bool;
  crl_options : CrlOptions;
  max_admin_body_size_bytes : Z;
}.
Class ConfirmConfig := confirm_config : ConfirmSettings.

(** A nullable column in a JSON body. *)
Definition json_opt (v : option string) : json :=
  match v with Some s => JStr s | None => JNull end.
(** [v or ""], and [v or w or ""] *)
Definition or_empty (v : option json) : json :=
  if truthy v then default JNull v else JStr EmptyString.
(** [cert.chain_pem]: the row was decoded when it was read. *)
Definition chain_value (c : Cert.t) : json :=
  match load_json (Cert.chain_pem c) with inr v => v | inl _ => JNull end.

(** ** The pending list *)

Definition LEAFLESS_SCAN_LIMIT : Z := 500.
Definition LEAFLESS_RECOVERY_ACTION : string :=
  "the CA issued this certificate but the RA never received its bytes, so there is no store row and no serial. It cannot be revoked by the sync agent: revoke it by ReqID at the CA by hand.".
Definition ISSUER_EVIDENCE_MISSING : string := "issuer-evidence-missing".
Definition ISSUER_EVIDENCE_RECOVERY_ACTION : string :=
  "the RA holds this certificate but not the CA certificate that signed it, so no CRL signature can be verified for it. Recovery runs automatically on the next confirmation attempt, once revocation_confirm_crl_url is set and one of the newest stored chains carries the issuing CA certificate; until then, reconcile it at the CA by ReqID.".

(** One event of the view; [None] when it was quarantined, or does not say. *)
Definition leafless_incident (event : Audit.t) : option json :=
  let details := Audit.details event in
  if negb (bool_decide (dict_get "quarantined" details = Some (JBool false))) then None
  else
    let reason := dict_get "reason" details in
    Some (JObj
      [("req_id", or_empty (dict_get "req_id" details));
       ("order_id", json_opt (Audit.order_id event));
       ("observed_at", JStr (iso (Audit.timestamp event)));
       ("reason", if truthy reason then default JNull reason
                  else or_empty (dict_get "quarantine_error" details));
       ("error", or_empty (dict_get "error" details));
       ("recovery_action", JStr LEAFLESS_RECOVERY_ACTION)]%string).

Section confirm.
Context `{ServerConfig, ConfirmConfig, CertParser, JsonLoads, NetlocCheck, IssuerBackend}.
Context `{CrlBackend}.

Abbreviation acme_raise e := (act_raise (Acme e)).

(** [_leafless_orphan_incidents] *)
Definition leafless_orphan_incidents (limit : Z) : Act World (list json * bool) :=
  events ← db (λ _, list_audit_events None (Some "finalize-enrollment-transport-orphan"%string)
                      LEAFLESS_SCAN_LIMIT);
  let incidents := omap leafless_incident events in
  let truncated := (LEAFLESS_SCAN_LIMIT <=? Z.of_nat (length events))
                   || (limit <? Z.of_nat (length incidents)) in
  mret (take (Z.to_nat limit) incidents, truncated).

(** The entry of a certificate; one without a serial number has none. *)
Definition pending_entry (cert : Cert.t) : option json :=
  match Cert.serial_number cert with
  | None => None
  | Some serial =>
    Some (JObj
      ([("serial", JStr serial);
        ("req_id", default (JStr EmptyString) (dict_get "req_id" (Cert.metadata cert)));
        ("reason", match Cert.revocation_reason cert with Some z => JNum z | None => JNull end);
        ("revoked_at", json_opt (iso <$> Cert.revoked_at cert));
        ("status", JStr (CertStatus.value (Cert.status cert)))]%string
       ++ if truthy (Some (chain_value cert)) then []
          else [("issuer_evidence", JStr "missing");
                ("blocked_reason", JStr ISSUER_EVIDENCE_MISSING);
                ("recovery_action", JStr ISSUER_EVIDENCE_RECOVERY_ACTION)]%string))
  end.

(** [list_pending_revocations] *)
Definition list_pending_revocations (authorization : option string) (limit : Z) :
    Act World Response :=
  act_of_res (require_revocation_authority authorization);;
  if negb ((1 <=? limit) && (limit <=? 500)) then acme_raise malformed
  else
    certs ← db (λ _, list_revoked_certificates limit);
    let pending := omap pending_entry certs in
    leafless ← leafless_orphan_incidents limit;
    (if bool_decide (pending = []) then mret tt
     else audit (event "admin-list-pending-revocations" "success" None None [] None
            [("returned", JNum (Z.of_nat (length pending)));
             ("reason_code", JStr "pending-revocations-listed")]%string));;
    mret (json_response 200
            (JObj [("pending_revocations", JArr pending);
                   ("leafless_incidents", JArr leafless.1);
                   ("leafless_incidents_truncated", JBool leafless.2)]%string) []).

(** ** Evidence *)

(** [_crl_published_from] *)
Definition crl_published_from (raw_body : list Z) : Res Exn bool :=
  if bool_decide (raw_body = []) then Ok false
  else match loads raw_body with
  | inr (JObj body) => Ok (bool_decide (dict_get "crl_published" body = Some (JBool true)))
  | inr _ | inl (JSONDecodeError | UnicodeDecodeError) => Ok false
  | inl e => Raise (loads_exn e)
  end.

(** What the audit trail says of a recovery. *)
Definition recovery_details (cert : Cert.t) (outcome : RecoveryOutcome) : dict :=
  let common := [("certificate_id", JStr (Cert.id cert));
                 ("serial", json_opt (Cert.serial_number cert))]%string in
  let strings l := JArr (map JStr l) in
  if recovered outcome then
    common ++
    [("reason_code", JStr "issuer-evidence-recovered"); ("issuer_source", JStr "stored-chain");
     ("issuer_fingerprints", strings (fingerprints outcome));
     ("issuer_subjects", strings (subjects outcome));
     ("source_certificate_ids", strings (source_certificate_ids outcome));
     ("chains_scanned", JNum (rows_scanned outcome));
     ("candidates_considered", JNum (candidates_considered outcome));
     ("detail", JStr (recovery_detail outcome))]%string
  else
    common ++
    [("reason_code", JStr "issuer-evidence-missing");
     ("detail", JStr (recovery_detail outcome));
     ("chains_scanned", JNum (rows_scanned outcome));
     ("candidates_considered", JNum (candidates_considered outcome));
     ("scan_truncated", JBool (truncated outcome));
     ("recovery_action", JStr ISSUER_EVIDENCE_RECOVERY_ACTION)]%string.

(** [try: x = m except Exception: return ...] *)
Definition attempted {A} (m : Act World A) : Act World (option A) :=
  act_try (x ← m; mret (Some x)) (λ _, mret None).

(** The recovered chain, stored: the row as it is then. *)
Definition attach_recovered (cert : Cert.t) (outcome : RecoveryOutcome) : Act World Cert.t :=
  attached ← attempted (db (λ now, attach_recovered_chain_with_audit now (Cert.id cert)
    (recovered_chain outcome)
    (event "revocation-issuer-evidence-recovered" "success" (Some (Cert.account_id cert))
       (Some (Cert.order_id cert)) [] None (recovery_details cert outcome))));
  match attached with
  | None => mret cert
  | Some (None, _) =>
    fresh ← db (λ _, get_certificate (Cert.id cert)); mret (default cert fresh)
  | Some (Some record, ev) =>
    match ev with Some ev => emit_audit_hook ev | None => mret tt end;;
    mret record
  end.

(** [_recover_issuer_evidence] *)
Definition recover_issuer_evidence (cert : Cert.t) : Act World Cert.t :=
  if truthy (Some (chain_value cert)) then mret cert
  else
    outcome ← attempted
      (chains ← db (λ _, list_certificate_chains (DEFAULT_MAX_ROWS + 1));
       act_of_res (recover_issuer_chain (Cert.cert_pem cert) chains DEFAULT_MAX_ROWS
                     DEFAULT_MAX_CANDIDATES));
    match outcome with
    | None => mret cert
    | Some outcome =>
      if negb (recovered outcome) then
        audit (event "revocation-issuer-evidence-recovery" "failed"
          (Some (Cert.account_id cert)) (Some (Cert.order_id cert)) [] None
          (recovery_details cert outcome));;
        mret cert
      else attach_recovered cert outcome
    end.

(** One [fetch()] of [_crl_evidence_for] *)
Definition fetch (cdp : Cdp) (serial_int : Z) (cert : Cert.t)
    (watermark : option CrlWatermark) : Act World CrlEvidence :=
  now ← act_get w_now;
  act_of_res (fetch_crl_evidence (crl_options confirm_config)
    (revocation_confirm_crl_url confirm_config) serial_int (Cert.cert_pem cert)
    (chain_value cert) watermark (now * 10 ^ 6)).

Definition retrieve (cdp : nat → Cdp) (serial_int : Z) (cert : Cert.t) :
    Act World CrlEvidence :=
  cert ← recover_issuer_evidence cert;
  key ← act_of_res (crl_watermark_key (Cert.cert_pem cert) (chain_value cert));
  watermark ← match key with
              | Some key => db (λ _, read_crl_watermark key)
              | None => mret None
              end;
  evidence ← fetch (cdp 0%nat) serial_int cert watermark;
  if regressed evidence && enforce_monotonic (crl_options confirm_config)
  then fetch (cdp 1%nat) serial_int cert watermark
  else mret evidence.

(** [_crl_evidence_for] *)
Definition crl_evidence_for (cdp : nat → Cdp) (cert : Cert.t) :
    Act World (option CrlEvidence) :=
  if bool_decide (revocation_confirm_crl_url confirm_config = EmptyString) then mret None
  else match py_int16 (default EmptyString (Cert.serial_number cert)) with
  | None =>
    let text := match Cert.serial_number cert with Some s => py_repr s | None => "None"%string end in
    mret (Some (no_evidence ("stored serial is not hexadecimal: " +:+ text)%string))
  | Some serial_int =>
    act_try (evidence ← retrieve cdp serial_int cert; mret (Some evidence))
      (λ exc, mret (Some (no_evidence ("CRL check error: " +:+ exn_str exc)%string)))
  end.

(** ** The confirmation *)

Definition HEX_DIGITS : list ascii := chars "0123456789ABCDEF".

(** Why evidence that is required is not there. *)
Definition denial_reason (evidence : option CrlEvidence) : string * dict :=
  match evidence with
  | Some e =>
    if issuer_missing e then
      ("issuer-evidence-missing", [("recovery_action", JStr ISSUER_EVIDENCE_RECOVERY_ACTION)])
    else if regressed e && negb (checked e) then ("crl-evidence-regressed", [])
    else ("crl-evidence-required-but-absent", [])
  | None => ("crl-evidence-required-but-absent", [])
  end%string.

(** The details of the row that confirms. *)
Definition confirmation_details (serial_upper : string) (cert : Cert.t)
    (evidence : option CrlEvidence) (crl_published : bool) : dict :=
  [("serial", JStr serial_upper); ("certificate_id", JStr (Cert.id cert));
   ("ca_crl_updated", JBool true); ("revocation_scope", JStr "ca-crl");
   ("prior_status", JStr (CertStatus.value (Cert.status cert)));
   ("verification", JStr (from_option verification AGENT_ASSERTED evidence));
   ("crl_published", JBool crl_published)]%string ++
  match evidence with
  | None => []
  | Some e =>
    ("crl_detail"%string, JStr (detail e))
    :: if_truthy "crl_number" (evidence_number e)
    ++ if_truthy "crl_this_update" (isoformat <$> evidence_this_update e)
    ++ if_truthy "crl_watermark_verdict" (verdict_text <$> watermark_verdict e)
  end.

(** The document decided on, as the next floor. *)
Definition watermark_advance (evidence : option CrlEvidence) : option CrlWatermark :=
  match evidence with
  | Some e =>
    match evidence_issuer_key e, evidence_this_update e with
    | Some key, Some this =>
      if checked e && negb (bool_decide (key = EmptyString)) then
        Some {| issuer_key := key; crl_number := evidence_number e; this_update := Some this |}
      else None
    | _, _ => None
    end
  | None => None
  end.

Definition confirmed_response (serial verification : string) (more : dict) : Response :=
  json_response 200
    (JObj ([("serial", JStr serial); ("ca_crl_updated", JBool true);
            ("verification", JStr verification)]%string ++ more)) [].

(** From the evidence on: refuse, or record. *)
Definition confirm_with (serial_upper : string) (cert : Cert.t) (crl_published : bool)
    (evidence : option CrlEvidence) : Act World Response :=
  if revocation_confirm_require_crl_evidence confirm_config
     && negb (from_option revoked false evidence) then
    let why := denial_reason evidence in
    let text := match evidence with Some e => detail e | None => "no CRL configured"%string end in
    audit (event "admin-revocation-confirm-denied" "failed" (Some (Cert.account_id cert))
      (Some (Cert.order_id cert)) [] None
      ([("serial", JStr serial_upper); ("reason", JStr why.1); ("reason_code", JStr why.1);
        ("crl_detail", JStr text)]%string ++ why.2));;
    acme_raise malformed
  else
    let verification := from_option verification AGENT_ASSERTED evidence in
    let url := revocation_confirm_crl_url confirm_config in
    flipped ← db (λ now, confirm_ca_revocation_with_audit now serial_upper
      (event "revocation-ca-confirmed" "success" (Some (Cert.account_id cert))
         (Some (Cert.order_id cert)) [] None
         (confirmation_details serial_upper cert evidence crl_published))
      (watermark_advance evidence)
      (if bool_decide (url = EmptyString) then None else Some url));
    if negb (flipped.1 : bool) then mret (confirmed_response serial_upper verification [])
    else
      match flipped.2 with Some ev => emit_audit_hook ev | None => mret tt end;;
      mret (confirmed_response serial_upper verification
              [("crl_published", JBool crl_published)]%string).

(** [confirm_ca_revocation] *)
Context (gate : string → Act World (option CrlEvidence) → Act World (option CrlEvidence)).
Context (cdp : nat → Cdp).

Definition gathered_evidence (serial_upper : string) (cert : Cert.t) :
    Act World (option CrlEvidence) :=
  act_try (gate (Cert.id cert) (crl_evidence_for cdp cert))
    (λ e, match e with
          | CrlEvidenceGateBusy msg =>
            audit (event "admin-revocation-confirm-deferred" "failed"
              (Some (Cert.account_id cert)) (Some (Cert.order_id cert)) [] None
              [("serial", JStr serial_upper); ("reason", JStr "crl-evidence-capacity");
               ("reason_code", JStr "crl-evidence-capacity"); ("detail", JStr msg)]%string);;
            acme_raise (rate_limited (Some 30))
          | e => act_raise e
          end).

Definition confirm_denied (serial_upper why : string) (more : dict) : Act World unit :=
  audit (event "admin-revocation-confirm-denied" "failed" None None [] None
    ([("serial", JStr serial_upper); ("reason", JStr why); ("reason_code", JStr why)]%string
     ++ more)).

Definition confirm_ca_revocation_route (request : Request) (authorization : option string)
    (serial : string) : Act World Response :=
  act_of_res (require_revocation_confirm_token authorization);;
  raw_body ← act_of_res
    (read_body_limited request (max_admin_body_size_bytes confirm_config) BODY_TOTAL_TIMEOUT);
  crl_published ← act_of_res (crl_published_from raw_body);
  let serial_upper := canonical_serial serial in
  if bool_decide (strip serial = EmptyString) then acme_raise malformed
  else if negb (forallb (λ c, bool_decide (c ∈ HEX_DIGITS)) (chars serial_upper))
  then acme_raise malformed
  else
    cert ← db (λ _, get_certificate_by_serial serial_upper None);
    match cert with
    | None =>
      confirm_denied serial_upper "not-found" [];;
      acme_raise not_found
    | Some cert =>
      if bool_decide (Cert.status cert = CertStatus.VALID) then
        confirm_denied serial_upper "not-revoked"
          [("cert_status", JStr (CertStatus.value (Cert.status cert)))]%string;;
        acme_raise malformed
      else if Cert.ca_crl_updated cert
      then mret (confirmed_response serial_upper AGENT_ASSERTED [])
      else
        evidence ← gathered_evidence serial_upper cert;
        confirm_with serial_upper cert crl_published evidence
    end.
End confirm.
