(* ===== verification/Retention.v ===== *)
(** * Audit retention: [src/acme_adcs_ra/audit_retention.py], and the start-up
    checks of [create_app] in [src/acme_adcs_ra/server.py]

    The floor below which audit rows may not be deleted, the gates in front of
    a sweep, the sweep, the measure of the footprint, and what the server
    checks before it serves. *)

From S2P Require Import Prelude PyStr Time Exn Json Sql Db StoreAudit StoreRecovery Act World Coalesce.
From S2P Require Import X509 Config Siem RoutesNewAccount.
From stdpp Require Import pretty.
Local Open Scope Z_scope.

Definition RETENTION_FLOOR_GRACE_DAYS : Z := 14.

(** [RetentionFloorError] *)
Definition RetentionFloorError : Exn := OtherException "RetentionFloorError".

(** [RetentionDecision]; the cutoff as the instant its text stands for. *)
Record RetentionDecision := {
  may_prune : bool;
  decision_reason : string;
  cutoff : option Z;
  floor_days : option Z;
}.

(** [retention_floor_days] *)
Definition retention_floor_days : Act World (option Z) :=
  summary ← db (λ _, certificate_validity_summary);
  mret (match summary.1 with
        | None => None
        | Some max_validity => Some (max_validity + RETENTION_FLOOR_GRACE_DAYS)
        end).

(** [assert_retention_above_floor] *)
Definition assert_retention_above_floor (c : RAConfig) : Act World unit :=
  if audit_retention_days c <=? 0 then mret tt
  else
    floor ← retention_floor_days;
    match floor with
    | None => mret tt
    | Some floor =>
      if audit_retention_days c <? floor then act_raise RetentionFloorError else mret tt
    end.

Definition NO_EMITTER : string :=
  "off-box audit is required but no emitter is enabled; refusing to delete the only remaining copy".

(** [evaluate] *)
Definition evaluate (c : RAConfig) (siem : option SiemEmitter) : Act World RetentionDecision :=
  floor ← retention_floor_days;
  let refused why :=
    mret {| may_prune := false; decision_reason := why; cutoff := None; floor_days := floor |} in
  if audit_retention_days c <=? 0
  then refused "no retention window is configured; every row is kept"%string
  else if negb (audit_prune_enabled c)
  then refused "audit_prune_enabled is off, so retention is reported but not enforced"%string
  else if negb (audit_offbox_required c)
  then refused ("audit_offbox_required is not set, so the local audit_log is the "
                +:+ "only copy of this evidence and nothing will be deleted from it")%string
  else match siem with
  | None => refused NO_EMITTER
  | Some siem =>
    if negb (enabled siem) then refused NO_EMITTER
    else match floor with
    | None =>
      refused ("at least one certificate's validity could not be determined, so "
               +:+ "the retention floor is unknown and deleting could drop below it")%string
    | Some days =>
      if audit_retention_days c <? days
      then refused ("configured retention " +:+ pretty (audit_retention_days c) +:+ "d is below the "
                    +:+ pretty days +:+ "d floor")%string
      else if negb (probe_offbox_delivery siem).1
      then refused ("off-box delivery is not currently healthy ("
                    +:+ (probe_offbox_delivery siem).2 +:+ "); refusing to "
                    +:+ "delete local rows that may not have reached the collector")%string
      else
        now ← act_get w_now;
        let cutoff := now - audit_retention_days c * 86400 in
        mret {| may_prune := true;
                decision_reason := "off-box audit healthy; deleting rows older than " +:+ iso cutoff;
                cutoff := Some cutoff; floor_days := floor |}
    end
  end.

(** [run_sweep] *)
Definition run_sweep (c : RAConfig) (siem : option SiemEmitter) :
    Act World (Z * RetentionDecision) :=
  decision ← evaluate c siem;
  match may_prune decision, cutoff decision with
  | true, Some before =>
    deleted ← db (λ _, delete_audit_rows_before before);
    db (λ now, record_audit now (event "audit-retention-swept" "success" None None [] None
      [("cutoff", JStr (iso before)); ("rows_deleted", JNum deleted);
       ("retention_days", JNum (audit_retention_days c));
       ("floor_days", match floor_days decision with Some n => JNum n | None => JNull end)]%string));;
    mret (deleted, decision)
  | _, _ => mret (0, decision)
  end.

(** [footprint_report]: [(total_bytes, warn_bytes, over_threshold)].  The size
    of the database files is the file system's. *)
Definition footprint_report (c : RAConfig) (db_bytes jsonl_bytes : Z) : Z * Z * bool :=
  let total := db_bytes + jsonl_bytes in
  let warn_bytes := audit_store_warn_mib c * 1024 * 1024 in
  (total, warn_bytes, negb (warn_bytes =? 0) && (warn_bytes <? total)).

(** ** [create_app] *)

Section startup.
Context `{ServerConfig}.

(** The checks on the emitter of the server, when no hook is supplied. *)
Definition offbox_audit_demonstrated (c : RAConfig) (emitter : SiemEmitter) : Res Exn unit :=
  if audit_offbox_required c && negb (enabled emitter) then Raise RuntimeError
  else if audit_offbox_required c && negb (probe_offbox_delivery emitter).1 then Raise RuntimeError
  else Ok tt.

(** [create_app], up to the application object; [hook_supplied] tells whether
    the context came with an audit hook. *)
Definition create_app (c : RAConfig) (hook_supplied : bool) (emitter : Res Exn SiemEmitter) :
    Act World unit :=
  if audit_prune_enabled c then act_raise RuntimeError
  else
    act_of_res (if hook_supplied then Ok tt
                else emitter ←? emitter; offbox_audit_demonstrated c emitter)%res;;
    assert_retention_above_floor c;;
    assert_eab_kids_meet_floor config;;
    db (λ _, audit_footprint);;
    mret tt.
End startup.

(** ** The entry point: [src/acme_adcs_ra/__main__.py] *)

Module EntryPoint.
From S2P Require Import Url Policy.
Local Open Scope res_scope.

(** The settings no validator looks at, the platform, and a variable of the
    environment. *)
Record Deployment := {
  is_windows : bool;
  allow_fake_adcs_backends : bool;
  adcs_template : string;
  bind_host : string;
  bind_port : option Z;
  HTTP_PLATFORM_PORT : option string;
  trust_proxy : bool;
  forwarded_allow_ips : string;
  server_max_concurrency : Z;
}.

(** [_build_policy]; of two scopes of one kid a mapping has the later one. *)
Definition build_policy (c : RAConfig) (d : Deployment) : IssuancePolicy :=
  {| allowed_kids := list_to_set (map kid (Config.eab_allowlist c));
     Policy.san_scopes := list_to_map (reverse (Config.san_scopes c));
     pol_template := adcs_template d |}.

Inductive Leg := Certsrv | Fake.
Definition SystemExit : Exn := OtherException "SystemExit".
(** The legs, for enrollment and for revocation alike. *)
Definition select_leg (d : Deployment) : Res Exn Leg :=
  if negb (is_windows d) && negb (allow_fake_adcs_backends d) then Raise SystemExit
  else Ok (if is_windows d then Certsrv else Fake).

(** The address: each [or] goes on where the value is empty or zero. *)
Definition serve_host (d : Deployment) (parsed : ParseResult) : string :=
  if bool_decide (bind_host d = EmptyString) then default "127.0.0.1"%string (hostname parsed)
  else bind_host d.
(** [str.isdigit]: the superscripts too *)
Definition isdigit (s : string) : bool :=
  negb (bool_decide (s = EmptyString))
  && forallb (λ c, in_range 48 57 c || bool_decide (code c ∈ [178; 179; 185])) (chars s).
Definition platform_port (d : Deployment) : Res Exn (option Z) :=
  match HTTP_PLATFORM_PORT d with
  | Some p =>
    if isdigit p then match py_int p with Some n => Ok (Some n) | None => Raise ValueError end
    else Ok None
  | None => Ok None
  end.
Definition nonzero (n : option Z) : option Z :=
  match n with Some n => if n =? 0 then None else Some n | None => None end.
Definition serve_port (d : Deployment) (parsed : ParseResult) : Res Exn Z :=
  match nonzero (bind_port d) with
  | Some n => Ok n
  | None =>
    n ←? platform_port d;
    match nonzero n with
    | Some n => Ok n
    | None => n ←? port parsed; Ok (default 8000 (nonzero n))
    end
  end.

(** What uvicorn is told. *)
Record Served := {
  served_leg : Leg;
  served_policy : IssuancePolicy;
  served_host : string;
  served_port : Z;
  ssl_certfile : option string;
  ssl_keyfile : option string;
  proxy_headers : bool;
  served_allow_ips : string;
  limit_concurrency : Z;
}.
Definition serving `{NetlocCheck} (c : RAConfig) (d : Deployment) (leg : Leg) : Res Exn Served :=
  parsed ←? urlparse (Config.base_url c);
  p ←? serve_port d parsed;
  Ok {| served_leg := leg; served_policy := build_policy c d; served_host := serve_host d parsed;
        served_port := p; ssl_certfile := tls_certfile c; ssl_keyfile := tls_keyfile c;
        proxy_headers := trust_proxy d; served_allow_ips := forwarded_allow_ips d;
        limit_concurrency := server_max_concurrency d |}.

(** [main], with settings that were accepted and a store that was opened, up to
    the server's loop; the emitter of the context as in [create_app]. *)
Definition main `{NetlocCheck, ServerConfig} (c : RAConfig) (d : Deployment)
    (emitter : Res Exn SiemEmitter) : Act World Served :=
  leg ← act_of_res (select_leg d);
  create_app c false emitter;;
  act_of_res (serving c d leg).

(** A process whose settings do not allow the fake legs serves with the real
    ones, or not at all. *)
Lemma select_leg_real d :
  allow_fake_adcs_backends d = false → ∀ leg, select_leg d = Ok leg → leg = Certsrv.
Proof. unfold select_leg. intros ->. by destruct (is_windows d); intros leg [= <-]. Qed.

(** A superscript is a digit for [isdigit] and none for [int]. *)
Definition demo_deployment (p : string) : Deployment :=
  {| is_windows := true; allow_fake_adcs_backends := false; adcs_template := "T"; bind_host := "";
     bind_port := Some 0; HTTP_PLATFORM_PORT := Some p; trust_proxy := true;
     forwarded_allow_ips := "127.0.0.1"; server_max_concurrency := 256 |}.
Definition demo_url : ParseResult :=
  {| scheme := "https"; netloc := "ra.local:8443"; path := ""; params := ""; query := "";
     fragment := "" |}.
Example serve_port_ex :
  (map (λ p, serve_port (demo_deployment p) demo_url)
     ["5001"; "0"; "-1"; String (ascii_of_nat 178) EmptyString]%string, serve_host (demo_deployment "") demo_url)
  = ([Ok 5001; Ok 8443; Ok 8443; Raise ValueError], "ra.local"%string).
Proof. by vm_compute. Qed.
End EntryPoint.
