(* ===== verification/Reconcile.v ===== *)
(** * Reconciliation of revocations: [scripts/reconcile_revocation.py]

    The operator's tool that compares the certificates of the store with an
    export of the CA's database: reading both, classifying, and the exit code.
    The wording of the reports is not modelled.  At the end, what a PASS
    proves. *)

From S2P Require Import Prelude PyStr Exn Re Sql Db.
Local Open Scope Z_scope.
Local Open Scope res_scope.

Definition ISSUED_DISPOSITION : Z := 20.
Definition REVOKED_DISPOSITION : Z := 21.
Definition REMOVE_FROM_CRL_REASON : Z := 8.
Definition NON_CERTIFICATE_DISPOSITIONS : list Z := [2; 3; 9; 30; 31].

(** [_RaRecord.must_be_revoked] *)
Definition must_be_revoked (status : CertStatus.t) : bool :=
  match status with CertStatus.REVOKED | CertStatus.QUARANTINED => true | CertStatus.VALID => false end.

(** [_canonical_serial] *)
Definition canonical_serial (value : string) : string :=
  let serial := upper (of_chars (filter (λ c, is_space c = false) (chars value))) in
  let serial := lstrip_char "0" (removeprefix serial "0X") in
  if bool_decide (serial = EmptyString) then "0" else serial.

(** ** The store's side *)

(** The serial number of a row, where it has one. *)
Definition row_serial (row : Cert.t) : option string :=
  raw ← Cert.serial_number row;
  if bool_decide (raw = EmptyString) then None else Some (canonical_serial raw).

(** One turn of the loop of [_load_ra_records]. *)
Definition load_row (result : gmap string CertStatus.t) (row : Cert.t) : gmap string CertStatus.t :=
  match row_serial row with
  | None => result
  | Some serial =>
    match result !! serial with
    | Some existing =>
      if must_be_revoked existing && negb (must_be_revoked (Cert.status row)) then result
      else <[serial := Cert.status row]> result
    | None => <[serial := Cert.status row]> result
    end
  end.
Definition load_ra_records (rows : list Cert.t) : gmap string CertStatus.t :=
  fold_left load_row rows ∅.

(** ** The CA's side: [_parse_ca_export] *)

Definition blanks : Item := Many 0 false is_space.
Definition number : Pattern := [Open; Many 1 false is_digit; Close].
Definition is_hex (c : ascii) : bool := is_digit c || in_range 65 70 c || in_range 97 102 c.
Definition row_index : Pattern := [blanks] ++ lit "Row Index:" ++ [blanks; Many 1 false is_digit].
Definition request_id_line : Pattern :=
  [blanks] ++ lit "Request ID:" ++ [blanks] ++ number ++ [blanks; AtEnd].
Definition serial_line : Pattern :=
  [blanks] ++ lit "Serial Number:" ++ [blanks; Open; Many 1 true (λ c, is_hex c || is_space c); Close]
  ++ [blanks; AtEnd].
Definition disposition_line : Pattern := [blanks] ++ lit "Disposition:" ++ [blanks] ++ number.
(** The two labels, with and without the hexadecimal form in front: the
    alternatives in the order in which they are tried. *)
Definition reason_lines : list Pattern :=
  let hex := lit "0x" ++ [Many 1 false is_hex; blanks] ++ lit "(" in
  let labelled label := [[blanks] ++ lit label ++ [blanks] ++ hex ++ number;
                         [blanks] ++ lit label ++ [blanks] ++ number] in
  labelled "Request.RevokedReason:"%string ++ labelled "Revocation Reason:"%string.

Record Block := {
  request_id : option string;
  serial : option string;
  disposition : option Z;
  reason : option Z;
}.
Definition empty_block : Block :=
  {| request_id := None; serial := None; disposition := None; reason := None |}.

(** What a line says. *)
Inductive Line :=
  | RowIndex
  | RequestId (id : string)
  | SerialNumber (text : string)
  | Disposition (n : Z)
  | Reason (n : Z)
  | OtherLine.
(** [int(match.group(1))] *)
Definition int_of (digits : string) : Res Exn Z :=
  match py_int digits with Some n => Ok n | None => Raise ValueError end.
Definition read_line (line : string) : Res Exn Line :=
  if bool_decide (is_Some (re_match row_index line)) then Ok RowIndex
  else match re_match request_id_line line with
  | Some id => Ok (RequestId id)
  | None =>
    match re_match serial_line line with
    | Some text => Ok (SerialNumber text)
    | None =>
      match re_match disposition_line line with
      | Some n => n ←? int_of n; Ok (Disposition n)
      | None =>
        match omap (λ pat, re_match pat line) reason_lines with
        | n :: _ => n ←? int_of n; Ok (Reason n)
        | [] => Ok OtherLine
        end
      end
    end
  end.
Definition note (l : Line) (b : Block) : Block :=
  match l with
  | RequestId id => {| request_id := Some id; serial := serial b; disposition := disposition b;
                       reason := reason b |}
  | SerialNumber text => {| request_id := request_id b; serial := Some text;
                            disposition := disposition b; reason := reason b |}
  | Disposition n => {| request_id := request_id b; serial := serial b; disposition := Some n;
                        reason := reason b |}
  | Reason n => {| request_id := request_id b; serial := serial b; disposition := disposition b;
                   reason := Some n |}
  | RowIndex | OtherLine => b
  end.

(** The records, by serial: is it revoked at the CA; and the problems,
    counted. *)
Record Export := {
  records : gmap string bool;
  problems : nat;
  saw_any_row : bool;
}.
Definition problem (x : Export) : Export :=
  {| records := records x; problems := S (problems x); saw_any_row := saw_any_row x |}.
Definition record (s : string) (revoked : bool) (x : Export) : Export :=
  {| records := <[s := revoked]> (records x); problems := problems x;
     saw_any_row := saw_any_row x |}.

(** [_flush_block] *)
Definition flush_block (b : Block) (x : Export) : Export :=
  match serial b with
  | None => x
  | Some text =>
    match disposition b with
    | None => problem x
    | Some n =>
      if n =? REVOKED_DISPOSITION then
        record (canonical_serial text) (negb (bool_decide (reason b = Some REMOVE_FROM_CRL_REASON))) x
      else if n =? ISSUED_DISPOSITION then record (canonical_serial text) false x
      else if bool_decide (n ∈ NON_CERTIFICATE_DISPOSITIONS) then x
      else problem x
    end
  end.

Fixpoint parse_lines (lines : list string) (b : Block) (x : Export) : Res Exn Export :=
  match lines with
  | [] => Ok (flush_block b x)
  | line :: lines =>
    l ←? read_line line;
    match l with
    | RowIndex =>
      parse_lines lines empty_block
        (flush_block b {| records := records x; problems := problems x; saw_any_row := true |})
    | _ => parse_lines lines (note l b) x
    end
  end.
Definition parse_ca_export (text : string) : Res Exn Export :=
  x ←? parse_lines (splitlines text) empty_block
         {| records := ∅; problems := 0; saw_any_row := false |};
  Ok (if negb (saw_any_row x) && bool_decide (records x = ∅) then problem x else x).

(** ** The comparison: [_reconcile] *)

Record ReconciliationResult := {
  in_sync : gset string;
  revoked_at_ca_valid_in_ra : gset string;
  revoked_in_ra_active_at_ca : gset string;
  ra_serials_absent_from_ca : gset string;
  parse_problems : nat;
}.
(** The serials whose status and CA record satisfy a test. *)
Definition bucket (p : CertStatus.t → option bool → bool)
    (ra : gmap string CertStatus.t) (ca : gmap string bool) : gset string :=
  dom (filter (λ kv, p kv.2 (ca !! kv.1) = true) ra).
Definition reconcile (ra : gmap string CertStatus.t) (x : Export) : ReconciliationResult :=
  let found test := λ s, from_option (λ revoked, test (must_be_revoked s) revoked) false in
  {| in_sync := bucket (found Bool.eqb) ra (records x);
     revoked_at_ca_valid_in_ra := bucket (found (λ must revoked, negb must && revoked)) ra (records x);
     revoked_in_ra_active_at_ca := bucket (found (λ must revoked, must && negb revoked)) ra (records x);
     ra_serials_absent_from_ca := bucket (λ _ r, bool_decide (r = None)) ra (records x);
     parse_problems := problems x |}.
Definition drift_count (r : ReconciliationResult) : nat :=
  (size (revoked_at_ca_valid_in_ra r) + size (revoked_in_ra_active_at_ca r))%nat.
Definition coverage_complete (r : ReconciliationResult) : bool :=
  bool_decide (ra_serials_absent_from_ca r = ∅) && bool_decide (parse_problems r = 0%nat).

(** ** The exit code: [_run] and [main] *)

Definition run_reconciliation (rows : Res Exn (list Cert.t)) (export : Res Exn string)
    (ca_export_exit_code : Z) : Res Exn Z :=
  if negb (ca_export_exit_code =? 0) then Raise (OtherException "ReconciliationError")
  else
    rows ←? rows;
    text ←? export;
    x ←? parse_ca_export text;
    let result := reconcile (load_ra_records rows) x in
    Ok (if negb (coverage_complete result) then 2
        else if bool_decide (drift_count result = 0%nat) then 0 else 1).
Definition main (rows : Res Exn (list Cert.t)) (export : Res Exn string)
    (ca_export_exit_code : Z) : Z :=
  match run_reconciliation rows export ca_export_exit_code with
  | inr code => code
  | inl _ => 2
  end.

(** ** What a PASS proves *)

(** The blocks of an export. *)
Fixpoint blocks (lines : list string) (b : Block) : Res Exn (list Block) :=
  match lines with
  | [] => Ok [b]
  | line :: lines =>
    l ←? read_line line;
    match l with
    | RowIndex => bs ←? blocks lines empty_block; Ok (b :: bs)
    | _ => blocks lines (note l b)
    end
  end.

(** What a block says of a serial number: whether it is revoked at the CA. *)
Definition told (s : string) (b : Block) : option bool :=
  text ← serial b;
  if bool_decide (canonical_serial text = s) then
    n ← disposition b;
    if n =? REVOKED_DISPOSITION then Some (negb (bool_decide (reason b = Some REMOVE_FROM_CRL_REASON)))
    else if n =? ISSUED_DISPOSITION then Some false
    else None
  else None.
Definition understood (b : Block) : Prop :=
  serial b = None
  ∨ ∃ n, disposition b = Some n
      ∧ n ∈ REVOKED_DISPOSITION :: ISSUED_DISPOSITION :: NON_CERTIFICATE_DISPOSITIONS.

Definition flush_all (bs : list Block) (x : Export) : Export :=
  fold_left (λ x b, flush_block b x) bs x.
Definition seen (x : Export) : Export :=
  {| records := records x; problems := problems x; saw_any_row := true |}.

Lemma flush_seen b x : flush_block b (seen x) = seen (flush_block b x).
Proof. unfold flush_block. repeat case_match; done. Qed.
Lemma flush_all_seen bs x : flush_all bs (seen x) = seen (flush_all bs x).
Proof. revert x. induction bs as [|b bs IH]; intros x; [done|]. cbn. by rewrite flush_seen, IH. Qed.

Lemma blocks_cons lines b bs : blocks lines b = inr bs → ∃ c cs, bs = c :: cs.
Proof.
  revert b. induction lines as [|line lines IH]; intros b; simpl; [intros [= <-]; by eexists _, _|].
  destruct (read_line line) as [e|l]; [done|]. destruct l; simpl; try apply IH.
  rewrite res_bind_ok. intros (cs & _ & [= <-]). by eexists _, _.
Qed.
Lemma parse_lines_blocks lines b x :
  parse_lines lines b x =
  (bs ←? blocks lines b; Ok ((if (1 <? Z.of_nat (length bs)) then seen else id) (flush_all bs x))).
Proof.
  revert b x. induction lines as [|line lines IH]; intros b x; [done|].
  cbn [parse_lines blocks]. destruct (read_line line) as [e|l]; [done|].
  cbn [res_bind]. destruct l; try apply IH.
  change {| records := _; problems := _; saw_any_row := true |} with (seen x).
  rewrite flush_seen, IH. destruct (blocks lines empty_block) as [e|bs] eqn:Hbs; [done|].
  apply blocks_cons in Hbs as (c & cs & ->). cbn [res_bind]. f_equal.
  rewrite (proj2 (Z.ltb_lt 1 (Z.of_nat (length (b :: c :: cs))))) by (simpl; lia).
  rewrite flush_all_seen. by destruct (1 <? _).
Qed.

Lemma flush_all_saw bs x : saw_any_row (flush_all bs x) = saw_any_row x.
Proof.
  revert x. induction bs as [|b bs IH]; intros x; [done|]. cbn. rewrite IH.
  unfold flush_block. by repeat case_match.
Qed.

Lemma flush_records b x s :
  records (flush_block b x) !! s = match told s b with Some r => Some r | None => records x !! s end.
Proof.
  unfold flush_block, told. destruct (serial b) as [text|]; [|done]. simpl.
  destruct (decide (canonical_serial text = s)) as [Hs|Hs];
    [rewrite (bool_decide_eq_true_2 _ Hs)|rewrite (bool_decide_eq_false_2 _ Hs)];
    (destruct (disposition b) as [n|]; simpl; [|done]);
    (destruct (n =? REVOKED_DISPOSITION); [|destruct (n =? ISSUED_DISPOSITION)]);
    cbn [records record]; rewrite ?Hs, ?lookup_insert_eq, ?(lookup_insert_ne _ _ _ _ Hs);
    try done; by destruct (bool_decide (n ∈ _)).
Qed.
Lemma flush_all_records bs x s :
  records (flush_all bs x) !! s =
  match last (omap (told s) bs) with Some r => Some r | None => records x !! s end.
Proof.
  induction bs as [|b bs IH] using rev_ind; [done|]. unfold flush_all in *.
  rewrite fold_left_app, omap_app. simpl. rewrite flush_records, IH.
  destruct (told s b) as [r|]; simpl; [by rewrite last_snoc|by rewrite app_nil_r].
Qed.

Lemma flush_problems b x : problems (flush_block b x) = 0%nat ↔ problems x = 0%nat ∧ understood b.
Proof.
  unfold flush_block, understood. destruct (serial b) as [text|]; [|naive_solver].
  destruct (disposition b) as [n|]; [|naive_solver].
  destruct (n =? REVOKED_DISPOSITION) eqn:H21.
  { apply Z.eqb_eq in H21 as ->. simpl. split; [|naive_solver]. intros Hp. split; [done|].
    right. eexists. split; [done|]. by left. }
  destruct (n =? ISSUED_DISPOSITION) eqn:H20.
  { apply Z.eqb_eq in H20 as ->. simpl. split; [|naive_solver]. intros Hp. split; [done|].
    right. eexists. split; [done|]. right. by left. }
  apply Z.eqb_neq in H21, H20. case_bool_decide as Hn.
  - split; [|naive_solver]. intros Hp. split; [done|]. right. eexists. split; [done|]. by do 2 right.
  - simpl. split; [done|]. intros (_ & [?|(m & [= <-] & Hm)]); [done|].
    rewrite !elem_of_cons in Hm. naive_solver.
Qed.
Lemma flush_all_problems bs x :
  problems (flush_all bs x) = 0%nat ↔ problems x = 0%nat ∧ Forall understood bs.
Proof.
  revert x. induction bs as [|b bs IH]; intros x; cbn [flush_all fold_left]; [naive_solver|].
  fold (flush_all bs (flush_block b x)). rewrite IH, flush_problems, Forall_cons. tauto.
Qed.

(** The store's side: a serial demands revocation when one of its rows does. *)
Lemma load_ra_none rows s :
  load_ra_records rows !! s = None → ∀ c, c ∈ rows → row_serial c ≠ Some s.
Proof.
  unfold load_ra_records. induction rows as [|c rows IH] using rev_ind.
  { intros _ c Hc. by apply not_elem_of_nil in Hc. }
  rewrite fold_left_app. simpl. unfold load_row at 1. intros Hn c' [Hc| ->%list_elem_of_singleton]%elem_of_app;
    destruct (row_serial c) as [t|] eqn:Ht; try done;
    repeat case_match; rewrite ?lookup_insert_None in Hn; naive_solver.
Qed.
Lemma load_ra_some rows s st :
  load_ra_records rows !! s = Some st →
  (∃ c, c ∈ rows ∧ row_serial c = Some s)
  ∧ (must_be_revoked st = true ↔
     ∃ c, c ∈ rows ∧ row_serial c = Some s ∧ must_be_revoked (Cert.status c) = true).
Proof.
  unfold load_ra_records. revert st. induction rows as [|c rows IH] using rev_ind; intros st; [done|].
  rewrite fold_left_app. simpl. unfold load_row at 1.
  set (m := fold_left load_row rows ∅) in *. setoid_rewrite elem_of_app.
  setoid_rewrite list_elem_of_singleton.
  destruct (row_serial c) as [t|] eqn:Ht; [|intros [He Hm]%IH; naive_solver].
  assert (∀ st, m !! s = Some st → t ≠ s ∨ must_be_revoked st = true
          ∧ must_be_revoked (Cert.status c) = false →
          (∃ c', (c' ∈ rows ∨ c' = c) ∧ row_serial c' = Some s)
          ∧ (must_be_revoked st = true ↔ ∃ c', (c' ∈ rows ∨ c' = c) ∧ row_serial c' = Some s
              ∧ must_be_revoked (Cert.status c') = true)) as Hold.
  { intros st' [He Hm]%IH Hcase. split; [naive_solver|]. rewrite Hm. naive_solver. }
  destruct (m !! t) as [old|] eqn:Hold'; [destruct (_ && _) eqn:Hkeep|].
  - intros Hs. apply andb_true_iff in Hkeep as [H1 H2%negb_true_iff].
    apply Hold; [done|]. destruct (decide (t = s)) as [->|]; [right|by left].
    by rewrite Hold' in Hs; injection Hs as <-.
  - rewrite lookup_insert_Some. intros [[-> <-]|[Hne Hs]]; [|by apply Hold; [|left]].
    split; [by exists c; split; [right|]|]. split; [naive_solver|].
    intros (c' & [Hc| ->] & Hs & Hm); [|done].
    assert (must_be_revoked old = true) as Ho by (apply (IH old Hold'); by exists c').
    by rewrite Ho in Hkeep; destruct (must_be_revoked (Cert.status c)).
  - rewrite lookup_insert_Some. intros [[-> <-]|[Hne Hs]]; [|by apply Hold; [|left]].
    split; [by exists c; split; [right|]|]. split; [naive_solver|].
    intros (c' & [Hc| ->] & Hs & Hm); [|done]. by destruct (load_ra_none _ _ Hold' c' Hc).
Qed.

Lemma elem_bucket p ra ca s :
  s ∈ bucket p ra ca ↔ ∃ st, ra !! s = Some st ∧ p st (ca !! s) = true.
Proof.
  unfold bucket. rewrite elem_of_dom. split.
  - intros [st [Hs Hp]%map_lookup_filter_Some]. by exists st.
  - intros (st & Hs & Hp). exists st. by apply map_lookup_filter_Some.
Qed.
Lemma bucket_empty p ra ca :
  bucket p ra ca = ∅ ↔ ∀ s st, ra !! s = Some st → p st (ca !! s) = false.
Proof.
  rewrite elem_of_equiv_empty_L. setoid_rewrite elem_bucket. split.
  - intros Hn s st Hs. apply not_true_iff_false. intros Hp. apply (Hn s). by exists st.
  - intros Hn s (st & Hs & Hp). by rewrite Hn in Hp.
Qed.

(** Every serial of the store is covered, and the two sides agree. *)
Lemma reconcile_zero ra x :
  coverage_complete (reconcile ra x) = true ∧ drift_count (reconcile ra x) = 0%nat ↔
  problems x = 0%nat ∧ ∀ s st, ra !! s = Some st → records x !! s = Some (must_be_revoked st).
Proof.
  unfold coverage_complete, drift_count. rewrite andb_true_iff, !bool_decide_eq_true.
  rewrite Nat.eq_add_0, !size_empty_iff, !leibniz_equiv_iff.
  unfold reconcile. cbn [ra_serials_absent_from_ca parse_problems revoked_at_ca_valid_in_ra
    revoked_in_ra_active_at_ca]. rewrite !bucket_empty. split.
  - intros ((Habs & Hp) & Hva & Hrev). split; [done|]. intros s st Hs.
    specialize (Habs s st Hs). specialize (Hva s st Hs). specialize (Hrev s st Hs).
    destruct (records x !! s) as [r|]; [|done]. simpl in *. by destruct (must_be_revoked st), r.
  - intros [Hp Hall]. split; [split; [|done]|split]; intros s st Hs; rewrite (Hall s st Hs); simpl;
      [done|by destruct (must_be_revoked st)..].
Qed.

(** The export as a whole. *)
Lemma parse_ca_export_blocks text bs :
  blocks (splitlines text) empty_block = inr bs →
  ∃ y, parse_ca_export text = inr y
    ∧ (∀ s, records y !! s = last (omap (told s) bs))
    ∧ (problems y = 0%nat ↔ Forall understood bs
       ∧ (1 < Z.of_nat (length bs) ∨ ∃ s b, b ∈ bs ∧ is_Some (told s b))).
Proof.
  intros Hbs. unfold parse_ca_export. rewrite parse_lines_blocks, Hbs. cbn [res_bind].
  set (x0 := {| records := ∅; problems := 0; saw_any_row := false |}).
  set (x := (if 1 <? Z.of_nat (length bs) then seen else id) (flush_all bs x0)).
  assert (records x = records (flush_all bs x0) ∧ problems x = problems (flush_all bs x0)
          ∧ saw_any_row x = (1 <? Z.of_nat (length bs))) as (Hrec & Hprob & Hx).
  { unfold x. destruct (1 <? Z.of_nat (length bs)); split_and!; try done. apply flush_all_saw. }
  set (y := if negb (saw_any_row x) && bool_decide (records x = ∅) then problem x else x).
  assert (records y = records x) as Hyx
    by (unfold y; by destruct (negb (saw_any_row x) && bool_decide (records x = ∅))).
  assert (∀ s, records y !! s = last (omap (told s) bs)) as Hy.
  { intros s. rewrite Hyx, Hrec, flush_all_records. by case_match. }
  exists y. split; [done|]. split; [done|].
  assert (problems x = 0%nat ↔ Forall understood bs) as Hpx
    by (rewrite Hprob, flush_all_problems; naive_solver).
  unfold y. rewrite Hx. destruct (1 <? Z.of_nat (length bs)) eqn:Hlen; simpl.
  { apply Z.ltb_lt in Hlen. tauto. }
  apply Z.ltb_ge in Hlen. case_bool_decide as Hempty; simpl.
  - split; [done|]. intros [_ [?|(s & b & Hb & r & Ht)]]; [lia|]. exfalso.
    assert (last (omap (told s) bs) = None) as Hnone%last_None
      by (by rewrite <- Hy, Hyx, Hempty, lookup_empty).
    assert (r ∈ omap (told s) bs) as Hin by (apply list_elem_of_omap; by exists b).
    rewrite Hnone in Hin. by apply not_elem_of_nil in Hin.
  - rewrite Hpx. split; [|tauto]. intros Hu. split; [done|]. right.
    apply map_choose in Hempty as (s & r & Hr). rewrite <- Hyx, Hy in Hr.
    apply last_Some_elem_of, list_elem_of_omap in Hr as (b & Hb & Ht).
    exists s, b. split; [done|by eexists].
Qed.


Definition demo_export : string :=
  of_chars (concat (map (λ l, chars l ++ [ascii_of_nat 13; ascii_of_nat 10])
    ["Row Index: 1"; "  Request ID: 5"; "  Serial Number: 0a ff"; "  Disposition: 21 -- Revoked";
     "  Revocation Reason: 0x1 (1) -- Key Compromise"; ""; "Row Index: 2"; "Request ID: 6";
     "Serial Number: 10"; "Disposition: 20 -- Issued"]%string)).
Definition demo_row (serial : string) (status : CertStatus.t) : Cert.t :=
  {| Cert.id := serial; Cert.order_id := ""; Cert.account_id := ""; Cert.cert_pem := "";
     Cert.chain_pem := JBad ""; Cert.template := ""; Cert.requester := ""; Cert.issued_at := 0;
     Cert.metadata := []; Cert.serial_number := Some serial; Cert.status := status;
     Cert.revocation_reason := None; Cert.revoked_at := None; Cert.ca_crl_updated := false;
     Cert.not_before := None; Cert.not_after := None |}.
Definition demo_rows : list Cert.t :=
  [demo_row "AFF" CertStatus.QUARANTINED; demo_row "10" CertStatus.VALID].

(** A reason in hexadecimal alone reads as its first digit: the mark that a
    certificate was taken off the list is missed. *)
Example hex_reason_ex : read_line "Revocation Reason: 0x8 -- Remove From CRL" = Ok (Reason 0).
Proof. vm_compute. reflexivity. Qed.
