(* ===== verification/Publication.v ===== *)
(** * Proof of a publication: [scripts/verify_crl_publication.py]

    The operator's tool that shows, from the distribution point, that
    revocations reached a published CRL: its arguments, the retrieval, the
    checks, and the exit code.  Parsing of certificates and CRLs is the
    cryptography package's ([PublicationBackend]); what reading the files and
    asking the distribution point comes to is an argument; the wording of the
    lines it prints is not modelled.  At the end, what the banner proves. *)

From S2P Require Import Prelude PyStr Exn Re World X509 Enrollment CrlEvidence.
Local Open Scope Z_scope.
Local Open Scope res_scope.

(** ** Serial numbers: [parse_serial] *)

Definition is_hex (c : ascii) : bool := is_digit c || in_range 65 70 c || in_range 97 102 c.
Definition without (c : ascii) (s : string) : string :=
  of_chars (filter (λ x, x ≠ c) (chars s)).
Definition parse_serial (text : string) : Res Exn Z :=
  let cleaned := without ":" (without " " (strip text)) in
  let cleaned := if startswith (lower cleaned) "0x" then of_chars (drop 2 (chars cleaned))
                 else cleaned in
  if bool_decide (cleaned = EmptyString) then Raise ValueError
  else if negb (forallb is_hex (chars cleaned)) then Raise ValueError
  else match py_int16 cleaned with Some n => Ok n | None => Raise ValueError end.

(** ** The documents *)

Record DistributionPoint := {
  indirect_crl : bool;
  has_only_some_reasons : bool;                          (* is it there, empty or not *)
  only_contains_ca_certs : bool;
  only_contains_attribute_certs : bool;
}.
(** An extension: its object identifier, and whether it is critical. *)
Definition Extension : Type := string * bool.
Record CrlExtensions := {
  delta_crl_indicator : bool;
  all_extensions : list Extension;
  issuing_distribution_point : option DistributionPoint;
  crl_number : option Z;
}.
Record EntryExtensions := {
  crl_reason : option ReasonFlag;
  entry_extensions : list Extension;
}.
Class PublicationBackend := {
  PublishedName : Type;
  #[global] PublishedName_eq_dec :: EqDecision PublishedName;
  PublishedCrl : Type;
  IssuerCertificate : Type;
  load_der_crl : list Z → Res Exn PublishedCrl;
  load_pem_crl : list Z → Res Exn PublishedCrl;
  load_der_issuer : list Z → Res Exn IssuerCertificate;
  load_pem_issuers : list Z → Res Exn (list IssuerCertificate);
  issuer_subject : IssuerCertificate → PublishedName;
  issuer_not_before : IssuerCertificate → Z;
  issuer_not_after : IssuerCertificate → Z;
  issuer_basic_constraints : IssuerCertificate → Res Exn (option bool);  (* ca *)
  issuer_key_usage : IssuerCertificate → Res Exn (option bool);          (* crl_sign *)
  crl_issuer : PublishedCrl → PublishedName;
  crl_signature_valid : PublishedCrl → IssuerCertificate → Res Exn bool;
  crl_last_update : PublishedCrl → Z;
  crl_next_update : PublishedCrl → option Z;
  crl_extensions : PublishedCrl → Res Exn CrlExtensions;
  crl_entries : PublishedCrl → list (Z * Res Exn EntryExtensions);
}.

Definition DuplicateExtension : Exn := OtherException "DuplicateExtension".
Definition CLOCK_SKEW : Z := 300.
Definition ISSUING_DISTRIBUTION_POINT : string := "2.5.29.28".
Definition CERTIFICATE_ISSUER : string := "2.5.29.29".

(** ** Loading *)

Section tool.
Context `{PublicationBackend}.

(** [fetch]: what the request ended in: an exception, or a status and the
    chunks of the body. *)
Fixpoint take_chunks (max_bytes : Z) (chunks : list (list Z)) (body : list Z) : Res Exn (list Z) :=
  match chunks with
  | [] => Ok body
  | chunk :: chunks =>
    let body := body ++ chunk in
    if max_bytes <? Z.of_nat (length body) then Raise RuntimeError
    else take_chunks max_bytes chunks body
  end.
Definition fetch (max_bytes : Z) (response : Res Exn (Z * list (list Z))) : Res Exn (list Z) :=
  response ←? response;
  if negb (response.1 =? 200) then Raise RuntimeError
  else take_chunks max_bytes response.2 [].

(** [load_crl] *)
Definition load_crl (body : list Z) : Res Exn PublishedCrl :=
  match load_der_crl body with
  | inl ValueError =>
    match load_pem_crl body with
    | inl ValueError => Raise RuntimeError
    | r => r
    end
  | r => r
  end.

(** [_can_sign_crls] *)
Definition can_sign_crls (certificate : IssuerCertificate) : Res Exn bool :=
  match issuer_basic_constraints certificate with
  | inl ValueError | inr None => Ok false
  | inl e => Raise e
  | inr (Some ca) =>
    if negb ca then Ok false
    else match issuer_key_usage certificate with
    | inr None => Ok true
    | inl ValueError => Ok false
    | inl e => Raise e
    | inr (Some crl_sign) => Ok crl_sign
    end
  end.

(** [load_issuer] *)
Definition BOM : list Z := [239; 187; 191].
Definition without_bom (body : list Z) : list Z :=
  if bool_decide (take 3 body = BOM) then drop 3 body else body.
Definition pem_cert : Pattern :=
  lit "-----BEGIN CERTIFICATE-----" ++ [One (λ c, is_byte_space (code c)); Many 0 true any]
  ++ lit "-----END CERTIFICATE-----".
Definition issuer_certificates (body : list Z) : Res Exn (list IssuerCertificate) :=
  match load_der_issuer body with
  | inr certificate => Ok [certificate]
  | inl ValueError =>
    let others := sub_from pem_cert None 0 (chars (latin1 (without_bom body))) in
    if negb (forallb (λ c, is_byte_space (code c)) others) then Raise RuntimeError
    else match load_pem_issuers (without_bom body) with
    | inl ValueError => Raise RuntimeError
    | r => r
    end
  | inl e => Raise e
  end.
Definition load_issuer (now : Z) (body : list Z) : Res Exn IssuerCertificate :=
  certificates ←? issuer_certificates body;
  match certificates with
  | [issuer] =>
    if negb ((issuer_not_before issuer <=? now) && (now <=? issuer_not_after issuer))
    then Raise RuntimeError
    else
      able ←? can_sign_crls issuer;
      if (able : bool) then Ok issuer else Raise RuntimeError
  | _ => Raise RuntimeError
  end.

(** ** [check] *)

(** One reason not to be verified, each an append to [failures]. *)
Inductive Failure :=
  | IssuerMismatch | SignatureInvalid | DeltaCrl | CriticalExtension (oid : string)
  | IndirectCrl | SomeReasonsOnly | ScopeExcludesLeaves | NotYetInForce | NoNextUpdate | Expired
  | NoNumber | NotNewer (number : Z) | EntryNotAttributable (serial : Z)
  | Missing (serial : Z) | ControlListed (serial : Z).
Definition fail_if (b : bool) (f : Failure) : list Failure := if b then [f] else [].

(** [_signature_valid] *)
Definition signature_valid (crl : PublishedCrl) (issuer : IssuerCertificate) : Res Exn bool :=
  match crl_signature_valid crl issuer with
  | inl TypeError | inl ValueError => Ok false
  | r => r
  end.
Definition authenticity (crl : PublishedCrl) (issuer : IssuerCertificate) : Res Exn (list Failure) :=
  if negb (bool_decide (crl_issuer crl = issuer_subject issuer)) then Ok [IssuerMismatch]
  else valid ←? signature_valid crl issuer; Ok (fail_if (negb valid) SignatureInvalid).

Definition uninterpretable (x : Extension) : bool :=
  x.2 && negb (bool_decide (x.1 = ISSUING_DISTRIBUTION_POINT)).
Definition scope (idp : option DistributionPoint) : list Failure :=
  match idp with
  | None => []
  | Some idp =>
    fail_if (indirect_crl idp) IndirectCrl ++ fail_if (has_only_some_reasons idp) SomeReasonsOnly
    ++ fail_if (only_contains_ca_certs idp || only_contains_attribute_certs idp) ScopeExcludesLeaves
  end.
Definition currency (crl : PublishedCrl) (now : Z) : list Failure :=
  fail_if (now + CLOCK_SKEW <? crl_last_update crl) NotYetInForce
  ++ match crl_next_update crl with
     | None => [NoNextUpdate]
     | Some next => fail_if (next <=? now) Expired
     end.
Definition newer (number prior : option Z) : list Failure :=
  match prior, number with
  | None, _ => []
  | Some _, None => [NoNumber]
  | Some prior, Some number => fail_if (number <=? prior) (NotNewer number)
  end.

(** [listed], and the entries that cannot be attributed. *)
Fixpoint listed_serials (entries : list (Z * Res Exn EntryExtensions)) : Res Exn (list Z) :=
  match entries with
  | [] => Ok []
  | (serial, extensions) :: entries =>
    x ←? extensions;
    rest ←? listed_serials entries;
    Ok (if bool_decide (crl_reason x = Some remove_from_crl) then rest else serial :: rest)
  end.
Definition not_attributable (x : EntryExtensions) : bool :=
  existsb (λ e, e.2 || bool_decide (e.1 = CERTIFICATE_ISSUER)) (entry_extensions x).
Fixpoint entry_failures (entries : list (Z * Res Exn EntryExtensions)) : Res Exn (list Failure) :=
  match entries with
  | [] => Ok []
  | (serial, extensions) :: entries =>
    x ←? extensions;
    rest ←? entry_failures entries;
    Ok (fail_if (not_attributable x) (EntryNotAttributable serial) ++ rest)
  end.

Definition check (crl : PublishedCrl) (issuer : IssuerCertificate) (revoked absent : list Z)
    (prior_crl_number : option Z) (now : Z) : Res Exn (list Failure) :=
  authentic ←? authenticity crl issuer;
  x ←? crl_extensions crl;
  listed ←? listed_serials (crl_entries crl);
  entries ←? entry_failures (crl_entries crl);
  Ok (authentic ++ fail_if (delta_crl_indicator x) DeltaCrl
      ++ map (λ e, CriticalExtension e.1) (filter (λ e, uninterpretable e = true) (all_extensions x))
      ++ scope (issuing_distribution_point x) ++ currency crl now
      ++ newer (crl_number x) prior_crl_number ++ entries
      ++ map Missing (filter (λ s, s ∉ listed) revoked)
      ++ map ControlListed (filter (λ s, s ∈ listed) absent)).

(** ** [main] *)

Record Arguments := {
  arg_revoked : list string;
  arg_absent : list string;
  arg_prior_crl_number : option Z;
  arg_file : bool;                                       (* --file, and not --url *)
  arg_max_bytes : Z;
}.
(** What the files and the distribution point give, and the clock at the two
    points where it is read. *)
Record Inputs := {
  issuer_bytes : Res Exn (list Z);
  file_bytes : Res Exn (list Z);
  cdp_response : Res Exn (Z * list (list Z));
  now_at_issuer : Z;
  now_at_check : Z;
}.
Inductive Outcome := Verified | NothingChecked | NotProven | NoVerdict.
Definition exit_code (o : Outcome) : Z :=
  match o with Verified | NothingChecked => 0 | NotProven => 1 | NoVerdict => 2 end.

(** [except (OSError, RuntimeError, requests.RequestException)]: the last is an
    [OSError]. *)
Definition no_verdict (e : Exn) : bool :=
  match e with OSError _ | RuntimeError => true | _ => false end.
Definition malformed_crl (e : Exn) : bool :=
  bool_decide (e = ValueError ∨ e = DuplicateExtension).

Fixpoint parse_serials (l : list string) : Res Exn (list Z) :=
  match l with
  | [] => Ok []
  | s :: l => n ←? parse_serial s; ns ←? parse_serials l; Ok (n :: ns)
  end.
Definition controls_missing (revoked absent : list Z) (prior : option Z) : bool :=
  negb (bool_decide (revoked = []))
  && (bool_decide (absent = []) || bool_decide (prior = None)).

Definition main (args : Arguments) (i : Inputs) : Res Exn Outcome :=
  match (revoked ←? parse_serials (arg_revoked args);
         absent ←? parse_serials (arg_absent args); Ok (revoked, absent)) with
  | inl ValueError => Ok NoVerdict
  | inl e => Raise e
  | inr (revoked, absent) =>
    if from_option (λ n, n <? 0) false (arg_prior_crl_number args) then Ok NoVerdict
    else if controls_missing revoked absent (arg_prior_crl_number args) then Ok NoVerdict
    else match (body ←? issuer_bytes i; load_issuer (now_at_issuer i) body) with
    | inl e => if no_verdict e then Ok NoVerdict else Raise e
    | inr issuer =>
      match (body ←? (if arg_file args then file_bytes i
                      else fetch (arg_max_bytes args) (cdp_response i)); load_crl body) with
      | inl e => if no_verdict e then Ok NoVerdict else Raise e
      | inr crl =>
        match check crl issuer revoked absent (arg_prior_crl_number args) (now_at_check i) with
        | inl e => if malformed_crl e then Ok NoVerdict else Raise e
        | inr (_ :: _) => Ok NotProven
        | inr [] => Ok (if bool_decide (revoked = []) then NothingChecked else Verified)
        end
      end
    end
  end.

(** ** What the banner proves *)

Lemma fail_if_nil b f : fail_if b f = [] ↔ b = false.
Proof. by destruct b. Qed.
Lemma filter_nil {A} (P : A → Prop) `{∀ x, Decision (P x)} l :
  filter P l = [] ↔ ∀ x, x ∈ l → ¬ P x.
Proof.
  split.
  - intros Hn x Hx HP. assert (x ∈ filter P l) as Hin by by apply list_elem_of_filter.
    rewrite Hn in Hin. by apply not_elem_of_nil in Hin.
  - intros Hn. destruct (filter P l) as [|x t] eqn:Hl; [done|].
    assert (x ∈ filter P l) as [HP Hx]%list_elem_of_filter by (rewrite Hl; by left). by destruct (Hn x Hx).
Qed.

Lemma map_nil_iff {A B} (f : A → B) l : map f l = [] ↔ l = [].
Proof. by destruct l. Qed.

(** The list says that the certificate with this number is revoked. *)
Definition published (crl : PublishedCrl) (serial : Z) : Prop :=
  ∃ x, (serial, inr x) ∈ crl_entries crl ∧ crl_reason x ≠ Some remove_from_crl.

Lemma listed_ok es l :
  listed_serials es = inr l →
  ∀ s, s ∈ l ↔ ∃ x, (s, inr x) ∈ es ∧ crl_reason x ≠ Some remove_from_crl.
Proof.
  revert l. induction es as [|[t e] es IH]; intros l; cbn [listed_serials].
  { intros [= <-] s. split; [by intros ?%not_elem_of_nil|by intros (x & ?%not_elem_of_nil & _)]. }
  rewrite res_bind_ok. intros (x & -> & Hl). rewrite res_bind_ok in Hl.
  destruct Hl as (rest & Hrest & [= <-]). intros s. specialize (IH _ Hrest s).
  setoid_rewrite elem_of_cons. case_bool_decide as Hx; [rewrite IH|rewrite elem_of_cons, IH]; naive_solver.
Qed.
Lemma entries_clean es :
  entry_failures es = inr [] ↔
  ∀ s e, (s, e) ∈ es → ∃ x, e = inr x ∧ not_attributable x = false.
Proof.
  induction es as [|[t e] es IH]; cbn [entry_failures].
  { split; [|done]. by intros _ s e ?%not_elem_of_nil. }
  rewrite res_bind_ok. setoid_rewrite elem_of_cons. split.
  - intros (x & -> & Hr). rewrite res_bind_ok in Hr. destruct Hr as (rest & Hrest & Hn).
    apply (inj inr), app_nil in Hn as [Hx ->]. apply fail_if_nil in Hx.
    pose proof (proj1 IH Hrest) as Hall. intros s e [[= -> ->]|Hin]; [by exists x|by eapply Hall].
  - intros Hall. destruct (Hall t e) as (x & -> & Hx); [by left|]. exists x. split; [done|].
    rewrite (proj2 IH) by (intros s e' Hin; apply (Hall s e'); by right). simpl. by rewrite Hx.
Qed.
Lemma entries_listed es : entry_failures es = inr [] → ∃ l, listed_serials es = inr l.
Proof.
  rewrite entries_clean. induction es as [|[t e] es IH]; intros Hall; [by eexists|].
  destruct (Hall t e) as (x & -> & _); [by left|].
  destruct IH as [l Hl]; [intros s e' Hin; apply (Hall s e'); by right|].
  cbn [listed_serials]. rewrite Hl. by eexists.
Qed.

(** A base CRL for end-entity certificates of the given issuer, in force. *)
Record acceptable (crl : PublishedCrl) (issuer : IssuerCertificate) (prior : option Z) (now : Z) :
    Prop := {
  ok_issuer : crl_issuer crl = issuer_subject issuer;
  ok_signature : crl_signature_valid crl issuer = inr true;
  ok_extensions : ∃ x, crl_extensions crl = inr x ∧ delta_crl_indicator x = false
    ∧ (∀ e, e ∈ all_extensions x → e.2 = true → e.1 = ISSUING_DISTRIBUTION_POINT)
    ∧ (∀ idp, issuing_distribution_point x = Some idp →
         indirect_crl idp = false ∧ has_only_some_reasons idp = false
         ∧ only_contains_ca_certs idp = false ∧ only_contains_attribute_certs idp = false)
    ∧ (∀ p, prior = Some p → ∃ n, crl_number x = Some n ∧ p < n);
  ok_in_force : crl_last_update crl ≤ now + CLOCK_SKEW
    ∧ ∃ next, crl_next_update crl = Some next ∧ now < next;
  ok_entries : ∀ s e, (s, e) ∈ crl_entries crl → ∃ x, e = inr x ∧ not_attributable x = false;
}.

Lemma authenticity_nil crl issuer :
  authenticity crl issuer = inr [] ↔
  crl_issuer crl = issuer_subject issuer ∧ crl_signature_valid crl issuer = inr true.
Proof.
  unfold authenticity. case_bool_decide as Hi; simpl; [|naive_solver].
  unfold signature_valid. destruct (crl_signature_valid crl issuer) as [[]|[]]; simpl; naive_solver.
Qed.
Lemma scope_nil o :
  scope o = [] ↔ ∀ idp, o = Some idp →
    indirect_crl idp = false ∧ has_only_some_reasons idp = false
    ∧ only_contains_ca_certs idp = false ∧ only_contains_attribute_certs idp = false.
Proof.
  destruct o as [idp|]; simpl; [|done]. rewrite !app_nil, !fail_if_nil, orb_false_iff. naive_solver.
Qed.
Lemma currency_nil crl now :
  currency crl now = [] ↔ crl_last_update crl ≤ now + CLOCK_SKEW
    ∧ ∃ next, crl_next_update crl = Some next ∧ now < next.
Proof.
  unfold currency. rewrite app_nil, fail_if_nil, Z.ltb_ge.
  destruct (crl_next_update crl) as [next|]; [rewrite fail_if_nil, Z.leb_gt|]; naive_solver.
Qed.
Lemma newer_nil number prior :
  newer number prior = [] ↔ ∀ p, prior = Some p → ∃ n, number = Some n ∧ p < n.
Proof.
  destruct prior as [p|]; simpl; [|naive_solver].
  destruct number as [n|]; [rewrite fail_if_nil, Z.leb_gt|]; naive_solver.
Qed.

Lemma check_nil crl issuer revoked absent prior now :
  check crl issuer revoked absent prior now = inr [] ↔
  acceptable crl issuer prior now
  ∧ (∀ s, s ∈ revoked → published crl s) ∧ (∀ s, s ∈ absent → ¬ published crl s).
Proof.
  unfold check. rewrite res_bind_ok. setoid_rewrite res_bind_ok. setoid_rewrite res_bind_ok.
  setoid_rewrite res_bind_ok. split.
  - intros (au & Hau & x & Hx & l & Hl & en & Hen & Hn). apply (inj inr) in Hn.
    rewrite !app_nil, fail_if_nil, !map_nil_iff, !filter_nil, scope_nil, currency_nil, newer_nil in Hn.
    destruct Hn as (-> & Hd & Hc & Hs & Hcur & Hnew & -> & Hr & Ha).
    apply authenticity_nil in Hau as [Hi Hsig]. pose proof (listed_ok _ _ Hl) as Hlisted.
    split; [split; [done|done| |done|by apply entries_clean]|].
    + exists x. split_and!; [done..| |done|done]. intros e He Hcrit. specialize (Hc e He).
      unfold uninterpretable in Hc. rewrite Hcrit in Hc. simpl in Hc.
      by destruct (bool_decide_reflect (e.1 = ISSUING_DISTRIBUTION_POINT)).
    + split; intros s Hin.
      * specialize (Hr s Hin). apply dec_stable in Hr. by apply Hlisted.
      * specialize (Ha s Hin). by rewrite Hlisted in Ha.
  - intros ([Hi Hsig (x & Hx & Hd & Hc & Hs & Hnew) Hcur Hent] & Hr & Ha).
    apply entries_clean in Hent as Hen. destruct (entries_listed _ Hen) as [l Hl].
    exists []. split; [by apply authenticity_nil|]. exists x. split; [done|].
    exists l. split; [done|]. exists []. split; [done|]. f_equal.
    rewrite !app_nil, fail_if_nil, !map_nil_iff, !filter_nil, scope_nil, currency_nil, newer_nil.
    pose proof (listed_ok _ _ Hl) as Hlisted. split_and!; try done; try apply Hcur.
    + intros e He. unfold uninterpretable. destruct e.2 eqn:Hcrit; simpl; [|done].
      by rewrite bool_decide_eq_true_2 by by apply Hc.
    + intros s Hin Hno. apply Hno, Hlisted. by apply Hr.
    + intros s Hin. rewrite Hlisted. by apply Ha.
Qed.

(** A certificate that may be taken for the CA's. *)
Definition trusted_issuer (issuer : IssuerCertificate) (now : Z) : Prop :=
  issuer_not_before issuer ≤ now ≤ issuer_not_after issuer
  ∧ issuer_basic_constraints issuer = inr (Some true)
  ∧ (issuer_key_usage issuer = inr None ∨ issuer_key_usage issuer = inr (Some true)).

Lemma can_sign_ok c :
  can_sign_crls c = inr true ↔
  issuer_basic_constraints c = inr (Some true)
  ∧ (issuer_key_usage c = inr None ∨ issuer_key_usage c = inr (Some true)).
Proof.
  unfold can_sign_crls. destruct (issuer_basic_constraints c) as [[]|[[]|]]; simpl; try naive_solver.
  destruct (issuer_key_usage c) as [[]|[[]|]]; naive_solver.
Qed.
Lemma load_issuer_ok now body issuer :
  load_issuer now body = inr issuer ↔
  issuer_certificates body = inr [issuer] ∧ trusted_issuer issuer now.
Proof.
  unfold load_issuer, trusted_issuer. rewrite res_bind_ok. split.
  - intros (l & -> & Hl). destruct l as [|c []]; [done| |done].
    destruct (_ && _) eqn:Hv; [|done]. apply andb_true_iff in Hv as [H1%Z.leb_le H2%Z.leb_le].
    simpl in Hl. rewrite res_bind_ok in Hl. destruct Hl as ([] & Hc & Hl); [|done].
    injection Hl as <-. by rewrite can_sign_ok in Hc.
  - intros (Hl & [H1 H2] & Hc). exists [issuer]. split; [done|].
    rewrite (proj2 (Z.leb_le _ _) H1), (proj2 (Z.leb_le _ _) H2). simpl.
    by rewrite (proj2 (can_sign_ok issuer) Hc).
Qed.

(** The document that was looked at. *)
Definition retrieved (args : Arguments) (i : Inputs) : Res Exn (list Z) :=
  if arg_file args then file_bytes i else fetch (arg_max_bytes args) (cdp_response i).

(** C36 The banner requires proof.  CRL-PUBLICATION-VERIFIED is printed exactly
    when at least one serial, a negative control and the number of the list
    before were given; the issuer file holds one certificate, of a CA that is
    valid now and may sign CRLs; the document is a base CRL for end-entity
    certificates under that CA's name and valid signature, in force, with
    nothing critical that is not understood, and newer than the list before; it
    says of every serial given that it is revoked, and of no negative control. *)
Theorem publication_verified_iff args i :
  main args i = inr Verified ↔
  ∃ revoked absent prior issuer_body issuer body crl,
    parse_serials (arg_revoked args) = inr revoked ∧ revoked ≠ []
    ∧ parse_serials (arg_absent args) = inr absent ∧ absent ≠ []
    ∧ arg_prior_crl_number args = Some prior ∧ 0 ≤ prior
    ∧ issuer_bytes i = inr issuer_body ∧ issuer_certificates issuer_body = inr [issuer]
    ∧ trusted_issuer issuer (now_at_issuer i)
    ∧ retrieved args i = inr body ∧ load_crl body = inr crl
    ∧ acceptable crl issuer (Some prior) (now_at_check i)
    ∧ (∀ s, s ∈ revoked → published crl s) ∧ (∀ s, s ∈ absent → ¬ published crl s).
Proof.
  unfold main. fold (retrieved args i). split.
  - destruct (parse_serials (arg_revoked args)) as [e|revoked]; [by destruct e|].
    cbn [res_bind]. destruct (parse_serials (arg_absent args)) as [e|absent]; [by destruct e|].
    cbn [res_bind]. destruct (from_option _ _ _) eqn:Hneg; [done|].
    destruct (controls_missing _ _ _) eqn:Hcon; [done|].
    destruct (res_bind _ (issuer_bytes i)) as [e|issuer] eqn:Hi; [by destruct (no_verdict e)|].
    destruct (res_bind _ (retrieved args i)) as [e|crl] eqn:Hc; [by destruct (no_verdict e)|].
    destruct (check _ _ _ _ _ _) as [e|[|]] eqn:Hch; [by destruct (malformed_crl e)| |done].
    case_bool_decide as Hr; [done|]. intros _.
    rewrite res_bind_ok in Hi. destruct Hi as (ib & Hib & Hi%load_issuer_ok).
    rewrite res_bind_ok in Hc. destruct Hc as (body & Hb & Hc).
    unfold controls_missing in Hcon. rewrite (bool_decide_eq_false_2 _ Hr) in Hcon. simpl in Hcon.
    apply orb_false_iff in Hcon as [Ha%bool_decide_eq_false Hp%bool_decide_eq_false].
    destruct (arg_prior_crl_number args) as [prior|]; [|done]. simpl in Hneg.
    apply Z.ltb_ge in Hneg. apply check_nil in Hch as (Hok & Hrev & Habs).
    exists revoked, absent, prior, ib, issuer, body, crl. naive_solver.
  - intros (revoked & absent & prior & ib & issuer & body & crl & -> & Hr & -> & Ha & Hp & Hpos & -> &
      Hc & Ht & Hb & Hl & Hok & Hrev & Habs). rewrite Hp. cbn [res_bind from_option].
    rewrite (proj2 (Z.ltb_ge _ _) Hpos). unfold controls_missing.
    rewrite (bool_decide_eq_false_2 _ Hr), (bool_decide_eq_false_2 _ Ha). simpl.
    rewrite (proj2 (load_issuer_ok _ _ _) (conj Hc Ht)), Hb. simpl. rewrite Hl.
    by rewrite (proj2 (check_nil _ _ _ _ _ _) (conj Hok (conj Hrev Habs))).
Qed.
End tool.

(** A list on which 255 is revoked, and 16 was taken off hold. *)
#[local] Instance demo_publication : PublicationBackend :=
  {| PublishedName := string; PublishedCrl := unit; IssuerCertificate := unit;
     load_der_crl := λ _, inr tt; load_pem_crl := λ _, inl ValueError;
     load_der_issuer := λ _, inr tt; load_pem_issuers := λ _, inl ValueError;
     issuer_subject := λ _, "ca"%string; issuer_not_before := λ _, 0; issuer_not_after := λ _, 1000;
     issuer_basic_constraints := λ _, inr (Some true); issuer_key_usage := λ _, inr None;
     crl_issuer := λ _, "ca"%string; crl_signature_valid := λ _ _, inr true;
     crl_last_update := λ _, 100; crl_next_update := λ _, Some 900;
     crl_extensions := λ _, inr {| delta_crl_indicator := false;
       all_extensions := [(ISSUING_DISTRIBUTION_POINT, true)]; issuing_distribution_point := None;
       crl_number := Some 6 |};
     crl_entries := λ _,
       [(255, inr {| crl_reason := Some key_compromise; entry_extensions := [] |});
        (16, inr {| crl_reason := Some remove_from_crl; entry_extensions := [] |})] |}.
Definition demo_arguments : Arguments :=
  {| arg_revoked := [" 00:FF "%string]; arg_absent := ["0x10"%string];
     arg_prior_crl_number := Some 5; arg_file := false; arg_max_bytes := 4 |}.
Definition demo_inputs : Inputs :=
  {| issuer_bytes := inr []; file_bytes := inl (OSError ""); cdp_response := inr (200, [[1; 2]; [3]]);
     now_at_issuer := 200; now_at_check := 200 |}.
Lemma publication_verified_iff_witness :
  main demo_arguments demo_inputs = inr Verified ∧ published () 255 ∧ ¬ published () 16.
Proof.
  assert (main demo_arguments demo_inputs = inr Verified) as H by (vm_compute; reflexivity).
  split; [exact H|].
  apply publication_verified_iff in H
    as (revoked & absent & prior & ib & issuer & body & crl & Hr & _ & Ha & _ & _ & _ & _ & _ & _
        & _ & _ & _ & Hrev & Habs).
  vm_compute in Hr, Ha. injection Hr as <-. injection Ha as <-. destruct crl.
  split; [apply Hrev|apply Habs]; left.
Defined.
