(* ===== verification/Identifiers.v ===== *)
(** * The identifier gate: [scripts/check_committed_identifiers.py]

    The check that runs before a commit and in CI: reading the denylist,
    scanning text, files and staged content, and the verdict on a repository
    that has no denylist, which depends on its declaration and, where there is
    none, on the whole history.  What git answers ([Git]), the codecs
    ([Codecs]), tomllib ([TomlLoads]) and the files are arguments.  Text has
    the characters U+0000..U+00FF.  The wording of the reports is not
    modelled. *)

From S2P Require Import Prelude PyStr Json Re.
From stdpp Require Import sorting.
Local Open Scope Z_scope.
Local Open Scope res_scope.

(** ** What the gate depends on *)

(** The exceptions: [GateError], a [ValueError] (a [UnicodeDecodeError] is
    one), and any other. *)
Inductive Failure := GateError | ValueError | OtherError.
Inductive ProcessError := CalledProcessError | OSError | UnicodeDecodeError.

(** [subprocess.run]: the standard output, with [text=True] and without. *)
Class Git := {
  git_text : list string → ProcessError + string;
  git_bytes : list string → option string → ProcessError + string;
}.
(** Octets are strings too, a character for each. *)
Class Codecs := {
  decode_utf8 : string → option string;           (* [None]: UnicodeDecodeError *)
  decode_replace : string → string → string;      (* an encoding, errors="replace" *)
  fsdecode : string → string;
}.
Class TomlLoads := toml_loads : string → option dict.   (* [None]: TOMLDecodeError *)
Record FileSystem := {
  lexists : string → bool;
  is_symlink : string → bool;
  is_file : string → bool;
  readlink : string → string;
  first_octets : string → option string;          (* the first read; [None]: OSError *)
  octets : string → option string;                (* and the second *)
}.
Class Environment := {
  environ : string → option string;
  worktree : FileSystem;
  tmp_refuses : string → bool;                    (* writing this entry: OSError *)
}.

(** Text mode: every line ends in a line feed. *)
Fixpoint universal_newlines (s : list ascii) : list ascii :=
  match s with
  | [] => []
  | c :: s' =>
    if code c =? 13 then
      ascii_of_nat 10 :: match s' with
                         | d :: s'' => if code d =? 10 then universal_newlines s''
                                       else universal_newlines s'
                         | [] => []
                         end
    else c :: universal_newlines s'
  end.
Definition as_text (decoded : string) : string := of_chars (universal_newlines (chars decoded)).

(** ** The denylist *)

Definition MIN_IDENTIFIER_LENGTH : Z := 4.
(** [" ".join(token.split())] *)
Definition join_words (token : string) : string :=
  of_chars (join_chars " " (words is_space [] (chars token))).

(** [_filter_identifiers]; a frozenset has no order, [elements] is one. *)
Definition filter_identifiers (identifiers : gset string) : gset string :=
  list_to_set
    (omap (λ i, let token := strip i in
                if MIN_IDENTIFIER_LENGTH <=? slen (join_words token)
                then Some (join_words (lower token)) else None)
       (elements identifiers)).

(** [shlex.split]: the states of its reader, as [shlex.state] has them. *)
Inductive ShlexState :=
  | Between                               (* ' ' *)
  | Word                                  (* 'a' *)
  | Quoted (quote : ascii)
  | Escaped (escapedstate : ShlexState).
Definition is_quote (c : ascii) : bool := (code c =? 34) || (code c =? 39).
Definition is_backslash (c : ascii) : bool := code c =? 92.
Definition shlex_space (c : ascii) : bool := bool_decide (code c ∈ [32; 9; 13; 10]).

Fixpoint shlex (state : ShlexState) (token s : list ascii) : Res Failure (list string) :=
  match s with
  | [] =>
    match state with
    | Between => Ok []
    | Word => Ok [of_chars token]
    | Quoted _ | Escaped _ => Raise ValueError
    end
  | c :: s =>
    match state with
    | Between =>
      if shlex_space c then shlex Between [] s
      else if is_backslash c then shlex (Escaped Word) [] s
      else if is_quote c then shlex (Quoted c) [] s
      else shlex Word [c] s
    | Word =>
      if shlex_space c then ts ←? shlex Between [] s; Ok (of_chars token :: ts)
      else if is_quote c then shlex (Quoted c) token s
      else if is_backslash c then shlex (Escaped Word) token s
      else shlex Word (token ++ [c]) s
    | Quoted q =>
      if bool_decide (c = q) then shlex Word token s
      else if is_backslash c && (code q =? 34) then shlex (Escaped (Quoted q)) token s
      else shlex (Quoted q) (token ++ [c]) s
    | Escaped back =>
      let literal := match back with
                     | Quoted q => negb (is_backslash c) && negb (bool_decide (c = q))
                     | _ => false
                     end in
      shlex back (token ++ (if literal then ["\"%char] else []) ++ [c]) s
    end
  end.
Definition shlex_split (s : string) : Res Failure (list string) := shlex Between [] (chars s).

(** One line of the denylist, without its comment. *)
Definition denylist_line (line : string) : Res Failure (list string) :=
  let content := strip (partition_char "#" line).1 in
  if bool_decide (content = EmptyString) then Ok [] else shlex_split content.
Fixpoint denylist_lines (lines : list string) (tokens : gset string) : Res Failure (gset string) :=
  match lines with
  | [] => Ok tokens
  | line :: lines => ts ←? denylist_line line; denylist_lines lines (tokens ∪ list_to_set ts)
  end.
(** [parse_identifier_set] *)
Definition parse_identifier_set (raw : string) : Res Failure (gset string) :=
  let lines := match splitlines raw with [] => [raw] | lines => lines end in
  tokens ←? denylist_lines lines ∅;
  Ok (filter_identifiers tokens).

(** ** Scanning text *)

Record Violation := {
  identifier : string;
  path : string;
  line_number : nat;
  line : string;
}.

(** [\[\s._\-\]+] *)
Definition PHRASE_SEPARATOR : Item :=
  Many 1 false (λ c, is_space c || bool_decide (code c ∈ [46; 95; 45])).
Fixpoint join_patterns (sep : Item) (parts : list Pattern) : Pattern :=
  match parts with
  | [] => []
  | [part] => part
  | part :: parts => part ++ sep :: join_patterns sep parts
  end.
(** [_phrase_pattern] *)
Definition phrase_pattern (i : string) : Pattern :=
  join_patterns PHRASE_SEPARATOR (map ilit (split_words i)).

(** The loop over [find]: how often an identifier is met, one meeting after the
    other. *)
Fixpoint hits (i : list ascii) (skip : nat) (l : list ascii) : nat :=
  match l with
  | [] => 0
  | _ :: l' =>
    match skip with
    | S skip => hits i skip l'
    | O => if is_prefix i l then S (hits i (length i - 1) l') else hits i 0 l'
    end
  end.

Definition is_phrase (i : string) : bool := has_char " " i.
Definition word_violations (ids : list string) (number : nat) (text : string) : list Violation :=
  mjoin (map (λ i, replicate (hits (chars i) 0 (chars (lower text)))
                     {| identifier := i; path := "."; line_number := number; line := text |})
           (filter (λ i, is_phrase i = false) ids)).
Definition phrase_violations (ids : list string) (text : string) : list Violation :=
  let lines := splitlines text in
  mjoin (map (λ i, map (λ start,
                let number := S (length (filter (λ c, code c = 10) (take start (chars text)))) in
                {| identifier := i; path := "."; line_number := number;
                   line := if (number <=? length lines)%nat
                           then default EmptyString (lines !! (number - 1)%nat)
                           else EmptyString |})
                (match_starts (phrase_pattern i) text))
           (filter (λ i, is_phrase i = true) ids)).
(** [scan_text] *)
Definition scan_text (text : string) (identifiers : gset string) : list Violation :=
  let ids := elements (filter_identifiers identifiers) in
  if bool_decide (ids = []) then []
  else
    mjoin (imap (λ n l, word_violations ids (S n) l) (splitlines text))
    ++ phrase_violations ids text.

(** ** Scanning files *)

Definition _BINARY_SNIFF_LEN : nat := 8192.
Definition bytes_of (codes : list nat) : string := of_chars (map ascii_of_nat codes).
(** [_sniff_encoding], [_is_binary] *)
Definition sniff_encoding (chunk : string) : option string :=
  if startswith chunk (bytes_of [255; 254]%nat) then Some "utf-16-le"%string
  else if startswith chunk (bytes_of [254; 255]%nat) then Some "utf-16-be"%string
  else if startswith chunk (bytes_of [239; 187; 191]%nat) then Some "utf-8-sig"%string
  else None.
Definition is_binary (chunk : string) : bool :=
  match sniff_encoding chunk with
  | Some _ => false
  | None => has_char (ascii_of_nat 0) chunk
  end.

Section files.
Context `{Codecs}.

(** What a path comes to: its violations, or that it cannot be read. *)
Definition scan_file (fs : FileSystem) (identifiers : gset string) (p : string) :
    option (list Violation) :=
  if is_symlink fs p then
    let target := readlink fs p in
    Some (map (λ v, {| identifier := identifier v; path := p; line_number := line_number v;
                       line := target |}) (scan_text target identifiers))
  else match first_octets fs p with
  | None => None
  | Some body =>
    let chunk := of_chars (take _BINARY_SNIFF_LEN (chars body)) in
    if is_binary chunk then Some []
    else match octets fs p with
    | None => None
    | Some body =>
      let text := as_text (decode_replace (default "utf-8"%string (sniff_encoding chunk)) body) in
      Some (map (λ v, {| identifier := identifier v; path := p; line_number := line_number v;
                         line := line v |}) (scan_text text identifiers))
    end
  end.
(** [scan_files]: the violations, and the paths that cannot be read. *)
Fixpoint scan_files (fs : FileSystem) (identifiers : gset string) (paths : list string) :
    list Violation * list string :=
  match paths with
  | [] => ([], [])
  | p :: paths =>
    let '(violations, unreadable) := scan_files fs identifiers paths in
    match scan_file fs identifiers p with
    | Some vs => (vs ++ violations, unreadable)
    | None => (violations, p :: unreadable)
    end
  end.
End files.

(** [p.parts] of a path as git writes it *)
Definition parts (p : string) : list string := PyStr.split "/" p.
(** [leaked_tracked_files] with [_GUARDED_DIRS] *)
Definition leaked (p : string) : bool :=
  bool_decide (head (parts p) = Some "samples"%string)
  || bool_decide (".venv"%string ∈ take (length (parts p) - 1) (parts p)).
Definition leaked_tracked_files (paths : list string) : list string :=
  filter (λ p, leaked p = true) paths.

(** ** Asking git *)

Section git.
Context `{Git, Codecs, TomlLoads, Environment}.

Definition failed (e : ProcessError) : Failure :=
  match e with UnicodeDecodeError => ValueError | CalledProcessError | OSError => GateError end.
(** [_run_git] *)
Definition run_git (args : list string) : Res Failure string :=
  match git_text ("git"%string :: args) with inr out => Ok out | inl e => Raise (failed e) end.
(** The same for octets, as each of its callers does it. *)
Definition run_git_bytes (args : list string) (stdin : option string) : Res Failure string :=
  match git_bytes ("git"%string :: args) stdin with
  | inr out => Ok out
  | inl e => Raise (failed e)
  end.
(** [_git_or_none] *)
Definition git_or_none (args : list string) : Res Failure (option string) :=
  match run_git args with
  | inr out => Ok (Some out)
  | inl GateError => Ok None
  | inl e => Raise e
  end.
(** [_history_run] *)
Definition history_run (args : list string) (stdin : option string) : Res Failure string :=
  run_git_bytes (["--no-replace-objects"; "-c"; "core.commitGraph=false"]%string ++ args) stdin.

Definition NUL : ascii := ascii_of_nat 0.
Definition TAB : ascii := ascii_of_nat 9.
Definition LF : ascii := ascii_of_nat 10.
Definition fields_of (sep : ascii) (out : string) : list string :=
  filter (λ e, e ≠ EmptyString) (PyStr.split sep out).
(** [_paths_from_git] *)
Definition paths_from_git (args : list string) : Res Failure (list string) :=
  out ←? run_git args; Ok (fields_of NUL out).
Definition collect_tracked_paths : Res Failure (list string) :=
  paths_from_git ["ls-files"; "-z"]%string.
Definition collect_staged_paths : Res Failure (list string) :=
  paths_from_git
    ["diff"; "--cached"; "--name-only"; "--diff-filter=ACMT"; "--no-renames"; "-z"]%string.

(** A record of the log: the commit and its message. *)
Definition log_record (record : string) : option (string * string) :=
  match partition_char (ascii_of_nat 31) record with
  | (sha, Some body) => Some (strip sha, body)
  | (_, None) => None
  end.
Definition collect_range_messages (rev_range : string) : Res Failure (list (string * string)) :=
  result ←? run_git (["log"; "--format=%H%x1f%B%x1e"]%string ++ split_words rev_range);
  Ok (omap log_record (PyStr.split (ascii_of_nat 30) result)).

(** ** The declaration *)

Definition declaration_filename : string := "publication.toml".
Definition is_regular (mode : string) : bool :=
  bool_decide (mode = "100644"%string ∨ mode = "100755"%string).
Definition decoded (text : option string) : Res Failure string :=
  match text with Some text => Ok text | None => Raise GateError end.

(** [_staged_declaration_text] *)
Definition staged_declaration_text : Res Failure (option string) :=
  listing ←? run_git ["ls-files"; "--stage"; "-z"; "--";
                      ":(top,literal)" +:+ declaration_filename]%string;
  match fields_of NUL listing with
  | [] => Ok None
  | [entry] =>
    match split_words (partition_char TAB entry).1 with
    | [mode; oid; stage] =>
      if bool_decide (stage = "0"%string) && is_regular mode then
        blob ←? run_git_bytes ["cat-file"; "blob"; oid]%string None;
        text ←? decoded (decode_utf8 blob);
        Ok (Some text)
      else Raise GateError
    | _ => Raise GateError
    end
  | _ => Raise GateError
  end.

(** [declared.strip().casefold()]; of the characters here, casefold and lower
    differ on two only, whose images no visibility has. *)
Definition normalised (declared : string) : string := lower (strip declared).
(** [_text_declares_private] *)
Definition text_declares_private (text : string) : bool :=
  match toml_loads text with
  | None => false
  | Some raw =>
    match dict_get "publication" raw with
    | Some (JObj section) =>
      match dict_get "visibility" section with
      | Some (JStr declared) => bool_decide (normalised declared = "private-until-review"%string)
      | _ => false
      end
    | _ => false
    end
  end.

(** [_require_verified_objects] *)
Definition is_set (var : string) : bool :=
  negb (bool_decide (default EmptyString (environ var) = EmptyString)).
Definition require_verified_objects : Res Failure unit :=
  if is_set "GIT_OBJECT_DIRECTORY" || is_set "GIT_ALTERNATE_OBJECT_DIRECTORIES"
  then Raise GateError
  else
    run_git_bytes ["--no-replace-objects"; "fsck"; "--full"; "--no-dangling"; "--no-progress"]%string
      None;;?
    Ok tt.

(** [_require_whole_history] *)
Definition require_whole_history : Res Failure unit :=
  shallow ←? run_git ["rev-parse"; "--is-shallow-repository"]%string;
  if negb (bool_decide (strip shallow = "false"%string)) then Raise GateError
  else
    grafts ←? run_git ["rev-parse"; "--git-path"; "info/grafts"]%string;
    if lexists worktree (strip grafts) then Raise GateError
    else
      listing ←? history_run ["rev-list"; "--objects"; "--missing=print"; "HEAD"; "--all"]%string None;
      if existsb (λ l, startswith l "?") (byte_lines listing) then Raise GateError
      else require_verified_objects.

(** ** The verdict where there is no declaration *)

(** The walk: each commit with its parents, and the order of the walk. *)
Record Walk := MkWalk {
  graph : gmap string (list string);
  order : list string;
}.
Definition walk_line (w : Walk) (line : string) : Walk :=
  match split_words line with
  | commit :: parents => MkWalk (<[commit := parents]> (graph w)) (order w ++ [commit])
  | [] => w
  end.
Definition read_walk (text : string) : Walk :=
  fold_left walk_line
    (filter (λ l, strip l ≠ EmptyString) (splitlines text)) (MkWalk ∅ []).

(** [tips]: commits that no commit of the walk has as a parent *)
Definition parented (w : Walk) : list string := mjoin (map_to_list (graph w)).*2.
Definition tips (w : Walk) : list string := filter (λ c, c ∉ parented w) (order w).

(** [present]: no declaration, one that is not a regular file (the empty
    string), or the blob of one. *)
Definition ends_with (s suffix : string) : bool :=
  is_prefix (reverse (chars suffix)) (reverse (chars s)).
Definition entry_of (row : string) : option string :=
  if ends_with row " missing" then None
  else match split_words row with
  | [mode; kind; oid] =>
    if is_regular mode && bool_decide (kind = "blob"%string) then Some oid else Some EmptyString
  | _ => Some EmptyString
  end.
Definition present_of (order checked : list string) : gmap string (option string) :=
  fold_left (λ m '(commit, row), <[commit := entry_of row]> m) (zip order checked) ∅.

(** [sorted({oid for oid in present.values() if oid})] *)
Definition string_le (s t : string) : Prop := String.leb s t = true.
#[local] Instance string_le_dec : RelDecision string_le := λ s t, decide (String.leb s t = true).
Definition sorted_names (names : list string) : list string :=
  merge_sort string_le (remove_dups names).
Definition blobs_of (present : gmap string (option string)) : list string :=
  sorted_names (filter (λ oid, oid ≠ EmptyString) (omap id (map_to_list present).*2)).

(** An object of [cat-file --batch]: the fields of its header, and what
    follows.  A size is a decimal number without sign, as git writes it. *)
Definition batch_header (out : list ascii) : Res Failure (list string * list ascii) :=
  match find_char LF out with
  | None => Raise ValueError
  | Some header_end =>
    Ok (byte_words (of_chars (take header_end out)), drop (S header_end) out)
  end.
Definition size_of (field : string) : Res Failure nat :=
  match py_int field with
  | Some n => if 0 <=? n then Ok (Z.to_nat n) else Raise ValueError
  | None => Raise ValueError
  end.
Fixpoint read_blobs (blobs : list string) (out : list ascii) (private_blob : gmap string bool) :
    Res Failure (gmap string bool) :=
  match blobs with
  | [] => Ok private_blob
  | oid :: blobs =>
    header ←? batch_header out;
    match header.1 !! 2%nat with
    | None => Raise OtherError
    | Some field =>
      size ←? size_of field;
      let data := of_chars (take size header.2) in
      let verdict := match decode_utf8 data with
                     | Some text => text_declares_private text
                     | None => false
                     end in
      read_blobs blobs (drop (S size) header.2) (<[oid := verdict]> private_blob)
    end
  end.
Definition requests (lines : list string) : string :=
  String.concat "" (map (λ l, l +:+ String LF EmptyString) lines)%string.

(** One turn of the loop that fills [safe]. *)
Definition judge (graph : gmap string (list string)) (present : gmap string (option string))
    (private_blob : gmap string bool) (safe : gmap string bool) (commit : string) :
    gmap string bool :=
  <[commit :=
      match present !! commit with
      | Some (Some entry) =>
        negb (bool_decide (entry = EmptyString)) && default false (private_blob !! entry)
      | _ => forallb (λ p, default true (safe !! p)) (default [] (graph !! commit))
      end]> safe.
Definition judge_all (w : Walk) (present : gmap string (option string))
    (private_blob : gmap string bool) : gmap string bool :=
  fold_left (judge (graph w) present private_blob) (reverse (order w)) ∅.

(** HEAD does not resolve. *)
Definition unborn_verdict : Res Failure bool :=
  require_verified_objects;;?
  kinds ←? history_run ["cat-file"; "--batch-all-objects"; "--batch-check=%(objecttype)"]%string None;
  if bool_decide ("commit"%string ∈ byte_words kinds) then Raise GateError else Ok false.

(** The rows of the batch check, one for each commit. *)
Definition declaration_rows (order : list string) : Res Failure (list string) :=
  out ←? history_run ["cat-file"; "--batch-check=%(objectmode) %(objecttype) %(objectname)"]%string
           (Some (requests (map (λ c, c +:+ ":" +:+ declaration_filename)%string order)));
  let checked := splitlines (decode_replace "utf-8" out) in
  if bool_decide (length checked = length order) then Ok checked else Raise GateError.
Definition private_blobs (blobs : list string) : Res Failure (gmap string bool) :=
  match blobs with
  | [] => Ok ∅
  | _ =>
    out ←? history_run ["cat-file"; "--batch"]%string (Some (requests blobs));
    read_blobs blobs (chars out) ∅
  end.
(** The walk, the commit of HEAD, and the rows. *)
Definition read_history : Res Failure (Walk * string * list string) :=
  walk ←? history_run ["rev-list"; "--topo-order"; "--parents"; "HEAD"; "--exclude=refs/stash";
                       "--all"]%string None;
  let w := read_walk (decode_replace "ascii" walk) in
  out ←? run_git ["rev-parse"; "--verify"; "HEAD^{commit}"]%string;
  checked ←? declaration_rows (order w);
  Ok (w, strip out, checked).
Definition history_verdict : Res Failure bool :=
  require_whole_history;;?
  history ←? read_history;
  let '(w, head, checked) := history in
  let present := present_of (order w) checked in
  private_blob ←? private_blobs (blobs_of present);
  let safe := judge_all w present private_blob in
  if default false (safe !! head) && forallb (λ t, default false (safe !! t)) (tips w)
  then Ok false else Raise GateError.
(** [_absent_declaration_verdict] *)
Definition absent_declaration_verdict : Res Failure bool :=
  head ←? git_or_none ["rev-parse"; "--verify"; "-q"; "HEAD"]%string;
  match head with
  | None => unborn_verdict
  | Some _ => history_verdict
  end.

(** ** Is the repository public: [_declares_public] *)

Definition visibility_verdict (text : string) : Res Failure bool :=
  match toml_loads text with
  | None => Raise GateError
  | Some raw =>
    match dict_get "publication" raw with
    | Some (JObj section) =>
      match dict_get "visibility" section with
      | Some (JStr declared) =>
        if bool_decide (normalised declared = "public"%string) then Ok true
        else if bool_decide (normalised declared = "private-until-review"%string) then Ok false
        else Raise GateError
      | _ => Raise GateError
      end
    | _ => Raise GateError
    end
  end.
Definition declares_public (from_index : bool) : Res Failure bool :=
  out ←? run_git ["rev-parse"; "--show-toplevel"]%string;
  if from_index then
    text ←? staged_declaration_text;
    match text with
    | None => absent_declaration_verdict
    | Some text => visibility_verdict text
    end
  else
    let path := (strip out +:+ "/" +:+ declaration_filename)%string in
    if negb (lexists worktree path) then absent_declaration_verdict
    else if is_symlink worktree path || negb (is_file worktree path) then Raise GateError
    else
      text ←? decoded (body ← octets worktree path; decode_utf8 body);
      visibility_verdict (as_text text).

(** ** The gate *)

(** [_unconfigured] *)
Definition unconfigured (from_index : bool) : Res Failure unit :=
  public ←? declares_public from_index;
  if public : bool then Raise GateError else Ok tt.
(** [_resolve_identifiers] *)
Definition resolve_identifiers (from_index : bool) : Res Failure (option (gset string)) :=
  let raw := default EmptyString (environ "FORBIDDEN_IDENTIFIERS") in
  if bool_decide (strip raw = EmptyString) then unconfigured from_index;;? Ok None
  else
    identifiers ←? parse_identifier_set raw;
    if bool_decide (identifiers = ∅) then unconfigured from_index;;? Ok None
    else Ok (Some identifiers).

(** [_scan_message_file] *)
Definition message_lines (text : string) : string :=
  String.concat (String LF EmptyString) (filter (λ l, startswith l "#" = false) (splitlines text)).
Definition scan_message_file (from_index : bool) (path : string) : Res Failure Z :=
  identifiers ←? resolve_identifiers from_index;
  match identifiers with
  | None => Ok 0
  | Some ids =>
    body ←? decoded (octets worktree path);
    let kept := message_lines (as_text (decode_replace "utf-8" body)) in
    Ok (if bool_decide (scan_text kept ids = []) then 0 else 1)
  end.

(** [_scan_rev_range] *)
Definition scan_rev_range (from_index : bool) (rev_range : string) : Res Failure Z :=
  identifiers ←? resolve_identifiers from_index;
  match identifiers with
  | None => Ok 0
  | Some ids =>
    messages ←? collect_range_messages rev_range;
    Ok (if forallb (λ m, bool_decide (scan_text m.2 ids = [])) messages then 0 else 1)
  end.

(** [_scan_index_snapshot].  The staged entries of the wanted paths, with mode
    and object. *)
Definition staged_entry (wanted : list string) (entries : gmap string (string * string))
    (record : string) : Res Failure (gmap string (string * string)) :=
  match partition_char TAB record with
  | (_, None) => Ok entries
  | (meta, Some name) =>
    match split_words meta with
    | [mode; oid; stage] =>
      if bool_decide (name ∈ wanted) && bool_decide (stage = "0"%string)
         && (is_regular mode || bool_decide (mode = "120000"%string))
      then Ok (<[name := (mode, oid)]> entries) else Ok entries
    | _ => Raise ValueError
    end
  end.
Fixpoint staged_entries (wanted records : list string) (entries : gmap string (string * string)) :
    Res Failure (gmap string (string * string)) :=
  match records with
  | [] => Ok entries
  | record :: records =>
    entries ←? staged_entry wanted entries record;
    staged_entries wanted records entries
  end.
Fixpoint staged_blobs (names : list string) (out : list ascii) (blobs : gmap string string) :
    Res Failure (gmap string string) :=
  match names with
  | [] => Ok blobs
  | name :: names =>
    header ←? batch_header out;
    match header.1 with
    | [_; kind; field] =>
      if bool_decide (kind = "blob"%string) then
        size ←? size_of field;
        staged_blobs names (drop (S size) header.2)
          (<[name := of_chars (take size header.2)]> blobs)
      else Raise GateError
    | _ => Raise GateError
    end
  end.
(** The private directory. *)
Definition snapshot (entries : gmap string (string * string)) (blobs : gmap string string) :
    FileSystem :=
  {| lexists := λ p, bool_decide (is_Some (blobs !! p));
     is_symlink := λ p, bool_decide (fst <$> entries !! p = Some "120000"%string);
     is_file := λ p, bool_decide (is_Some (blobs !! p));
     readlink := λ p, fsdecode (default EmptyString (blobs !! p));
     first_octets := λ p, blobs !! p;
     octets := λ p, blobs !! p |}.
Definition index_snapshot (paths : list string) : Res Failure FileSystem :=
  out ←? run_git ["rev-parse"; "--show-toplevel"]%string;
  let repo_root := strip out in
  listing ←? run_git ["-C"; repo_root; "ls-files"; "--stage"; "-z"]%string;
  entries ←? staged_entries paths (fields_of NUL listing) ∅;
  let names := sorted_names (map_to_list entries).*1 in
  blobs ←? (match names with
            | [] => Ok ∅
            | _ =>
              out ←? run_git_bytes ["-C"; repo_root; "cat-file"; "--batch"]%string
                       (Some (requests (omap (λ n, snd <$> entries !! n) names)));
              staged_blobs names (chars out) ∅
            end);
  if existsb tmp_refuses names then Raise GateError else Ok (snapshot entries blobs).
Definition scan_index_snapshot (identifiers : gset string) (paths : list string) :
    Res Failure (list Violation * list string) :=
  fs ←? index_snapshot paths;
  Ok (scan_files fs identifiers paths).

Inductive Mode :=
  | MessageFile (path : string)
  | RevRange (range : string)
  | Tree.
(** [_run] *)
Definition run (staged : bool) (mode : Mode) : Res Failure Z :=
  match mode with
  | MessageFile path => scan_message_file staged path
  | RevRange range => scan_rev_range staged range
  | Tree =>
    paths ←? (if staged then collect_staged_paths else collect_tracked_paths);
    if negb (bool_decide (leaked_tracked_files paths = [])) then Ok 1
    else
      identifiers ←? resolve_identifiers staged;
      match identifiers with
      | None => Ok 0
      | Some ids =>
        result ←? (if staged then scan_index_snapshot ids paths
                   else Ok (scan_files worktree ids paths));
        Ok (if bool_decide (result.1 = []) && bool_decide (result.2 = []) then 0 else 1)
      end
  end.
(** [main]: the exit code.  What is not caught ends the process with 1 too. *)
Definition main (staged : bool) (mode : Mode) : Z :=
  match run staged mode with inr code => code | inl _ => 1 end.
End git.
