(* ===== verification/StoreInv.v ===== *)
(** * The store's invariant and how rows evolve

    [wf] is what every reachable database satisfies; [db_le] says what a later
    database may have changed of an earlier one.  Both are proved of every
    operation compositionally: [tx_ok] of a transaction body follows from
    [tx_ok] of its statements. *)

From S2P Require Import Prelude PyStr Exn Json Jwk Sql Db X509 StoreAudit StoreAccounts.
From S2P Require Import StoreOrders StoreCerts StoreRecovery.
Local Open Scope Z_scope.

(** ** Orders *)

Module OrderLife.
Import OrderStatus.
(** The life of an order: status and lease generation. *)
Inductive edge : t * Z → t * Z → Prop :=
  | validated g : edge (PENDING, g) (READY, g)
  | expired_pending g : edge (PENDING, g) (INVALID, g)
  | expired_ready g : edge (READY, g) (INVALID, g)
  | leased g : edge (READY, g) (PROCESSING, g + 1)
  | reclaimed g : edge (PROCESSING, g) (READY, g)
  | issued g : edge (PROCESSING, g) (VALID, g)
  | failed g : edge (PROCESSING, g) (INVALID, g)
  | revoked_unflipped g : edge (PROCESSING, g) (REVOKED, g)
  | revoked g : edge (VALID, g) (REVOKED, g).

Definition state (o : Order.t) : t * Z := (Order.status o, Order.processing_generation o).

(** What no operation changes. *)
Definition fixed (o : Order.t) :=
  (Order.id o, Order.account_id o, Order.identifiers o, Order.finalize_url o,
   Order.expires o, Order.created_at o).

Definition le (o o' : Order.t) : Prop := fixed o' = fixed o ∧ rtc edge (state o) (state o').

#[global] Instance le_preorder : PreOrder le.
Proof.
  split; [by intros o; split|]. intros a b c [Hab ?] [Hbc ?].
  split; [congruence|by etrans].
Qed.
End OrderLife.
#[global] Hint Constructors OrderLife.edge : core.

(** Reachability in an order's life. *)
Lemma edge_generation s g s' g' :
  OrderLife.edge (s, g) (s', g') → g <= g' ∧ (s' = OrderStatus.PROCESSING → g < g').
Proof. inversion 1; subst; split; try lia; intros; try done; lia. Qed.

Lemma edges_generation c c' : rtc OrderLife.edge c c' → c.2 <= c'.2.
Proof.
  induction 1 as [|[s g] [s1 g1] c' Hedge _ IH]; [lia|].
  apply edge_generation in Hedge. simpl in *. lia.
Qed.

(** ** Certificates *)

Module CertLife.
Definition fixed (c : Cert.t) :=
  (Cert.id c, Cert.order_id c, Cert.account_id c, Cert.cert_pem c, Cert.template c,
   Cert.requester c, Cert.issued_at c, Cert.metadata c, Cert.serial_number c,
   Cert.not_before c, Cert.not_after c).
(** Revocation is final and keeps its first reason and time; CA-side
    confirmation is final; a chain is only ever filled in. *)
Definition le (c c' : Cert.t) : Prop :=
  fixed c' = fixed c
  ∧ (Cert.status c' = Cert.status c ∧ Cert.revoked_at c' = Cert.revoked_at c
       ∧ Cert.revocation_reason c' = Cert.revocation_reason c
     ∨ Cert.status c = CertStatus.VALID ∧ Cert.status c' = CertStatus.REVOKED)
  ∧ (Cert.ca_crl_updated c = true → Cert.ca_crl_updated c' = true)
  ∧ (Cert.chain_pem c' = Cert.chain_pem c ∨ chain_empty (Cert.chain_pem c)).

#[global] Instance le_preorder : PreOrder le.
Proof.
  split; [intros c; unfold le; tauto|].
  intros a b c (Hab & Hs & Hu & Hc) (Hbc & Hs' & Hu' & Hc').
  split; [congruence|]. split; [|split; [tauto|]].
  - destruct Hs as [(?&?&?)|(?&?)], Hs' as [(?&?&?)|(?&?)];
      first [left; repeat split; congruence | right; split; congruence].
  - destruct Hc as [Hc|]; [|by right]. rewrite Hc in Hc'. destruct Hc'; [left|right]; congruence.
Qed.
End CertLife.

(** ** Accounts and audit rows *)

Module AccountLife.
Definition le (a a' : Account.t) : Prop :=
  Account.id a' = Account.id a ∧ Account.eab_kid a' = Account.eab_kid a
  ∧ Account.contact a' = Account.contact a ∧ Account.created_at a' = Account.created_at a
  ∧ (Account.status a = AccountStatus.DEACTIVATED →
     Account.status a' = AccountStatus.DEACTIVATED).
#[global] Instance le_preorder : PreOrder le.
Proof.
  split; [intros a; unfold le; tauto|]. unfold le.
  intros a b c (?&?&?&?&?) (?&?&?&?&?). repeat split; try congruence. tauto.
Qed.
End AccountLife.

(** ** Tables *)

(** Rows stay where they are and evolve by [R]; new rows come after them. *)
Definition table_le {A} (R : relation A) (t t' : list A) : Prop :=
  ∀ i x, t !! i = Some x → ∃ x', t' !! i = Some x' ∧ R x x'.

#[global] Instance table_le_preorder {A} (R : relation A) `{!PreOrder R} :
  PreOrder (table_le R).
Proof.
  split.
  - intros t i x Hx. by exists x.
  - intros t1 t2 t3 H12 H23 i x Hx. destruct (H12 i x Hx) as (y & Hy & ?).
    destruct (H23 i y Hy) as (z & Hz & ?). exists z. split; [done|by etrans].
Qed.

Lemma table_le_app {A} (R : relation A) `{!PreOrder R} t t' : table_le R t (t ++ t').
Proof. intros i x Hx. exists x. split; [by apply lookup_app_l_Some|done]. Qed.

Lemma table_le_update {A} (R : relation A) `{!PreOrder R} p `{∀ x, Decision (p x)} f t :
  (∀ x, p x → R x (f x)) → table_le R t (update_where p f t).
Proof.
  intros Hf i x Hx. rewrite lookup_update_where, Hx. simpl. eexists. split; [done|].
  case_decide; [by apply Hf|done].
Qed.

Record db_le (d d' : Db) : Prop := {
  le_orders : table_le OrderLife.le (orders d) (orders d');
  le_certs : table_le CertLife.le (certificates d) (certificates d');
  le_accounts : table_le AccountLife.le (accounts d) (accounts d');
  le_audit_seq : audit_seq d <= audit_seq d';
  le_idx : idx_certificates_order d' = idx_certificates_order d
           ∧ idx_accounts_thumbprint_unique d' = idx_accounts_thumbprint_unique d;
}.

#[global] Instance db_le_preorder : PreOrder db_le.
Proof.
  split.
  - intros d. split; [reflexivity..|lia|done].
  - intros a b c [] []. split; [by etrans..|lia|naive_solver congruence].
Qed.

(** ** Row invariants *)

Definition order_wf (o : Order.t) : Prop :=
  0 <= Order.processing_generation o
  ∧ (Order.status o = OrderStatus.PENDING → Order.processing_generation o = 0)
  ∧ (Order.status o = OrderStatus.PROCESSING →
     1 <= Order.processing_generation o ∧ is_Some (Order.processing_started_at o))
  ∧ (Order.status o = OrderStatus.VALID → is_Some (Order.certificate_url o)).

Definition cert_wf (c : Cert.t) : Prop :=
  (Cert.status c = CertStatus.VALID → Cert.ca_crl_updated c = false)
  ∧ (Cert.status c ≠ CertStatus.VALID → is_Some (Cert.revoked_at c)).

(** Audit ids strictly increase, and stay below the sequence. *)
Definition audit_wf (seq : Z) (t : list Audit.t) : Prop :=
  Sorted.StronglySorted Z.lt (map Audit.id t) ∧ Forall (λ a, Audit.id a <= seq) t.

Record wf (d : Db) : Prop := {
  wf_accounts : unique (Some ∘ Account.id) (accounts d);
  wf_thumbprints : idx_accounts_thumbprint_unique d = true →
    unique Account.jwk_thumbprint (accounts d);
  wf_nonces : unique (Some ∘ Nonce.nonce) (nonces d);
  wf_orders : unique (Some ∘ Order.id) (orders d);
  wf_order_rows : Forall order_wf (orders d);
  wf_authz : unique (Some ∘ Authz.id) (authorizations d);
  wf_challenges : unique (Some ∘ Challenge.id) (challenges d);
  wf_certs : unique (Some ∘ Cert.id) (certificates d);
  wf_cert_orders : idx_certificates_order d = true →
    unique (Some ∘ Cert.order_id) (certificates d);
  wf_cert_rows : Forall cert_wf (certificates d);
  wf_audit : audit_wf (audit_seq d) (audit_log d);
  wf_watermark : unique (Some ∘ Watermark.issuer_key) (crl_watermark d);
}.

Lemma unique_nil {R K} (key : R → option K) : unique key [].
Proof. by intros i j r1 r2 k Hi. Qed.

Lemma wf_empty : wf empty_db.
Proof.
  split; simpl; try (intros; apply unique_nil); try constructor.
  all: constructor.
Qed.

(** ** Transactions that keep the invariant *)

Definition tx_ok {A} (m : Tx A) : Prop :=
  ∀ d x d', wf d → m d = inr (x, d') → wf d' ∧ db_le d d'.

Create HintDb store discriminated.

Lemma tx_ok_ret {A} (x : A) : tx_ok (mret x).
Proof. by intros d y d' ? [= <- <-]. Qed.
Lemma tx_ok_raise {A} e : tx_ok (tx_raise (A:=A) e).
Proof. by intros d y d' ?. Qed.
Lemma tx_ok_get : tx_ok tx_get.
Proof. by intros d y d' ? [= <- <-]. Qed.
Lemma tx_ok_of_res {A} (r : Res Exn A) : tx_ok (tx_of_res r).
Proof. intros d y d' ?. unfold tx_of_res. destruct r; [done|]. by intros [= <- <-]. Qed.
Lemma tx_ok_read {A} (f : Db → A) : tx_ok (λ d, inr (f d, d)).
Proof. by intros d y d' ? [= <- <-]. Qed.

Lemma tx_ok_bind {A B} (m : Tx A) (k : A → Tx B) :
  tx_ok m → (∀ x, tx_ok (k x)) → tx_ok (m ≫= k).
Proof.
  intros Hm Hk d y d' Hwf. unfold mbind, tx_bind.
  destruct (m d) as [|[x d1]] eqn:Hmd; [done|]. intros Hkd.
  destruct (Hm d x d1 Hwf Hmd) as [Hwf1 Hle1].
  destruct (Hk x d1 y d' Hwf1 Hkd) as [Hwf2 Hle2].
  split; [done|by etrans].
Qed.

Lemma tx_ok_if {A} (b : bool) (m1 m2 : Tx A) :
  tx_ok m1 → tx_ok m2 → tx_ok (if b then m1 else m2).
Proof. by destruct b. Qed.

(** ** Orders *)

Lemma OrderLife_update_le p `{∀ o, Decision (p o)} f t :
  (∀ o, p o → OrderLife.le o (f o)) → table_le OrderLife.le t (update_where p f t).
Proof. apply table_le_update, _. Qed.

Lemma Forall_update_where {A} (P : A → Prop) p `{∀ x, Decision (p x)} f (t : list A) :
  (∀ x, p x → P x → P (f x)) → Forall P t → Forall P (update_where p f t).
Proof.
  intros Hf Ht. unfold update_where. apply List.Forall_map.
  eapply Forall_impl; [exact Ht|]. intros x Hx. simpl. case_decide; auto.
Qed.

Lemma tx_ok_update_orders p `{∀ o, Decision (p o)} f :
  (∀ o, p o → OrderLife.le o (f o) ∧ (order_wf o → order_wf (f o))) →
  tx_ok (update_orders p f).
Proof.
  intros Hf d x d' [] [= <- <-]. split; split; simpl; try done; try lia.
  - unfold update_where. intros i j r1 r2 k. rewrite !list_lookup_fmap.
    intros (o1 & Ho1 & ->)%fmap_Some (o2 & Ho2 & ->)%fmap_Some.
    assert (∀ o, Order.id (if decide (p o) then f o else o) = Order.id o) as Hid.
    { intros o. case_decide as Hp; [|done]. destruct (Hf o Hp) as [[Hfix _] _].
      unfold OrderLife.fixed in Hfix. congruence. }
    simpl. rewrite !Hid. intros. by eapply (wf_orders0 i j o1 o2 k).
  - apply Forall_update_where; [|done]. intros o Hp. by apply Hf.
  - apply OrderLife_update_le. intros o Hp. by apply Hf.
Qed.

Lemma tx_ok_insert_order row : order_wf row → tx_ok (insert_order row).
Proof.
  intros Hrow d x d' []. unfold tx_insert, order_clash.
  destruct (violates _ _ _) eqn:Hv; [done|]. intros [= <- <-].
  split; split; simpl; try done; try lia.
  - by apply unique_app_singleton.
  - apply Forall_app; split; [done|]. by constructor.
  - apply table_le_app, _.
Qed.

(** ** Certificates *)

Lemma unique_update_on {R K} (key : R → option K) p `{∀ x, Decision (p x)} f t :
  (∀ x, p x → key (f x) = key x) → unique key t → unique key (update_where p f t).
Proof.
  intros Hf Hu i j r1 r2 k. rewrite !lookup_update_where.
  intros (o1 & Ho1 & ->)%fmap_Some (o2 & Ho2 & ->)%fmap_Some.
  assert (∀ o, key (if decide (p o) then f o else o) = key o) as Hid.
  { intros o. case_decide; auto. }
  rewrite !Hid. intros. exact (Hu i j o1 o2 k Ho1 Ho2 ltac:(done) ltac:(done)).
Qed.

Lemma tx_ok_update_certs p `{∀ c, Decision (p c)} f :
  (∀ c, p c → CertLife.le c (f c) ∧ (cert_wf c → cert_wf (f c))) →
  tx_ok (update_certs p f).
Proof.
  intros Hf d x d' [] [= <- <-].
  assert (∀ c, p c → Cert.id (f c) = Cert.id c ∧ Cert.order_id (f c) = Cert.order_id c)
    as Hid.
  { intros c Hp. destruct (Hf c Hp) as [[Hfix _] _]. unfold CertLife.fixed in Hfix.
    split; congruence. }
  split; split; simpl; try done; try lia.
  - apply unique_update_on; [|done]. intros c Hp. simpl. f_equal. by apply Hid.
  - intros ?. apply unique_update_on; [|auto]. intros c Hp. simpl. f_equal. by apply Hid.
  - apply Forall_update_where; [|done]. intros c Hp. by apply Hf.
  - apply table_le_update; [apply _|]. intros c Hp. by apply Hf.
Qed.

Lemma tx_ok_insert_cert row : cert_wf row → tx_ok (insert_cert row).
Proof.
  intros Hrow d x d' []. unfold tx_insert, cert_clash.
  destruct (violates (Some ∘ Cert.id) _ _) eqn:Hv; [done|].
  destruct (idx_certificates_order d && _) eqn:Hv2; [done|]. intros [= <- <-].
  split; split; simpl; try done; try lia.
  - by apply unique_app_singleton.
  - intros Hidx. rewrite Hidx in Hv2. apply unique_app_singleton; auto.
  - apply Forall_app; split; [done|]. by constructor.
  - apply table_le_app, _.
Qed.

(** ** Accounts *)

Lemma tx_ok_insert_account row : tx_ok (insert_account row).
Proof.
  intros d x d' []. unfold tx_insert, account_clash.
  destruct (violates (Some ∘ Account.id) _ _) eqn:Hv; [done|].
  destruct (idx_accounts_thumbprint_unique d && _) eqn:Hv2; [done|]. intros [= <- <-].
  split; split; simpl; try done; try lia.
  - by apply unique_app_singleton.
  - intros Hidx. rewrite Hidx in Hv2. apply unique_app_singleton; auto.
  - apply table_le_app, _.
Qed.

Lemma tx_ok_update_accounts p `{∀ a, Decision (p a)} f :
  (∀ a, p a → AccountLife.le a (f a) ∧ Account.jwk_thumbprint (f a) = Account.jwk_thumbprint a) →
  tx_ok (update_accounts p f).
Proof.
  intros Hf d x d' [] [= <- <-].
  split; split; simpl; try done; try lia.
  - apply unique_update_on; [|done]. intros a Hp. simpl. f_equal. by apply (Hf a Hp).
  - intros ?. apply unique_update_on; [|auto]. intros a Hp. by apply Hf.
  - apply table_le_update; [apply _|]. intros a Hp. by apply Hf.
Qed.

Lemma unique_NoDup_omap {R K} (key : R → option K) t :
  NoDup (omap key t) ↔ unique key t.
Proof.
  induction t as [|x t IH]; simpl.
  { split; [intros; apply unique_nil|constructor]. }
  assert (unique key (x :: t) ↔
          unique key t ∧ ∀ y k, y ∈ t → key y = Some k → key x ≠ Some k) as ->.
  { split.
    - intros Hu. split.
      + intros i j r1 r2 k H1 H2 K1 K2.
        pose proof (Hu (S i) (S j) r1 r2 k H1 H2 K1 K2). lia.
      + intros y k [j Hj]%list_elem_of_lookup Hk Hx.
        by pose proof (Hu 0%nat (S j) x y k eq_refl Hj Hx Hk).
    - intros [Hu Hx] [|i] [|j] r1 r2 k H1 H2 K1 K2; simplify_eq/=; [done| | |].
      + apply list_elem_of_lookup_2 in H2. by destruct (Hx _ _ H2 K2).
      + apply list_elem_of_lookup_2 in H1. by destruct (Hx _ _ H1 K1).
      + f_equal. by eapply (Hu i j). }
  destruct (key x) as [k|] eqn:Hk; simpl.
  - rewrite NoDup_cons, list_elem_of_omap, IH. split.
    + intros [Hno Hu]. split; [done|]. intros y k' Hy Hky [= ->]. apply Hno. by exists y.
    + intros [Hu Hno]. split; [|done]. intros (y & Hy & Hky). by eapply Hno.
  - rewrite IH. split; [|tauto]. intros Hu. by split.
Qed.

Lemma tx_ok_update_account_keys p `{∀ a, Decision (p a)} f :
  (∀ a, p a → AccountLife.le a (f a)) → tx_ok (update_account_keys p f).
Proof.
  intros Hf d x d' []. unfold update_account_keys.
  destruct (idx_accounts_thumbprint_unique d && _) eqn:Hv; [done|]. intros [= <- <-].
  split; split; simpl; try done; try lia.
  - apply unique_update_on; [|done]. intros a Hp. simpl. f_equal. by apply (Hf a Hp).
  - intros Hidx. rewrite Hidx in Hv. simpl in Hv. apply negb_false_iff in Hv.
    apply bool_decide_eq_true in Hv. by apply unique_NoDup_omap.
  - apply table_le_update; [apply _|]. intros a Hp. by apply Hf.
Qed.

(** ** The audit log *)

Lemma StronglySorted_snoc (l : list Z) x :
  Sorted.StronglySorted Z.lt l → Forall (λ y, y < x) l →
  Sorted.StronglySorted Z.lt (l ++ [x]).
Proof.
  induction 1 as [|y l Hl IH Hy]; simpl; intros Hall.
  { repeat constructor. }
  apply Forall_cons in Hall as [Hyx Hall]. constructor; [by apply IH|].
  apply Forall_app; split; [done|]. by constructor.
Qed.

Lemma Forall_filter_l {A} (P : A → Prop) p `{∀ x, Decision (p x)} (t : list A) :
  Forall P t → Forall P (filter p t).
Proof. rewrite !Forall_forall. intros Ht x [_ Hx]%list_elem_of_filter. auto. Qed.

Lemma StronglySorted_filter {A} (f : A → Z) p `{∀ x, Decision (p x)} (t : list A) :
  Sorted.StronglySorted Z.lt (map f t) → Sorted.StronglySorted Z.lt (map f (filter p t)).
Proof.
  induction t as [|x t IH]; [done|]. simpl. inversion 1 as [|? ? Ht Hx]; subst.
  rewrite filter_cons. case_decide; [|auto]. simpl. constructor; [auto|].
  apply List.Forall_map, Forall_filter_l. by apply (List.Forall_map f) in Hx.
Qed.

Lemma audit_wf_snoc seq t a :
  audit_wf seq t → Audit.id a = seq + 1 → audit_wf (seq + 1) (t ++ [a]).
Proof.
  intros [Hs Hb] Ha. split.
  - rewrite map_app. simpl. rewrite Ha. apply StronglySorted_snoc; [done|].
    apply List.Forall_map. eapply Forall_impl; [exact Hb|]. simpl. lia.
  - apply Forall_app; split; [|by constructor; [lia|constructor]].
    eapply Forall_impl; [exact Hb|]. simpl. lia.
Qed.

Lemma audit_wf_ids seq t t' :
  map Audit.id t' = map Audit.id t → audit_wf seq t → audit_wf seq t'.
Proof.
  intros Hids [Hs Hb]. split; [by rewrite Hids|].
  apply (List.Forall_map Audit.id (λ i, i <= seq)). rewrite Hids. by apply List.Forall_map.
Qed.

(** An operation that touches none of the rows [db_le] and [wf] relate. *)
Lemma wf_set_audit t seq d : wf d → audit_wf seq t → wf (set_audit_log t seq d).
Proof. intros [] ?. by split. Qed.
Lemma db_le_set_audit t seq d : audit_seq d <= seq → db_le d (set_audit_log t seq d).
Proof. intros ?. by split. Qed.

Lemma tx_ok_record_audit now a : tx_ok (record_audit_in_conn now a).
Proof.
  intros d x d' Hwf [= <- <-]. split.
  - apply wf_set_audit; [done|]. apply audit_wf_snoc; [apply Hwf|done].
  - apply db_le_set_audit. lia.
Qed.

Lemma tx_ok_update_audit_details i details : tx_ok (update_audit_details i details).
Proof.
  intros d x d' Hwf [= <- <-]. split; [|apply db_le_set_audit; lia].
  apply wf_set_audit; [done|]. eapply audit_wf_ids; [|apply Hwf].
  by apply update_where_key.
Qed.

Lemma tx_ok_delete_audit cutoff : tx_ok (delete_audit_rows_before cutoff).
Proof.
  intros d x d' Hwf [= <- <-]. split; [|apply db_le_set_audit; lia].
  apply wf_set_audit; [done|]. destruct (wf_audit d Hwf) as [Hs Hb]. split.
  - by apply StronglySorted_filter.
  - by apply Forall_filter_l.
Qed.

(** ** The remaining tables *)

Lemma wf_set_nonces t d :
  wf d → unique (Some ∘ Nonce.nonce) t → wf (set_nonces t d) ∧ db_le d (set_nonces t d).
Proof. intros [] ?. by split; split. Qed.
Lemma wf_set_authz t d :
  wf d → unique (Some ∘ Authz.id) t →
  wf (set_authorizations t d) ∧ db_le d (set_authorizations t d).
Proof. intros [] ?. by split; split. Qed.
Lemma wf_set_challenges t d :
  wf d → unique (Some ∘ Challenge.id) t →
  wf (set_challenges t d) ∧ db_le d (set_challenges t d).
Proof. intros [] ?. by split; split. Qed.
Lemma wf_set_watermark t d :
  wf d → unique (Some ∘ Watermark.issuer_key) t →
  wf (set_crl_watermark t d) ∧ db_le d (set_crl_watermark t d).
Proof. intros [] ?. by split; split. Qed.

(** [delete_first] keeps a subsequence. *)
Lemma sublist_delete_first {R} p `{∀ r, Decision (p r)} n (t : list R) :
  delete_first p n t `sublist_of` t.
Proof.
  revert n. induction t as [|r t IH]; intros [|n]; simpl; try done.
  case_decide; [by apply sublist_cons|by apply sublist_skip].
Qed.

Lemma unique_sublist {R K} (key : R → option K) t t' :
  t' `sublist_of` t → unique key t → unique key t'.
Proof.
  rewrite <- !unique_NoDup_omap. intros Hsub Ht. eapply sublist_NoDup; [exact Ht|].
  clear Ht. induction Hsub as [|x l1 l2 _ IH|x l1 l2 _ IH]; simpl; [done| |].
  - destruct (key x); [by apply sublist_skip|done].
  - destruct (key x); [by apply sublist_cons|done].
Qed.

Lemma tx_ok_insert_nonce n : tx_ok (insert_nonce n).
Proof.
  intros d x d' Hwf. unfold tx_insert, nonce_clash. destruct (violates _ _ _) eqn:Hv; [done|].
  intros [= <- <-]. apply wf_set_nonces; [done|]. apply unique_app_singleton; [apply Hwf|done].
Qed.
Lemma tx_ok_delete_nonces p `{∀ n, Decision (p n)} : tx_ok (tx_delete nonces set_nonces p).
Proof.
  intros d x d' Hwf [= <- <-]. apply wf_set_nonces; [done|]. apply unique_filter, Hwf.
Qed.
Lemma tx_ok_gc_nonces p `{∀ n, Decision (p n)} k :
  tx_ok (tx_put (λ d, set_nonces (delete_first p k (nonces d)) d)).
Proof.
  intros d x d' Hwf [= <- <-]. apply wf_set_nonces; [done|].
  eapply unique_sublist; [apply sublist_delete_first|apply Hwf].
Qed.
Lemma tx_ok_insert_authz a : tx_ok (insert_authz a).
Proof.
  intros d x d' Hwf. unfold tx_insert, authz_clash. destruct (violates _ _ _) eqn:Hv; [done|].
  intros [= <- <-]. apply wf_set_authz; [done|]. apply unique_app_singleton; [apply Hwf|done].
Qed.
Lemma tx_ok_insert_challenge c : tx_ok (insert_challenge c).
Proof.
  intros d x d' Hwf. unfold tx_insert, challenge_clash.
  destruct (violates _ _ _) eqn:Hv; [done|].
  intros [= <- <-]. apply wf_set_challenges; [done|].
  apply unique_app_singleton; [apply Hwf|done].
Qed.
Lemma tx_ok_update_authz i s :
  tx_ok (tx_update authorizations set_authorizations (λ a, Authz.id a = i) (Authz.set_status s)).
Proof.
  intros d x d' Hwf [= <- <-]. apply wf_set_authz; [done|]. by apply unique_update, Hwf.
Qed.
Lemma tx_ok_update_challenge i s v :
  tx_ok (tx_update challenges set_challenges (λ c, Challenge.id c = i)
           (Challenge.set_status s v)).
Proof.
  intros d x d' Hwf [= <- <-]. apply wf_set_challenges; [done|]. by apply unique_update, Hwf.
Qed.
Lemma tx_ok_reset_watermark i :
  tx_ok (tx_delete crl_watermark set_crl_watermark (λ w, Watermark.issuer_key w = i)).
Proof.
  intros d x d' Hwf [= <- <-]. apply wf_set_watermark; [done|]. apply unique_filter, Hwf.
Qed.
Lemma tx_ok_advance_watermark now key number update url :
  tx_ok (advance_crl_watermark_in_conn now key number update url).
Proof.
  intros d x d' Hwf. unfold advance_crl_watermark_in_conn, tx_fetchone, mbind, tx_bind.
  destruct (fetchone _ _) as [w|] eqn:Hf.
  - case_match; intros [= <- <-]; [|by split].
    apply wf_set_watermark; [done|]. apply unique_update_on; [|apply Hwf].
    intros r Hr. simpl. congruence.
  - intros [= <- <-]. apply wf_set_watermark; [done|].
    apply unique_app_singleton; [apply Hwf|]. apply violates_false.
    intros r k Hr [= <-] [= Heq]. by apply (proj1 (fetchone_None _ _) Hf r Hr).
Qed.
