(* ===== verification/StoreOps.v ===== *)
(** * Every store operation keeps the invariant

    [tx_ok] of each method of [store.py], the step relation of a store that
    several handlers share, and what follows for every history. *)

From S2P Require Import Prelude PyStr Exn Json Jwk Sql Db Act X509 StoreAudit.
From S2P Require Import StoreAccounts StoreOrders StoreCerts StoreRecovery.
From S2P Require Import StoreInv.
Local Open Scope Z_scope.

#[export] Hint Resolve tx_ok_ret tx_ok_raise tx_ok_get tx_ok_of_res tx_ok_read
  tx_ok_record_audit tx_ok_update_audit_details tx_ok_delete_audit tx_ok_insert_nonce
  tx_ok_delete_nonces tx_ok_gc_nonces tx_ok_insert_authz tx_ok_insert_challenge
  tx_ok_update_authz tx_ok_update_challenge tx_ok_reset_watermark
  tx_ok_advance_watermark tx_ok_insert_account : store.

(** Split a transaction body into its statements. *)
Ltac tx_ok_auto :=
  repeat match goal with
  | |- tx_ok (_ ≫= _) => apply tx_ok_bind; [|intros ?]
  | |- tx_ok (if _ then _ else _) => case_match
  | |- tx_ok (match _ with _ => _ end) => case_match
  | |- tx_ok (tx_update _ _ _ (match ?u with _ => _ end)) => destruct u
  | |- tx_ok (tx_fetchone _ _) => unfold tx_fetchone; apply tx_ok_read
  | |- tx_ok (tx_select _ _) => unfold tx_select; apply tx_ok_read
  | |- tx_ok (tx_count _ _) => unfold tx_count; apply tx_ok_read
  | |- tx_ok _ => solve [auto with store]
  end.

(** The obligation of an UPDATE of [orders]: an edge of the order's life, and
    the row invariant. *)
Ltac order_side :=
  let o := fresh "o" in let Hp := fresh "Hp" in
  intros o Hp; unfold processing_cas, has_status, has_status_in in Hp;
  destruct o; cbn in Hp; destruct_and?; destruct_or?; subst;
  (split;
   [ split; [done|unfold OrderLife.state; cbn;
                  first [by apply rtc_refl | apply rtc_once; by constructor]]
   | unfold order_wf; cbn; intuition (try done; try lia; eauto) ]).

Lemma tx_ok_to_processing now id :
  tx_ok (update_orders (has_status id OrderStatus.READY) (to_processing now)).
Proof. apply tx_ok_update_orders. order_side. Qed.
Lemma tx_ok_pending_to_ready now id :
  tx_ok (update_orders (has_status id OrderStatus.PENDING) (to_ready now)).
Proof. apply tx_ok_update_orders. order_side. Qed.
Lemma tx_ok_processing_to_ready now id g :
  tx_ok (update_orders (processing_cas id g) (to_ready now)).
Proof. apply tx_ok_update_orders. order_side. Qed.
Lemma tx_ok_processing_to_valid now id g url :
  tx_ok (update_orders (processing_cas id g) (to_valid now url)).
Proof. apply tx_ok_update_orders. order_side. Qed.
Lemma tx_ok_processing_to_invalid now id g :
  tx_ok (update_orders (processing_cas id g) (to_status OrderStatus.INVALID now)).
Proof. apply tx_ok_update_orders. order_side. Qed.
Lemma tx_ok_active_to_invalid now id :
  tx_ok (update_orders (has_status_in id OrderStatus.PENDING OrderStatus.READY)
    (to_status OrderStatus.INVALID now)).
Proof. apply tx_ok_update_orders. order_side. Qed.
Lemma tx_ok_to_revoked now id :
  tx_ok (update_orders (has_status_in id OrderStatus.VALID OrderStatus.PROCESSING)
    (to_status OrderStatus.REVOKED now)).
Proof. apply tx_ok_update_orders. order_side. Qed.
Lemma tx_ok_issue id g url :
  tx_ok (update_orders (processing_cas id g)
    (λ o, Order.set_certificate_url (Some url) (Order.set_status OrderStatus.VALID o))).
Proof. apply tx_ok_update_orders. order_side. Qed.
Lemma tx_ok_quarantine id :
  tx_ok (update_orders (has_status_in id OrderStatus.PROCESSING OrderStatus.READY)
    (Order.set_status OrderStatus.INVALID)).
Proof. apply tx_ok_update_orders. order_side. Qed.
Lemma tx_ok_sweep now batch :
  tx_ok (sweep_batch now batch).
Proof. apply tx_ok_update_orders. order_side. Qed.
Lemma tx_ok_authorizations id azs :
  tx_ok (update_orders (λ o, Order.id o = id) (Order.set_authorizations azs)).
Proof.
  apply tx_ok_update_orders. intros o <-. destruct o. split; [split; [done|reflexivity]|done].
Qed.
(** The pending marker is written whatever the status. *)
Lemma tx_ok_pending_ca p `{∀ o, Decision (p o)} now req_id :
  tx_ok (update_orders p (to_pending_ca now req_id)).
Proof.
  apply tx_ok_update_orders. intros o _. destruct o. split; [split; [done|reflexivity]|done].
Qed.

#[export] Hint Resolve tx_ok_to_processing tx_ok_pending_to_ready tx_ok_processing_to_ready
  tx_ok_processing_to_valid tx_ok_processing_to_invalid tx_ok_active_to_invalid
  tx_ok_to_revoked tx_ok_issue tx_ok_quarantine tx_ok_sweep tx_ok_authorizations
  tx_ok_pending_ca : store.

(** ** Certificates *)

Ltac cert_side :=
  let c := fresh "c" in let Hp := fresh "Hp" in
  intros c Hp; destruct c; cbn in Hp; destruct_and?; subst;
  (split; [unfold CertLife.le | unfold cert_wf]); cbn in *; naive_solver.

Lemma tx_ok_revoke id reason ts :
  tx_ok (update_certs (revocable id) (Cert.set_revoked CertStatus.REVOKED reason (Some ts))).
Proof. apply tx_ok_update_certs. unfold revocable. cert_side. Qed.
Lemma tx_ok_confirm serial :
  tx_ok (update_certs (confirmable serial) (Cert.set_ca_crl_updated true)).
Proof. apply tx_ok_update_certs. unfold confirmable, awaiting_ca. cert_side. Qed.
Lemma tx_ok_attach id chain :
  tx_ok (update_certs (λ c, Cert.id c = id ∧ chain_empty (Cert.chain_pem c))
    (Cert.set_chain_pem chain)).
Proof. apply tx_ok_update_certs. cert_side. Qed.
Lemma tx_ok_insert_valid_cert id oid aid pem chain tpl req at_ md serial validity :
  tx_ok (insert_cert (cert_row id oid aid pem chain tpl req at_ md serial
    CertStatus.VALID None None validity)).
Proof. apply tx_ok_insert_cert. by split. Qed.
Lemma tx_ok_insert_quarantined id oid aid pem chain tpl req at_ md serial ts validity :
  tx_ok (insert_cert (cert_row id oid aid pem chain tpl req at_ md serial
    CertStatus.QUARANTINED (Some 0) (Some ts) validity)).
Proof. apply tx_ok_insert_cert. by split. Qed.

#[export] Hint Resolve tx_ok_revoke tx_ok_confirm tx_ok_attach tx_ok_insert_valid_cert
  tx_ok_insert_quarantined : store.

Section loops.
Context `{CertParser}.
Lemma tx_ok_certificate_from_opt row : tx_ok (certificate_from_opt row).
Proof. unfold certificate_from_opt. tx_ok_auto. Qed.
Lemma tx_ok_certificates_from_rows rows : tx_ok (certificates_from_rows rows).
Proof. induction rows; simpl; tx_ok_auto. Qed.
End loops.

Lemma tx_ok_insert_authzs urls uuid aid oid expires n ids azs :
  tx_ok (insert_authzs urls uuid aid oid expires n ids azs).
Proof. revert n azs. induction ids as [|? ids IH]; intros; simpl; tx_ok_auto. Qed.
Lemma tx_ok_sweep_batches now total bs : tx_ok (sweep_batches now total bs).
Proof. revert total. induction bs; intros; simpl; tx_ok_auto. Qed.
Lemma tx_ok_update_key p `{∀ a, Decision (p a)} jwk tp :
  tx_ok (update_account_keys p (Account.set_key jwk tp)).
Proof. apply tx_ok_update_account_keys. by intros []. Qed.
Lemma tx_ok_update_status id s :
  tx_ok (update_accounts (λ a, Account.id a = id ∧ Account.status a = AccountStatus.VALID)
    (Account.set_status s)).
Proof.
  apply tx_ok_update_accounts. intros [] [? Hs]. cbn in Hs. subst. split; [|done].
  unfold AccountLife.le. naive_solver.
Qed.
Lemma tx_ok_insert_pending_order now id aid ids url expires :
  tx_ok (insert_order {|
    Order.id := id; Order.account_id := aid; Order.status := OrderStatus.PENDING;
    Order.identifiers := ids; Order.authorizations := []; Order.finalize_url := url;
    Order.certificate_url := None; Order.expires := expires; Order.created_at := now;
    Order.updated_at := now; Order.processing_started_at := None;
    Order.processing_generation := 0; Order.pending_ca_request_id := None |}).
Proof. apply tx_ok_insert_order. split; [done|]. by split. Qed.

#[export] Hint Resolve tx_ok_certificate_from_opt tx_ok_certificates_from_rows
  tx_ok_insert_authzs tx_ok_sweep_batches tx_ok_update_key tx_ok_update_status
  tx_ok_insert_pending_order : store.

(** ** The transactions of the store *)

Section ops.
Context `{CertParser}.

(** Every transaction that writes, as the methods of [Store] issue them. *)
Inductive store_tx : ∀ {A : Type}, Tx A → Prop :=
  | T_create_nonce now n g : store_tx (create_nonce now n g)
  | T_consume_nonce now n : store_tx (consume_nonce now n)
  | T_cleanup_expired_nonces now : store_tx (cleanup_expired_nonces now)
  | T_record_audit now a : store_tx (record_audit now a)
  | T_update_audit_details i ds : store_tx (update_audit_details i ds)
  | T_delete_audit_rows_before c : store_tx (delete_audit_rows_before c)
  | T_reset_crl_watermark k : store_tx (reset_crl_watermark k)
  | T_create_account now i j k s c : store_tx (create_account now i j k s c)
  | T_create_account_with_audit now i j k s c a q :
      store_tx (create_account_with_audit now i j k s c a q)
  | T_update_account_status i s : store_tx (update_account_status i s)
  | T_update_account_key i j : store_tx (update_account_key i j)
  | T_update_account_key_with_audit now i j tp a w l :
      store_tx (update_account_key_with_audit now i j tp a w l)
  | T_create_order_with_authz now u e aid ids urls w pk gl :
      store_tx (create_order_with_authz now u e aid ids urls w pk gl)
  | T_update_authorization_status i s : store_tx (update_authorization_status i s)
  | T_update_challenge_status i s v : store_tx (update_challenge_status i s v)
  | T_record_pending_ca_request now i r g : store_tx (record_pending_ca_request now i r g)
  | T_clear_pending_ca_request now i r : store_tx (clear_pending_ca_request now i r)
  | T_acquire_processing_lease now i : store_tx (acquire_processing_lease now i)
  | T_transition_pending_to_ready now i : store_tx (transition_pending_to_ready now i)
  | T_transition_processing_to_ready now i g :
      store_tx (transition_processing_to_ready now i g)
  | T_transition_processing_to_valid now i u g :
      store_tx (transition_processing_to_valid now i u g)
  | T_transition_active_to_invalid now i : store_tx (transition_active_to_invalid now i)
  | T_transition_processing_to_invalid now i g :
      store_tx (transition_processing_to_invalid now i g)
  | T_transition_to_revoked now i : store_tx (transition_to_revoked now i)
  | T_reclaim_processing_order now i u g p et aid oc ds :
      store_tx (reclaim_processing_order now i u g p et aid oc ds)
  | T_sweep_expired_orders now : store_tx (sweep_expired_orders now)
  | T_create_certificate now i o a p ch t r m :
      store_tx (create_certificate now i o a p ch t r m)
  | T_record_issuance now ex ci ia o a p ch t r m s v u ss cs g :
      store_tx (record_issuance_in_conn now ex ci ia o a p ch t r m s v u ss cs g)
  | T_quarantine_certificate now u o a p ch t r m et vs re ss ed :
      store_tx (quarantine_certificate now u o a p ch t r m et vs re ss ed)
  | T_record_revocation now i o a re ra ss ds :
      store_tx (record_revocation now i o a re ra ss ds)
  | T_revoke_certificate now i re ra : store_tx (revoke_certificate_in_conn now i re ra)
  | T_confirm_ca_revocation s : store_tx (confirm_ca_revocation s)
  | T_confirm_ca_revocation_with_audit now s a w u :
      store_tx (confirm_ca_revocation_with_audit now s a w u)
  | T_attach_recovered_chain now i ch a :
      store_tx (attach_recovered_chain_with_audit now i ch a).

Lemma tx_ok_rate_limits now aid w pk gl : tx_ok (check_order_rate_limits now aid w pk gl).
Proof. unfold check_order_rate_limits, get_account. tx_ok_auto. Qed.
Lemma tx_ok_insert_account_in_conn now i j k s c :
  tx_ok (insert_account_in_conn now i j k s c).
Proof. unfold insert_account_in_conn. tx_ok_auto. Qed.

(** The methods, statement by statement. *)
Lemma store_tx_ok {A} (m : Tx A) : store_tx m → tx_ok m.
Proof.
  pose proof tx_ok_rate_limits. pose proof tx_ok_insert_account_in_conn.
  destruct 1;
    unfold create_nonce, consume_nonce, cleanup_expired_nonces, record_audit,
      reset_crl_watermark, create_account, create_account_with_audit,
      update_account_status, update_account_key, update_account_key_in_conn,
      update_account_key_with_audit, check_key_change_limit, create_order_with_authz,
      update_authorization_status, update_challenge_status,
      record_pending_ca_request, clear_pending_ca_request, acquire_processing_lease,
      transition_pending_to_ready, transition_processing_to_ready,
      transition_processing_to_valid, transition_active_to_invalid,
      transition_processing_to_invalid, transition_to_revoked,
      reclaim_processing_order, sweep_expired_orders, create_certificate,
      record_issuance_in_conn, quarantine_certificate, record_revocation,
      revoke_certificate_in_conn, confirm_ca_revocation,
      confirm_ca_revocation_with_audit, attach_recovered_chain_with_audit,
      cas_orders, get_order; cbv zeta; tx_ok_auto.
Qed.

(** One committed transaction; a transaction that raises changes nothing. *)
Definition store_step (d d' : Db) : Prop :=
  ∃ (A : Type) (m : Tx A) (x : A), store_tx m ∧ m d = inr (x, d').

Lemma store_step_ok d d' : wf d → store_step d d' → wf d' ∧ db_le d d'.
Proof. intros Hwf (A & m & x & Hm & Heq). by eapply store_tx_ok. Qed.

Lemma store_steps_ok d d' : rtc store_step d d' → wf d → wf d' ∧ db_le d d'.
Proof.
  induction 1 as [d|d d1 d2 Hstep _ IH]; intros Hwf; [by split|].
  destruct (store_step_ok d d1 Hwf Hstep) as [Hwf1 Hle1].
  destruct (IH Hwf1) as [Hwf2 Hle2]. split; [done|by etrans].
Qed.
End ops.
