(* ===== verification/Calm.v ===== *)
(** * Calm transactions: what most handlers do to the database

    A transaction is calm when it issues no certificate, takes or reopens no
    enrollment lease, and changes no account: existing orders keep their
    generation and never become open ([pending] or [ready]) or [processing]
    again, existing accounts stay as they are, and no certificate row is
    added or quarantined.  [tx_calm] is proved statement by statement, like
    [tx_ok]. *)

From S2P Require Import Prelude PyStr Exn Json Jwk Sql Db Act X509 StoreAudit.
From S2P Require Import StoreAccounts StoreOrders StoreCerts StoreRecovery.
From S2P Require Import StoreInv StoreOps.
Local Open Scope Z_scope.

Definition open (o : Order.t) : Prop :=
  Order.status o = OrderStatus.PENDING ∨ Order.status o = OrderStatus.READY.
#[export] Instance open_dec o : Decision (open o).
Proof. unfold open. apply _. Defined.

(** The order a row was, in a calm step. *)
Definition calm_order (o o' : Order.t) : Prop :=
  Order.id o = Order.id o' ∧ Order.processing_generation o' = Order.processing_generation o
  ∧ (open o' → open o)
  ∧ (Order.status o' = OrderStatus.PROCESSING → Order.status o = OrderStatus.PROCESSING).

Definition calm_cert (c c' : Cert.t) : Prop :=
  Cert.order_id c = Cert.order_id c' ∧ Cert.cert_pem c = Cert.cert_pem c'
  ∧ (Cert.status c' = CertStatus.QUARANTINED → Cert.status c = CertStatus.QUARANTINED).

Record calm (d d' : Db) : Prop := {
  calm_orders : ∀ o', o' ∈ orders d' →
    (∃ o, o ∈ orders d ∧ calm_order o o') ∨ (∀ o, o ∈ orders d → Order.id o ≠ Order.id o');
  calm_ids : ∀ o, o ∈ orders d → ∃ o', o' ∈ orders d' ∧ Order.id o' = Order.id o;
  calm_certs : ∀ c', c' ∈ certificates d' → ∃ c, c ∈ certificates d ∧ calm_cert c c';
  calm_accounts : ∀ a, a ∈ accounts d → a ∈ accounts d';
}.

#[export] Instance calm_order_preorder : PreOrder calm_order.
Proof.
  split; unfold calm_order; [naive_solver|].
  intros a b c (?&?&?&?) (?&?&?&?). split_and!; [congruence|congruence|tauto|tauto].
Qed.
#[export] Instance calm_cert_preorder : PreOrder calm_cert.
Proof.
  split; unfold calm_cert; [naive_solver|].
  intros a b c (?&?&?) (?&?&?). split_and!; [congruence|congruence|tauto].
Qed.

#[export] Instance calm_preorder : PreOrder calm.
Proof.
  split.
  - intros d. split; [intros o Ho; left; by exists o|intros o Ho; by exists o
                     |intros c Hc; by exists c|done].
  - intros d1 d2 d3 [Ho1 Hi1 Hc1 Ha1] [Ho2 Hi2 Hc2 Ha2]. split; [| | |auto].
    + intros o3 H3. destruct (Ho2 o3 H3) as [(o2 & H2 & H23)|Hnew].
      * destruct (Ho1 o2 H2) as [(o1 & H1 & H12)|Hnew].
        -- left. exists o1. split; [done|by etrans].
        -- right. intros o Hin. destruct H23 as [<- _]. by apply Hnew.
      * right. intros o1 H1 Hid. destruct (Hi1 o1 H1) as (o2 & H2 & Hid2).
        apply (Hnew o2 H2). congruence.
    + intros o1 H1. destruct (Hi1 o1 H1) as (o2 & H2 & Hid2).
      destruct (Hi2 o2 H2) as (o3 & H3 & Hid3). exists o3. split; [done|congruence].
    + intros c3 H3. destruct (Hc2 c3 H3) as (c2 & H2 & ?). destruct (Hc1 c2 H2) as (c1 & ? & ?).
      exists c1. split; [done|by etrans].
Qed.

(** Only the three tables matter. *)
Lemma calm_frame d d' :
  orders d' = orders d → certificates d' = certificates d → accounts d' = accounts d →
  calm d d'.
Proof.
  intros Ho Hc Ha. split; rewrite ?Ho, ?Hc, ?Ha;
    [intros o ?; left; by exists o|intros o ?; by exists o|intros c ?; by exists c|done].
Qed.

Definition tx_calm {A} (m : Tx A) : Prop := ∀ d x d', m d = inr (x, d') → calm d d'.

Create HintDb calm discriminated.

Lemma tx_calm_ret {A} (x : A) : tx_calm (mret x).
Proof. by intros d y d' [= <- <-]. Qed.
Lemma tx_calm_raise {A} e : tx_calm (tx_raise (A:=A) e).
Proof. by intros d y d'. Qed.
Lemma tx_calm_get : tx_calm tx_get.
Proof. by intros d y d' [= <- <-]. Qed.
Lemma tx_calm_of_res {A} (r : Res Exn A) : tx_calm (tx_of_res r).
Proof. intros d y d'. unfold tx_of_res. destruct r; [done|]. by intros [= <- <-]. Qed.
Lemma tx_calm_read {A} (f : Db → A) : tx_calm (λ d, inr (f d, d)).
Proof. by intros d y d' [= <- <-]. Qed.

Lemma tx_calm_bind {A B} (m : Tx A) (k : A → Tx B) :
  tx_calm m → (∀ x, tx_calm (k x)) → tx_calm (m ≫= k).
Proof.
  intros Hm Hk d y d'. unfold mbind, tx_bind.
  destruct (m d) as [|[x d1]] eqn:Hmd; [done|]. intros Hkd.
  etrans; [by eapply Hm|by eapply Hk].
Qed.

(** ** Statements *)

Lemma tx_calm_update_orders p `{∀ o, Decision (p o)} f :
  (∀ o, p o → calm_order o (f o)) → tx_calm (update_orders p f).
Proof.
  intros Hf d x d' [= <- <-].
  assert (∀ o, calm_order o (if decide (p o) then f o else o)) as Hc.
  { intros o. case_decide; [by apply Hf|reflexivity]. }
  split; simpl; [| |intros c ?; by exists c|done].
  - intros o' (o & Ho & ->)%update_where_elem_of. left. by exists o.
  - intros o Ho. exists (if decide (p o) then f o else o). split.
    + apply update_where_elem_of. by exists o.
    + by destruct (Hc o) as [<- _].
Qed.

Lemma tx_calm_insert_order row : tx_calm (insert_order row).
Proof.
  intros d x d'. unfold tx_insert, order_clash. destruct (violates _ _ _) eqn:Hv; [done|].
  intros [= <- <-]. split; simpl; [| |intros c ?; by exists c|done].
  - intros o' [Ho|Ho%list_elem_of_singleton]%elem_of_app; [left; by exists o'|subst o'].
    right. intros o Ho Hid.
    apply (proj1 (violates_false _ _ _) Hv o (Order.id o) Ho eq_refl). simpl. congruence.
  - intros o Ho. exists o. split; [apply elem_of_app; by left|done].
Qed.

Lemma tx_calm_update_certs p `{∀ c, Decision (p c)} f :
  (∀ c, p c → calm_cert c (f c)) → tx_calm (update_certs p f).
Proof.
  intros Hf d x d' [= <- <-].
  split; simpl; [intros o ?; left; by exists o|intros o ?; by exists o| |done].
  intros c' (c & Hc & ->)%update_where_elem_of. exists c. split; [done|].
  case_decide; [by apply Hf|reflexivity].
Qed.

Lemma tx_calm_insert_account row : tx_calm (insert_account row).
Proof.
  intros d x d'. unfold tx_insert. destruct (account_clash _ _); [done|]. intros [= <- <-].
  split; simpl; [intros o ?; left; by exists o|intros o ?; by exists o
                |intros c ?; by exists c|].
  intros a Ha. apply elem_of_app. by left.
Qed.

(** The statements on the other tables. *)
Ltac calm_other :=
  intros d x d'; unfold tx_insert, tx_update, tx_delete, tx_put, record_audit_in_conn,
    update_audit_details, delete_audit_rows_before;
  repeat case_match; try done; intros [= <- <-]; by apply calm_frame.

Lemma tx_calm_insert_nonce n : tx_calm (insert_nonce n).
Proof. calm_other. Qed.
Lemma tx_calm_delete_nonces p `{∀ n, Decision (p n)} : tx_calm (tx_delete nonces set_nonces p).
Proof. calm_other. Qed.
Lemma tx_calm_put_nonces f : tx_calm (tx_put (λ d, set_nonces (f d) d)).
Proof. calm_other. Qed.
Lemma tx_calm_record_audit now a : tx_calm (record_audit_in_conn now a).
Proof. calm_other. Qed.
Lemma tx_calm_update_audit_details i ds : tx_calm (update_audit_details i ds).
Proof. calm_other. Qed.
Lemma tx_calm_delete_audit c : tx_calm (delete_audit_rows_before c).
Proof. calm_other. Qed.
Lemma tx_calm_insert_authz a : tx_calm (insert_authz a).
Proof. calm_other. Qed.
Lemma tx_calm_insert_challenge c : tx_calm (insert_challenge c).
Proof. calm_other. Qed.
Lemma tx_calm_update_authz p `{∀ a, Decision (p a)} f :
  tx_calm (tx_update authorizations set_authorizations p f).
Proof. calm_other. Qed.
Lemma tx_calm_update_challenge p `{∀ c, Decision (p c)} f :
  tx_calm (tx_update challenges set_challenges p f).
Proof. calm_other. Qed.
Lemma tx_calm_delete_watermark p `{∀ c, Decision (p c)} :
  tx_calm (tx_delete crl_watermark set_crl_watermark p).
Proof. calm_other. Qed.
Lemma tx_calm_update_watermark p `{∀ c, Decision (p c)} f :
  tx_calm (tx_update crl_watermark set_crl_watermark p f).
Proof. calm_other. Qed.
Lemma tx_calm_put_watermark f : tx_calm (tx_put (λ d, set_crl_watermark (f d) d)).
Proof. calm_other. Qed.

#[export] Hint Resolve tx_calm_ret tx_calm_raise tx_calm_get tx_calm_of_res tx_calm_read
  tx_calm_insert_order tx_calm_insert_account tx_calm_insert_nonce tx_calm_delete_nonces
  tx_calm_put_nonces tx_calm_record_audit tx_calm_update_audit_details tx_calm_delete_audit
  tx_calm_insert_authz tx_calm_insert_challenge tx_calm_update_authz
  tx_calm_update_challenge tx_calm_delete_watermark tx_calm_update_watermark
  tx_calm_put_watermark : calm.

(** The side condition of an UPDATE of [orders] or [certificates]. *)
Ltac calm_order_side :=
  let o := fresh "o" in let Hp := fresh "Hp" in
  intros o Hp; destruct o; unfold calm_order, open, processing_cas, has_status, has_status_in
    in *; cbn in *; naive_solver.
Ltac calm_cert_side :=
  let c := fresh "c" in let Hp := fresh "Hp" in
  intros c Hp; destruct c; unfold calm_cert, revocable, confirmable, awaiting_ca in *;
  cbn in *; naive_solver.

Ltac tx_calm_auto :=
  repeat match goal with
  | |- tx_calm (_ ≫= _) => apply tx_calm_bind; [|intros ?]
  | |- tx_calm (if _ then _ else _) => case_match
  | |- tx_calm (match _ with _ => _ end) => case_match
  | |- tx_calm (tx_update _ _ _ (match ?u with _ => _ end)) => destruct u
  | |- tx_calm (tx_fetchone _ _) => unfold tx_fetchone; apply tx_calm_read
  | |- tx_calm (tx_select _ _) => unfold tx_select; apply tx_calm_read
  | |- tx_calm (tx_count _ _) => unfold tx_count; apply tx_calm_read
  | |- tx_calm (update_orders _ _) => apply tx_calm_update_orders; calm_order_side
  | |- tx_calm (update_certs _ _) => apply tx_calm_update_certs; calm_cert_side
  | |- tx_calm _ => solve [auto with calm]
  end.

Section ops.
Context `{CertParser}.

Lemma tx_calm_certificate_from_opt row : tx_calm (certificate_from_opt row).
Proof. unfold certificate_from_opt. tx_calm_auto. Qed.
Lemma tx_calm_certificates_from_rows rows : tx_calm (certificates_from_rows rows).
Proof. induction rows; simpl; tx_calm_auto. Qed.
Hint Resolve tx_calm_certificate_from_opt tx_calm_certificates_from_rows : calm.

Lemma tx_calm_insert_authzs urls uuid aid oid expires n ids azs :
  tx_calm (insert_authzs urls uuid aid oid expires n ids azs).
Proof. revert n azs. induction ids as [|? ids IH]; intros; simpl; tx_calm_auto. Qed.
Lemma tx_calm_sweep_batches now total bs : tx_calm (sweep_batches now total bs).
Proof.
  revert total. induction bs; intros; simpl; [tx_calm_auto|].
  apply tx_calm_bind; [|auto]. unfold sweep_batch. tx_calm_auto.
Qed.
Lemma tx_calm_rate_limits now aid w pk gl : tx_calm (check_order_rate_limits now aid w pk gl).
Proof. unfold check_order_rate_limits, get_account. tx_calm_auto. Qed.
Lemma tx_calm_insert_account_in_conn now i j k s c :
  tx_calm (insert_account_in_conn now i j k s c).
Proof. unfold insert_account_in_conn. tx_calm_auto. Qed.
Hint Resolve tx_calm_insert_authzs tx_calm_sweep_batches tx_calm_rate_limits
  tx_calm_insert_account_in_conn : calm.

(** The calm transactions among the writing ones: all but the lease's
    acquisition and reopening, issuance and quarantine, and the two account
    mutations. *)
Inductive calm_tx : ∀ {A : Type}, Tx A → Prop :=
  | K_create_nonce now n g : calm_tx (create_nonce now n g)
  | K_consume_nonce now n : calm_tx (consume_nonce now n)
  | K_cleanup_expired_nonces now : calm_tx (cleanup_expired_nonces now)
  | K_record_audit now a : calm_tx (record_audit now a)
  | K_update_audit_details i ds : calm_tx (update_audit_details i ds)
  | K_delete_audit_rows_before c : calm_tx (delete_audit_rows_before c)
  | K_reset_crl_watermark k : calm_tx (reset_crl_watermark k)
  | K_create_account now i j k s c : calm_tx (create_account now i j k s c)
  | K_create_account_with_audit now i j k s c a q :
      calm_tx (create_account_with_audit now i j k s c a q)
  | K_create_order_with_authz now u e aid ids urls w pk gl :
      calm_tx (create_order_with_authz now u e aid ids urls w pk gl)
  | K_update_authorization_status i s : calm_tx (update_authorization_status i s)
  | K_update_challenge_status i s v : calm_tx (update_challenge_status i s v)
  | K_record_pending_ca_request now i r g : calm_tx (record_pending_ca_request now i r g)
  | K_clear_pending_ca_request now i r : calm_tx (clear_pending_ca_request now i r)
  | K_transition_pending_to_ready now i : calm_tx (transition_pending_to_ready now i)
  | K_transition_processing_to_valid now i u g :
      calm_tx (transition_processing_to_valid now i u g)
  | K_transition_active_to_invalid now i : calm_tx (transition_active_to_invalid now i)
  | K_transition_processing_to_invalid now i g :
      calm_tx (transition_processing_to_invalid now i g)
  | K_transition_to_revoked now i : calm_tx (transition_to_revoked now i)
  | K_reclaim_to_valid now i u g p et aid oc ds :
      calm_tx (reclaim_processing_order now i (Some u) g p et aid oc ds)
  | K_sweep_expired_orders now : calm_tx (sweep_expired_orders now)
  | K_record_revocation now i o a re ra ss ds : calm_tx (record_revocation now i o a re ra ss ds)
  | K_revoke_certificate now i re ra : calm_tx (revoke_certificate_in_conn now i re ra)
  | K_confirm_ca_revocation s : calm_tx (confirm_ca_revocation s)
  | K_confirm_ca_revocation_with_audit now s a w u :
      calm_tx (confirm_ca_revocation_with_audit now s a w u)
  | K_attach_recovered_chain now i ch a :
      calm_tx (attach_recovered_chain_with_audit now i ch a).

Lemma calm_tx_calm {A} (m : Tx A) : calm_tx m → tx_calm m.
Proof.
  destruct 1;
    unfold create_nonce, consume_nonce, cleanup_expired_nonces, record_audit,
      reset_crl_watermark, create_account, create_account_with_audit,
      create_order_with_authz, update_authorization_status, update_challenge_status,
      record_pending_ca_request, clear_pending_ca_request, transition_pending_to_ready,
      transition_processing_to_valid, transition_active_to_invalid,
      transition_processing_to_invalid, transition_to_revoked, reclaim_processing_order,
      sweep_expired_orders, record_revocation, revoke_certificate_in_conn,
      confirm_ca_revocation, confirm_ca_revocation_with_audit,
      attach_recovered_chain_with_audit, advance_crl_watermark_in_conn, cas_orders,
      get_order; cbv zeta; tx_calm_auto.
Qed.

Lemma calm_tx_store {A} (m : Tx A) : calm_tx m → store_tx m.
Proof. by destruct 1; constructor. Qed.

Lemma calm_tx_ok {A} (m : Tx A) : calm_tx m → tx_ok m ∧ tx_calm m.
Proof using H. intros Hm. split; [by apply store_tx_ok, calm_tx_store|by apply calm_tx_calm]. Qed.
End ops.
