(* ===== verification/CalmActs.v ===== *)
(** * Calm programs

    Programs over the server's world that only commit calm transactions and
    leave the registries, the locks and the CA alone: what every handler does
    except at a few marked steps. *)

From S2P Require Import Prelude PyStr Json Exn Policy Jwk Sql Db StoreAudit StoreAccounts.
From S2P Require Import StoreOrders Act World Coalesce X509 CsrCheck StoreCerts.
From S2P Require Import Responses Finalize StoreRecovery StoreInv StoreOps Calm.
Local Open Scope Z_scope.

(** ** Read-only transactions *)

Definition tx_ro {A} (m : Tx A) : Prop := ∀ d x d', m d = inr (x, d') → d' = d.

Lemma tx_ro_ret {A} (x : A) : tx_ro (mret x).
Proof. by intros d y d' [= <- <-]. Qed.
Lemma tx_ro_raise {A} e : tx_ro (tx_raise (A:=A) e).
Proof. by intros d y d'. Qed.
Lemma tx_ro_of_res {A} (r : Res Exn A) : tx_ro (tx_of_res r).
Proof. intros d y d'. unfold tx_of_res. destruct r; [done|]. by intros [= <- <-]. Qed.
Lemma tx_ro_read {A} (f : Db → A) : tx_ro (λ d, inr (f d, d)).
Proof. by intros d y d' [= <- <-]. Qed.
Lemma tx_ro_bind {A B} (m : Tx A) (k : A → Tx B) :
  tx_ro m → (∀ x, tx_ro (k x)) → tx_ro (m ≫= k).
Proof.
  intros Hm Hk d y d'. unfold mbind, tx_bind.
  destruct (m d) as [|[x d1]] eqn:Hmd; [done|]. intros Hkd.
  apply Hm in Hmd as ->. by eapply Hk.
Qed.

Lemma tx_ro_ok {A} (m : Tx A) : tx_ro m → tx_ok m ∧ tx_calm m.
Proof.
  intros Hm. split.
  - intros d x d' Hwf Hmd. apply Hm in Hmd as ->. by split.
  - intros d x d' Hmd. apply Hm in Hmd as ->. reflexivity.
Qed.

Ltac tx_ro_auto :=
  repeat match goal with
  | |- tx_ro (_ ≫= _) => apply tx_ro_bind; [|intros ?]
  | |- tx_ro (match _ with _ => _ end) => case_match
  | |- tx_ro (tx_fetchone _ _) => apply tx_ro_read
  | |- tx_ro (tx_select _ _) => apply tx_ro_read
  | |- tx_ro (tx_count _ _) => apply tx_ro_read
  | |- tx_ro _ => first [apply tx_ro_ret | apply tx_ro_raise | apply tx_ro_of_res
                        | apply tx_ro_read]
  end.

Section ro.
Context `{CertParser}.
Lemma tx_ro_certificate_from_opt row : tx_ro (certificate_from_opt row).
Proof. unfold certificate_from_opt. tx_ro_auto. Qed.
Lemma tx_ro_get_order oid : tx_ro (get_order oid).
Proof. apply tx_ro_read. Qed.
Lemma tx_ro_get_account aid : tx_ro (get_account aid).
Proof. apply tx_ro_read. Qed.
Lemma tx_ro_get_account_by_jwk jwk : tx_ro (get_account_by_jwk jwk).
Proof. unfold get_account_by_jwk. tx_ro_auto. Qed.
Lemma tx_ro_holds oid g : tx_ro (holds_processing_lease oid g).
Proof. unfold holds_processing_lease, get_order. tx_ro_auto. Qed.
Lemma tx_ro_age now oid : tx_ro (processing_age_seconds now oid).
Proof. unfold processing_age_seconds, get_order. tx_ro_auto. Qed.
Lemma tx_ro_get_certificate_by_order oid : tx_ro (get_certificate_by_order oid).
Proof.
  apply tx_ro_bind; [apply tx_ro_read|]. intros row. apply tx_ro_certificate_from_opt.
Qed.
Lemma tx_ro_get_certificate cid : tx_ro (get_certificate cid).
Proof.
  apply tx_ro_bind; [apply tx_ro_read|]. intros row. apply tx_ro_certificate_from_opt.
Qed.
Lemma tx_ro_get_certificate_by_serial s aid : tx_ro (get_certificate_by_serial s aid).
Proof.
  apply tx_ro_bind; [apply tx_ro_read|]. intros row. apply tx_ro_certificate_from_opt.
Qed.
Lemma tx_ro_count_by_kid now kid win : tx_ro (count_recent_orders_by_kid now kid win).
Proof. apply tx_ro_read. Qed.
Lemma tx_ro_count_all now win : tx_ro (count_all_recent_orders now win).
Proof. apply tx_ro_read. Qed.
Lemma tx_ro_list_by_status s n : tx_ro (list_orders_by_status s n).
Proof. apply tx_ro_read. Qed.
Lemma tx_ro_list_by_account aid n : tx_ro (list_orders_by_account aid n).
Proof. apply tx_ro_read. Qed.
Lemma tx_ro_get_authorization i : tx_ro (get_authorization i).
Proof. unfold get_authorization. tx_ro_auto. Qed.
Lemma tx_ro_get_challenge i : tx_ro (get_challenge i).
Proof. apply tx_ro_read. Qed.
End ro.

(** ** Worlds *)

Record calm_w (w w' : World) : Prop := {
  cw_db : wf (w_db w) →
    wf (w_db w') ∧ db_le (w_db w) (w_db w') ∧ calm (w_db w) (w_db w');
  cw_active : w_active w' = w_active w;
  cw_locks : w_locks w' = w_locks w;
  cw_submitted : w_submitted w' = w_submitted w;
  cw_inflight : w_inflight w' = w_inflight w;
  cw_issued : w_issued w' = w_issued w;
  cw_ca : w_ca w' = w_ca w;
  cw_log : ∃ l, w_log w' = w_log w ++ l;
}.

#[export] Instance calm_w_preorder : PreOrder calm_w.
Proof.
  split.
  - intros w. split; try done. exists []. by rewrite app_nil_r.
  - intros w1 w2 w3 [Hd1 ?????? [l1 Hl1]] [Hd2 ?????? [l2 Hl2]].
    split; try congruence.
    + intros Hwf. destruct (Hd1 Hwf) as (Hwf2 & Hle1 & Hc1).
      destruct (Hd2 Hwf2) as (? & Hle2 & Hc2). split_and!; [done|by etrans|by etrans].
    + exists (l1 ++ l2). by rewrite Hl2, Hl1, app_assoc.
Qed.

(** Only the parts [calm_w] watches matter. *)
Lemma calm_w_frame w w' l :
  w_db w' = w_db w → w_active w' = w_active w → w_locks w' = w_locks w →
  w_submitted w' = w_submitted w → w_inflight w' = w_inflight w →
  w_issued w' = w_issued w → w_ca w' = w_ca w → w_log w' = w_log w ++ l → calm_w w w'.
Proof.
  intros Hdb. intros. split; try done; [rewrite Hdb; by intros|by exists l].
Qed.

(** The world after a transaction of the store, faults included. *)
Lemma store_cases {A} (m : Tx A) w :
  (∃ fs, (store m w).2 = set_faults fs w ∧ ∃ e, (store m w).1 = inl e)
  ∨ ∃ fs x d, m (w_db w) = inr (x, d)
              ∧ store m w = (inr x, set_db d (set_faults fs w)).
Proof.
  unfold store, transact. destruct (w_faults w) as [|[e|] fs] eqn:Hf.
  - destruct (m (w_db w)) as [e|[x d]]; [left|right].
    + exists []. split; [|by eexists]. by rewrite <- Hf; destruct w.
    + exists [], x, d. split; [done|]. by rewrite <- Hf; destruct w.
  - left. exists fs. split; [done|by eexists].
  - destruct (m (w_db w)) as [e'|[x d]]; [left|right].
    + exists fs. split; [|by eexists]. by destruct w.
    + by exists fs, x, d.
Qed.

Definition eff_calm {A} (e : Eff A) : Prop := ∀ w, calm_w w (e w).2.

Lemma eff_calm_ret {A} (x : A) : eff_calm (mret x).
Proof. intros w. reflexivity. Qed.
Lemma eff_calm_bind {A B} (e : Eff A) (k : A → Eff B) :
  eff_calm e → (∀ x, eff_calm (k x)) → eff_calm (e ≫= k).
Proof.
  intros He Hk w. unfold mbind, eff_bind. specialize (He w).
  destruct (e w) as [[ex|x] w']; [done|]. etrans; [exact He|apply Hk].
Qed.

Lemma eff_calm_store {A} (m : Tx A) : tx_ok m → tx_calm m → eff_calm (store m).
Proof.
  intros Hok Hcalm w.
  destruct (store_cases m w) as [(fs & -> & _)|(fs & x & d & Hmd & ->)]; simpl.
  - by eapply (calm_w_frame _ _ []); rewrite ?app_nil_r.
  - split; simpl; try done; [|exists []; by rewrite app_nil_r].
    intros Hwf. destruct (Hok _ _ _ Hwf Hmd) as [? ?].
    split_and!; [done..|by eapply Hcalm].
Qed.

(** ** Programs *)

Fixpoint calm_prog {A} (m : Act World A) : Prop :=
  match m with
  | Done _ => True
  | Step f => ∀ w,
    match f w with
    | Some (w', m') => calm_w w w' ∧ calm_prog m'
    | None => False
    end
  end.

Lemma calm_prog_then {A B} (m : Act World A) (k : Res Exn A → Act World B) :
  calm_prog m → (∀ r, calm_prog (k r)) → calm_prog (act_then m k).
Proof.
  revert m. fix IH 1. intros [r|f] Hm Hk; [apply Hk|]. simpl in *. intros w.
  specialize (Hm w). destruct (f w) as [[w' m']|]; [|done].
  destruct Hm as [? Hm']. split; [done|]. by apply IH.
Qed.

Lemma calm_prog_bind {A B} (m : Act World A) (k : A → Act World B) :
  calm_prog m → (∀ x, calm_prog (k x)) → calm_prog (m ≫= k).
Proof. intros Hm Hk. apply calm_prog_then; [done|]. by intros [e|x]. Qed.

Lemma calm_prog_try {A} (m : Act World A) (h : Exn → Act World A) :
  calm_prog m → (∀ e, calm_prog (h e)) → calm_prog (act_try m h).
Proof. intros Hm Hh. apply calm_prog_then; [done|]. by intros [e|x]. Qed.

Lemma calm_prog_ret {A} (x : A) : calm_prog (mret x).
Proof. done. Qed.
Lemma calm_prog_raise {A} e : calm_prog (act_raise (A:=A) e).
Proof. done. Qed.
Lemma calm_prog_of_res {A} (r : Res Exn A) : calm_prog (act_of_res r).
Proof. done. Qed.

Lemma calm_prog_atomic {A} (e : Eff A) : eff_calm e → calm_prog (act_atomic e).
Proof. intros He w. specialize (He w). by destruct (e w). Qed.

Lemma calm_prog_get {A} (f : World → A) : calm_prog (act_get f).
Proof. apply calm_prog_atomic. intros w. reflexivity. Qed.

Lemma calm_prog_db {A} (m : Z → Tx A) :
  (∀ now, tx_ok (m now) ∧ tx_calm (m now)) → calm_prog (db m).
Proof.
  intros Hm. apply calm_prog_atomic. intros w. by apply eff_calm_store; apply Hm.
Qed.
Lemma calm_prog_db_ro {A} (m : Z → Tx A) : (∀ now, tx_ro (m now)) → calm_prog (db m).
Proof. intros Hm. apply calm_prog_db. intros now. by apply tx_ro_ok. Qed.
Lemma calm_prog_db_tx `{CertParser} {A} (m : Z → Tx A) :
  (∀ now, calm_tx (m now)) → calm_prog (db m).
Proof. intros Hm. apply calm_prog_db. intros now. by apply calm_tx_ok. Qed.

Create HintDb calm_act discriminated.
#[export] Hint Resolve calm_prog_ret calm_prog_raise calm_prog_of_res calm_prog_get : calm_act.
#[export] Hint Resolve tx_ro_get_order tx_ro_get_account tx_ro_get_account_by_jwk tx_ro_holds
  tx_ro_age tx_ro_get_certificate_by_order tx_ro_get_certificate
  tx_ro_get_certificate_by_serial tx_ro_count_by_kid tx_ro_count_all tx_ro_list_by_status
  tx_ro_list_by_account tx_ro_get_authorization tx_ro_get_challenge : calm_act.
#[export] Hint Constructors calm_tx : calm_act.

(** ** The effects that are not transactions *)

Section effects.
Context `{ServerConfig}.

Lemma calm_w_log line w : calm_w w (set_log (w_log w ++ [line]) w).
Proof. by eapply calm_w_frame. Qed.
Lemma calm_w_emit ev w : calm_w w (emit ev w).
Proof.
  unfold emit. destruct (audit_hook_configured config); [|reflexivity].
  by eapply (calm_w_frame _ _ []); rewrite ?app_nil_r.
Qed.
Lemma calm_w_windows ws e w : calm_w w (set_windows ws e w).
Proof. by eapply (calm_w_frame _ _ []); rewrite ?app_nil_r. Qed.

Lemma calm_prog_log line : calm_prog (log line).
Proof. apply calm_prog_atomic. intros w. apply calm_w_log. Qed.
Lemma calm_prog_mark rid : calm_prog (mark_spent rid).
Proof.
  apply calm_prog_atomic. intros w. by eapply (calm_w_frame _ _ []); rewrite ?app_nil_r.
Qed.
Lemma calm_prog_emit row : calm_prog (emit_audit_hook row).
Proof. apply calm_prog_atomic. intros w. apply calm_w_emit. Qed.
Lemma calm_prog_emit_event ev : calm_prog (act_modify (emit ev)).
Proof. apply calm_prog_atomic. intros w. apply calm_w_emit. Qed.
Lemma calm_prog_halt reason : calm_prog (halt reason).
Proof.
  apply calm_prog_atomic. intros w. destruct (w_halt w); simpl; [by destruct w|].
  by eapply (calm_w_frame _ _ []); rewrite ?app_nil_r.
Qed.
Lemma calm_prog_uuids `{UuidSource} n : calm_prog (fresh_uuids n).
Proof.
  apply calm_prog_atomic. intros w. by eapply (calm_w_frame _ _ []); rewrite ?app_nil_r.
Qed.
Lemma calm_prog_gate_admit : calm_prog gate_admit.
Proof.
  apply calm_prog_atomic. intros w. repeat case_match; simpl; try reflexivity.
  by eapply (calm_w_frame _ _ []); rewrite ?app_nil_r.
Qed.
Lemma calm_prog_gate_finished : calm_prog gate_finished.
Proof.
  apply calm_prog_atomic. intros w. by eapply (calm_w_frame _ _ []); rewrite ?app_nil_r.
Qed.

Lemma eff_calm_record_audit now a : eff_calm (store (record_audit now a)).
Proof.
  apply eff_calm_store; [apply tx_ok_record_audit|apply tx_calm_record_audit].
Qed.
Lemma eff_calm_update_audit i ds : eff_calm (store (update_audit_details i ds)).
Proof.
  apply eff_calm_store; [apply tx_ok_update_audit_details|apply tx_calm_update_audit_details].
Qed.

Lemma eff_calm_extend key x kid : eff_calm (extend key x kid).
Proof. intros w. unfold extend. etrans; [apply calm_w_windows|apply eff_calm_update_audit]. Qed.

Lemma eff_calm_modify_windows f g :
  eff_calm (eff_modify (λ w, set_windows (f w) (g w) w)).
Proof. intros w. apply calm_w_windows. Qed.

Lemma eff_calm_open_window now key a closed : eff_calm (open_window now key a closed).
Proof.
  intros w. unfold open_window. destruct (evict_for_new_window _ _ _) as [ws e].
  etrans; [apply (calm_w_windows ws e)|]. generalize (set_windows ws e w). intros w1.
  refine (eff_calm_bind _ _ _ _ w1).
  - apply eff_calm_record_audit.
  - intros row. apply eff_calm_bind; [apply eff_calm_modify_windows|].
    intros []. apply eff_calm_ret.
Qed.

Lemma eff_calm_coalesce a : eff_calm (coalesce a).
Proof.
  intros w. unfold coalesce. case_match.
  - refine (eff_calm_bind _ _ (eff_calm_record_audit _ _) _ w).
    intros row. apply eff_calm_ret.
  - destruct (win_get _ _) as [x|]; [case_match|]; [|apply eff_calm_open_window..].
    refine (eff_calm_bind _ _ (eff_calm_extend _ _ _) _ w). intros [].
    + apply eff_calm_ret.
    + apply eff_calm_bind; [apply eff_calm_modify_windows|]. intros [].
      apply eff_calm_open_window.
Qed.

Lemma eff_calm_audit_event a : eff_calm (audit_event a).
Proof.
  apply eff_calm_bind; [apply eff_calm_coalesce|]. intros [row|]; [|apply eff_calm_ret].
  intros w. apply calm_w_emit.
Qed.
Lemma calm_prog_audit a : calm_prog (audit a).
Proof. apply calm_prog_atomic, eff_calm_audit_event. Qed.
End effects.

#[export] Hint Resolve calm_prog_log calm_prog_mark calm_prog_emit calm_prog_emit_event calm_prog_halt
  calm_prog_uuids calm_prog_gate_admit calm_prog_gate_finished calm_prog_audit : calm_act.

(** Split a calm program into its actions. *)
Ltac calm_auto :=
  repeat match goal with
  | |- calm_prog (_ ≫= _) => apply calm_prog_bind; [|intros ?]
  | |- calm_prog (act_try _ _) => apply calm_prog_try; [|intros ?]
  | |- calm_prog (act_then _ _) => apply calm_prog_then; [|intros ?]
  | |- calm_prog (let '(_, _) := ?x in _) => destruct x
  | |- calm_prog (match _ with _ => _ end) => case_match
  | |- calm_prog (db _) =>
      first [apply calm_prog_db_ro; intros ?; solve [auto with calm_act]
            |apply calm_prog_db_tx; intros ?; solve [auto with calm_act]]
  | |- calm_prog _ => solve [auto with calm_act]
  end.

(** ** Only the enrollment gate raises [EnrollmentGateBusy]

    [finalize_order] takes this exception to mean that nothing was done: it
    gives the order back.  Nothing that runs once the gate has admitted the
    request raises it. *)

Definition admitted {A} (r : Res Exn A) : Prop := r ≠ inl EnrollmentGateBusy.

Definition tx_admitted {A} (m : Tx A) : Prop := ∀ d, m d ≠ inl EnrollmentGateBusy.

Lemma tx_admitted_ret {A} (x : A) : tx_admitted (mret x).
Proof. done. Qed.
Lemma tx_admitted_of_res {A} (r : Res Exn A) : admitted r → tx_admitted (tx_of_res r).
Proof. intros Hr d. unfold tx_of_res. by destruct r; [intros [= ->]|]. Qed.
Lemma tx_admitted_ok {A} (f : Db → A * Db) : tx_admitted (λ d, inr (f d)).
Proof. done. Qed.
Lemma tx_admitted_bind {A B} (m : Tx A) (k : A → Tx B) :
  tx_admitted m → (∀ x, tx_admitted (k x)) → tx_admitted (m ≫= k).
Proof.
  intros Hm Hk d. unfold mbind, tx_bind. specialize (Hm d).
  destruct (m d) as [e|[x d1]]; [congruence|apply Hk].
Qed.
Lemma tx_admitted_insert {R} (get : Db → list R) set clash r :
  tx_admitted (tx_insert get set clash r).
Proof. intros d. unfold tx_insert. by destruct (clash d r). Qed.

Ltac tx_admitted_auto :=
  repeat match goal with
  | |- tx_admitted (_ ≫= _) => apply tx_admitted_bind; [|intros ?]
  | |- tx_admitted (if _ then _ else _) => case_match
  | |- tx_admitted (match _ with _ => _ end) => case_match
  | |- tx_admitted (tx_of_res _) => apply tx_admitted_of_res
  | |- tx_admitted (tx_insert _ _ _ _) => apply tx_admitted_insert
  | |- tx_admitted _ => done
  end.

(** ** Programs *)

Fixpoint never_busy {A} (m : Act World A) : Prop :=
  match m with
  | Done r => admitted r
  | Step f => ∀ w, match f w with Some (_, m') => never_busy m' | None => True end
  end.

Lemma never_busy_then {A B} (m : Act World A) (k : Res Exn A → Act World B) :
  never_busy m → (∀ r, admitted r → never_busy (k r)) → never_busy (act_then m k).
Proof.
  revert m. fix IH 1. intros [r|f] Hm Hk; [by apply Hk|]. simpl in *. intros w.
  specialize (Hm w). destruct (f w) as [[w' m']|]; [by apply IH|done].
Qed.
Lemma never_busy_bind {A B} (m : Act World A) (k : A → Act World B) :
  never_busy m → (∀ x, never_busy (k x)) → never_busy (m ≫= k).
Proof.
  intros Hm Hk. apply never_busy_then; [done|]. intros [e|x] Hr; [|apply Hk].
  intros [= ->]. done.
Qed.
(** A handler of every exception covers what it guards. *)
Lemma never_busy_catch {A B} (m : Act World A) (k : Res Exn A → Act World B) :
  (∀ r, never_busy (k r)) → never_busy (act_then m k).
Proof.
  intros Hk. revert m. fix IH 1. intros [r|f]; [apply Hk|]. simpl. intros w.
  by destruct (f w) as [[w' m']|]; [apply IH|].
Qed.
Lemma never_busy_try {A} (m : Act World A) (h : Exn → Act World A) :
  (∀ e, never_busy (h e)) → never_busy (act_try m h).
Proof. intros Hh. apply never_busy_catch. by intros [e|x]. Qed.
Lemma never_busy_finally {A} (m : Act World A) c :
  never_busy m → never_busy c → never_busy (act_finally m c).
Proof.
  intros Hm Hc. apply never_busy_then; [done|]. intros r Hr. apply never_busy_then; [done|].
  intros [e|x] Hx; [|done]. intros [= ->]. done.
Qed.
Lemma never_busy_atomic {A} (f : World → Res Exn A * World) :
  (∀ w, admitted (f w).1) → never_busy (act_atomic f).
Proof. intros Hf w. specialize (Hf w). by destruct (f w). Qed.
Lemma never_busy_raise {A} e : e ≠ EnrollmentGateBusy → never_busy (act_raise (A:=A) e).
Proof. intros He [= ->]. done. Qed.
Lemma never_busy_of_res {A} (r : Res Exn A) : admitted r → never_busy (act_of_res r).
Proof. done. Qed.
Lemma never_busy_total {A} (f : World → A) (g : World → World) :
  never_busy (act_atomic (λ w, (inr (f w), g w))).
Proof. by apply never_busy_atomic. Qed.

Lemma store_admitted {A} (m : Tx A) w : tx_admitted m → admitted (store m w).1.
Proof.
  intros Hm. unfold store, transact. specialize (Hm (w_db w)).
  destruct (w_faults w) as [|[[]|] fs]; simpl; try done;
    destruct (m (w_db w)) as [e|[x d]]; simpl; try done; congruence.
Qed.
Lemma never_busy_db {A} (m : Z → Tx A) : (∀ now, tx_admitted (m now)) → never_busy (db m).
Proof. intros Hm. apply never_busy_atomic. intros w. by apply store_admitted. Qed.

(** ** The coalescer *)

Definition eff_admitted {A} (e : Eff A) : Prop := ∀ w, admitted (e w).1.
Lemma eff_admitted_bind {A B} (e : Eff A) (k : A → Eff B) :
  eff_admitted e → (∀ x, eff_admitted (k x)) → eff_admitted (e ≫= k).
Proof.
  intros He Hk w. unfold mbind, eff_bind. specialize (He w).
  destruct (e w) as [[ex|x] w']; [|apply Hk]. intros [= ->]. done.
Qed.

Create HintDb gate discriminated.

Section programs.
Context `{ServerConfig, UuidSource, CertParser, CsrParser}.

Lemma eff_admitted_record now a : eff_admitted (store (record_audit now a)).
Proof. intros w. by apply store_admitted. Qed.

Lemma eff_admitted_open now key a closed : eff_admitted (open_window now key a closed).
Proof.
  intros w. unfold open_window. destruct (evict_for_new_window _ _ _) as [ws e].
  generalize (set_windows ws e w). apply eff_admitted_bind; [apply eff_admitted_record|].
  intros row. by apply eff_admitted_bind.
Qed.

Lemma eff_admitted_coalesce a : eff_admitted (coalesce a).
Proof.
  intros w. unfold coalesce. case_match.
  - refine (eff_admitted_bind _ _ (eff_admitted_record _ _) _ w). done.
  - destruct (win_get _ _) as [x|]; [case_match|]; [|apply eff_admitted_open..].
    refine (eff_admitted_bind _ _ _ _ w).
    + intros w'. unfold extend. by apply store_admitted.
    + intros []; [done|]. apply eff_admitted_bind; [done|]. intros []. apply eff_admitted_open.
Qed.

Lemma never_busy_audit a : never_busy (audit a).
Proof.
  apply never_busy_atomic. intros w. refine (eff_admitted_bind _ _ _ _ w).
  - apply eff_admitted_coalesce.
  - by intros [|].
Qed.

(** ** Under the gate *)

Lemma never_busy_revert oid g :
  never_busy (db (λ now, transition_processing_to_ready now oid g)).
Proof. by apply never_busy_db. Qed.
Lemma never_busy_to_invalid oid g :
  never_busy (db (λ now, transition_processing_to_invalid now oid g)).
Proof. by apply never_busy_db. Qed.
Lemma never_busy_pending oid r g :
  never_busy (db (λ now, record_pending_ca_request now oid r g)).
Proof. by apply never_busy_db. Qed.
Lemma never_busy_holds oid g : never_busy (db (λ _, holds_processing_lease oid g)).
Proof. by apply never_busy_db. Qed.
Lemma never_busy_get_account aid : never_busy (db (λ _, get_account aid)).
Proof. by apply never_busy_db. Qed.
Lemma never_busy_log l : never_busy (log l).
Proof. apply never_busy_total. Qed.
Lemma never_busy_emit r : never_busy (emit_audit_hook r).
Proof. apply (never_busy_total (λ _, tt)). Qed.
Lemma never_busy_uuids n : never_busy (fresh_uuids n).
Proof. apply (never_busy_total (λ w i, uuid4 (w_uuids w + i)%nat)). Qed.
Lemma never_busy_acme {A} e : never_busy (act_raise (A:=A) (Acme e)).
Proof. by apply never_busy_raise. Qed.
Lemma never_busy_ret {A} (x : A) : never_busy (mret x).
Proof. done. Qed.
Hint Resolve never_busy_audit never_busy_revert never_busy_to_invalid never_busy_pending
  never_busy_holds never_busy_get_account never_busy_log never_busy_emit never_busy_uuids
  never_busy_acme never_busy_ret : gate.

Ltac gate_auto :=
  repeat match goal with
  | |- never_busy (_ ≫= _) => apply never_busy_bind; [|intros ?]
  | |- never_busy (act_try _ _) => apply never_busy_try; intros ?
  | |- never_busy (match _ with _ => _ end) => case_match
  | |- never_busy _ => solve [auto with gate]
  end.

Lemma never_busy_refresh oid : never_busy (refresh_order_or_500 oid).
Proof. apply never_busy_bind; [by apply never_busy_db|]. intros. gate_auto. Qed.
Hint Resolve never_busy_refresh : gate.

Lemma never_busy_orphan oid aid sans tpl err req_id pem ch g :
  never_busy (quarantine_transport_orphan oid aid sans tpl err req_id pem ch g).
Proof. unfold quarantine_transport_orphan. gate_auto. Qed.
Hint Resolve never_busy_orphan : gate.

Lemma never_busy_failed oid aid sans dec g exc :
  never_busy (enrollment_failed oid aid sans dec g exc).
Proof. unfold enrollment_failed. cbv zeta. gate_auto. Qed.

Lemma never_busy_inner oid aid sans pem dec g :
  never_busy (submit_enrollment_inner oid aid sans pem dec g).
Proof.
  apply never_busy_catch. intros [e|x]; [apply never_busy_failed|apply never_busy_ret].
Qed.

Lemma admitted_bind {A B} (m : Res Exn A) (k : A → Res Exn B) :
  admitted m → (∀ x, admitted (k x)) → admitted (res_bind k m).
Proof. intros Hm Hk. destruct m as [e|x]; simpl; [intros [= ->]; done|apply Hk]. Qed.
Lemma admitted_iter {A} (f : A → Res Exn unit) l :
  (∀ x, admitted (f x)) → admitted (res_iter f l).
Proof. intros Hf. induction l as [|x l IH]; simpl; [done|]. by apply admitted_bind. Qed.

Ltac admitted_auto :=
  repeat match goal with
  | |- admitted (res_bind _ _) => apply admitted_bind; [|intros ?]
  | |- admitted (res_iter _ _) => apply admitted_iter; intros ?
  | |- admitted (match _ with _ => _ end) => case_match
  | |- admitted _ => done
  end.

Lemma jwk_thumbprint_admitted jwk : admitted (jwk_thumbprint jwk).
Proof.
  unfold jwk_thumbprint, validate_canonical_jwk, decode_jwk_uint, decode_jwk_coordinate,
    require_member, decode_jwk_octets.
  admitted_auto.
Qed.

Lemma stored_thumbprint_admitted a : admitted (stored_thumbprint a).
Proof.
  unfold stored_thumbprint, load_json.
  apply admitted_bind; [by case_match|intros; apply jwk_thumbprint_admitted].
Qed.

(** What the gate runs. *)
Lemma never_busy_submit oid aid tp sans csr dec g :
  never_busy (finalize_submit_enrollment oid aid tp sans csr dec g).
Proof.
  unfold finalize_submit_enrollment. apply never_busy_bind.
  { cbn. intros w. by destruct (bool_decide _). }
  intros []. apply never_busy_finally; [|apply (never_busy_total (λ _, tt))].
  apply never_busy_bind; [auto with gate|]. intros account. apply never_busy_bind.
  { destruct account as [a|]; [|done]. apply never_busy_bind; [|done].
    apply never_busy_of_res, stored_thumbprint_admitted. }
  intros t. cbv zeta. case_match; [gate_auto|]. apply never_busy_bind.
  - unfold abandon_if_lease_lapsed. gate_auto.
  - intros [r|[]]; [done|apply never_busy_inner].
Qed.
End programs.
