(* ===== verification/Protocol.v ===== *)
(** * The enrollment protocol: what each thread has claimed

    The invariant behind the concurrent claims about issuance.  A thread's
    [Phase] records what it holds of the shared state; [Inv] says what that
    entitles it to, whatever the other threads do. *)

From S2P Require Import Prelude PyStr Exn Json Policy Jwk Sql Db Act X509 StoreAudit.
From S2P Require Import StoreAccounts StoreOrders StoreCerts StoreRecovery.
From S2P Require Import StoreInv StoreOps Calm World Coalesce CalmActs CsrCheck Responses.
From S2P Require Import Finalize.
Local Open Scope Z_scope.

Record Phase := MkPhase {
  mark : option string;              (* order marked in ActiveEnrollments *)
  lease : option (string * Z);       (* enrollment lease held *)
  sent : bool;                       (* ... and already used for a request *)
  flight : option Submission;        (* request the CA has not answered *)
  lock : option string;              (* account lock held *)
  auth : option (string * string);   (* account and key checked under it *)
  held : option Issued;              (* certificate not yet recorded *)
  recl : option (string * Z * nat);  (* reclaim under way: order, generation, stage *)
}.
Definition idle : Phase := MkPhase None None false None None None None None.

Definition set_mark x p :=
  MkPhase x (lease p) (sent p) (flight p) (lock p) (auth p) (held p) (recl p).
Definition set_lease x b p :=
  MkPhase (mark p) x b (flight p) (lock p) (auth p) (held p) (recl p).
Definition set_flight x b p :=
  MkPhase (mark p) (lease p) b x (lock p) (auth p) (held p) (recl p).
Definition set_lock x y p :=
  MkPhase (mark p) (lease p) (sent p) (flight p) x y (held p) (recl p).
Definition set_held x p :=
  MkPhase (mark p) (lease p) (sent p) (flight p) (lock p) (auth p) x (recl p).
Definition set_recl x p :=
  MkPhase (mark p) (lease p) (sent p) (flight p) (lock p) (auth p) (held p) x.

Definition busy (p : Phase) : Prop := lock p ≠ None.

Definition sub_key (s : Submission) : string * Z := (sub_order s, sub_generation s).

(** ** Accounting for what the CA has issued *)

(** The log line names the order of an issued certificate. *)
Definition names_order (oid : string) (l : LogLine) : Prop :=
  match l with
  | LogQuarantineFailed o | LogNotRetrieved _ o | LogOrphaned _ _ o => o = oid
  | _ => False
  end.

Definition cert_row_for (x : Issued) (d : Db) : Prop :=
  ∃ c, c ∈ certificates d ∧ iss_pem x = Some (Cert.cert_pem c)
       ∧ Cert.order_id c = iss_order x.

(** A row of the store holds the certificate, or an error line names it. *)
Definition accounted (x : Issued) (w : World) : Prop :=
  cert_row_for x (w_db w) ∨ ∃ l, l ∈ w_log w ∧ names_order (iss_order x) l.

Section inv.
Context `{ServerConfig, CertParser}.

(** The post-issuance verifiers can read the certificate. *)
Definition readable (pem : string) : Prop :=
  ∃ c ext, load_pem_x509_certificate pem = inr c ∧ cert_extensions c = inr ext
           ∧ extended_key_usage ext ≠ Some None.
Definition unreadable (x : Issued) : Prop := ∃ pem, iss_pem x = Some pem ∧ ¬ readable pem.

(** The usable account a request is made for. *)
Definition usable (a : Account.t) (aid tp : string) : Prop :=
  Account.id a = aid ∧ Account.status a = AccountStatus.VALID
  ∧ stored_thumbprint a = inr tp ∧ Account.eab_kid a ∈ eab_kids config.

(** ** Orders and certificates *)

Record rows_ok (d : Db) : Prop := {
  (* an open order has no certificate *)
  ro_open : ∀ o c, o ∈ orders d → c ∈ certificates d → open o →
    Cert.order_id c ≠ Order.id o;
  (* an order in processing has none that is quarantined *)
  ro_processing : ∀ o c, o ∈ orders d → c ∈ certificates d →
    Order.status o = OrderStatus.PROCESSING → Cert.order_id c = Order.id o →
    Cert.status c ≠ CertStatus.QUARANTINED;
  ro_owner : ∀ c, c ∈ certificates d → ∃ o, o ∈ orders d ∧ Order.id o = Cert.order_id c;
}.

(** ** What a phase entitles its thread to *)

(** The order exists at this lease generation and is not open. *)
Definition leased (d : Db) (oid : string) (g : Z) : Prop :=
  ∃ o, o ∈ orders d ∧ Order.id o = oid ∧ Order.processing_generation o = g ∧ ¬ open o.
Definition no_cert (d : Db) (oid : string) : Prop :=
  ∀ c, c ∈ certificates d → Cert.order_id c ≠ oid.
(** The order's lease generation is at least [g]. *)
Definition past (d : Db) (oid : string) (g : Z) : Prop :=
  ∃ o, o ∈ orders d ∧ Order.id o = oid ∧ g <= Order.processing_generation o.
Definition at_generation (d : Db) (oid : string) (g : Z) : Prop :=
  ∃ o, o ∈ orders d ∧ Order.id o = oid ∧ Order.processing_generation o = g.
Definition processing_at (d : Db) (oid : string) (g : Z) : Prop :=
  ∃ o, o ∈ orders d ∧ Order.id o = oid ∧ Order.processing_generation o = g
       ∧ Order.status o = OrderStatus.PROCESSING.

Record local (w : World) (p : Phase) : Prop := {
  l_lease : ∀ oid g, lease p = Some (oid, g) →
    mark p = Some oid ∧ leased (w_db w) oid g ∧ no_cert (w_db w) oid
    ∧ (sent p = false → (oid, g) ∉ map sub_key (w_submitted w));
  l_flight : ∀ s, flight p = Some s →
    lease p = Some (sub_key s) ∧ ∃ tp, auth p = Some (sub_account s, tp);
  l_auth : ∀ aid tp, auth p = Some (aid, tp) →
    lock p = Some aid ∧ ∃ a, a ∈ accounts (w_db w) ∧ usable a aid tp;
  l_lock : ∀ aid, lock p = Some aid → aid ∈ w_locks w;
  l_held : ∀ x, held p = Some x → ∃ g, lease p = Some (iss_order x, g);
  l_recl : ∀ oid g n, recl p = Some (oid, g, n) →
    past (w_db w) oid g
    ∧ ((2 <= n)%nat → processing_at (w_db w) oid g → no_cert (w_db w) oid);
}.

(** What two threads may not both claim. *)
Record compat (p q : Phase) : Prop := {
  c_lease : ∀ oid g g', lease p = Some (oid, g) → lease q ≠ Some (oid, g');
  c_lock : ∀ aid, lock p = Some aid → lock q ≠ Some aid;
  c_recl : ∀ oid g n, recl p = Some (oid, g, n) → (1 <= n)%nat → lease q ≠ Some (oid, g);
}.

Definition marks (oid : string) (ps : list Phase) : Z :=
  Z.of_nat (length (filter (λ p, mark p = Some oid) ps)).

Record global (w : World) (ps : list Phase) : Prop := {
  g_wf : wf (w_db w);
  g_rows : rows_ok (w_db w);
  g_marks : ∀ oid, active_count oid w = marks oid ps;
  g_locks : ∀ aid, aid ∈ w_locks w → ∃ p, p ∈ ps ∧ lock p = Some aid;
  g_submitted : ∀ s, s ∈ w_submitted w → past (w_db w) (sub_order s) (sub_generation s);
  g_unique : NoDup (map sub_key (w_submitted w));
  g_inflight : NoDup (w_inflight w) ∧ ∀ s, s ∈ w_inflight w → s ∈ w_submitted w;
  g_owner : ∀ s, s ∈ w_inflight w → ∃ p, p ∈ ps ∧ flight p = Some s;
  g_issued : ∀ x, x ∈ w_issued w →
    accounted x w ∨ unreadable x ∨ ∃ p, p ∈ ps ∧ held p = Some x;
}.

Record Inv (w : World) (ps : list Phase) : Prop := {
  i_global : global w ps;
  i_local : ∀ i p, ps !! i = Some p → local w p;
  i_compat : ∀ i j p q, i ≠ j → ps !! i = Some p → ps !! j = Some q → compat p q;
}.

(** ** Updating one thread *)

Lemma insert_phase i p' (ps : list Phase) q j :
  <[i := p']> ps !! j = Some q → (j = i ∧ q = p') ∨ (j ≠ i ∧ ps !! j = Some q).
Proof.
  intros Hj. destruct (decide (j = i)) as [->|Hne].
  - left. split; [done|]. apply list_lookup_insert_Some in Hj. naive_solver.
  - right. by rewrite list_lookup_insert_ne in Hj.
Qed.

(** The obligations of a step: the thread's own claims, the other threads'
    claims in the new world, and that they do not collide. *)
Lemma Inv_step w ps i p w' p' :
  Inv w ps → ps !! i = Some p →
  global w' (<[i := p']> ps) →
  local w' p' →
  (∀ j q, j ≠ i → ps !! j = Some q → local w q → compat p q → compat q p →
     local w' q ∧ compat p' q ∧ compat q p') →
  Inv w' (<[i := p']> ps).
Proof.
  intros [Hg Hl Hc] Hi Hg' Hl' Ho.
  assert (∀ j q, j ≠ i → ps !! j = Some q → local w' q ∧ compat p' q ∧ compat q p') as Ho'.
  { intros j q Hj Hq. apply (Ho j q); [done..|by eapply Hl| |].
    - by apply (Hc i j).
    - by apply (Hc j i). }
  split; [done| |].
  - intros j q Hq. apply insert_phase in Hq as [[-> ->]|[Hj Hq]]; [done|].
    by apply (Ho' j q Hj Hq).
  - intros j k q r Hjk Hq Hr.
    apply insert_phase in Hq as [[-> ->]|[Hj Hq]]; apply insert_phase in Hr as [[-> ->]|[Hk Hr]].
    + done.
    + by apply (Ho' k r).
    + by apply (Ho' j q).
    + by apply (Hc j k).
Qed.

Lemma marks_insert oid i p p' ps :
  ps !! i = Some p →
  marks oid (<[i := p']> ps)
  = marks oid ps - (if decide (mark p = Some oid) then 1 else 0)
    + (if decide (mark p' = Some oid) then 1 else 0).
Proof.
  intros Hi. unfold marks. apply lookup_lt_Some in Hi as Hlt.
  rewrite <- (take_drop_middle ps i p Hi) at 2.
  rewrite insert_take_drop by done. rewrite !filter_app, !length_app, !filter_cons.
  repeat case_decide; simpl; lia.
Qed.

Lemma elem_insert (i : nat) (p p' : Phase) (ps : list Phase) q :
  ps !! i = Some p → q ∈ ps → q = p ∨ q ∈ <[i := p']> ps.
Proof.
  intros Hi [j Hj]%list_elem_of_lookup. destruct (decide (j = i)) as [->|Hne].
  - left. congruence.
  - right. apply list_elem_of_lookup. exists j. by rewrite list_lookup_insert_ne.
Qed.
Lemma elem_inserted (i : nat) (p p' : Phase) (ps : list Phase) : ps !! i = Some p → p' ∈ <[i := p']> ps.
Proof.
  intros Hi. apply list_elem_of_lookup. exists i.
  apply list_lookup_insert_eq. by eapply lookup_lt_Some.
Qed.

(** What some thread has, some thread still has when [p'] keeps it. *)
Lemma exists_insert {A} (f : Phase → option A) x (i : nat) p p' (ps : list Phase) :
  ps !! i = Some p → (f p = Some x → f p' = Some x) →
  (∃ q, q ∈ ps ∧ f q = Some x) → ∃ q, q ∈ <[i := p']> ps ∧ f q = Some x.
Proof.
  intros Hi Hf (q & Hq & Hx).
  destruct (elem_insert i p p' ps q Hi Hq) as [->|Hin]; [|by exists q].
  exists p'. split; [by eapply elem_inserted|auto].
Qed.

(** ** Databases

    [away oid aid]: calm but for the order [oid], with its certificates, and
    the account [aid]. *)
Record away (oid aid : option string) (d d' : Db) : Prop := {
  aw_orders : ∀ o', o' ∈ orders d' → oid ≠ Some (Order.id o') →
    (∃ o, o ∈ orders d ∧ calm_order o o') ∨ (∀ o, o ∈ orders d → Order.id o ≠ Order.id o');
  aw_certs : ∀ c', c' ∈ certificates d' → oid ≠ Some (Cert.order_id c') →
    ∃ c, c ∈ certificates d ∧ calm_cert c c';
  aw_accounts : ∀ a, a ∈ accounts d → aid ≠ Some (Account.id a) → a ∈ accounts d';
}.

Lemma calm_away oid aid d d' : calm d d' → away oid aid d d'.
Proof. intros []. split; auto. Qed.

Lemma order_inj d o1 o2 :
  wf d → o1 ∈ orders d → o2 ∈ orders d → Order.id o1 = Order.id o2 → o1 = o2.
Proof.
  intros Hwf H1 H2 Hid.
  eapply (unique_elem_of (Some ∘ Order.id) (orders d) o1 o2 (Order.id o1));
    [by apply wf_orders|done..|simpl; congruence].
Qed.

Lemma db_le_order d d' o :
  db_le d d' → o ∈ orders d →
  ∃ o', o' ∈ orders d' ∧ Order.id o' = Order.id o
        ∧ Order.processing_generation o <= Order.processing_generation o'.
Proof.
  intros Hle [i Hi]%list_elem_of_lookup.
  destruct (le_orders _ _ Hle i o Hi) as (o' & Hi' & Hfix & Hrtc).
  exists o'. split; [by eapply list_elem_of_lookup_2|]. split.
  - unfold OrderLife.fixed in Hfix. congruence.
  - by apply edges_generation in Hrtc.
Qed.

Lemma db_le_cert d d' c :
  db_le d d' → c ∈ certificates d →
  ∃ c', c' ∈ certificates d' ∧ Cert.order_id c' = Cert.order_id c
        ∧ Cert.cert_pem c' = Cert.cert_pem c.
Proof.
  intros Hle [i Hi]%list_elem_of_lookup.
  destruct (le_certs _ _ Hle i c Hi) as (c' & Hi' & Hfix & _).
  exists c'. split; [by eapply list_elem_of_lookup_2|].
  unfold CertLife.fixed in Hfix. split; congruence.
Qed.

Lemma past_le d d' oid g : db_le d d' → past d oid g → past d' oid g.
Proof.
  intros Hle (o & Ho & <- & Hg). destruct (db_le_order _ _ o Hle Ho) as (o' & ? & ? & ?).
  exists o'. split_and!; [done|done|lia].
Qed.

Lemma accounted_le x w w' :
  db_le (w_db w) (w_db w') → (∀ l, l ∈ w_log w → l ∈ w_log w') →
  accounted x w → accounted x w'.
Proof.
  intros Hle Hlog [(c & Hc & Hpem & Hoid)|(l & Hl & Hn)].
  - left. destruct (db_le_cert _ _ c Hle Hc) as (c' & ? & Hoid' & Hpem').
    exists c'. split_and!; [done|congruence..].
  - right. exists l. auto.
Qed.

(** A later order row is, away from [oid], a calm successor of the earlier. *)
Lemma away_order oid aid d d' o o' :
  wf d → away oid aid d d' → o ∈ orders d → o' ∈ orders d' → Order.id o' = Order.id o →
  oid ≠ Some (Order.id o) → calm_order o o'.
Proof.
  intros Hwf Haw Ho Ho' Hid Hne.
  destruct (aw_orders _ _ _ _ Haw o' Ho') as [(o1 & Ho1 & Hc)|Hnew]; [by rewrite Hid| |].
  - destruct Hc as [Hid1 Hc]. rewrite (order_inj d o o1) by (done || congruence). by split.
  - by destruct (Hnew o Ho).
Qed.

Lemma away_leased oid aid d d' o g :
  wf d → db_le d d' → away oid aid d d' → oid ≠ Some o → leased d o g → leased d' o g.
Proof.
  intros Hwf Hle Haw Hne (r & Hr & <- & Hg & Hopen).
  destruct (db_le_order _ _ r Hle Hr) as (r' & Hr' & Hid & _).
  destruct (away_order _ _ _ _ r r' Hwf Haw Hr Hr' Hid Hne) as (_ & Hg' & Ho' & _).
  exists r'. split_and!; [done|done|congruence|tauto].
Qed.

Lemma away_no_cert oid aid d d' o :
  away oid aid d d' → oid ≠ Some o → no_cert d o → no_cert d' o.
Proof.
  intros Haw Hne Hno c' Hc' Hoid.
  destruct (aw_certs _ _ _ _ Haw c' Hc') as (c & Hc & Hid & _); [by rewrite Hoid|].
  apply (Hno c Hc). congruence.
Qed.

Lemma processing_back oid aid d d' o g :
  wf d → away oid aid d d' → oid ≠ Some o → past d o g →
  processing_at d' o g → processing_at d o g.
Proof.
  intros Hwf Haw Hne (r & Hr & <- & Hg) (r' & Hr' & Hid & Hg' & Hs).
  destruct (away_order _ _ _ _ r r' Hwf Haw Hr Hr' Hid Hne) as (_ & Hgen & _ & Hproc).
  exists r. split_and!; [done|done|congruence|auto].
Qed.

(** The rows of a database that changed one order. *)
Lemma rows_away oid aid d d' :
  wf d' → db_le d d' → rows_ok d → away oid aid d d' →
  (∀ o c, o ∈ orders d' → c ∈ certificates d' → oid = Some (Order.id o) → open o →
     Cert.order_id c ≠ Order.id o) →
  (∀ o c, o ∈ orders d' → c ∈ certificates d' → oid = Some (Order.id o) →
     Order.status o = OrderStatus.PROCESSING → Cert.order_id c = Order.id o →
     Cert.status c ≠ CertStatus.QUARANTINED) →
  (∀ c, c ∈ certificates d' → oid = Some (Cert.order_id c) →
     ∃ o, o ∈ orders d' ∧ Order.id o = Cert.order_id c) →
  rows_ok d'.
Proof.
  intros Hwf' Hle [Hopen Hproc Howner] Haw Hopen' Hproc' Howner'. split.
  - intros o c Ho Hc Hop Hoid. destruct (decide (oid = Some (Order.id o))) as [Hd|Hd].
    { by apply (Hopen' o c). }
    destruct (aw_certs _ _ _ _ Haw c Hc) as (c0 & Hc0 & Hid0 & _); [congruence|].
    destruct (aw_orders _ _ _ _ Haw o Ho Hd) as [(o0 & Ho0 & Hid & _ & Hop0 & _)|Hnew].
    + apply (Hopen o0 c0); [done|done|tauto|congruence].
    + destruct (Howner c0 Hc0) as (o1 & Ho1 & Hid1). apply (Hnew o1 Ho1). congruence.
  - intros o c Ho Hc Hs Hoid Hq. destruct (decide (oid = Some (Order.id o))) as [Hd|Hd].
    { by apply (Hproc' o c). }
    destruct (aw_certs _ _ _ _ Haw c Hc) as (c0 & Hc0 & Hid0 & _ & Hq0); [congruence|].
    destruct (aw_orders _ _ _ _ Haw o Ho Hd) as [(o0 & Ho0 & Hid & _ & _ & Hs0)|Hnew].
    + apply (Hproc o0 c0); [done|done|auto|congruence|auto].
    + destruct (Howner c0 Hc0) as (o1 & Ho1 & Hid1). apply (Hnew o1 Ho1). congruence.
  - intros c Hc. destruct (decide (oid = Some (Cert.order_id c))) as [Hd|Hd]; [auto|].
    destruct (aw_certs _ _ _ _ Haw c Hc Hd) as (c0 & Hc0 & Hid0 & _).
    destruct (Howner c0 Hc0) as (o1 & Ho1 & Hid1).
    destruct (db_le_order _ _ o1 Hle Ho1) as (o' & ? & ? & _).
    exists o'. split; [done|congruence].
Qed.

(** ** Keeping a thread's claims *)

(** A move of the database at one order and one account, and of the record of
    requests, as seen by a thread in phase [q]. *)
Record unseen (oid aid : option string) (w w' : World) (q : Phase) : Prop := {
  un_wf : wf (w_db w) ∧ wf (w_db w');
  un_le : db_le (w_db w) (w_db w');
  un_away : away oid aid (w_db w) (w_db w');
  un_lease : ∀ o g, oid = Some o → lease q ≠ Some (o, g);
  un_lock : ∀ a, aid = Some a → lock q ≠ Some a;
  un_recl : ∀ o g n, oid = Some o → recl q = Some (o, g, n) →
    (no_cert (w_db w) o → no_cert (w_db w') o)
      ∧ (processing_at (w_db w') o g → processing_at (w_db w) o g)
    ∨ ((1 <= n)%nat → ¬ at_generation (w_db w') o g);
  un_locks : ∀ a, lock q = Some a → a ∈ w_locks w → a ∈ w_locks w';
  un_submitted : ∀ k, lease q = Some k → sent q = false →
    k ∉ map sub_key (w_submitted w) → k ∉ map sub_key (w_submitted w');
}.

Lemma local_unseen oid aid w w' q : unseen oid aid w w' q → local w q → local w' q.
Proof.
  intros [[Hwf Hwf'] Hle Haw Hlease Hlock Hrecl Hlocks Hsub] [].
  split.
  - intros o g Hq. destruct (l_lease0 o g Hq) as (Hm & Hl & Hn & Hs).
    assert (oid ≠ Some o) as Hne by (intros ->; by eapply Hlease).
    split_and!; [done|by apply (away_leased oid aid (w_db w))
                |by apply (away_no_cert oid aid (w_db w))|auto].
  - done.
  - intros a tp Ha. destruct (l_auth0 a tp Ha) as (Hk & r & Hr & Hu). split; [done|].
    exists r. split; [|done]. apply (aw_accounts _ _ _ _ Haw); [done|].
    destruct Hu as [-> _]. intros ->. by eapply Hlock.
  - auto.
  - done.
  - intros o g n Hr. destruct (l_recl0 o g n Hr) as [Hp Hn].
    split; [by eapply past_le|]. intros Hn2 Hat.
    destruct (decide (oid = Some o)) as [Hd|Hd].
    + destruct (Hrecl o g n Hd Hr) as [[Hk Hb]|Hk]; [auto|]. destruct (Hk ltac:(lia)).
      destruct Hat as (r & ? & ? & ? & _). by exists r.
    + apply (away_no_cert oid aid (w_db w)); [done|done|].
      apply Hn; [done|]. by eapply (processing_back oid aid).
Qed.

(** ** Steps of the database *)

(** The registries stay; log lines are only added. *)
Record same_regs (w w' : World) : Prop := {
  sr_active : w_active w' = w_active w;
  sr_locks : w_locks w' = w_locks w;
  sr_submitted : w_submitted w' = w_submitted w;
  sr_inflight : w_inflight w' = w_inflight w;
  sr_issued : w_issued w' = w_issued w;
  sr_log : ∀ l, l ∈ w_log w → l ∈ w_log w';
}.

Definition others (i : nat) (ps : list Phase) (P : Phase → Prop) : Prop :=
  ∀ j q, j ≠ i → ps !! j = Some q → P q.

(** A thread may move the database at the order whose lease no other thread
    holds and the account it has locked. *)
Record move (oid aid : option string) (i : nat) (p : Phase) (ps : list Phase)
    (d d' : Db) : Prop := {
  mv_wf : wf d';
  mv_le : db_le d d';
  mv_away : away oid aid d d';
  mv_rows : rows_ok d';
  mv_lease : ∀ o, oid = Some o → others i ps (λ q, ∀ g, lease q ≠ Some (o, g));
  mv_lock : ∀ a, aid = Some a → lock p = Some a;
  mv_recl : ∀ o, oid = Some o →
    (no_cert d o → no_cert d' o) ∧ (∀ g, processing_at d' o g → processing_at d o g)
    ∨ others i ps (λ q, ∀ g n, recl q = Some (o, g, n) → (1 <= n)%nat →
        ¬ at_generation d' o g);
}.

(** The claims the thread may take up or drop in such a step. *)
Record reclaims (oid : option string) (i : nat) (p p' : Phase) (ps : list Phase)
    (w' : World) : Prop := {
  rc_mark : mark p' = mark p;
  rc_lock : lock p' = lock p;
  rc_flight : flight p' = flight p;
  rc_held : ∀ x, held p = Some x → held p' = Some x ∨ accounted x w' ∨ unreadable x;
  rc_lease : ∀ o g, lease p' = Some (o, g) →
    lease p = Some (o, g)
    ∨ (oid = Some o
       ∧ others i ps (λ q, ∀ n, recl q = Some (o, g, n) → ¬ (1 <= n)%nat));
  rc_recl : ∀ o g n, recl p' = Some (o, g, n) → (1 <= n)%nat →
    others i ps (λ q, lease q ≠ Some (o, g));
}.

Lemma Inv_move oid aid w ps i p w' p' :
  Inv w ps → ps !! i = Some p → same_regs w w' →
  move oid aid i p ps (w_db w) (w_db w') →
  reclaims oid i p p' ps w' → local w' p' →
  Inv w' (<[i := p']> ps).
Proof.
  intros Hinv Hi [Hac Hlk Hsb Hif His Hlg] Hmv Hrc Hloc.
  pose proof (i_global _ _ Hinv) as Hg. destruct Hmv, Hrc.
  eapply Inv_step; [done|done| |done|].
  - split.
    + done.
    + done.
    + intros o. rewrite (marks_insert _ _ p) by done. rewrite rc_mark0.
      unfold active_count. rewrite Hac. rewrite <- (g_marks _ _ Hg). unfold active_count. lia.
    + intros a Ha. rewrite Hlk in Ha. eapply (exists_insert lock); [done| |by apply (g_locks _ _ Hg)].
      by rewrite rc_lock0.
    + intros s Hs. rewrite Hsb in Hs. eapply past_le; [done|by apply (g_submitted _ _ Hg)].
    + rewrite Hsb. apply (g_unique _ _ Hg).
    + rewrite Hsb, Hif. apply (g_inflight _ _ Hg).
    + intros s Hs. rewrite Hif in Hs.
      eapply (exists_insert flight); [done| |by apply (g_owner _ _ Hg)]. by rewrite rc_flight0.
    + intros x Hx. rewrite His in Hx.
      destruct (g_issued _ _ Hg x Hx) as [Ha|[Hu|(q & Hq & Hh)]];
        [left; by apply (accounted_le x w)|by right; left|].
      destruct (elem_insert i p p' ps q Hi Hq) as [->|Hin].
      * destruct (rc_held0 x Hh) as [Hh'|[Ha|Hu]]; [|by left|by right; left].
        right; right. exists p'. split; [by eapply elem_inserted|done].
      * right; right. by exists q.
  - intros j q Hj Hq Hlocal Hpq Hqp. split; [|split].
    + eapply (local_unseen oid aid); [|done]. split.
      * split; [apply (g_wf _ _ Hg)|done].
      * done.
      * done.
      * intros o g Ho. by apply (mv_lease0 o Ho j q).
      * intros a Ha Hqa. by apply (c_lock _ _ Hpq a); [apply mv_lock0|].
      * intros o g n Ho Hr. destruct (mv_recl0 o Ho) as [[Hn Hb]|Hn]; [left; auto|right].
        intros Hn1. by apply (Hn j q Hj Hq g n).
      * by rewrite Hlk.
      * by rewrite Hsb.
    + split.
      * intros o g g' Hl Hq'. destruct (rc_lease0 o g Hl) as [Hl'|[Ho _]].
        -- by apply (c_lease _ _ Hpq o g g').
        -- by apply (mv_lease0 o Ho j q Hj Hq g').
      * intros a Ha. rewrite rc_lock0 in Ha. by apply (c_lock _ _ Hpq).
      * intros o g n Hr Hn. by apply (rc_recl0 o g n Hr Hn j q).
    + split.
      * intros o g g' Hl Hp'. destruct (rc_lease0 o g' Hp') as [Hl'|[Ho _]].
        -- by apply (c_lease _ _ Hqp o g g').
        -- by apply (mv_lease0 o Ho j q Hj Hq g).
      * intros a Ha Hp'. rewrite rc_lock0 in Hp'. by apply (c_lock _ _ Hqp a).
      * intros o g n Hr Hn Hp'. destruct (rc_lease0 o g Hp') as [Hl'|[Ho Hno]].
        -- by apply (c_recl _ _ Hqp o g n).
        -- by apply (Hno j q Hj Hq n).
Qed.

(** ** Calm steps *)

Lemma calm_regs w w' : calm_w w w' → same_regs w w'.
Proof.
  intros [? ? ? ? ? ? ? [l Hl]]. split; try done. intros x Hx. rewrite Hl.
  apply elem_of_app. by left.
Qed.

Lemma rows_calm d d' : wf d' → db_le d d' → calm d d' → rows_ok d → rows_ok d'.
Proof.
  intros Hwf Hle Hc Hr. eapply (rows_away None None); try done.
  by apply calm_away.
Qed.

Lemma calm_move w w' i p ps :
  Inv w ps → calm_w w w' → move None None i p ps (w_db w) (w_db w').
Proof.
  intros [Hg _ _] Hc. destruct (cw_db _ _ Hc (g_wf _ _ Hg)) as (Hwf' & Hle & Hcalm).
  split; [done|done|by apply calm_away| |done..].
  by eapply rows_calm, (g_rows _ _ Hg).
Qed.

Lemma calm_local w w' ps i p :
  Inv w ps → ps !! i = Some p → calm_w w w' → local w' p.
Proof.
  intros Hinv Hi Hc. destruct (cw_db _ _ Hc (g_wf _ _ (i_global _ _ Hinv))) as (Hwf' & Hle & Hcalm).
  eapply (local_unseen None None); [|by apply (i_local _ _ Hinv i)].
  destruct (calm_regs _ _ Hc) as [_ Hlk Hsb _ _ _].
  split; try done; [|by apply calm_away|by rewrite Hlk|by rewrite Hsb].
  split; [|done]. apply (g_wf _ _ (i_global _ _ Hinv)).
Qed.

Lemma same_reclaims ps i p w' w :
  Inv w ps → ps !! i = Some p → reclaims None i p p ps w'.
Proof.
  intros Hinv Hi. split; try done; [by left|by left|].
  intros o g n Hr Hn j q Hj Hq. by apply (c_recl _ _ (i_compat _ _ Hinv i j p q ltac:(done) Hi Hq) o g n).
Qed.

Lemma Inv_calm w w' ps i p :
  Inv w ps → ps !! i = Some p → calm_w w w' → Inv w' (<[i := p]> ps).
Proof.
  intros Hinv Hi Hc. eapply (Inv_move None None); try done.
  - by apply calm_regs.
  - by apply calm_move.
  - by eapply same_reclaims.
  - by eapply calm_local.
Qed.
End inv.
