(* ===== verification/ProtocolDb.v ===== *)
(** * The transactions that are not calm

    What each of them does to the rows [Inv] speaks of: issuing and
    quarantining insert a certificate, the lease is acquired and given back,
    and an account changes. *)

From S2P Require Import Prelude PyStr Exn Json Policy Jwk Sql Db Act X509 StoreAudit.
From S2P Require Import StoreAccounts StoreOrders StoreCerts StoreRecovery.
From S2P Require Import StoreInv StoreOps Calm World Coalesce CalmActs CsrCheck Responses.
From S2P Require Import Finalize Protocol.
Local Open Scope Z_scope.

Lemma tx_bind_inr {A B} (m : Tx A) (k : A → Tx B) d y d' :
  (m ≫= k) d = inr (y, d') → ∃ x d1, m d = inr (x, d1) ∧ k x d1 = inr (y, d').
Proof.
  unfold mbind, tx_bind. destruct (m d) as [|[x d1]]; [done|]. intros Hk. by exists x, d1.
Qed.

(** ** Inserting a certificate *)

(** One certificate row is inserted; the rest is calm. *)
Definition inserted (oid pem : string) (d d' : Db) : Prop :=
  ∃ row d1, Cert.order_id row = oid ∧ Cert.cert_pem row = pem
    ∧ d1 = set_certificates (certificates d ++ [row]) d ∧ calm d1 d' ∧ db_le d1 d'
    ∧ (Cert.status row = CertStatus.QUARANTINED →
       ∀ o, o ∈ orders d' → Order.id o = oid → Order.status o ≠ OrderStatus.PROCESSING).

Lemma insert_then oid pem row {B} (k : unit → Tx B) d y d' :
  cert_wf row → Cert.order_id row = oid → Cert.cert_pem row = pem →
  (∀ x, tx_ok (k x) ∧ tx_calm (k x)) → wf d →
  (insert_cert row ≫= k) d = inr (y, d') →
  (Cert.status row = CertStatus.QUARANTINED →
   ∀ o, o ∈ orders d' → Order.id o = oid → Order.status o ≠ OrderStatus.PROCESSING) →
  inserted oid pem d d'.
Proof.
  intros Hrow Hoid Hpem Hk Hwf (u & d1 & Hins & Hrest)%tx_bind_inr Hq.
  exists row, d1. destruct (tx_ok_insert_cert row Hrow d u d1 Hwf Hins) as [Hwf1 _].
  destruct (Hk u) as [Hok Hcalm]. split_and!; [done|done| |by eapply Hcalm|by eapply Hok|done].
  unfold tx_insert in Hins. destruct (cert_clash d row); [done|]. by injection Hins as <- <-.
Qed.

(** Committed, the row is there, and stays. *)
Lemma inserted_row oid pem d d' :
  inserted oid pem d d' → cert_row_for {| iss_order := oid; iss_pem := Some pem |} d'.
Proof.
  intros (row & d1 & <- & <- & -> & _ & Hle & _).
  destruct (db_le_cert _ _ row Hle) as (c & Hc & Hoid & Hpem).
  { simpl. apply elem_of_app. right. by apply list_elem_of_singleton. }
  exists c. split_and!; [done|simpl; congruence|done].
Qed.

(** Orders and accounts move as in a calm step. *)
Lemma inserted_away oid pem d d' : inserted oid pem d d' → away (Some oid) None d d'.
Proof.
  intros (row & d1 & Hoid & _ & -> & [Ho _ Hc Ha] & _). split.
  - intros o' Ho' _. by apply Ho.
  - intros c' Hc' Hne. destruct (Hc c' Hc') as (c & Hcin & Hcc). simpl in Hcin.
    apply elem_of_app in Hcin as [Hcin|Hcin%list_elem_of_singleton]; [by exists c|].
    destruct Hcc as [Hid _]. congruence.
  - intros a Hain _. by apply Ha.
Qed.
Lemma inserted_order oid pem d d' o o' :
  wf d → inserted oid pem d d' → o ∈ orders d → o' ∈ orders d' → Order.id o' = Order.id o →
  calm_order o o'.
Proof.
  intros Hwf (row & d1 & _ & _ & -> & [Ho _ _ _] & _) Hin Hin' Hid.
  destruct (Ho o' Hin') as [(o1 & Ho1 & Hc)|Hnew]; [|by destruct (Hnew o Hin)].
  destruct Hc as [Hid1 Hc]. simpl in Ho1. rewrite (order_inj d o o1) by (done || congruence).
  by split.
Qed.

(** While the order stays in [processing], the new row is not quarantined. *)
Lemma inserted_processing oid pem d d' o c :
  inserted oid pem d d' → o ∈ orders d' → Order.id o = oid →
  Order.status o = OrderStatus.PROCESSING → c ∈ certificates d' → Cert.order_id c = oid →
  (∀ c0, c0 ∈ certificates d → Cert.order_id c0 = oid →
     Cert.status c0 ≠ CertStatus.QUARANTINED) →
  Cert.status c ≠ CertStatus.QUARANTINED.
Proof.
  intros (row & d1 & _ & _ & -> & [_ _ Hc _] & _ & Hq) Ho Hid Hs Hcin Hcid Hold Hcq.
  destruct (Hc c Hcin) as (c0 & Hc0 & Hid0 & _ & Hq0). simpl in Hc0.
  apply elem_of_app in Hc0 as [Hc0|Hc0%list_elem_of_singleton].
  - apply (Hold c0); [done|congruence|auto].
  - subst c0. apply (Hq (Hq0 Hcq) o); done.
Qed.

(** ** Reopening an order *)

(** An order in [processing] at this generation becomes [ready]; the rest is
    calm. *)
Definition reopened (oid : string) (g : Z) (d d' : Db) : Prop :=
  ∃ now d1, d1 = set_orders (update_where (processing_cas oid (Some g)) (to_ready now) (orders d)) d
    ∧ calm d1 d'.

Lemma processing_to_ready_reopened now oid g d b d' :
  transition_processing_to_ready now oid (Some g) d = inr (b, d') → reopened oid g d d'.
Proof. intros [= <- <-]. eexists now, _. split; [done|reflexivity]. Qed.

Lemma reclaim_reopened now oid g p et aid oc ds d x d' :
  reclaim_processing_order now oid None (Some g) p et aid oc ds d = inr (x, d') →
  reopened oid g d d'.
Proof.
  unfold reclaim_processing_order. intros (n & d1 & [= <- <-] & Hrest)%tx_bind_inr.
  eexists now, _. split; [done|].
  match type of Hrest with ?m _ = _ => assert (tx_calm m) as Hm end; [|by eapply Hm].
  tx_calm_auto.
Qed.

Lemma reopened_away oid g d d' : reopened oid g d d' → away (Some oid) None d d'.
Proof.
  intros (now & d1 & -> & [Ho _ Hc Ha]). split.
  - intros o' Ho' Hne. destruct (Ho o' Ho') as [(o1 & Hin & Hcalm)|Hnew].
    + simpl in Hin. apply update_where_elem_of in Hin as (o & Hin & ->). left. exists o.
      split; [done|]. case_decide as Hp; [|done]. exfalso. apply Hne.
      destruct Hp as [[Hid _] _], Hcalm as [Hid' _].
      assert (Order.id (to_ready now o) = Order.id o) by (by destruct o). congruence.
    + right. intros o Hin Hid.
      apply (Hnew (if decide (processing_cas oid (Some g) o) then to_ready now o else o)).
      * apply update_where_elem_of. by exists o.
      * by case_decide; [destruct o|].
  - intros c' Hc' _. by apply Hc.
  - intros a Hin _. by apply Ha.
Qed.

(** Certificates are as in a calm step, and an order that is open afterwards
    was open, or in [processing] at that generation. *)
Lemma reopened_cert oid g d d' c' :
  reopened oid g d d' → c' ∈ certificates d' →
  ∃ c, c ∈ certificates d ∧ Cert.order_id c = Cert.order_id c'.
Proof.
  intros (now & d1 & -> & [_ _ Hc _]) Hin. destruct (Hc c' Hin) as (c & ? & Hid & _).
  by exists c.
Qed.
Lemma reopened_open oid g d d' o o' :
  wf d → reopened oid g d d' → o ∈ orders d → o' ∈ orders d' → Order.id o' = Order.id o →
  open o' → open o ∨ processing_cas oid (Some g) o.
Proof.
  intros Hwf (now & d1 & -> & [Ho _ _ _]) Hin Hin' Hid Hop.
  set (f := λ o, if decide (processing_cas oid (Some g) o) then to_ready now o else o) in *.
  assert (∀ r, Order.id (f r) = Order.id r) as Hf.
  { intros r. unfold f. by case_decide; [destruct r|]. }
  assert (f o ∈ map f (orders d)) as Hfo by (by apply list_elem_of_fmap_2).
  destruct (Ho o' Hin') as [(o1 & Ho1 & Hc)|Hnew].
  - simpl in Ho1. apply update_where_elem_of in Ho1 as (o0 & Ho0 & ->). fold (f o0) in Hc.
    destruct Hc as (Hid' & _ & Hop' & _). rewrite Hf in Hid'.
    rewrite (order_inj d o o0) by (done || congruence). specialize (Hop' Hop). unfold f in Hop'.
    case_decide; [by right|by left].
  - destruct (Hnew (f o) Hfo). by rewrite Hf.
Qed.

(** What is in [processing] afterwards was before. *)
Lemma reopened_processing oid g d d' g' o :
  reopened oid g d d' → o ∈ orders d → Order.id o = oid →
  processing_at d' oid g' → processing_at d oid g'.
Proof.
  intros (now & d1 & -> & [Ho _ _ _]) Hoin Hoid (o' & Hin' & Hid & Hg & Hs).
  destruct (Ho o' Hin') as [(o1 & Hin1 & Hid1 & Hg1 & _ & Hs1)|Hnew].
  - simpl in Hin1. apply update_where_elem_of in Hin1 as (o2 & Hin & ->).
    specialize (Hs1 Hs). case_decide as Hp; [by destruct o2|].
    exists o2. split_and!; [done|congruence..|done].
  - exfalso. apply (Hnew (if decide (processing_cas oid (Some g) o) then to_ready now o else o)).
    + simpl. apply update_where_elem_of. by exists o.
    + rewrite Hid, <- Hoid. by case_decide; [destruct o|].
Qed.

(** Where no such order is in [processing], the step is calm. *)
Lemma reopened_idle oid g d d' : ¬ processing_at d oid g → reopened oid g d d' → calm d d'.
Proof.
  intros Hno (now & d1 & -> & Hc). rewrite update_where_id in Hc; [by destruct d|].
  intros o Ho [[Hid Hs] Hg]. apply Hno. exists o. split_and!; try done. by destruct Hg as [|[= ?]].
Qed.

(** ** Taking the lease *)

Lemma acquire_cases now oid d r d' :
  wf d → acquire_processing_lease now oid d = inr (r, d') →
  match r with
  | None => d' = d
  | Some g => ∃ o, o ∈ orders d ∧ Order.id o = oid ∧ Order.status o = OrderStatus.READY
      ∧ g = Order.processing_generation o + 1
      ∧ d' = set_orders (update_where (has_status oid OrderStatus.READY) (to_processing now)
                           (orders d)) d
  end.
Proof.
  intros Hwf. unfold acquire_processing_lease.
  intros (n & d1 & [= <- <-] & Hrest)%tx_bind_inr.
  assert (∀ o, has_status oid OrderStatus.READY o → Order.id o = oid) as Hid by (by intros o []).
  rewrite (count_key Order.id _ _ oid (wf_orders d Hwf) Hid) in Hrest.
  pose proof (fetchone_update_where (λ o, Order.id o = oid) (has_status oid OrderStatus.READY)
    (to_processing now) (orders d)) as Hget.
  destruct (fetchone (λ o, Order.id o = oid) (orders d)) as [o|] eqn:Ho; simpl in Hrest.
  2: { injection Hrest as <- <-. rewrite update_where_id; [by destruct d|].
       intros o Hin Hs. eapply (proj1 (fetchone_None _ _) Ho o Hin). by apply Hid. }
  apply fetchone_Some in Ho as Hoin. destruct Hoin as [Hoid Hoin].
  case_decide as Hs; simpl in Hrest.
  - apply tx_bind_inr in Hrest as (row & d2 & [= <- <-] & Hrest). simpl in Hrest.
    rewrite Hget in Hrest by (intros []; simpl; naive_solver).
    simpl in Hrest. rewrite decide_True in Hrest by done. injection Hrest as <- <-.
    exists o. split_and!; [done..|by destruct Hs|by destruct o|done].
  - injection Hrest as <- <-. rewrite update_where_id; [by destruct d|].
    intros r Hin Hr. apply Hs. by rewrite (order_inj d o r); [|done..|rewrite Hoid; symmetry; by apply Hid].
Qed.
