(* ===== verification/ProtocolRules.v ===== *)
(** * The rules of the enrollment protocol

    For each action that claims something or gives it up, what it does to the
    phase of its thread.  [calm] actions keep the phase. *)

From S2P Require Import Prelude PyStr Json Exn Policy Jwk Sql Db StoreAudit StoreAccounts.
From S2P Require Import StoreOrders Act World Coalesce X509 CsrCheck StoreCerts Responses Finalize.
From S2P Require Import StoreRecovery StoreInv StoreOps Calm CalmActs Protocol ProtocolDb.
Local Open Scope Z_scope.

Section rules.
Context `{ServerConfig, CertParser}.

Abbreviation safe := (Pool.safe Inv busy).

Lemma safe_ret {A} i p (x : A) (Q : Res Exn A → Phase → Prop) : Q (inr x) p → safe i p (mret x) Q.
Proof. done. Qed.
Lemma safe_ret_bind {A B} i p (x : A) (k : A → Act World B) Q :
  safe i p (k x) Q → safe i p (mret x ≫= k) Q.
Proof. done. Qed.
Lemma safe_raise {A} i p e (Q : Res Exn A → Phase → Prop) :
  Q (inl e) p → safe i p (act_raise e) Q.
Proof. done. Qed.

Lemma safe_calm {A} i p (m : Act World A) :
  calm_prog m → safe i p m (λ _ p', p' = p).
Proof.
  revert m. fix IH 1. intros [r|f] Hm; [done|]. simpl in *. intros w ps Hinv Hp.
  specialize (Hm w). destruct (f w) as [[w' m']|]; [|done]. destruct Hm as [Hc Hm'].
  exists p. split; [by eapply Inv_calm|by apply IH].
Qed.

(** Calm first, then the rest. *)
Lemma safe_calm_bind {A B} i p (m : Act World A) (k : A → Act World B) Q :
  calm_prog m → (∀ x, safe i p (k x) Q) → (∀ e, Q (inl e) p) → safe i p (m ≫= k) Q.
Proof.
  intros Hm Hk He. eapply Pool.safe_bind; [by apply safe_calm| |].
  - intros x p' ->. apply Hk.
  - intros e p' ->. apply He.
Qed.

(** A program in any phase, and what it leaves in every case. *)
Lemma safe_calm_end {A} i p (m : Act World A) (Q : Res Exn A → Phase → Prop) :
  calm_prog m → (∀ r, Q r p) → safe i p m Q.
Proof.
  intros Hm HQ. eapply Pool.safe_mono; [by apply safe_calm|]. by intros r p' ->.
Qed.

(** ** Transactions *)

Definition after (d : Db) (fs : list (option StoreFault)) (w : World) : World :=
  set_db d (set_faults fs w).

Lemma after_regs d fs w : same_regs w (after d fs w).
Proof. by split. Qed.

Lemma safe_store {A} i p (m : World → Tx A) (Q : Res Exn A → Phase → Prop) :
  (∀ e, Q (inl e) p) →
  (∀ w ps x d fs, Inv w ps → ps !! i = Some p → m w (w_db w) = inr (x, d) →
     ∃ p', Inv (after d fs w) (<[i := p']> ps) ∧ Q (inr x) p') →
  safe i p (act_atomic (λ w, store (m w) w)) Q.
Proof.
  intros Hfail Hok. apply Pool.safe_atomic. intros w ps Hinv Hi.
  destruct (store_cases (m w) w) as [(fs & Hw & e & Hr)|(fs & x & d & Hm & Hs)].
  - exists p. rewrite Hr, Hw. split; [|done]. eapply Inv_calm; [done..|].
    by eapply (calm_w_frame _ _ []); rewrite ?app_nil_r.
  - rewrite Hs. by eapply Hok.
Qed.

Lemma safe_db {A} i p (m : Z → Tx A) (Q : Res Exn A → Phase → Prop) :
  (∀ e, Q (inl e) p) →
  (∀ w ps x d fs, Inv w ps → ps !! i = Some p → m (w_now w) (w_db w) = inr (x, d) →
     ∃ p', Inv (after d fs w) (<[i := p']> ps) ∧ Q (inr x) p') →
  safe i p (db m) Q.
Proof. apply (safe_store i p (λ w, m (w_now w))). Qed.

(** Reading keeps the world, and may start a claim. *)
Lemma after_read w ps fs i p p' :
  Inv w ps → ps !! i = Some p →
  reclaims None i p p' ps (after (w_db w) fs w) → local w p' →
  Inv (after (w_db w) fs w) (<[i := p']> ps).
Proof.
  intros Hinv Hi Hrc Hloc. pose proof (g_wf _ _ (i_global _ _ Hinv)) as Hwf.
  eapply (Inv_move None None); [done|done|apply after_regs| |done|].
  - apply calm_move; [done|]. by eapply (calm_w_frame _ _ []); rewrite ?app_nil_r.
  - destruct Hloc. by split.
Qed.

(** ** Giving the lease up *)

Definition dropped (p : Phase) : Phase := set_held None (set_lease None false p).

Lemma local_dropped w p : flight p = None → local w p → local w (dropped p).
Proof.
  intros Hf []. split; simpl; try done.
  intros s Hs. rewrite Hf in Hs. done.
Qed.

(** The holder of a lease moves its order, records what it held and is done
    with the lease. *)
Lemma Inv_drop w ps i p w' oid g :
  Inv w ps → ps !! i = Some p → lease p = Some (oid, g) → flight p = None →
  recl p = None → same_regs w w' → wf (w_db w') → db_le (w_db w) (w_db w') →
  away (Some oid) None (w_db w) (w_db w') → rows_ok (w_db w') →
  (no_cert (w_db w) oid → no_cert (w_db w') oid)
    ∧ (∀ g', processing_at (w_db w') oid g' → processing_at (w_db w) oid g')
    ∨ (∀ g', at_generation (w_db w') oid g' → g' = g) →
  (∀ x, held p = Some x → accounted x w' ∨ unreadable x) →
  Inv w' (<[i := dropped p]> ps).
Proof.
  intros Hinv Hi Hl Hf Hr Hregs Hwf' Hle Haw Hrows Hrecl Hheld.
  assert (∀ j q, j ≠ i → ps !! j = Some q → compat p q ∧ compat q p) as Hc.
  { intros j q Hj Hq. split; [by eapply (i_compat _ _ Hinv i j)|by eapply (i_compat _ _ Hinv j i)]. }
  eapply (Inv_move (Some oid) None); [done|done|done| | |].
  - split; try done.
    + intros o [= <-] j q Hj Hq g' Hg'. by eapply (c_lease _ _ (proj1 (Hc j q Hj Hq)) oid g g').
    + intros o [= <-]. destruct Hrecl as [Hn|Hg]; [by left|right].
      intros j q Hj Hq g' n Hrq Hn Hat. apply Hg in Hat as ->.
      by eapply (c_recl _ _ (proj2 (Hc j q Hj Hq))).
  - split; simpl; try done; [by intros x Hx; right; apply Hheld|].
    intros o g' n Hrq. rewrite Hr in Hrq. done.
  - eapply (local_unseen (Some oid) None w).
    + pose proof (g_wf _ _ (i_global _ _ Hinv)).
      split; simpl; try done; [|by rewrite (sr_locks _ _ Hregs)].
      intros o g' n _ Hrq. rewrite Hr in Hrq. done.
    + apply local_dropped; [done|]. by eapply (i_local _ _ Hinv).
Qed.

Lemma lease_facts w ps i p oid g :
  Inv w ps → ps !! i = Some p → lease p = Some (oid, g) →
  leased (w_db w) oid g ∧ no_cert (w_db w) oid.
Proof.
  intros Hinv Hi Hl. destruct (l_lease _ _ (i_local _ _ Hinv i p Hi) oid g Hl) as (_ & ? & ? & _).
  done.
Qed.

(** Issuing and quarantining. *)
Lemma Inv_inserted w ps i p d fs oid g pem :
  Inv w ps → ps !! i = Some p → lease p = Some (oid, g) → flight p = None →
  recl p = None → (∀ x, held p = Some x → iss_pem x = Some pem) →
  wf d → db_le (w_db w) d → inserted oid pem (w_db w) d →
  Inv (after d fs w) (<[i := dropped p]> ps).
Proof.
  intros Hinv Hi Hl Hf Hr Hheld Hwf' Hle Hins.
  destruct (lease_facts _ _ _ _ _ _ Hinv Hi Hl) as [(o & Ho & Hoid & Hg & Hop) Hno].
  pose proof (i_global _ _ Hinv) as Hgl. pose proof (g_wf _ _ Hgl) as Hwf.
  destruct (db_le_order _ _ o Hle Ho) as (o' & Ho' & Hid' & _).
  destruct (inserted_order _ _ _ _ _ _ Hwf Hins Ho Ho' Hid') as (_ & Hg' & Hop' & _).
  assert (∀ r, r ∈ orders d → Order.id r = oid → r = o') as Huniq.
  { intros r Hrin Hrid. apply (order_inj d); [done..|congruence]. }
  eapply Inv_drop; try done.
  - by eapply inserted_away.
  - eapply (rows_away (Some oid) None (w_db w)); [done|done|apply (g_rows _ _ Hgl)
      |by eapply inserted_away| | |].
    + intros r c Hrin Hcin [= Hrid] Hrop. rewrite (Huniq r) in Hrop by done. tauto.
    + intros r c Hrin Hcin [= Hrid] Hrs Hcid. rewrite (Huniq r) in Hrs by done.
      apply (inserted_processing _ _ _ _ o' c Hins); [done|congruence|done|done|congruence|].
      intros c0 Hc0 Hid0. by destruct (Hno c0 Hc0).
    + intros c Hc [= Hcid]. exists o'. split; [done|congruence].
  - right. intros g' (r & Hrin & Hrid & <-). rewrite (Huniq r) by done. congruence.
  - intros x Hx. left. left. destruct (l_held _ _ (i_local _ _ Hinv i p Hi) x Hx) as [g' Hg0].
    rewrite Hl in Hg0. injection Hg0 as Hxo _. specialize (Hheld x Hx).
    destruct x as [xo xp]. simpl in *. subst. by eapply inserted_row.
Qed.

(** Giving the order back. *)
Lemma Inv_reopened w ps i p d fs oid g :
  Inv w ps → ps !! i = Some p → lease p = Some (oid, g) → flight p = None →
  recl p = None → held p = None →
  wf d → db_le (w_db w) d → reopened oid g (w_db w) d →
  Inv (after d fs w) (<[i := dropped p]> ps).
Proof.
  intros Hinv Hi Hl Hf Hr Hheld Hwf' Hle Hre.
  destruct (lease_facts _ _ _ _ _ _ Hinv Hi Hl) as [(o & Ho & Hoid & Hg & Hop) Hno].
  pose proof (i_global _ _ Hinv) as Hgl. pose proof (g_wf _ _ Hgl) as Hwf.
  assert (no_cert d oid) as Hno'.
  { intros c' Hc' Hcid. destruct (reopened_cert _ _ _ _ _ Hre Hc') as (c & Hc & Hid).
    apply (Hno c Hc). congruence. }
  eapply Inv_drop; try done.
  - by eapply reopened_away.
  - eapply (rows_away (Some oid) None (w_db w)); [done|done|apply (g_rows _ _ Hgl)
      |by eapply reopened_away| | |].
    + intros r c _ Hcin [= Hrid] _ Hcid. apply (Hno' c Hcin). congruence.
    + intros r c _ Hcin [= Hrid] _ Hcid. destruct (Hno' c Hcin). congruence.
    + intros c Hc [= Hcid]. by destruct (Hno' c Hc).
  - left. split; [done|]. intros g'. by apply (reopened_processing oid g _ _ _ o).
  - intros x Hx. congruence.
Qed.

(** ** Marks and locks *)

Lemma local_registry w w' q :
  w_db w' = w_db w → w_submitted w' = w_submitted w →
  (∀ a, lock q = Some a → a ∈ w_locks w → a ∈ w_locks w') → local w q → local w' q.
Proof. intros Hdb Hsb Hlk []. split; rewrite ?Hdb, ?Hsb; auto. Qed.

(** A step of the registries [ActiveEnrollments] and [AccountIssuanceLocks]. *)
Lemma Inv_registry w ps i p w' p' :
  Inv w ps → ps !! i = Some p →
  w_db w' = w_db w → w_log w' = w_log w → w_submitted w' = w_submitted w →
  w_inflight w' = w_inflight w → w_issued w' = w_issued w →
  (∀ oid, active_count oid w'
          = active_count oid w - (if decide (mark p = Some oid) then 1 else 0)
            + (if decide (mark p' = Some oid) then 1 else 0)) →
  (∀ a, a ∈ w_locks w' ↔ (a ∈ w_locks w ∧ lock p ≠ Some a) ∨ lock p' = Some a) →
  (∀ a, lock p' = Some a → lock p = Some a ∨ a ∉ w_locks w) →
  flight p' = flight p → (∀ x, held p = Some x → held p' = Some x ∨ unreadable x) →
  recl p' = recl p →
  lease p' = None ∨ lease p' = lease p → local w' p' →
  Inv w' (<[i := p']> ps).
Proof.
  intros Hinv Hi Hdb Hlog Hsb Hif His Hmark Hlock Hnew Hf Hh Hr Hl Hloc.
  pose proof (i_global _ _ Hinv) as Hg.
  eapply Inv_step; [done|done| |done|].
  - destruct Hg. split; rewrite ?Hdb, ?Hsb, ?Hif; try done.
    + intros oid. rewrite (marks_insert _ _ p) by done. rewrite Hmark, g_marks. done.
    + intros a [[Ha Hp]|Ha]%Hlock.
      * eapply (exists_insert lock); [done| |by apply g_locks]. done.
      * exists p'. split; [by eapply elem_inserted|done].
    + intros s Hs. eapply (exists_insert flight); [done| |by apply g_owner]. by rewrite Hf.
    + intros x Hx. rewrite His in Hx. destruct (g_issued x Hx) as [Ha|[Hu|Hq]].
      * left. destruct Ha as [Ha|Ha]; [left; by rewrite Hdb|right; by rewrite Hlog].
      * by right; left.
      * destruct Hq as (q & Hq & Hx'). destruct (elem_insert i p p' ps q Hi Hq) as [->|Hin].
        -- destruct (Hh x Hx') as [Hh'|Hu]; [|by right; left].
           right; right. exists p'. split; [by eapply elem_inserted|done].
        -- right; right. by exists q.
  - intros j q Hj Hq Hlq Hpq Hqp. split_and!.
    + apply (local_registry w); [done|done| |done]. intros a Ha Haw. apply Hlock. left.
      split; [done|]. intros Hp. by apply (c_lock _ _ Hpq a).
    + split; [|intros a Ha Hqa; destruct (Hnew a Ha) as [Hp|Hn]|rewrite Hr; apply (c_recl _ _ Hpq)].
      * intros oid g g' Hp'. destruct Hl as [Hl|Hl]; [congruence|].
        rewrite Hl in Hp'. by apply (c_lease _ _ Hpq oid g g').
      * by apply (c_lock _ _ Hpq a).
      * apply Hn. by apply (l_lock _ _ Hlq).
    + split.
      * intros oid g g' Hlq' Hp'. destruct Hl as [Hl|Hl]; [congruence|].
        rewrite Hl in Hp'. by apply (c_lease _ _ Hqp oid g g').
      * intros a Ha Hp'. destruct (Hnew a Hp') as [Hp|Hn].
        -- by apply (c_lock _ _ Hqp a).
        -- apply Hn. by apply (l_lock _ _ Hlq).
      * intros oid g n Hrq Hn Hp'. destruct Hl as [Hl|Hl]; [congruence|].
        rewrite Hl in Hp'. by apply (c_recl _ _ Hqp oid g n).
Qed.

Lemma same_locks w p a :
  local w p → (a ∈ w_locks w ∧ lock p ≠ Some a) ∨ lock p = Some a ↔ a ∈ w_locks w.
Proof.
  intros Hl. destruct (decide (lock p = Some a)) as [Ha|]; [|tauto].
  pose proof (l_lock _ _ Hl a Ha). tauto.
Qed.

Lemma safe_enter i p oid :
  mark p = None → safe i p (enrolling_enter oid) (λ r p', r = inr tt ∧ p' = set_mark (Some oid) p).
Proof.
  intros Hm. apply Pool.safe_atomic. intros w ps Hinv Hi. eexists. split; [|done].
  pose proof (i_local _ _ Hinv i p Hi) as Hloc.
  eapply (Inv_registry w); try done; simpl.
  - intros o. unfold active_count at 1. simpl. rewrite Hm.
    rewrite (decide_False (P := None = Some o)) by done.
    destruct (decide (oid = o)) as [->|Hne].
    + rewrite lookup_insert_eq. rewrite decide_True by done. simpl. lia.
    + rewrite lookup_insert_ne by done. rewrite decide_False by congruence.
      unfold active_count. lia.
  - intros a. by rewrite (same_locks w p).
  - by left.
  - by left.
  - by right.
  - apply (local_registry w); try done. destruct Hloc. split; try done. intros o g Ho.
    destruct (l_lease o g Ho) as [Hm' _]. congruence.
Qed.

(** What a thread keeps when it leaves [enrolling]. *)
Definition left_enrolling (p : Phase) : Phase :=
  set_mark None (set_held None (set_lease None false p)).

Lemma safe_exit i p oid :
  mark p = Some oid → flight p = None → (∀ x, held p = Some x → unreadable x) →
  safe i p (enrolling_exit oid) (λ r p', r = inr tt ∧ p' = left_enrolling p).
Proof.
  intros Hm Hf Hh. apply Pool.safe_atomic. intros w ps Hinv Hi. eexists. split; [|done].
  pose proof (i_local _ _ Hinv i p Hi) as Hloc.
  assert (1 <= marks oid ps) as Hpos.
  { unfold marks. destruct (filter _ ps) eqn:Hfil; [|simpl; lia].
    assert (p ∈ filter (λ q, mark q = Some oid) ps) as Hin.
    { apply list_elem_of_filter. split; [done|by eapply list_elem_of_lookup_2]. }
    rewrite Hfil in Hin. by apply not_elem_of_nil in Hin. }
  rewrite <- (g_marks _ _ (i_global _ _ Hinv)) in Hpos.
  eapply (Inv_registry w); try done; simpl.
  - intros o. rewrite Hm. unfold active_count at 1. cbn [left_enrolling set_mark mark]. simpl.
    destruct (decide (oid = o)) as [->|Hne].
    + rewrite (decide_True (P := Some o = Some o)) by done.
      destruct (Z.ltb_spec 0 (active_count o w - 1)).
      * rewrite lookup_insert_eq. simpl. lia.
      * rewrite lookup_delete_eq. simpl. lia.
    + rewrite (decide_False (P := Some oid = Some o)) by congruence.
      case_match; rewrite ?lookup_insert_ne, ?lookup_delete_ne by done; unfold active_count; lia.
  - intros a. by rewrite (same_locks w p).
  - by left.
  - by right; apply Hh.
  - by left.
  - apply (local_registry w); try done. destruct Hloc.
    split; try done; simpl. by rewrite Hf.
Qed.

Lemma safe_lock i p aid :
  lock p = None → auth p = None →
  safe i p (lock_account aid) (λ r p', r = inr tt ∧ p' = set_lock (Some aid) None p).
Proof.
  intros Hl Ha. simpl. intros w ps Hinv Hi. case_bool_decide as Hfree.
  - eexists. split; [|done]. pose proof (i_local _ _ Hinv i p Hi) as Hloc.
    eapply (Inv_registry w); try done; simpl.
    + intros o. unfold active_count. simpl. lia.
    + intros a. rewrite elem_of_union, elem_of_singleton, Hl. naive_solver.
    + intros a [= <-]. by right.
    + by left.
    + by right.
    + destruct Hloc. split; try done; simpl.
      * intros s Hs. destruct (l_flight s Hs) as (? & tp & Htp). congruence.
      * intros a [= <-]. apply elem_of_union. left. by apply elem_of_singleton.
  - unfold busy. rewrite Hl. split; [naive_solver|].
    destruct (g_locks _ _ (i_global _ _ Hinv) aid) as (q & Hq & Hqa); [done|].
    exists q. split; [done|congruence].
Qed.

Lemma safe_unlock i p aid :
  lock p = Some aid → flight p = None →
  safe i p (unlock_account aid) (λ r p', r = inr tt ∧ p' = set_lock None None p).
Proof.
  intros Hl Hf. apply Pool.safe_atomic. intros w ps Hinv Hi. eexists. split; [|done].
  pose proof (i_local _ _ Hinv i p Hi) as Hloc.
  eapply (Inv_registry w); try done; simpl.
  - intros o. unfold active_count. simpl. lia.
  - intros a. rewrite elem_of_difference, elem_of_singleton, Hl. naive_solver.
  - by left.
  - by right.
  - apply (local_registry w); try done. destruct Hloc. split; try done; simpl. by rewrite Hf.
Qed.

(** [with ...submitting(account_id):] and [mutating]: the lock is given back
    however the body ends. *)
Lemma safe_holding_lock {A} i p aid (body : Act World A) (Q : Res Exn A → Phase → Prop) :
  lock p = None → auth p = None →
  safe i (set_lock (Some aid) None p) body
    (λ r p', lock p' = Some aid ∧ flight p' = None ∧ Q r (set_lock None None p')) →
  safe i p (holding_lock aid body) Q.
Proof.
  intros Hl Ha Hbody. eapply Pool.safe_bind; [by apply safe_lock| |by intros e p' []].
  intros [] p' [_ ->]. eapply Pool.safe_then; [exact Hbody|].
  intros r p' (Hp' & Hf & HQ). eapply Pool.safe_then; [by apply safe_unlock|].
  intros rc p2 [-> ->]. done.
Qed.

(** [with ctx.active_enrollments.enrolling(order_id):] *)
Lemma safe_enrolling {A} i p oid (body : Act World A) (Q : Res Exn A → Phase → Prop) :
  mark p = None →
  safe i (set_mark (Some oid) p) body
    (λ r p', mark p' = Some oid ∧ flight p' = None ∧ (∀ x, held p' = Some x → unreadable x)
             ∧ Q r (left_enrolling p')) →
  safe i p (enrolling oid body) Q.
Proof.
  intros Hm Hbody. eapply Pool.safe_bind; [by apply safe_enter| |by intros e p' []].
  intros [] p' [_ ->]. eapply Pool.safe_then; [exact Hbody|].
  intros r p' (Hp' & Hf & Hh & HQ). eapply Pool.safe_then; [by apply safe_exit|].
  intros rc p2 [-> ->]. done.
Qed.

(** ** Taking the lease *)

Definition marked (oid : string) : Phase := set_mark (Some oid) idle.
Definition leasing (oid : string) (g : Z) : Phase := set_lease (Some (oid, g)) false (marked oid).

Lemma safe_acquire i oid :
  safe i (marked oid) (db (λ now, acquire_processing_lease now oid))
    (λ r p', match r with
             | inr (Some g) => p' = leasing oid g
             | _ => p' = marked oid
             end).
Proof.
  apply safe_db; [done|]. intros w ps r d fs Hinv Hi Hm.
  pose proof (i_global _ _ Hinv) as Hgl. pose proof (g_wf _ _ Hgl) as Hwf.
  destruct (store_tx_ok _ (T_acquire_processing_lease (w_now w) oid) _ _ _ Hwf Hm) as [Hwf' Hle].
  apply acquire_cases in Hm; [|done]. destruct r as [g|].
  2: { subst d. exists (marked oid). split; [|done].
       apply (after_read w ps fs i (marked oid)); [done|done|by eapply same_reclaims|].
       by eapply i_local. }
  destruct Hm as (o & Ho & Hoid & Hst & Hg & Hd). exists (leasing oid g). split; [|done].
  assert (open o) as Hop by (by right).
  assert (no_cert (w_db w) oid) as Hno.
  { intros c Hc. rewrite <- Hoid. by apply (ro_open _ (g_rows _ _ Hgl)). }
  assert (∀ o', o' ∈ orders d → Order.id o' = oid →
            Order.status o' = OrderStatus.PROCESSING ∧ Order.processing_generation o' = g) as Hnew.
  { intros o' Ho' Hid'. rewrite Hd in Ho'. apply update_where_elem_of in Ho' as (r & Hr & Heq).
    assert (r = o) as ->.
    { apply (order_inj (w_db w)); [done..|]. rewrite Hoid, <- Hid', Heq.
      by case_decide; [destruct r|]. }
    rewrite Heq, decide_True by done. destruct o; simpl in *; subst; done. }
  destruct (db_le_order _ _ o Hle Ho) as (o' & Ho' & Hid' & _).
  eapply (Inv_move (Some oid) None w ps i (marked oid)); [done|done|apply after_regs| | |].
  - split; simpl; try done.
    + split; [|intros c Hc _; exists c; by rewrite Hd in Hc|intros a Ha _; by rewrite Hd].
      intros r Hr Hne. left. rewrite Hd in Hr. apply update_where_elem_of in Hr as (r0 & Hr0 & ->).
      exists r0. split; [done|]. case_decide as Hp; [|done].
      destruct Hne. destruct r0, Hp; simpl in *; congruence.
    + split.
      * intros r c Hr Hc Hro Hid. rewrite Hd in Hc. destruct (decide (Order.id r = oid)) as [He|He].
        -- apply (Hno c Hc). congruence.
        -- rewrite Hd in Hr. apply update_where_elem_of in Hr as (r0 & Hr0 & ->).
           case_decide as Hp; [destruct r0, Hp; simpl in *; congruence|].
           by apply (ro_open _ (g_rows _ _ Hgl) r0 c).
      * intros r c Hr Hc Hs Hid Hq. rewrite Hd in Hc.
        destruct (decide (Order.id r = oid)) as [He|He].
        -- apply (Hno c Hc). congruence.
        -- rewrite Hd in Hr. apply update_where_elem_of in Hr as (r0 & Hr0 & ->).
           case_decide as Hp; [destruct r0, Hp; simpl in *; congruence|].
           by apply (ro_processing _ (g_rows _ _ Hgl) r0 c).
      * intros c Hc. rewrite Hd in Hc. destruct (ro_owner _ (g_rows _ _ Hgl) c Hc) as (r & Hr & <-).
        destruct (db_le_order _ _ r Hle Hr) as (r' & ? & ? & _). by exists r'.
    + intros r [= <-] j q Hj Hq g' Hl.
      destruct (lease_facts _ _ _ _ _ _ Hinv Hq Hl) as [(r & Hr & Hrid & _ & Hcl) _].
      apply Hcl. by rewrite (order_inj (w_db w) r o) by (done || congruence).
    + intros r [= <-]. right. intros j q Hj Hq g' n Hr _ (r & Hrin & Hrid & Hrg).
      destruct (l_recl _ _ (i_local _ _ Hinv j q Hq) _ _ _ Hr) as [(r0 & Hr0 & Hid0 & Hle') _].
      destruct (Hnew r Hrin Hrid) as [_ Hg'].
      rewrite (order_inj (w_db w) r0 o) in Hle' by (done || congruence). lia.
  - split; simpl; try done. intros r g' [= <- <-]. right. split; [done|].
    intros j q Hj Hq n Hr _. destruct (l_recl _ _ (i_local _ _ Hinv j q Hq) _ _ _ Hr) as [Hp _].
    destruct Hp as (r & Hrin & Hrid & Hle').
    rewrite (order_inj (w_db w) r o) in Hle' by (done || congruence). lia.
  - split; simpl; try done. intros r g' [= <- <-]. split_and!; [done| | |].
    + exists o'. destruct (Hnew o' Ho') as [Hs Hg']; [congruence|].
      split_and!; [done|congruence|done|]. unfold open. rewrite Hs. by intros [|].
    + by rewrite Hd.
    + intros _ (s & Hk & Hs)%list_elem_of_fmap. unfold sub_key in Hk. injection Hk as Hk1 Hk2.
      destruct (g_submitted _ _ Hgl s Hs) as (r & Hrin & Hrid & Hle').
      rewrite (order_inj (w_db w) r o) in Hle' by (done || congruence). lia.
Qed.

(** ** Checking the account *)

#[export] Instance usable_dec a aid tp : Decision (usable a aid tp).
Proof.
  unfold usable.
  destruct (stored_thumbprint a) as [e|t]; [by right; intros (_ & _ & ? & _)|].
  destruct (decide (Account.id a = aid ∧ Account.status a = AccountStatus.VALID ∧ t = tp
                    ∧ Account.eab_kid a ∈ eab_kids config)) as [Hd|Hd].
  - left. naive_solver.
  - right. naive_solver.
Defined.

(** What the read under the lock leaves the thread entitled to. *)
Definition checked (p : Phase) (aid tp : string) (r : Res Exn (option Account.t)) : Phase :=
  match r with
  | inr (Some a) => if decide (usable a aid tp) then set_lock (Some aid) (Some (aid, tp)) p else p
  | _ => p
  end.

Lemma safe_check_account i p aid tp :
  lock p = Some aid → flight p = None →
  safe i p (db (λ _, get_account aid))
    (λ r p', p' = checked p aid tp r ∧ ∀ a, r = inr (Some a) → Account.id a = aid).
Proof.
  intros Hl Hf. apply safe_db; [done|]. intros w ps r d fs Hinv Hi Hm.
  injection Hm as <- <-. eexists. split; [|split; [done|]].
  2: { intros a [= Ha]. by apply fetchone_Some in Ha as [? _]. }
  pose proof (i_local _ _ Hinv i p Hi) as Hloc.
  assert (∀ o, mark (checked p aid tp (inr o)) = mark p
    ∧ lease (checked p aid tp (inr o)) = lease p ∧ sent (checked p aid tp (inr o)) = sent p
    ∧ flight (checked p aid tp (inr o)) = flight p ∧ lock (checked p aid tp (inr o)) = lock p
    ∧ held (checked p aid tp (inr o)) = held p ∧ recl (checked p aid tp (inr o)) = recl p) as Hc.
  { intros o. unfold checked. repeat case_match; split_and!; simpl; congruence. }
  destruct (Hc (fetchone (λ a, Account.id a = aid) (accounts (w_db w))))
    as (Hc1 & Hc2 & Hc3 & Hc4 & Hc5 & Hc6 & Hc7).
  apply (after_read w ps fs i p); [done|done| |].
  - split; rewrite ?Hc1, ?Hc2, ?Hc4, ?Hc5, ?Hc6, ?Hc7; try done; [by left|by left|].
    intros o g n Hr Hn j q Hj Hq.
    by apply (c_recl _ _ (i_compat _ _ Hinv i j p q ltac:(done) Hi Hq) o g n).
  - destruct Hloc. split; rewrite ?Hc1, ?Hc2, ?Hc3, ?Hc4, ?Hc5, ?Hc6, ?Hc7; try done.
    + by rewrite Hf.
    + intros a0 tp0. unfold checked. destruct (fetchone _ _) as [a|] eqn:Ha; [|auto].
      case_decide as Hu; [|auto]. simpl. intros [= <- <-]. split; [done|].
      apply fetchone_Some in Ha as [_ Ha]. by exists a.
Qed.
End rules.

(** Walk through calm actions to the returns. *)
Ltac peel :=
  repeat match goal with
  | |- Pool.safe _ _ _ _ (mret _) _ => apply safe_ret
  | |- Pool.safe _ _ _ _ (act_raise _) _ => apply safe_raise
  | |- Pool.safe _ _ _ _ (if ?b then _ else _) _ => destruct b
  | |- Pool.safe _ _ _ _ (match ?x with _ => _ end) _ => destruct x
  | |- Pool.safe _ _ _ _ (_ ≫= _) _ =>
      apply safe_calm_bind; [solve [calm_auto]|intros ?|intros ?]
  end.

(** ** The steps that issue *)

Lemma remove_first_incl {A} `{EqDecision A} (x y : A) l : y ∈ remove_first x l → y ∈ l.
Proof.
  induction l as [|z l IH]; simpl; [done|]. case_decide; [by right|].
  intros [->|Hy]%elem_of_cons; [left|right; auto].
Qed.
Lemma remove_first_nodup {A} `{EqDecision A} (x : A) l : NoDup l → NoDup (remove_first x l).
Proof.
  induction 1 as [|z l Hz Hl IH]; simpl; [constructor|]. case_decide; [done|].
  constructor; [|done]. by intros ?%remove_first_incl.
Qed.
Lemma remove_first_ne {A} `{EqDecision A} (x y : A) l :
  NoDup l → y ∈ remove_first x l → y ≠ x.
Proof.
  induction 1 as [|z l Hz Hl IH]; simpl; [by intros ?%not_elem_of_nil|].
  case_decide as Hd; [subst; by intros ? ->|].
  intros [->|Hy]%elem_of_cons; [done|auto].
Qed.

Section issue.
Context `{ServerConfig, CertParser}.

Abbreviation safe := (Pool.safe Inv busy).

(** ** The request *)

Lemma safe_sent i p s tp :
  lease p = Some (sub_key s) → sent p = false → flight p = None →
  auth p = Some (sub_account s, tp) →
  safe i p (act_modify (submission_sent s))
    (λ r p', r = inr tt ∧ p' = set_flight (Some s) true p).
Proof.
  intros Hl Hsent Hf Ha. apply Pool.safe_atomic. intros w ps Hinv Hi. eexists. split; [|done].
  simpl. pose proof (i_global _ _ Hinv) as Hgl. pose proof (i_local _ _ Hinv i p Hi) as Hloc.
  destruct (l_lease _ _ Hloc _ _ Hl) as (_ & (o & Ho & Hoid & Hg & _) & _ & Hnot).
  specialize (Hnot Hsent). change (sub_order s, sub_generation s) with (sub_key s) in Hnot.
  eapply Inv_step; [done|done| | |].
  - destruct Hgl. split; simpl; try done.
    + intros oid. rewrite (marks_insert _ _ p) by done. simpl. unfold active_count in *.
      simpl. rewrite g_marks. lia.
    + intros a Hain. eapply (exists_insert lock); [done|done|by apply g_locks].
    + intros s' [Hs'|Hs'%list_elem_of_singleton]%elem_of_app; [by apply g_submitted|subst s'].
      exists o. split_and!; [done|done|lia].
    + rewrite map_app. apply NoDup_app. split_and!; [done| |apply NoDup_singleton].
      intros k Hk ->%list_elem_of_singleton. done.
    + destruct g_inflight as [Hnd Hsub]. split.
      * constructor; [|done]. intros Hin. apply Hnot, list_elem_of_fmap_2, Hsub, Hin.
      * intros s' [->|Hs']%elem_of_cons; apply elem_of_app; [right|left; auto].
        by apply list_elem_of_singleton.
    + intros s' [->|Hs']%elem_of_cons.
      * eexists. split; [by eapply elem_inserted|done].
      * eapply (exists_insert flight); [done| |by apply g_owner]. congruence.
    + intros x Hx. destruct (g_issued x Hx) as [Hac|[Hu|Hh]]; [by left|by right; left|].
      right; right. by eapply (exists_insert held).
  - destruct Hloc. split; simpl; try done.
    + intros oid g Hog. destruct (l_lease oid g Hog) as (? & ? & ? & _). done.
    + intros s' [= <-]. split; [done|by eexists].
  - intros j q Hj Hq Hlq Hpq Hqp. split_and!.
    + destruct Hlq. split; simpl; try done.
      intros oid g Hog. destruct (l_lease oid g Hog) as (? & ? & ? & Hns).
      split_and!; [done..|]. intros Hsq. rewrite map_app. intros [Hin|Hin]%elem_of_app.
      * by apply Hns.
      * apply list_elem_of_singleton in Hin. destruct s as [so sg sa sc ss].
        unfold sub_key in *. simpl in *. injection Hin as -> ->.
        by apply (c_lease _ _ Hpq so sg sg).
    + destruct Hpq. by split.
    + destruct Hqp. by split.
Qed.

(** ** The answer *)

Definition answer_result (a : CaAnswer) : Res Exn EnrollmentResult :=
  match a with CaIssues r => inr r | CaRaises e => inl e end.

(** What the thread holds after an answer. *)
Definition answered (p : Phase) (s : Submission) (a : CaAnswer) : Phase :=
  set_held (head (issued_of (sub_order s) a)) (set_flight None (sent p) p).

Lemma issued_of_head oid a x : x ∈ issued_of oid a ↔ head (issued_of oid a) = Some x.
Proof.
  assert (issued_of oid a = [] ∨ ∃ y, issued_of oid a = [y]) as [->|[y ->]].
  { unfold issued_of. repeat case_match; eauto. }
  - rewrite elem_of_nil. by split.
  - rewrite list_elem_of_singleton. simpl. split; congruence.
Qed.

Lemma safe_answer i p s :
  flight p = Some s → held p = None →
  safe i p (act_atomic (answer_received s))
    (λ r p', ∃ a, r = answer_result a ∧ p' = answered p s a).
Proof.
  intros Hf Hh. apply Pool.safe_atomic. intros w ps Hinv Hi. unfold answer_received.
  set (a := default _ _). exists (answered p s a). simpl. split; [|by exists a].
  pose proof (i_global _ _ Hinv) as Hgl. pose proof (i_local _ _ Hinv i p Hi) as Hloc.
  destruct (l_flight _ _ Hloc s Hf) as (Hl & tp & Ha).
  eapply Inv_step; [done|done| | |].
  - destruct Hgl. destruct g_inflight as [Hnd Hsub]. split; simpl; try done.
    + intros oid. rewrite (marks_insert _ _ p) by done. simpl. unfold active_count in *.
      simpl. rewrite g_marks. lia.
    + intros b Hb. eapply (exists_insert lock); [done|done|by apply g_locks].
    + split; [by apply remove_first_nodup|]. intros s' Hs'. by eapply Hsub, remove_first_incl.
    + intros s' Hs'. apply remove_first_ne in Hs' as Hne; [|done].
      apply remove_first_incl in Hs'.
      destruct (g_owner s' Hs') as (q & Hq & Hqf).
      destruct (elem_insert i p (answered p s a) ps q Hi Hq) as [->|Hin]; [congruence|by exists q].
    + intros x [Hx|Hx]%elem_of_app.
      * destruct (g_issued x Hx) as [Hac|[Hu|Hq]]; [by left|by right; left|].
        right; right. eapply (exists_insert held); [done| |done]. congruence.
      * right; right. exists (answered p s a). split; [by eapply elem_inserted|].
        by apply issued_of_head.
  - destruct Hloc. split; simpl; try done.
    intros x Hx%issued_of_head. exists (sub_generation s). rewrite Hl. unfold sub_key.
    f_equal. f_equal. unfold issued_of in Hx. repeat case_match;
      (apply list_elem_of_singleton in Hx || apply not_elem_of_nil in Hx); by subst.
  - intros j q Hj Hq Hlq Hpq Hqp. split_and!.
    + by destruct Hlq.
    + destruct Hpq. by split.
    + destruct Hqp. by split.
Qed.

Lemma safe_submit i p s tp :
  lease p = Some (sub_key s) → sent p = false → flight p = None →
  auth p = Some (sub_account s, tp) → held p = None →
  safe i p (submit_csr s)
    (λ r p', ∃ a, r = answer_result a
                  ∧ p' = set_held (head (issued_of (sub_order s) a)) (set_flight None true p)).
Proof.
  intros Hl Hs Hf Ha Hh. eapply Pool.safe_bind; [by eapply safe_sent| |by intros e p' []].
  intros [] p' [_ ->]. by apply safe_answer.
Qed.

(** ** Accounting *)

(** An error line that names the order of what the thread holds. *)
Lemma safe_log i p x line :
  held p = Some x → names_order (iss_order x) line →
  safe i p (log line) (λ r p', r = inr tt ∧ p' = set_held None p).
Proof.
  intros Hh Hn. apply Pool.safe_atomic. intros w ps Hinv Hi. eexists. split; [|done].
  pose proof (calm_w_log line w) as Hc.
  eapply (Inv_move None None); [done|done|by apply calm_regs|by apply calm_move| |].
  - split; simpl; try done; [|by left|].
    + intros y Hy. rewrite Hh in Hy. injection Hy as <-. right. left. right.
      exists line. split; [|done]. simpl. apply elem_of_app. right. by apply list_elem_of_singleton.
    + intros o g n Hr Hn1 j q Hj Hq.
      by apply (c_recl _ _ (i_compat _ _ Hinv i j p q ltac:(done) Hi Hq) o g n).
  - pose proof (calm_local _ _ _ _ _ Hinv Hi Hc) as []. by split.
Qed.

(** A certificate the verifiers cannot read is left behind. *)
Lemma safe_store_inserted {A} i p oid g pem (m : World → Tx A) :
  lease p = Some (oid, g) → flight p = None → recl p = None →
  (∀ x, held p = Some x → iss_pem x = Some pem) →
  (∀ w x d, wf (w_db w) → m w (w_db w) = inr (x, d) →
     wf d ∧ db_le (w_db w) d ∧ inserted oid pem (w_db w) d) →
  safe i p (act_atomic (λ w, store (m w) w))
    (λ r p', match r with inr _ => p' = dropped p | inl _ => p' = p end).
Proof.
  intros Hl Hf Hr Hh Hm. apply safe_store; [done|]. intros w ps x d fs Hinv Hi Hmd.
  destruct (Hm w x d) as (Hwf' & Hle & Hins); [apply (g_wf _ _ (i_global _ _ Hinv))|done|].
  exists (dropped p). split; [|done]. by eapply Inv_inserted.
Qed.

(** [transition_processing_to_ready] under the thread's own lease. *)
Lemma safe_revert i p oid g :
  lease p = Some (oid, g) → flight p = None → recl p = None → held p = None →
  safe i p (db (λ now, transition_processing_to_ready now oid (Some g)))
    (λ r p', match r with inr _ => p' = dropped p | inl _ => p' = p end).
Proof.
  intros Hl Hf Hr Hh. apply safe_db; [done|]. intros w ps x d fs Hinv Hi Hm.
  pose proof (g_wf _ _ (i_global _ _ Hinv)) as Hwf.
  destruct (store_tx_ok _ (T_transition_processing_to_ready (w_now w) oid (Some g)) _ _ _ Hwf Hm).
  exists (dropped p). split; [|done]. eapply Inv_reopened; try done.
  by eapply processing_to_ready_reopened.
Qed.
End issue.
