(* ===== verification/ProtocolFinalize.v ===== *)
(** * Finalization keeps the protocol

    The programs of [finalize.py] and [finalize_order], action by action: what
    phase each leaves its thread in, on every path. *)

From S2P Require Import Prelude PyStr Exn Json Policy Jwk Sql Db Act X509 StoreAudit.
From S2P Require Import StoreAccounts StoreOrders StoreCerts StoreRecovery.
From S2P Require Import StoreInv StoreOps Calm World Coalesce CalmActs CsrCheck Responses.
From S2P Require Import Finalize RoutesOrders Protocol ProtocolDb ProtocolRules.
Local Open Scope Z_scope.

Section finalize.
Context `{ServerConfig, UuidSource, CertParser, CsrParser}.

Abbreviation safe := (Pool.safe Inv busy).

(** ** The calm parts *)

Lemma calm_refresh oid : calm_prog (refresh_order_or_500 oid).
Proof using H H1. unfold refresh_order_or_500. calm_auto. Qed.
Hint Resolve calm_refresh : calm_act.

Lemma calm_existing oid aid c : calm_prog (finalize_existing_cert oid aid c).
Proof using H H1. unfold finalize_existing_cert. calm_auto. Qed.
Lemma calm_expired oid aid o : calm_prog (finalize_expired_order oid aid o).
Proof using H H1. unfold finalize_expired_order. calm_auto. Qed.
Lemma calm_parse payload o aid oid :
  calm_prog (finalize_parse_and_validate_csr payload o aid oid).
Proof using H H1 H2. unfold finalize_parse_and_validate_csr. calm_auto. Qed.
Lemma calm_abandon oid aid sans dec g : calm_prog (abandon_if_lease_lapsed oid aid sans dec g).
Proof using H H1. unfold abandon_if_lease_lapsed. calm_auto. Qed.
Hint Resolve calm_existing calm_expired calm_parse calm_abandon : calm_act.

(** ** Phases inside [enrolling] *)

(** With the lease or after it, under the account's lock or outside it. *)
Definition En oid l b lk au x : Phase := MkPhase (Some oid) l b None lk au x None.

(** May leave the account's lock, and may leave [enrolling]. *)
Definition unlockable oid aid (p : Phase) : Prop := ∃ l b au x,
  p = En oid l b (Some aid) au x ∧ ∀ y, x = Some y → unreadable y.
Definition closing oid (p : Phase) : Prop := ∃ l b x,
  p = En oid l b None None x ∧ ∀ y, x = Some y → unreadable y.

Lemma safe_calm_unlockable {A} i oid aid p (m : Act World A) :
  calm_prog m → unlockable oid aid p → safe i p m (λ _, unlockable oid aid).
Proof. intros. by apply safe_calm_end. Qed.
Lemma safe_calm_closing {A} i oid p (m : Act World A) :
  calm_prog m → closing oid p → safe i p m (λ _, closing oid).
Proof. intros. by apply safe_calm_end. Qed.

Lemma dropped_En oid l b lk au x : dropped (En oid l b lk au x) = En oid None false lk au None.
Proof. done. Qed.

(** ** Recording and quarantining *)

Lemma inserted_quarantine now u oid aid pem ch tpl req md et vs why sans ds d x d' :
  wf d →
  quarantine_certificate now u oid aid pem ch tpl req md et vs why sans ds d = inr (x, d') →
  wf d' ∧ db_le d d' ∧ inserted oid pem d d'.
Proof using H1.
  intros Hwf Hm.
  pose proof (store_tx_ok _ (T_quarantine_certificate now u oid aid pem ch tpl req md et vs
                why sans ds) _ _ _ Hwf Hm) as [Hwf' Hle].
  split; [done|]. split; [done|]. unfold quarantine_certificate in Hm.
  apply tx_bind_inr in Hm as (serial & d1 & Hs & Hm). unfold tx_of_res in Hs.
  destruct (serial_from_pem pem); [done|]. injection Hs as -> <-.
  apply tx_bind_inr in Hm as (validity & d1 & Hv & Hm). unfold tx_of_res in Hv.
  destruct (validity_from_pem pem); [done|]. injection Hv as -> <-.
  cbv zeta in Hm. eapply (insert_then oid pem); [..|exact Hm|]; try done.
  { intros []. split; [tx_ok_auto|tx_calm_auto]. }
  intros _ o Ho Hid Hs.
  apply tx_bind_inr in Hm as (u1 & d1 & _ & Hm). apply tx_bind_inr in Hm as (n & d2 & [= _ <-] & Hm).
  apply tx_bind_inr in Hm as (ev & d3 & [= _ <-] & [= _ <-]). simpl in Ho.
  apply update_where_elem_of in Ho as (o0 & _ & ->). case_decide as Hp; [by destruct o0|].
  apply Hp. split; [done|by left].
Qed.

Lemma inserted_record now cid at_ oid aid pem ch tpl req md s v url sans subj g d x d' :
  wf d →
  record_issuance_in_conn now None cid at_ oid aid pem ch tpl req md s v url sans subj g d
    = inr (x, d') →
  wf d' ∧ db_le d d' ∧ inserted oid pem d d'.
Proof using H1.
  intros Hwf Hm.
  pose proof (store_tx_ok _ (T_record_issuance now None cid at_ oid aid pem ch tpl req md s v
                url sans subj g) _ _ _ Hwf Hm) as [Hwf' Hle].
  split; [done|]. split; [done|]. unfold record_issuance_in_conn in Hm.
  eapply (insert_then oid pem); [..|exact Hm|]; try done.
  intros []. cbv zeta. split; [unfold get_order; tx_ok_auto|unfold get_order; tx_calm_auto].
Qed.

(** A quarantine that fails is followed by the error line. *)
Lemma safe_quarantine i oid g b lk au x pem aid ch tpl req md et vs why sans ds u
    (k : Cert.t * Audit.t → Act World unit) (h : Act World unit) :
  (∀ y, x = Some y → iss_order y = oid ∧ iss_pem y = Some pem) →
  (∀ r, calm_prog (k r)) → calm_prog h →
  safe i (En oid (Some (oid, g)) b lk au x)
    (act_try
       (db (λ now, quarantine_certificate now u oid aid pem ch tpl req md et vs why sans ds) ≫= k)
       (λ _, log (LogQuarantineFailed oid);; h))
    (λ _ p', ∃ l b', p' = En oid l b' lk au None).
Proof using H H0 H1 H2.
  intros Hx Hk Hh.
  set (p := En oid (Some (oid, g)) b lk au x). set (p0 := En oid None false lk au None).
  eapply (Pool.safe_then _ _ i p _ _
            (λ r p', match r with inr _ => p' = p0 | inl _ => p' = p0 ∨ p' = p end)).
  - eapply Pool.safe_bind.
    + eapply (safe_store_inserted i p oid g pem
                (λ w, quarantine_certificate (w_now w) u oid aid pem ch tpl req md et vs why sans ds));
        try done.
      * intros y Hy. by apply Hx.
      * intros w r d Hwf Hm. by eapply inserted_quarantine.
    + intros r p' Hp'. cbv beta iota in Hp'. subst p'. eapply Pool.safe_mono; [by apply safe_calm|].
      intros [e|y] p' ->; [by left|done].
    + intros e p' ->. by right.
  - intros [e|y] p' Hp'; [|subst; by exists None, false].
    destruct Hp' as [->| ->]; [|destruct x as [y|]].
    + apply safe_calm_end; [|by intros; exists None, false].
      apply calm_prog_bind; [apply calm_prog_log|done].
    + eapply Pool.safe_bind; [eapply (safe_log i p y); [done|symmetry; by apply Hx]| |by intros ? ? []].
      intros [] p' [_ ->]. apply safe_calm_end; [done|]. intros r. by exists (Some (oid, g)), b.
    + apply safe_calm_end; [|by intros; exists (Some (oid, g)), b].
      apply calm_prog_bind; [apply calm_prog_log|done].
Qed.

(** ** After the answer, under the account's lock *)

Lemma unlockable_En oid aid l b au : unlockable oid aid (En oid l b (Some aid) au None).
Proof. by exists l, b, au, None. Qed.
Lemma closing_En oid l b : closing oid (En oid l b None None None).
Proof. by exists l, b, None. Qed.
Hint Resolve unlockable_En closing_En : core.

(** Actions that neither claim anything nor raise. *)
Lemma safe_total {A} i p (f : World → A * World) :
  (∀ w, calm_w w (f w).2) →
  safe i p (act_atomic (λ w, let '(x, w') := f w in (inr x, w')))
    (λ r p', p' = p ∧ ∃ x, r = inr x).
Proof.
  intros Hf. apply Pool.safe_atomic. intros w ps Hinv Hi. specialize (Hf w).
  destruct (f w) as [x w']. exists p. split; [by eapply Inv_calm|]. split; [done|by exists x].
Qed.
Lemma safe_uuids_bind {B} i p n (k : (nat → string) → Act World B) Q :
  (∀ u, safe i p (k u) Q) → safe i p (fresh_uuids n ≫= k) Q.
Proof.
  intros Hk. eapply Pool.safe_bind.
  - apply (safe_total i p (λ w, (λ j, uuid4 (w_uuids w + j)%nat, set_uuids (w_uuids w + n)%nat w))).
    intros w. by eapply (calm_w_frame _ _ []); rewrite ?app_nil_r.
  - intros u p' [-> _]. apply Hk.
  - by intros e p' [_ [x Hx]].
Qed.
Lemma safe_get_bind {A B} i p (f : World → A) (k : A → Act World B) Q :
  (∀ x, safe i p (k x) Q) → safe i p (act_get f ≫= k) Q.
Proof.
  intros Hk. eapply Pool.safe_bind.
  - by apply (safe_total i p (λ w, (f w, w))).
  - intros x p' [-> _]. apply Hk.
  - by intros e p' [_ [x Hx]].
Qed.

(** [EnrollmentGate.run] keeps what its work leaves. *)
Lemma safe_gate_run {A} i p (m : Act World A) (Q : Res Exn A → Phase → Prop) :
  (∀ e, Q (inl e) p) → safe i p m Q → safe i p (gate_run m) Q.
Proof.
  intros He Hm. eapply safe_calm_bind; [apply calm_prog_gate_admit| |done].
  intros []. eapply Pool.safe_then; [exact Hm|]. intros r p' HQ. eapply Pool.safe_then.
  - apply (safe_total i p' (λ w, (tt, set_gate (w_gate_pending w - 1) (w_gate_closed w) w))).
    intros w. by eapply (calm_w_frame _ _ []); rewrite ?app_nil_r.
  - by intros rc p2 [-> [x ->]].
Qed.

Lemma safe_transport_orphan i oid aid acct g au req_id cert_pem sans tpl err ch :
  safe i (En oid (Some (oid, g)) true (Some aid) au
            (Some {| iss_order := oid; iss_pem := cert_pem |}))
    (quarantine_transport_orphan oid acct sans tpl err req_id cert_pem ch g)
    (λ _, unlockable oid aid).
Proof using H H0 H1 H2.
  set (p := En _ _ _ _ _ _).
  apply (Pool.safe_bind _ _ i p _ _ (λ _ p', unlockable oid aid p')); [|intros x p' Hp'|done].
  - destruct cert_pem as [pem|].
    + apply safe_uuids_bind. intros uuid. eapply Pool.safe_mono.
      * apply safe_quarantine; [by intros y [= <-]|intros; calm_auto|calm_auto].
      * intros r p' (l & b' & ->). done.
    + eapply Pool.safe_bind; [by eapply safe_log| |by intros ? ? []].
      intros [] p' [_ ->]. apply safe_calm_unlockable; [calm_auto|by eexists _, _, _, None].
  - apply safe_calm_unlockable; [calm_auto|done].
Qed.

Lemma head_issued oid exc :
  head (issued_of oid (CaRaises exc))
  = match exc with
    | EnrollmentTransportError _ (Some _) pem _ => Some {| iss_order := oid; iss_pem := pem |}
    | _ => None
    end.
Proof. unfold issued_of. by repeat case_match. Qed.

(** Nothing was issued, or it is accounted for; there is no certificate to go
    on with. *)
Definition ended {A} oid aid (r : Res Exn (Outcome A)) (p : Phase) : Prop :=
  (∀ x, r ≠ inr (Continue x)) ∧ unlockable oid aid p.

Lemma safe_enrollment_failed i oid aid acct g au sans dec exc :
  safe i (En oid (Some (oid, g)) true (Some aid) au (head (issued_of oid (CaRaises exc))))
    (enrollment_failed oid acct sans dec g exc) (ended oid aid).
Proof using H H0 H1 H2.
  rewrite head_issued.
  assert (∀ (r : Res Exn (Outcome EnrollmentResult)) l b au,
            (∀ x, r ≠ inr (Continue x)) → ended oid aid r (En oid l b (Some aid) au None)) as Hend
    by (split; [done|by auto]).
  destruct exc as [| | |m|m| |m| |sc li co wi ek|ki li co|ki li co wi| | | | |m|m rq|m rq pm ch| |gb|ae];
    unfold enrollment_failed; cbv beta zeta iota; try solve [peel; by apply Hend].
  - eapply Pool.safe_bind; [by apply (safe_revert i _ oid g)| |].
    + intros b p' Hp'. cbv beta iota in Hp'. subst p'. rewrite dropped_En. peel; by apply Hend.
    + intros e p' Hp'. cbv beta iota in Hp'. subst p'. by apply Hend.
  - destruct rq as [rq|]; cbv [ca_issued]; cbv iota; [|peel; by apply Hend].
    eapply Pool.safe_bind; [by apply safe_transport_orphan| |]; by split.
Qed.

(** ** Asking the CA *)

Lemma safe_submit_inner i oid aid g tp sans pem dec :
  safe i (En oid (Some (oid, g)) false (Some aid) (Some (aid, tp)) None)
    (submit_enrollment_inner oid aid sans pem dec g)
    (λ r p', match r with
             | inr (Continue res) =>
               p' = En oid (Some (oid, g)) true (Some aid) (Some (aid, tp))
                      (Some {| iss_order := oid; iss_pem := Some (er_cert_pem res) |})
             | _ => unlockable oid aid p'
             end).
Proof using H H0 H1 H2.
  eapply Pool.safe_then; [by eapply (safe_submit i _ _ tp)|].
  intros r p' (a & -> & ->). destruct a as [res|exc]; [by apply safe_ret|].
  eapply Pool.safe_mono; [by apply safe_enrollment_failed|].
  intros [e|[resp|x]] p' [Hr Hp]; [done..|]. by destruct (Hr x).
Qed.

(** The submission under the account's lock. *)
Definition submitted oid g (r : Res Exn (Outcome EnrollmentResult)) (p : Phase) : Prop :=
  match r with
  | inr (Continue res) =>
    p = En oid (Some (oid, g)) true None None
          (Some {| iss_order := oid; iss_pem := Some (er_cert_pem res) |})
  | _ => closing oid p
  end.

Lemma unlock_closing oid aid p : unlockable oid aid p → closing oid (set_lock None None p).
Proof. intros (l & b & au & x & -> & Hx). by exists l, b, x. Qed.

Lemma submitted_end oid aid g (r : Res Exn (Outcome EnrollmentResult)) p :
  unlockable oid aid p → (∀ x, r ≠ inr (Continue x)) →
  lock p = Some aid ∧ flight p = None ∧ submitted oid g r (set_lock None None p).
Proof.
  intros Hp Hr. pose proof (unlock_closing _ _ _ Hp) as Hc.
  destruct Hp as (l & b & au & x & -> & Hx). split_and!; [done..|].
  destruct r as [|[|x0]]; [done..|]. by destruct (Hr x0).
Qed.

(** Give the order back and raise. *)
Lemma safe_revert_raise {A} i oid g lk au (d : bool → AuditArgs) e :
  safe i (En oid (Some (oid, g)) false lk au None)
    (applied ← db (λ now, transition_processing_to_ready now oid (Some g));
     audit (d applied);; act_raise (A:=A) e)
    (λ r p, (∃ e, r = inl e) ∧ ∃ l, p = En oid l false lk au None).
Proof using H H1.
  eapply Pool.safe_bind; [by apply (safe_revert i _ oid g)| |].
  - intros b p' Hp'. cbv beta iota in Hp'. subst p'. rewrite dropped_En. peel; eauto.
  - intros e' p' Hp'. cbv beta iota in Hp'. subst p'. eauto.
Qed.

Lemma safe_submit_enrollment i oid aid tp sans csr dec g :
  safe i (leasing oid g) (finalize_submit_enrollment oid aid tp sans csr dec g)
    (submitted oid g).
Proof using H H0 H1 H2.
  apply safe_holding_lock; [done..|].
  set (p := set_lock (Some aid) None (leasing oid g)).
  assert (∀ au (r : Res Exn (Outcome EnrollmentResult)) l b,
            (∀ x, r ≠ inr (Continue x)) →
            let p' := En oid l b (Some aid) au None in
            lock p' = Some aid ∧ flight p' = None ∧ submitted oid g r (set_lock None None p'))
    as Hend
    by (intros; apply (submitted_end oid aid); [apply unlockable_En|done]).
  eapply Pool.safe_bind; [by apply (safe_check_account i p aid tp)| |].
  2: { intros e p' [-> _]. by apply Hend. }
  intros account p' [-> Hid]. unfold checked.
  destruct account as [a|]; [specialize (Hid a eq_refl)|].
  2: { eapply Pool.safe_mono; [by apply (safe_revert_raise i oid g (Some aid) None)|].
       intros r p' [[e ->] [l ->]]. by apply Hend. }
  assert (∃ au, (if decide (usable a aid tp) then set_lock (Some aid) (Some (aid, tp)) p else p)
                = En oid (Some (oid, g)) false (Some aid) au None
                ∧ (usable a aid tp → au = Some (aid, tp))) as (au & -> & Hau).
  { case_decide; [by eexists|exists None; by split]. }
  destruct (stored_thumbprint a) as [e|t] eqn:Ht; [by apply Hend|].
  change (act_of_res (inr t) ≫= _) with (mret (M:=Act World) (Some t)).
  apply safe_ret_bind.
  match goal with |- Pool.safe _ _ _ _ (if ?b then _ else _) _ => destruct b eqn:Hok end.
  { eapply Pool.safe_mono; [by apply (safe_revert_raise i oid g (Some aid) au)|].
    intros r p' [[e ->] [l ->]]. by apply Hend. }
  apply negb_false_iff, andb_true_iff in Hok as [[Hv Hk]%andb_true_iff He].
  apply bool_decide_eq_true in Hv, Hk, He. injection Hk as ->. rewrite Hau by done.
  apply safe_calm_bind; [auto with calm_act| |by intros; apply Hend].
  intros [resp|[]]; [by apply Hend|].
  eapply Pool.safe_mono; [by apply (safe_submit_inner i oid aid g tp)|].
  intros [e|[resp|res]] p' Hp'; [by apply (submitted_end oid aid)..|]. by subst.
Qed.

(** ** With the certificate, outside the lock *)

(** The phase [_finalize_complete] starts in. *)
Definition holding oid g (res : EnrollmentResult) : Phase :=
  En oid (Some (oid, g)) true None None
    (Some {| iss_order := oid; iss_pem := Some (er_cert_pem res) |}).

Lemma safe_quarantine_and_fail i oid g acct sans res et vs why ds :
  safe i (holding oid g res) (quarantine_and_fail oid acct sans res et vs why ds)
    (λ _, closing oid).
Proof using H H0 H1 H2.
  apply safe_uuids_bind. intros uuid. eapply Pool.safe_bind.
  - apply safe_quarantine; [by intros y [= <-]|intros; calm_auto|calm_auto].
  - intros x p' (l & b & ->). by apply safe_raise.
  - by intros e p' (l & b & ->).
Qed.

Lemma safe_emergency i oid g acct sans res exc :
  safe i (holding oid g res) (emergency_issuance_orphan oid acct sans res exc)
    (λ r p', p' = En oid (Some (oid, g)) true None None None).
Proof using H H1.
  unfold emergency_issuance_orphan. cbv zeta.
  eapply Pool.safe_bind; [by eapply safe_log| |by intros ? ? []].
  intros [] p' [_ ->]. apply safe_calm_end; [calm_auto|done].
Qed.

(** The store's lookup finds nothing for the order of a held lease. *)
Lemma safe_no_existing i p oid g :
  lease p = Some (oid, g) →
  safe i p (run_tx (get_certificate_by_order oid))
    (λ r p', p' = p ∧ ∀ c, r ≠ inr (Some c)).
Proof using H1.
  intros Hl. apply (safe_store i p (λ _, get_certificate_by_order oid)); [done|].
  intros w ps x d fs Hinv Hi Hm. exists p.
  destruct (lease_facts _ _ _ _ _ _ Hinv Hi Hl) as [_ Hno].
  assert (d = w_db w) as -> by (by apply tx_ro_get_certificate_by_order in Hm).
  split; [apply (after_read w ps fs i p); [done|done|by eapply same_reclaims|by eapply i_local]|].
  split; [done|]. intros c [= ->]. unfold get_certificate_by_order in Hm.
  apply tx_bind_inr in Hm as (row & d1 & [= <- <-] & Hm).
  destruct (fetchone _ _) as [c0|] eqn:Hc0; [|done].
  apply fetchone_Some in Hc0 as [Hoid Hin]. by apply (Hno c0 Hin), Hoid.
Qed.

Lemma safe_record_issuance i oid g now u acct res url sans subj :
  safe i (holding oid g res)
    (record_issuance now u oid acct (er_cert_pem res) (er_chain_pem res) (er_template res)
       (er_requester res) (Some (er_metadata res)) url sans subj (Some g))
    (λ r p', match r with
             | inr _ => p' = En oid None false None None None
             | inl _ => p' = holding oid g res
             end).
Proof using H1.
  unfold record_issuance.
  eapply Pool.safe_bind; [by eapply safe_no_existing| |by intros e p' [-> _]].
  intros existing p' [-> Hno]. destruct existing as [c|]; [by destruct (Hno c)|].
  simpl from_option. destruct (serial_from_pem _) as [e|serial]; [done|].
  change (act_of_res (inr serial)) with (mret (M:=Act World) serial). apply safe_ret_bind.
  destruct (validity_from_pem _) as [e|validity]; [done|].
  change (act_of_res (inr validity)) with (mret (M:=Act World) validity). apply safe_ret_bind.
  eapply Pool.safe_bind.
  - apply (safe_store_inserted i _ oid g (er_cert_pem res)
             (λ _, record_issuance_in_conn now None u now oid acct (er_cert_pem res)
                     (er_chain_pem res) (er_template res) (er_requester res)
                     (Some (er_metadata res)) serial validity (url u) sans subj (Some g)));
      try done; [by intros x [= <-]|]. intros w x d Hwf Hm. by eapply inserted_record.
  - intros x p' Hp'. cbv beta iota in Hp'. by subst p'.
  - intros e p' Hp'. cbv beta iota in Hp'. by subst p'.
Qed.

Lemma safe_record_and_respond i oid g acct sans subj res :
  safe i (holding oid g res) (record_and_respond oid acct sans subj res g) (λ _, closing oid).
Proof using H H0 H1 H2.
  apply safe_uuids_bind. intros uuid. apply safe_get_bind. intros now.
  eapply (Pool.safe_bind _ _ i _ _ _
            (λ r p', closing oid p')); [|intros [[c applied] ev] p' Hp'|done].
  - eapply Pool.safe_then; [by apply safe_record_issuance|].
    intros [e|x] p' Hp'; cbv beta iota in Hp'; subst p'; [|by apply closing_En].
    eapply Pool.safe_bind; [by apply safe_emergency| |].
    + intros [] p' ->. apply closing_En.
    + intros e' p' ->. apply closing_En.
  - apply safe_calm_closing; [calm_auto|done].
Qed.

(** A verifier that raises could not read the certificate. *)
Lemma verifier_raises pem sans e :
  issued_cert_san_violations pem sans = inl e
  ∨ issued_cert_eku_violations pem = inl e
  ∨ issued_cert_ca_capability_violations pem = inl e → ¬ readable pem.
Proof using H H1.
  unfold issued_cert_san_violations, issued_cert_eku_violations,
    issued_cert_ca_capability_violations, load_issued.
  intros Hv (c & ext & Hc & Hext & Heku). rewrite Hc in Hv. simpl in Hv.
  rewrite Hext in Hv. simpl in Hv.
  destruct Hv as [Hv|[Hv|Hv]]; [by destruct (subject_alternative_name ext)| |done].
  by destruct (extended_key_usage ext) as [[|]|].
Qed.

Lemma holding_closing oid g res : ¬ readable (er_cert_pem res) → closing oid (holding oid g res).
Proof.
  intros Hr. eexists _, _, _. split; [done|]. intros y [= <-]. by eexists.
Qed.

Lemma safe_complete i oid g acct sans subj res :
  safe i (holding oid g res) (finalize_complete oid acct sans subj res g) (λ _, closing oid).
Proof using H H0 H1 H2.
  unfold finalize_complete. cbv zeta.
  destruct (issued_cert_san_violations _ _) as [e|v] eqn:Hs.
  { apply holding_closing. eapply verifier_raises. by left. }
  change (act_of_res (inr v)) with (mret (M:=Act World) v). apply safe_ret_bind.
  case_match; [apply safe_quarantine_and_fail|].
  destruct (issued_cert_eku_violations _) as [e|ev] eqn:He.
  { apply holding_closing. eapply (verifier_raises _ []). by right; left. }
  change (act_of_res (inr ev)) with (mret (M:=Act World) ev). apply safe_ret_bind.
  case_match; [apply safe_quarantine_and_fail|].
  destruct (issued_cert_ca_capability_violations _) as [e|cv] eqn:Hca.
  { apply holding_closing. eapply (verifier_raises _ []). by right; right. }
  change (act_of_res (inr cv)) with (mret (M:=Act World) cv). apply safe_ret_bind.
  case_match; [apply safe_quarantine_and_fail|apply safe_record_and_respond].
Qed.

(** ** The route *)

Lemma safe_never_busy {A} i p (m : Act World A) Q :
  safe i p m Q → never_busy m → safe i p m (λ r p', Q r p' ∧ admitted r).
Proof.
  revert m p. fix IH 1. intros [r|f] p Hm Hn; [done|]. simpl in *.
  intros w ps Hinv Hi. specialize (Hm w ps Hinv Hi). specialize (Hn w).
  destruct (f w) as [[w' m']|]; [|done]. destruct Hm as (p' & Hinv' & Hm).
  exists p'. split; [done|]. by apply IH.
Qed.

(** The submission behind the gate, with the handler of a full gate. *)
Lemma safe_gated i oid aid tp sans csr dec g :
  safe i (leasing oid g)
    (act_try (gate_run (finalize_submit_enrollment oid aid tp sans csr dec g))
       (λ e, match e with
             | EnrollmentGateBusy => admission_denied oid aid sans dec g
             | e => act_raise e
             end))
    (submitted oid g).
Proof using H H0 H1 H2.
  assert (closing oid (leasing oid g)) as Hl by (by apply closing_En).
  eapply (Pool.safe_then _ _ i _ _ _
            (λ r p', (∃ e, r = inl e ∧ p' = leasing oid g) ∨ submitted oid g r p' ∧ admitted r)).
  - apply safe_gate_run; [by intros e; left; exists e|].
    eapply Pool.safe_mono; [apply safe_never_busy; [by apply safe_submit_enrollment|]|].
    + apply never_busy_submit.
    + intros r p' Hp'. by right.
  - intros [e|x] p' Hp'; [|destruct Hp' as [(e & [=] & _)|[Hp' _]]; by apply safe_ret].
    assert (e = EnrollmentGateBusy → p' = leasing oid g) as Hbusy.
    { intros ->. destruct Hp' as [(e' & _ & ->)|[_ Ha]]; [done|]. by destruct Ha. }
    assert (closing oid p') as Hc.
    { destruct Hp' as [(e' & _ & ->)|[Hp' _]]; [done|exact Hp']. }
    destruct e; try (by apply safe_raise). rewrite Hbusy by done.
    eapply Pool.safe_mono; [by apply (safe_revert_raise i oid g None None)|].
    intros r q [[e ->] [l ->]]. apply closing_En.
Qed.

Lemma safe_enroll i oid aid tp csr subj sans dec :
  safe i (marked oid) (enroll oid aid tp csr subj sans dec) (λ _, closing oid).
Proof using H H0 H1 H2.
  assert (closing oid (marked oid)) as Hm by (by apply closing_En).
  unfold enroll, finalize_transition_to_processing.
  apply (Pool.safe_bind _ _ i _ _ _
           (λ r p', match r with
                    | inr (Continue g) => p' = leasing oid g
                    | _ => closing oid p'
                    end)).
  - eapply Pool.safe_bind; [by apply safe_acquire| |by intros e p' ->].
    intros [g|] p' Hp'; cbv beta iota in Hp'; subst p'; [by apply safe_ret|]. peel; done.
  - intros [resp|g] p' Hp'; [by apply safe_ret|]. cbv beta iota in Hp'. subst p'.
    assert (closing oid (leasing oid g)) as Hl by (by apply closing_En).
    apply safe_get_bind. intros [|]; [by apply safe_raise|].
    eapply Pool.safe_bind; [by apply safe_gated| |by intros e p'].
    intros [resp|res] p' Hp'; [by apply safe_ret|]. cbv beta iota in Hp'. simpl in Hp'. subst p'.
    apply safe_complete.
  - by intros e p'.
Qed.

Lemma safe_finalize_as i oid auth :
  safe i idle (finalize_order_as oid auth) (λ _ p', p' = idle).
Proof using H H0 H1 H2.
  unfold finalize_order_as. destruct auth as [[payload account] tp]. cbv zeta.
  peel; try done; [apply safe_calm_end; [calm_auto|done]|].
  apply safe_enrolling; [done|]. eapply Pool.safe_mono; [by apply safe_enroll|].
  intros r p' (l' & b' & x' & -> & Hx). done.
Qed.

(** [finalize_order], behind any authentication that is calm. *)
Lemma safe_finalize_order i auth oid :
  (∀ path, calm_prog (auth path)) →
  safe i idle (finalize_order auth oid) (λ _ p', p' = idle).
Proof using H H0 H1 H2.
  intros Hauth. apply safe_calm_bind; [done| |done]. intros a. apply safe_finalize_as.
Qed.
End finalize.
#[export] Hint Resolve calm_refresh calm_existing calm_expired calm_parse : calm_act.
