(* ===== verification/ProtocolRoutes.v ===== *)
(** * Account changes and reclaims keep the protocol

    The handlers that change an account do so under its lock; the reclaim of a
    stuck order checks, in this order, that the order is in [processing], that
    no worker is enrolling it and that it has no certificate. *)

From S2P Require Import Prelude PyStr Exn Json Policy Jwk Sql Db Act X509 StoreAudit.
From S2P Require Import StoreAccounts StoreOrders StoreCerts StoreRecovery.
From S2P Require Import StoreInv StoreOps Calm World Coalesce CalmActs CsrCheck Responses.
From S2P Require Import Finalize RoutesOrders RoutesAdmin RoutesAccounts.
From S2P Require Import Protocol ProtocolDb ProtocolRules ProtocolFinalize.
Local Open Scope Z_scope.

(** ** Transactions on one account *)

Definition acct (aid : string) (d d' : Db) : Prop :=
  calm (set_accounts [] d) (set_accounts [] d')
  ∧ ∀ a, a ∈ accounts d → Account.id a ≠ aid → a ∈ accounts d'.

#[export] Instance acct_preorder aid : PreOrder (acct aid).
Proof.
  split; [split; [reflexivity|done]|].
  intros d1 d2 d3 [Hc1 Ha1] [Hc2 Ha2]. split; [by etrans|auto].
Qed.

Lemma calm_acct aid d d' : calm d d' → acct aid d d'.
Proof. intros [Ho Hi Hc Ha]. split; [|auto]. split; simpl; auto. Qed.

Definition tx_acct {A} (aid : string) (m : Tx A) : Prop :=
  ∀ d x d', m d = inr (x, d') → acct aid d d'.

Lemma tx_acct_calm {A} aid (m : Tx A) : tx_calm m → tx_acct aid m.
Proof. intros Hm d x d' Hd. by eapply calm_acct, Hm. Qed.
Lemma tx_acct_bind {A B} aid (m : Tx A) (k : A → Tx B) :
  tx_acct aid m → (∀ x, tx_acct aid (k x)) → tx_acct aid (m ≫= k).
Proof.
  intros Hm Hk d y d' (x & d1 & H1 & H2)%tx_bind_inr. etrans; [by eapply Hm|by eapply Hk].
Qed.

Lemma acct_update aid p `{∀ a, Decision (p a)} f d :
  (∀ a, p a → Account.id a = aid) →
  acct aid d (set_accounts (update_where p f (accounts d)) d).
Proof.
  intros Hp. split; [apply calm_frame; done|]. intros a Ha Hne. simpl.
  apply update_where_elem_of. exists a. split; [done|].
  rewrite decide_False; [done|]. intros Hpa. by apply Hne, Hp.
Qed.
Lemma tx_acct_update aid p `{∀ a, Decision (p a)} f :
  (∀ a, p a → Account.id a = aid) → tx_acct aid (update_accounts p f).
Proof. intros Hp d x d' [= <- <-]. by apply acct_update. Qed.
Lemma tx_acct_update_keys aid p `{∀ a, Decision (p a)} f :
  (∀ a, p a → Account.id a = aid) → tx_acct aid (update_account_keys p f).
Proof.
  intros Hp d x d'. unfold update_account_keys. repeat case_match; try done.
  all: intros [= <- <-]; by apply acct_update.
Qed.

Lemma tx_acct_status aid s : tx_acct aid (update_account_status aid s).
Proof.
  apply tx_acct_bind; [|intros; apply tx_acct_calm, tx_calm_ret].
  apply tx_acct_update. by intros a [].
Qed.

Lemma tx_acct_key now aid jwk tp a w l :
  tx_acct aid (update_account_key_with_audit now aid jwk tp a w l).
Proof.
  unfold update_account_key_with_audit, check_key_change_limit.
  repeat match goal with
  | |- tx_acct _ (if _ then _ else _) => case_match
  | |- tx_acct _ (match _ with _ => _ end) => case_match
  | |- tx_acct _ (update_account_keys _ _ ≫= _) => apply tx_acct_bind; [|intros ?]
  | |- tx_acct _ (update_account_keys _ _) => apply tx_acct_update_keys; by intros ? []
  | |- tx_acct _ (_ ≫= _) => apply tx_acct_bind; [|intros ?]
  | |- tx_acct _ _ => apply tx_acct_calm; solve [tx_calm_auto]
  end.
Qed.

Lemma acct_away aid d d' : acct aid d d' → away None (Some aid) d d'.
Proof. intros [[Ho _ Hc _] Ha]. split; auto. intros a Hin Hne. apply Ha; [done|congruence]. Qed.

Section routes.
Context `{ServerConfig, CertParser}.

Abbreviation safe := (Pool.safe Inv busy).

(** A transaction on the account the thread has locked. *)
Lemma safe_acct {A} i p aid (m : Z → Tx A) :
  lock p = Some aid → auth p = None → flight p = None →
  (∀ now, store_tx (m now) ∧ tx_acct aid (m now)) →
  safe i p (db m) (λ _ p', p' = p).
Proof.
  intros Hl Hau Hf Hm. apply safe_db; [done|]. intros w ps x d fs Hinv Hi Hmd.
  exists p. split; [|done]. destruct (Hm (w_now w)) as [Htx Hacct].
  pose proof (i_global _ _ Hinv) as Hgl. pose proof (g_wf _ _ Hgl) as Hwf.
  destruct (store_tx_ok _ Htx _ _ _ Hwf Hmd) as [Hwf' Hle].
  apply Hacct in Hmd. apply acct_away in Hmd as Haw.
  eapply (Inv_move None (Some aid)); [done|done|apply after_regs| |by eapply same_reclaims|].
  - split; try done; [|by intros a [= <-]].
    eapply (rows_away None (Some aid) (w_db w)); try done. apply (g_rows _ _ Hgl).
  - pose proof (i_local _ _ Hinv i p Hi) as Hloc.
    assert (auth p = None → local (after d fs w) (set_lock None None p) →
            local (after d fs w) p) as Hback.
    { intros _ []. destruct Hloc. split; try done. intros a tp Ha. congruence. }
    apply Hback; [done|]. eapply (local_unseen None (Some aid)).
    + split; try done.
    + destruct Hloc. split; try done. intros s Hs. simpl in Hs. by rewrite Hf in Hs.
Qed.

(** ** Deactivation and key rollover *)

Lemma calm_enforce a : calm_prog (enforce_account_usable a).
Proof. unfold enforce_account_usable. calm_auto. Qed.
Hint Resolve calm_enforce : calm_act.

Definition locked (aid : string) : Phase := set_lock (Some aid) None idle.

Lemma safe_mutating {A} i aid (body : Act World A) :
  safe i (locked aid) body (λ _ p', p' = locked aid) →
  safe i idle (mutating aid body) (λ _ p', p' = idle).
Proof.
  intros Hb. apply safe_holding_lock; [done..|]. eapply Pool.safe_mono; [exact Hb|].
  by intros r p' ->.
Qed.

Lemma safe_deactivate i account tp :
  safe i (locked (Account.id account)) (deactivate_locked account tp)
    (λ _ p', p' = locked (Account.id account)).
Proof using H H0.
  unfold deactivate_locked. peel; try done.
  eapply Pool.safe_bind; [apply (safe_acct i _ (Account.id account)); try done| |].
  - intros now. split; [constructor|apply tx_acct_status].
  - intros applied p' ->. apply safe_calm_end; [calm_auto|done].
  - by intros e p' ->.
Qed.

Lemma safe_account_resource i aid auth :
  safe i idle (account_resource_as aid auth) (λ _ p', p' = idle).
Proof using H H0.
  unfold account_resource_as. destruct auth as [[payload account] tp].
  destruct (negb _); [done|]. destruct (dict_get "status" payload) as [[]|]; try done.
  all: destruct (negb _); [done|].
  all: eapply Pool.safe_bind; [apply safe_mutating, safe_deactivate| |by intros e p' ->].
  all: intros [] p' ->; apply safe_calm_end; [calm_auto|done].
Qed.

Lemma safe_key_change i account jwk ntp tp :
  safe i (locked (Account.id account)) (key_change_locked account jwk ntp tp)
    (λ _ p', p' = locked (Account.id account)).
Proof using H H0.
  unfold key_change_locked. cbv zeta. peel; try done.
  eapply Pool.safe_bind; [apply (safe_acct i _ (Account.id account)); try done| |].
  - intros now. split; [constructor|apply tx_acct_key].
  - by intros ev p' ->.
  - by intros e p' ->.
Qed.

Lemma safe_rotate_key i account jwk ntp tp :
  safe i idle (rotate_key account jwk ntp tp) (λ _ p', p' = idle).
Proof using H H0.
  unfold rotate_key. cbv zeta. eapply (Pool.safe_bind _ _ i _ _ _ (λ _ p', p' = idle)).
  - eapply Pool.safe_then; [apply safe_mutating, safe_key_change|].
    intros [e|x] p' ->; [|done]. apply safe_calm_end; [|done]. destruct e; calm_auto.
  - intros x p' ->. apply safe_calm_end; [calm_auto|done].
  - done.
Qed.

(** ** Reclaim *)

(** The reclaim of an order read at generation [g]: 0 once it was read in
    [processing], 1 once no worker was enrolling it, 2 once it had no
    certificate. *)
Definition reclaiming oid g n : Phase := set_recl (Some (oid, g, n)) idle.

Lemma safe_order_read i oid :
  safe i idle (db (λ _, get_order oid))
    (λ r p', match r with
             | inr (Some o) => p' = reclaiming oid (Order.processing_generation o) 0
             | _ => p' = idle
             end).
Proof.
  apply safe_db; [done|]. intros w ps r d fs Hinv Hi [= <- <-].
  destruct (fetchone _ _) as [o|] eqn:Ho.
  - exists (reclaiming oid (Order.processing_generation o) 0). split; [|done].
    apply fetchone_Some in Ho as [Hid Ho]. apply (after_read w ps fs i idle); [done|done| |].
    + split; try done. intros ? ? ? [= <- <- <-]. lia.
    + split; try done. intros ? ? ? [= <- <- <-]. split; [|lia]. exists o.
      split_and!; [done|done|lia].
  - exists idle. split; [|done].
    apply (after_read w ps fs i idle); [done|done|by eapply same_reclaims|by eapply i_local].
Qed.

(** An order nobody marks is leased to nobody. *)
Lemma unmarked_lease w ps oid j q g :
  Inv w ps → active_count oid w = 0 → ps !! j = Some q → lease q ≠ Some (oid, g).
Proof.
  intros Hinv Hz Hq Hl. rewrite (g_marks _ _ (i_global _ _ Hinv)) in Hz. unfold marks in Hz.
  destruct (l_lease _ _ (i_local _ _ Hinv j q Hq) _ _ Hl) as [Hm _].
  assert (q ∈ filter (λ p, mark p = Some oid) ps) as Hin.
  { apply list_elem_of_filter. split; [done|by eapply list_elem_of_lookup_2]. }
  destruct (filter _ ps); [by apply not_elem_of_nil in Hin|simpl in Hz; lia].
Qed.

Lemma safe_is_active i oid g :
  safe i (reclaiming oid g 0) (is_active oid)
    (λ r p', match r with
             | inr false => p' = reclaiming oid g 1
             | inr true => p' = reclaiming oid g 0
             | inl _ => False
             end).
Proof.
  apply Pool.safe_atomic. intros w ps Hinv Hi. simpl.
  assert (∀ n, (n <= 1)%nat → (n = 1%nat → active_count oid w = 0) →
            Inv w (<[i := reclaiming oid g n]> ps)) as Hstep.
  { intros n Hn Hz. pose proof (i_local _ _ Hinv i _ Hi) as Hloc.
    eapply (Inv_move None None w ps i (reclaiming oid g 0)); try done.
    - by apply calm_move.
    - split; try done. intros ? ? ? [= <- <- <-] Hn1 j q Hj Hq.
      apply (unmarked_lease w ps oid j); [done|apply Hz; lia|done].
    - destruct Hloc. split; try done. intros ? ? ? [= <- <- <-].
      split; [by eapply l_recl|lia]. }
  pose proof (g_marks _ _ (i_global _ _ Hinv) oid) as Hm. unfold marks in Hm.
  destruct (Z.ltb_spec 0 (active_count oid w)).
  - eexists. split; [by apply (Hstep 0%nat); [lia|]|done].
  - eexists. split; [apply (Hstep 1%nat); [lia|lia]|done].
Qed.

Lemma safe_cert_read i oid g :
  safe i (reclaiming oid g 1) (db (λ _, get_certificate_by_order oid))
    (λ r p', match r with
             | inr None => p' = reclaiming oid g 2
             | _ => p' = reclaiming oid g 1
             end).
Proof.
  apply safe_db; [done|]. intros w ps r d fs Hinv Hi Hm.
  assert (d = w_db w) as -> by (by apply tx_ro_get_certificate_by_order in Hm).
  pose proof (i_local _ _ Hinv i _ Hi) as Hloc.
  destruct r as [c|].
  - eexists. split; [|done].
    apply (after_read w ps fs i (reclaiming oid g 1)); [done|done|by eapply same_reclaims|done].
  - eexists. split; [|done].
    apply (after_read w ps fs i (reclaiming oid g 1)); [done|done| |].
    + split; try done. intros ? ? ? [= <- <- <-] _ j q Hj Hq.
      by apply (c_recl _ _ (i_compat _ _ Hinv i j _ q ltac:(done) Hi Hq) oid g 1%nat).
    + unfold get_certificate_by_order in Hm. apply tx_bind_inr in Hm as (row & d1 & [= <- <-] & Hm).
      assert (fetchone (λ c, Cert.order_id c = oid ∧ Cert.status c ≠ CertStatus.QUARANTINED)
                (certificates (w_db w)) = None) as Hnone.
      { destruct (fetchone _ _) as [c|]; [|done]. simpl in Hm.
        apply tx_bind_inr in Hm as (c' & d2 & _ & [=]). }
      destruct Hloc. split; try done. intros ? ? ? [= <- <- <-].
      split; [by eapply l_recl|]. intros _ (o & Ho & Hoid & _ & Hs) c Hc Hcid.
      apply (proj1 (fetchone_None _ _) Hnone c Hc). split; [done|].
      apply (ro_processing _ (g_rows _ _ (i_global _ _ Hinv)) o c); [done..|congruence].
Qed.

(** The commit that gives the order back. *)
Lemma safe_reclaim_tx i oid g p et aid oc ds :
  safe i (reclaiming oid g 2)
    (db (λ now, reclaim_processing_order now oid None (Some g) p et aid oc ds))
    (λ _ p', p' = idle ∨ p' = reclaiming oid g 2).
Proof.
  apply safe_db; [by right|]. intros w ps x d fs Hinv Hi Hm. exists idle. split; [|by left].
  pose proof (i_global _ _ Hinv) as Hgl. pose proof (g_wf _ _ Hgl) as Hwf.
  pose proof (i_local _ _ Hinv i _ Hi) as Hloc.
  destruct (store_tx_ok _ (T_reclaim_processing_order (w_now w) oid None (Some g) p et aid oc ds)
              _ _ _ Hwf Hm) as [Hwf' Hle].
  apply reclaim_reopened in Hm as Hre.
  destruct (l_recl _ _ Hloc _ _ _ eq_refl) as [(o & Ho & Hoid & Hg) Hno].
  assert (local (after d fs w) idle) as Hidle by (by split).
  assert (∀ m, reclaims m i (reclaiming oid g 2) idle ps (after d fs w)) as Hrc by (by split).
  destruct (decide (Order.processing_generation o = g ∧ Order.status o = OrderStatus.PROCESSING))
    as [[Hgen Hs]|Hcl].
  - assert (no_cert (w_db w) oid) as Hnc by (apply Hno; [lia|by exists o]).
    assert (no_cert d oid) as Hnc'.
    { intros c' Hc' Hcid. destruct (reopened_cert _ _ _ _ _ Hre Hc') as (c & Hc & Hid).
      apply (Hnc c Hc). congruence. }
    eapply (Inv_move (Some oid) None); [done|done|apply after_regs| |done|done].
    split; try done.
    + by eapply reopened_away.
    + eapply (rows_away (Some oid) None (w_db w)); [done|done|apply (g_rows _ _ Hgl)
        |by eapply reopened_away| | |]; intros;
        match goal with H : Some oid = Some _ |- _ => injection H as -> end;
        solve [edestruct Hnc'; eauto|by eapply Hnc'].
    + intros ? [= <-] j q Hj Hq g' Hl.
      destruct (lease_facts _ _ _ _ _ _ Hinv Hq Hl) as [(r & Hr & Hrid & Hrg & _) _].
      assert (g' = g) as ->.
      { rewrite (order_inj (w_db w) r o) in Hrg by (done || congruence). congruence. }
      by apply (c_recl _ _ (i_compat _ _ Hinv i j _ q ltac:(done) Hi Hq) oid g 2%nat
                  eq_refl ltac:(lia)).
    + intros ? [= <-]. left. split; [done|]. intros g'. by eapply reopened_processing.
  - eapply (Inv_move None None); [done|done|apply after_regs| |done|done].
    assert (calm (w_db w) d) as Hc.
    { apply (reopened_idle oid g); [|done]. intros (r & Hr & Hrid & Hrg & Hrs).
      apply Hcl. by rewrite (order_inj (w_db w) o r) by (done || congruence). }
    split; try done; [by apply calm_away|]. by eapply rows_calm, (g_rows _ _ Hgl).
Qed.

(** ** The reclaim route *)

Definition reclaim_ended (p : Phase) : Prop := ∃ r, p = set_recl r idle.

Lemma safe_calm_reclaim {A} i p (m : Act World A) :
  calm_prog m → reclaim_ended p → safe i p m (λ _, reclaim_ended).
Proof. intros. by apply safe_calm_end. Qed.

Lemma reclaim_ended_idle : reclaim_ended idle.
Proof. by exists None. Qed.
Lemma reclaim_ended_stage oid g n : reclaim_ended (reclaiming oid g n).
Proof. by eexists. Qed.
Hint Resolve reclaim_ended_idle reclaim_ended_stage : core.

Lemma safe_reclaim_commit i oid order p b pend url :
  reclaim_ended p →
  (url = None → p = reclaiming oid (Order.processing_generation order) 2) →
  safe i p (reclaim_commit oid order b pend url) (λ _, reclaim_ended).
Proof.
  intros Hp Hurl. unfold reclaim_commit, reclaim_denied. cbv zeta.
  eapply (Pool.safe_bind _ _ i _ _ _ (λ _, reclaim_ended)); [|intros [applied ev] p' Hp'|done].
  - destruct url as [url|].
    + apply safe_calm_reclaim; [|done]. calm_auto.
    + rewrite Hurl by done. eapply Pool.safe_mono; [apply safe_reclaim_tx|].
      intros r p' [->| ->]; done.
  - apply safe_calm_reclaim; [calm_auto|done].
Qed.

Lemma safe_reclaim_decide i oid order b pend :
  let g := Order.processing_generation order in
  safe i (reclaiming oid g 1) (reclaim_decide oid order b pend) (λ _, reclaim_ended).
Proof.
  intros g. unfold reclaim_decide, reclaim_denied.
  eapply Pool.safe_bind; [apply safe_cert_read| |].
  - intros [c|] p' Hp'; cbv beta iota in Hp'; subst p'; [by apply safe_reclaim_commit|].
    destruct (negb b); [apply safe_calm_reclaim; [calm_auto|done]|by apply safe_reclaim_commit].
  - intros e p' Hp'. cbv beta iota in Hp'. by subst p'.
Qed.

Lemma safe_reclaim_checks i oid order b res :
  let g := Order.processing_generation order in
  safe i (reclaiming oid g 1) (reclaim_checks oid order b res) (λ _, reclaim_ended).
Proof.
  intros g. unfold reclaim_checks, reclaim_denied. cbv zeta. peel; try done.
  all: apply safe_reclaim_decide.
Qed.

Lemma safe_reclaim_route i authz oid b res :
  safe i idle (reclaim_route authz oid b res) (λ _, reclaim_ended).
Proof.
  unfold reclaim_route, reclaim_denied. apply safe_calm_bind; [auto with calm_act| |done].
  intros []. eapply Pool.safe_bind; [apply safe_order_read| |].
  2: { intros e p' Hp'. cbv beta iota in Hp'. by subst p'. }
  intros [o|] p' Hp'; cbv beta iota in Hp'; subst p'.
  2: { apply safe_calm_reclaim; [calm_auto|done]. }
  destruct (negb _); [apply safe_calm_reclaim; [calm_auto|done]|].
  eapply Pool.safe_bind; [apply safe_is_active| |by intros].
  intros [|] p' Hp'; cbv beta iota in Hp'; subst p'; [|apply safe_reclaim_checks].
  apply safe_calm_reclaim; [calm_auto|done].
Qed.
End routes.
