(* ===== verification/Issuance.v ===== *)
(** * Concurrent issuance

    Any number of requests in the threadpool, interleaved action by action,
    over a store that may fail at any transaction and a CA that may answer
    anything: what holds at every moment, and when all have been answered. *)

From S2P Require Import Prelude PyStr Exn Json Policy Jwk Sql Db Act X509 StoreAudit.
From S2P Require Import StoreAccounts StoreOrders StoreCerts StoreRecovery.
From S2P Require Import StoreInv StoreOps Calm World Coalesce CalmActs CsrCheck Responses.
From S2P Require Import Finalize RoutesOrders RoutesAdmin RoutesAccounts Protocol ProtocolDb.
From S2P Require Import ProtocolRules ProtocolFinalize ProtocolRoutes.
Local Open Scope Z_scope.

Section issuance.
Context `{ServerConfig, UuidSource, CertParser, CsrParser}.

(** ** The calm routes *)

Lemma calm_new_order auth : (∀ path, calm_prog (auth path)) → calm_prog (new_order auth).
Proof using H H0 H1 H2.
  intros Ha. unfold new_order. apply calm_prog_bind; [done|]. intros [[payload account] tp].
  unfold new_order_as, check_rate_limit, rate_limit_denied, new_order_rate_limited.
  cbv zeta. calm_auto.
Qed.
Lemma calm_get_order auth oid :
  (∀ path, calm_prog (auth path)) → calm_prog (get_order_route auth oid).
Proof using H H0 H1 H2.
  intros Ha. unfold get_order_route. apply calm_prog_bind; [done|].
  intros [[payload account] tp]. unfold get_order_as. calm_auto.
Qed.
Lemma calm_account_orders aid auth : calm_prog (account_orders_as aid auth).
Proof using H H0 H1 H2. destruct auth as [[payload account] tp]. unfold account_orders_as. calm_auto. Qed.
Lemma calm_cleanup authz : calm_prog (cleanup_nonces authz).
Proof using H H0 H1 H2. unfold cleanup_nonces. calm_auto. Qed.
Lemma calm_sweep authz : calm_prog (sweep_expired_orders_route authz).
Proof using H H0 H1 H2. unfold sweep_expired_orders_route. calm_auto. Qed.
Lemma calm_list authz status limit : calm_prog (list_orders authz status limit).
Proof using H H0 H1 H2. unfold list_orders. calm_auto. Qed.

(** ** The pool *)

(** A request the server is serving: one of the four programs that take a
    lock or a lease, possibly after and before others, or a calm one.  [auth]
    stands for the authentication of the message; all it may do to the shared
    state is calm (use up a nonce, read the account, audit).  The clock and
    the rest of the environment are calm programs too. *)
Inductive handler : Act World Response → Prop :=
  | H_finalize auth oid : (∀ path, calm_prog (auth path)) → handler (finalize_order auth oid)
  | H_account aid auth : handler (account_resource_as aid auth)
  | H_rotate_key account jwk ntp tp : handler (rotate_key account jwk ntp tp)
  | H_reclaim authz oid b res : handler (reclaim_route authz oid b res)
  | H_calm m : calm_prog m → handler m
  | H_first {A} (m : Act World A) k :
      calm_prog m → (∀ x, handler (k x)) → handler (m ≫= k)
  | H_last m k : handler m → (∀ r, calm_prog (k r)) → handler (act_then m k).

(** A server that has just started on a database in order. *)
Record started (w : World) : Prop := {
  st_wf : wf (w_db w);
  st_rows : rows_ok (w_db w);
  st_active : w_active w = ∅;
  st_locks : w_locks w = ∅;
  st_submitted : w_submitted w = [];
  st_inflight : w_inflight w = [];
  st_issued : w_issued w = [];
}.

Definition finished (p : Phase) : Prop :=
  mark p = None ∧ lock p = None ∧ flight p = None ∧ held p = None.

Abbreviation pool_safe :=
  (Pool.pool_safe Inv busy (λ _ (_ : Res Exn Response) p, finished p)).

Lemma handler_safe i m : handler m → Pool.safe Inv busy i idle m (λ _, finished).
Proof using H H0 H1 H2.
  induction 1 as [auth oid Ha|aid auth|account jwk ntp tp|authz oid b res|m Hm
                 |A m k Hm _ IH|m k _ IH Hk].
  - eapply Pool.safe_mono; [by apply safe_finalize_order|]. by intros r p ->.
  - eapply Pool.safe_mono; [apply safe_account_resource|]. by intros r p ->.
  - eapply Pool.safe_mono; [apply safe_rotate_key|]. by intros r p ->.
  - eapply Pool.safe_mono; [apply safe_reclaim_route|]. by intros r p [? ->].
  - by apply safe_calm_end.
  - by apply safe_calm_bind.
  - eapply Pool.safe_then; [exact IH|]. intros r p Hp. by apply safe_calm_end.
Qed.

Lemma Inv_started w n : started w → Inv w (replicate n idle).
Proof.
  intros []. assert (∀ i p, replicate n idle !! i = Some p → p = idle) as Hidle.
  { intros i p [-> _]%lookup_replicate. done. }
  split.
  - split; rewrite ?st_submitted0, ?st_inflight0, ?st_issued0; try done.
    + intros oid. unfold active_count, marks. rewrite st_active0, lookup_empty. simpl.
      induction n as [|n IH]; [done|]. simpl. rewrite filter_cons_False by done.
      apply IH. intros i p Hp. by apply (Hidle (S i)).
    + intros aid. by rewrite st_locks0.
    + by intros s Hs%not_elem_of_nil.
    + constructor.
    + split; [constructor|done].
    + by intros s Hs%not_elem_of_nil.
    + by intros s Hs%not_elem_of_nil.
  - intros i p ->%Hidle. by split.
  - intros i j p q _ ->%Hidle ->%Hidle. by split.
Qed.

Lemma pool_started ts w : Forall handler ts → started w → pool_safe ts w.
Proof using H H0 H1 H2.
  intros Hts Hw. exists (replicate (length ts) idle). split; [by apply Inv_started|].
  split; [by rewrite length_replicate|]. intros i m Hm. exists idle. split.
  - apply lookup_replicate. split; [done|by eapply lookup_lt_Some].
  - apply handler_safe. by eapply Forall_lookup_1.
Qed.

Lemma pool_reached ts w ts' w' :
  Forall handler ts → started w → rtc Pool.step (ts, w) (ts', w') → pool_safe ts' w'.
Proof using H H0 H1 H2.
  intros Hts Hw Hsteps. by apply (Pool.pool_steps_safe _ _ _ _ _ Hsteps), pool_started.
Qed.

(** ** At every moment *)

(** The owner of a request in flight. *)
Lemma in_flight_owner ts w s :
  pool_safe ts w → s ∈ w_inflight w →
  ∃ ps i p, Inv w ps ∧ ps !! i = Some p ∧ flight p = Some s.
Proof.
  intros (ps & Hinv & _) Hs. destruct (g_owner _ _ (i_global _ _ Hinv) s Hs) as (p & Hp & Hf).
  apply list_elem_of_lookup in Hp as [i Hi]. by exists ps, i, p.
Qed.

(** C1 At most one certificate request per order is with the CA, however the
    requests to the server interleave. *)
Theorem one_request_in_flight ts w ts' w' s1 s2 :
  Forall handler ts → started w → rtc Pool.step (ts, w) (ts', w') →
  s1 ∈ w_inflight w' → s2 ∈ w_inflight w' → sub_order s1 = sub_order s2 → s1 = s2.
Proof using H H0 H1 H2.
  intros Hts Hw Hsteps H1' H2' Ho.
  destruct (pool_reached _ _ _ _ Hts Hw Hsteps) as (ps & Hinv & _).
  destruct (g_owner _ _ (i_global _ _ Hinv) s1 H1') as (p1 & [i Hi]%list_elem_of_lookup & Hf1).
  destruct (g_owner _ _ (i_global _ _ Hinv) s2 H2') as (p2 & [j Hj]%list_elem_of_lookup & Hf2).
  destruct (decide (i = j)) as [->|Hij]; [congruence|]. exfalso.
  destruct (l_flight _ _ (i_local _ _ Hinv i p1 Hi) s1 Hf1) as [Hl1 _].
  destruct (l_flight _ _ (i_local _ _ Hinv j p2 Hj) s2 Hf2) as [Hl2 _].
  unfold sub_key in *. rewrite Ho in Hl1.
  by eapply (c_lease _ _ (i_compat _ _ Hinv i j p1 p2 Hij Hi Hj)).
Qed.

(** No enrollment lease is used for two requests: over the whole run, the
    orders and lease generations of the requests sent are distinct. *)
Theorem one_request_per_lease ts w ts' w' :
  Forall handler ts → started w → rtc Pool.step (ts, w) (ts', w') →
  NoDup (map sub_key (w_submitted w')).
Proof using H H0 H1 H2.
  intros Hts Hw Hsteps. destruct (pool_reached _ _ _ _ Hts Hw Hsteps) as (ps & Hinv & _).
  apply (g_unique _ _ (i_global _ _ Hinv)).
Qed.

(** C2 While a request is with the CA, the account it is made for is valid
    and its kid on the allow list, that account is locked, its order is at the
    lease's generation, can neither be finalized again nor be reclaimed
    (it is marked as enrolling), and has no certificate. *)
Theorem in_flight_authorized ts w ts' w' s :
  Forall handler ts → started w → rtc Pool.step (ts, w) (ts', w') →
  s ∈ w_inflight w' →
  (∃ a, a ∈ accounts (w_db w') ∧ Account.id a = sub_account s
        ∧ Account.status a = AccountStatus.VALID ∧ Account.eab_kid a ∈ eab_kids config)
  ∧ sub_account s ∈ w_locks w'
  ∧ (∃ o, o ∈ orders (w_db w') ∧ Order.id o = sub_order s
          ∧ Order.processing_generation o = sub_generation s ∧ ¬ open o)
  ∧ 0 < active_count (sub_order s) w'
  ∧ ∀ c, c ∈ certificates (w_db w') → Cert.order_id c ≠ sub_order s.
Proof using H H0 H1 H2.
  intros Hts Hw Hsteps Hs.
  destruct (in_flight_owner _ _ _ (pool_reached _ _ _ _ Hts Hw Hsteps) Hs)
    as (ps & i & p & Hinv & Hi & Hf).
  pose proof (i_local _ _ Hinv i p Hi) as Hloc.
  destruct (l_flight _ _ Hloc s Hf) as (Hl & tp & Ha).
  destruct (l_auth _ _ Hloc _ _ Ha) as (Hlk & a & Hain & Haid & Hst & _ & Hkid).
  destruct (l_lease _ _ Hloc _ _ Hl) as (Hm & Hleased & Hno & _).
  split_and!; [by exists a|by apply (l_lock _ _ Hloc)|done| |done].
  destruct (Z.eq_dec (active_count (sub_order s) w') 0) as [Hz|Hnz].
  - by destruct (unmarked_lease _ _ _ _ _ (sub_generation s) Hinv Hz Hi).
  - pose proof (g_marks _ _ (i_global _ _ Hinv) (sub_order s)) as Hmarks. unfold marks in Hmarks.
    lia.
Qed.

(** An order that can still be finalized has no certificate, and one in
    processing none that is quarantined: no order is ever issued for twice. *)
Theorem open_order_without_certificate ts w ts' w' o c :
  Forall handler ts → started w → rtc Pool.step (ts, w) (ts', w') →
  o ∈ orders (w_db w') → c ∈ certificates (w_db w') → Cert.order_id c = Order.id o →
  ¬ open o
  ∧ (Order.status o = OrderStatus.PROCESSING → Cert.status c ≠ CertStatus.QUARANTINED).
Proof using H H0 H1 H2.
  intros Hts Hw Hsteps Ho Hc Hid. destruct (pool_reached _ _ _ _ Hts Hw Hsteps) as (ps & Hinv & _).
  pose proof (g_rows _ _ (i_global _ _ Hinv)) as Hrows. split.
  - intros Hop. by apply (ro_open _ Hrows o c).
  - intros Hs. by apply (ro_processing _ Hrows o c).
Qed.

(** ** When all have been answered *)


(** C4 Every request is answered: no schedule runs for ever, and one that
    cannot go on has answered them all, so the account locks never deadlock;
    then no lock is held, no order is marked and no request is in flight. *)
Theorem every_request_answered ts w :
  Forall handler ts → started w →
  Acc (flip Pool.step) (ts, w)
  ∧ ∀ ts' w', rtc Pool.step (ts, w) (ts', w') → nf Pool.step (ts', w') →
      (∃ rs, ts' = map Done rs)
      ∧ w_locks w' = ∅ ∧ w_inflight w' = [] ∧ ∀ oid, active_count oid w' = 0.
Proof using H H0 H1 H2.
  intros Hts Hw. split; [apply Pool.step_wf|]. intros ts' w' Hsteps Hnf.
  pose proof (pool_reached _ _ _ _ Hts Hw Hsteps) as Hsafe.
  destruct (Pool.pool_rest _ _ _ ts' w' Hsafe) as [rs ->]; [|done|].
  { intros i r p (_ & Hl & _) Hb. by apply Hb. }
  destruct Hsafe as (ps & Hinv & Hlen & Hdone).
  assert (∀ i p, ps !! i = Some p → finished p) as Hfin.
  { intros i p Hi. destruct (lookup_lt_is_Some_2 rs i) as [r Hr].
    { rewrite <- (length_map (@Done World Response) rs), <- Hlen. by eapply lookup_lt_Some. }
    destruct (Hdone i (Done r)) as (q & Hq & Hf); [by rewrite list_lookup_fmap, Hr|].
    rewrite Hi in Hq. by injection Hq as <-. }
  pose proof (i_global _ _ Hinv) as Hg. split; [by exists rs|]. split_and!.
  - apply set_eq. intros aid. split; [|by intros ?%elem_of_empty].
    intros Ha. destruct (g_locks _ _ Hg aid Ha) as (p & [i Hi]%list_elem_of_lookup & Hl).
    destruct (Hfin i p Hi) as (_ & Hn & _). congruence.
  - destruct (w_inflight w') as [|s l] eqn:Hw'; [done|].
    destruct (g_owner _ _ Hg s) as (p & [i Hi]%list_elem_of_lookup & Hf).
    { rewrite Hw'. by left. }
    destruct (Hfin i p Hi) as (_ & _ & Hn & _). congruence.
  - intros oid. rewrite (g_marks _ _ Hg). unfold marks.
    destruct (filter _ ps) as [|p l] eqn:Hps; [done|].
    assert (p ∈ filter (λ p, mark p = Some oid) ps) as Hin by (rewrite Hps; by left).
    apply list_elem_of_filter in Hin as [Hm [i Hi]%list_elem_of_lookup].
    destruct (Hfin i p Hi) as (Hn & _). congruence.
Qed.
End issuance.
