(* ===== verification/OrderTheorems.v ===== *)
(** * Orders and enrollment leases: what the store promises

    Functional specifications of the order transitions, the life of an order
    along every history of the store, and the safety of enrollment leases. *)

From S2P Require Import Prelude PyStr Exn Json Jwk Sql Db Act X509 StoreAudit.
From S2P Require Import StoreAccounts StoreOrders StoreCerts StoreRecovery.
From S2P Require Import StoreInv StoreOps.
Local Open Scope Z_scope.

(** ** One order *)

Definition find_order (id : string) (d : Db) : option Order.t :=
  fetchone (λ o, Order.id o = id) (orders d).

Lemma get_order_find id d : get_order id d = inr (find_order id d, d).
Proof. done. Qed.

Lemma find_order_id id d o : find_order id d = Some o → Order.id o = id ∧ o ∈ orders d.
Proof. by intros [? ?]%fetchone_Some. Qed.

(** Does the order carry this lease? *)
Definition holds (id : string) (g : Z) (d : Db) : Prop :=
  ∃ o, find_order id d = Some o
       ∧ Order.status o = OrderStatus.PROCESSING ∧ Order.processing_generation o = g.

Lemma holds_processing_lease_spec id g d :
  ∃ b, holds_processing_lease id g d = inr (b, d) ∧ (b = true ↔ holds id g d).
Proof.
  unfold holds_processing_lease, mbind, tx_bind. rewrite get_order_find. simpl.
  eexists. split; [done|]. unfold holds. destruct (find_order id d) as [o|].
  - rewrite andb_true_iff, bool_decide_eq_true, Z.eqb_eq. naive_solver.
  - naive_solver.
Qed.

(** A CAS whose WHERE fixes the id changes that order or nothing. *)
Lemma cas_orders_spec id p `{∀ o, Decision (p o)} f d :
  wf d → (∀ o, p o → Order.id o = id) →
  cas_orders p f d =
  match find_order id d with
  | Some o =>
    inr (bool_decide (p o), if decide (p o) then set_orders (update_where p f (orders d)) d else d)
  | None => inr (false, d)
  end.
Proof.
  intros Hwf Hp. unfold cas_orders, mbind, tx_bind, tx_update.
  rewrite (count_key Order.id p (orders d) id (wf_orders d Hwf) Hp).
  assert ((∀ o, o ∈ orders d → ¬ p o) → set_orders (update_where p f (orders d)) d = d) as Hno.
  { intros Hno. rewrite update_where_id by done. by destruct d. }
  unfold find_order. destruct (fetchone _ (orders d)) as [o|] eqn:Hf.
  - apply fetchone_Some in Hf as [Hid Ho].
    destruct (decide (p o)) as [Hpo|Hpo].
    + by rewrite bool_decide_eq_true_2.
    + rewrite bool_decide_eq_false_2 by done. simpl. unfold mret, tx_ret. do 2 f_equal.
      apply Hno. intros o' Ho' Hpo'. destruct Hpo.
      rewrite (unique_elem_of (Some ∘ Order.id) (orders d) o o' id); [done|apply Hwf|done|done| |].
      * simpl. by f_equal.
      * simpl. f_equal. auto.
  - simpl. unfold mret, tx_ret. do 2 f_equal. apply Hno. intros o Ho Hpo.
    eapply (proj1 (fetchone_None _ _) Hf); eauto.
Qed.

(** The order after such a CAS. *)
Lemma find_order_update id p `{∀ o, Decision (p o)} f d :
  (∀ o, p o → Order.id (f o) = Order.id o) →
  find_order id (set_orders (update_where p f (orders d)) d)
  = (λ o, if decide (p o) then f o else o) <$> find_order id d.
Proof.
  intros Hf. unfold find_order. simpl. apply fetchone_update_where.
  intros o Hp. by rewrite (Hf o Hp).
Qed.

(** ** Histories *)

Lemma find_order_le id d d' o :
  wf d → wf d' → db_le d d' → find_order id d = Some o →
  ∃ o', find_order id d' = Some o' ∧ OrderLife.le o o'.
Proof.
  intros Hwf Hwf' Hle Hfind. apply find_order_id in Hfind as [Hid Ho].
  apply list_elem_of_lookup in Ho as [i Hi].
  destruct (le_orders _ _ Hle i o Hi) as (o' & Hi' & Hle').
  exists o'. split; [|done]. destruct Hle' as [Hfix _]. unfold OrderLife.fixed in Hfix.
  eapply (fetchone_unique (Some ∘ Order.id) _ _ id); 
    [apply Hwf'|intros r Hr; simpl; by f_equal|by eapply list_elem_of_lookup_2|].
  simpl. congruence.
Qed.

Lemma edges_final s g c :
  s = OrderStatus.INVALID ∨ s = OrderStatus.REVOKED →
  rtc OrderLife.edge (s, g) c → c = (s, g).
Proof.
  intros Hs Hrtc. inversion Hrtc as [|? c1 ? Hedge _]; [done|].
  inversion Hedge; subst; destruct Hs; simplify_eq.
Qed.

(** A lapsed generation is never current again. *)
Lemma edges_lapsed s g s' g' k :
  rtc OrderLife.edge (s, g) (s', g') → k <= g → (s, g) ≠ (OrderStatus.PROCESSING, k) →
  (s', g') ≠ (OrderStatus.PROCESSING, k).
Proof.
  intros Hrtc Hk Hne [= -> ->].
  inversion Hrtc as [|? [s1 g1] ? Hedge Hrest]; [congruence|subst].
  assert (k <= g1 ∧ (s1, g1) ≠ (OrderStatus.PROCESSING, k)) as [Hk1 Hne1].
  { apply edge_generation in Hedge as [Hge Hgt]. split; [lia|].
    intros [= -> ->]. specialize (Hgt eq_refl). lia. }
  clear Hedge Hrtc Hne Hk s g.
  remember (s1, g1) as c eqn:Hc. remember (OrderStatus.PROCESSING, k) as c' eqn:Hc'.
  revert s1 g1 Hc Hk1 Hne1. induction Hrest as [c|c [s2 g2] c' Hedge _ IH]; intros s1 g1 -> Hk1 Hne1.
  - by destruct Hne1.
  - apply edge_generation in Hedge as [Hge Hgt].
    eapply (IH Hc' s2 g2 eq_refl); [lia|].
    intros Heq. subst c'. simplify_eq. specialize (Hgt eq_refl). lia.
Qed.

(** ** Claims *)

Section claims.
Context `{CertParser}.

(** C26 Whatever transactions the handlers commit, and in whatever order, the
    database keeps its invariant: primary keys and the two migrated indexes
    are unique, an order in [processing] has a positive generation and a
    start time, a [valid] order has a certificate URL, a certificate that is
    not valid carries its revocation time and only such a one can be
    confirmed at the CA, and audit ids strictly increase. *)
Theorem reachable_wf d : rtc store_step empty_db d → wf d.
Proof. intros Hsteps. by eapply store_steps_ok, wf_empty. Qed.

(** C27 Along every history an order is never deleted, keeps its identity,
    account, identifiers and expiry, moves only along the edges of its life,
    and its lease generation never decreases; [invalid] and [revoked] are
    final. *)
Theorem order_history id d d' o :
  wf d → rtc store_step d d' → find_order id d = Some o →
  ∃ o', find_order id d' = Some o'
    ∧ OrderLife.fixed o' = OrderLife.fixed o
    ∧ rtc OrderLife.edge (OrderLife.state o) (OrderLife.state o')
    ∧ Order.processing_generation o <= Order.processing_generation o'
    ∧ (Order.status o = OrderStatus.INVALID ∨ Order.status o = OrderStatus.REVOKED →
       OrderLife.state o' = OrderLife.state o).
Proof.
  intros Hwf Hsteps Hfind. destruct (store_steps_ok d d' Hsteps Hwf) as [Hwf' Hle].
  destruct (find_order_le id d d' o Hwf Hwf' Hle Hfind) as (o' & Ho' & Hfix & Hlife).
  exists o'. split_and!; [done..|by apply edges_generation in Hlife|].
  intros Hs. by eapply edges_final.
Qed.

Lemma lapsed_stays id g d d' o :
  wf d → rtc store_step d d' → find_order id d = Some o →
  g <= Order.processing_generation o → ¬ holds id g d → ¬ holds id g d'.
Proof.
  intros Hwf Hsteps Hfind Hg Hnot (o' & Hfind' & Hs & Hgen).
  destruct (store_steps_ok d d' Hsteps Hwf) as [Hwf' Hle].
  destruct (find_order_le id d d' o Hwf Hwf' Hle Hfind) as (o1 & Ho1 & _ & Hlife).
  rewrite Hfind' in Ho1. injection Ho1 as <-.
  eapply edges_lapsed with (k := g); [exact Hlife|exact Hg| |congruence].
  intros [= Hs0 Hg0]. apply Hnot. by exists o.
Qed.

(** An enrollment lease that has lapsed is never held again: once an order
    that has reached generation [g] is not [processing] under [g], no later
    history makes [holds_processing_lease] answer True for [g]. *)
Theorem lease_lapsed_for_good id g d d' o :
  wf d → rtc store_step d d' → find_order id d = Some o →
  g <= Order.processing_generation o →
  holds_processing_lease id g d = inr (false, d) →
  holds_processing_lease id g d' = inr (false, d').
Proof.
  intros Hwf Hsteps Hfind Hg Hhold.
  destruct (holds_processing_lease_spec id g d) as ([] & Heq & Hb);
    [congruence|].
  destruct (holds_processing_lease_spec id g d') as ([] & Heq' & Hb'); [|done].
  exfalso. eapply (lapsed_stays id g d d' o); [done..| |by apply Hb'].
  intros Hh. apply Hb in Hh. done.
Qed.

(** [acquire_processing_lease] on every branch: exactly an order in
    [ready] is moved to [processing], with the start time set, everything
    else kept and the next generation returned; for any other order, or
    none, the answer is None and nothing changes. *)
Theorem acquire_processing_lease_spec now id d :
  wf d →
  acquire_processing_lease now id d =
  match find_order id d with
  | Some o =>
    if decide (Order.status o = OrderStatus.READY)
    then inr (Some (Order.processing_generation o + 1),
              set_orders (update_where (λ o, Order.id o = id) (to_processing now) (orders d)) d)
    else inr (None, d)
  | None => inr (None, d)
  end.
Proof.
  intros Hwf.
  pose proof (cas_orders_spec id (has_status id OrderStatus.READY) (to_processing now) d
                Hwf ltac:(by intros o [? ?])) as Hcas.
  unfold acquire_processing_lease. unfold cas_orders, mbind, tx_bind, tx_update, mret, tx_ret
    in *. destruct (find_order id d) as [o|] eqn:Hf.
  - injection Hcas as Hrow Hd. rewrite Hrow, Hd.
    apply find_order_id in Hf as Hid. destruct Hid as [Hid Ho].
    destruct (decide (Order.status o = OrderStatus.READY)) as [Hs|Hs].
    + assert (has_status id OrderStatus.READY o) as Hp by done.
      rewrite bool_decide_eq_true_2, decide_True by done. cbn [negb].
      assert (update_where (has_status id OrderStatus.READY) (to_processing now) (orders d)
              = update_where (λ o, Order.id o = id) (to_processing now) (orders d)) as ->.
      { apply map_ext_in. intros o' Ho'%list_elem_of_In.
        destruct (decide (Order.id o' = id)) as [Hid'|Hid'].
        - rewrite decide_True; [done|]. split; [done|].
          rewrite <- Hs. f_equal.
          eapply (unique_elem_of (Some ∘ Order.id)); [apply Hwf|done..|].
          simpl. congruence.
        - by rewrite decide_False by (by intros [? ?]). }
      rewrite get_order_find, find_order_update by done. rewrite Hf. simpl.
      by rewrite decide_True.
    + by rewrite bool_decide_eq_false_2, decide_False by (by intros [? ?]).
  - injection Hcas as Hrow Hd. by rewrite Hrow, Hd.
Qed.

Lemma acquire_holds now id d g d' :
  wf d → acquire_processing_lease now id d = inr (Some g, d') →
  holds id g d' ∧ ∃ o, find_order id d = Some o ∧ g = Order.processing_generation o + 1.
Proof.
  intros Hwf. rewrite acquire_processing_lease_spec by done.
  destruct (find_order id d) as [o|] eqn:Hf; [|done]. case_decide; [|done].
  intros [= <- <-]. apply find_order_id in Hf as Hid. split; [|by exists o].
  unfold holds. rewrite find_order_update by done. rewrite Hf. simpl.
  rewrite decide_True by naive_solver. by eexists.
Qed.

(** C25 Leases never overlap: when two finalize calls both acquire the lease
    of an order, with any history in between, the second generation is
    greater, and from then on the first is not held. *)
Theorem lease_exclusive now1 now2 id d d1 d2 d3 d4 g1 g2 :
  wf d → acquire_processing_lease now1 id d = inr (Some g1, d1) →
  rtc store_step d1 d2 → acquire_processing_lease now2 id d2 = inr (Some g2, d3) →
  rtc store_step d3 d4 →
  g1 < g2 ∧ holds_processing_lease id g1 d4 = inr (false, d4).
Proof.
  intros Hwf Hacq1 Hsteps Hacq2 Hsteps'.
  destruct (store_tx_ok _ (T_acquire_processing_lease now1 id) _ _ _ Hwf Hacq1) as [Hwf1 _].
  destruct (store_steps_ok _ _ Hsteps Hwf1) as [Hwf2 Hle].
  destruct (store_tx_ok _ (T_acquire_processing_lease now2 id) _ _ _ Hwf2 Hacq2) as [Hwf3 _].
  destruct (acquire_holds _ _ _ _ _ Hwf Hacq1) as [(o1 & Ho1 & _ & <-) _].
  destruct (acquire_holds _ _ _ _ _ Hwf2 Hacq2) as [(o3 & Ho3 & _ & <-) (o2 & Ho2 & Hg2)].
  destruct (find_order_le _ _ _ _ Hwf1 Hwf2 Hle Ho1) as (o2' & Ho2' & _ & Hlife).
  rewrite Ho2 in Ho2'. injection Ho2' as <-. apply edges_generation in Hlife.
  simpl in Hlife. assert (Order.processing_generation o1 < Order.processing_generation o3)
    as Hlt by lia. split; [done|].
  destruct (holds_processing_lease_spec id (Order.processing_generation o1) d4)
    as ([] & Heq & Hb); [|done].
  exfalso. eapply (lapsed_stays id (Order.processing_generation o1) d3 d4 o3);
    [done..|lia| |by apply Hb].
  intros (o & Ho & _ & Hg). rewrite Ho3 in Ho. injection Ho as <-. lia.
Qed.

(** The four ways a worker ends its own lease. *)
Lemma processing_cas_spec id g f d :
  wf d →
  ∃ b : bool, cas_orders (processing_cas id (Some g)) f d
       = inr (b, if b then set_orders (update_where (processing_cas id (Some g)) f (orders d)) d
                 else d)
       ∧ (b = true ↔ holds id g d).
Proof.
  intros Hwf. rewrite (cas_orders_spec id (processing_cas id (Some g)) f d Hwf) by (by intros o [[? _] _]).
  unfold holds. destruct (find_order id d) as [o|] eqn:Hf.
  - apply find_order_id in Hf as [Hid _].
    exists (bool_decide (processing_cas id (Some g) o)).
    split; [by destruct (decide (processing_cas id (Some g) o)) as [Hp|Hp];
            [rewrite bool_decide_eq_true_2|rewrite bool_decide_eq_false_2]|].
    rewrite bool_decide_eq_true. unfold processing_cas, has_status. naive_solver.
  - exists false. split; [done|]. naive_solver.
Qed.

(** A transition out of [processing] that names its lease is applied
    exactly when that lease is still held, and otherwise changes nothing:
    reopening, completing and terminating an order under a generation, and
    the same for the CAS inside [record_issuance]. *)
Theorem lease_cas now id g url d :
  wf d →
  ∃ b : bool, holds_processing_lease id g d = inr (b, d)
    ∧ (∃ d1, transition_processing_to_ready now id (Some g) d = inr (b, d1)
             ∧ (b = false → d1 = d))
    ∧ (∃ d1, transition_processing_to_valid now id url (Some g) d = inr (b, d1)
             ∧ (b = false → d1 = d)
             ∧ (b = true → ∃ o, find_order id d1 = Some o
                  ∧ Order.status o = OrderStatus.VALID
                  ∧ Order.certificate_url o = Some url))
    ∧ (∃ d1, transition_processing_to_invalid now id (Some g) d = inr (b, d1)
             ∧ (b = false → d1 = d))
    ∧ (∀ url pend et aid oc ds res d1,
         reclaim_processing_order now id url (Some g) pend et aid oc ds d = inr (res, d1) →
         res.1 = b ∧ (b = false → d1 = d)).
Proof.
  intros Hwf. destruct (holds_processing_lease_spec id g d) as (b & Heq & Hb).
  exists b. split; [done|].
  assert (∀ f, cas_orders (processing_cas id (Some g)) f d
            = inr (b, if b then set_orders
                      (update_where (processing_cas id (Some g)) f (orders d)) d else d))
    as Hcas.
  { intros f. destruct (processing_cas_spec id g f d Hwf) as (b' & -> & Hb').
    by replace b' with b by (destruct b, b'; naive_solver). }
  split_and!.
  - eexists. split; [apply Hcas|by intros ->].
  - eexists. split; [apply Hcas|]. split; [by intros ->|intros ->].
    destruct (proj1 Hb eq_refl) as (o & Ho & Hs & Hg).
    rewrite find_order_update by done. rewrite Ho. simpl. eexists. split; [done|].
    rewrite decide_True; [done|]. unfold processing_cas, has_status.
    apply find_order_id in Ho as [? _]. naive_solver.
  - eexists. split; [apply Hcas|by intros ->].
  - intros url' pend et aid oc ds res d1. unfold reclaim_processing_order.
    set (f := match url' with Some url => to_valid now url | None => to_ready now end).
    specialize (Hcas f). unfold cas_orders, mbind, tx_bind, tx_update, mret, tx_ret in *.
    injection Hcas as Hrow Hd. rewrite Hrow, Hd. destruct b; cbn [negb]; [|by intros [= <- <-]].
    destruct pend as [req|]; [case_decide|]; intros [= <- <-]; done.
Qed.
End claims.
