(* ===== verification/OrderCreation.v ===== *)
(** * Creating and expiring orders: theorems

    The expiry sweep against a single UPDATE, and order creation against its
    rate limits. *)

From S2P Require Import Prelude PyStr Exn Json Jwk Sql Db X509 StoreAudit StoreAccounts.
From S2P Require Import StoreOrders StoreInv StoreOps OrderTheorems.
Local Open Scope Z_scope.

(** ** The sweep *)

Lemma concat_batches {A} fuel n (l : list A) :
  (0 < n)%nat → (length l ≤ fuel)%nat → concat (batches fuel n l) = l.
Proof.
  intros Hn. revert l. induction fuel as [|fuel IH]; intros [|x l] Hl; try done.
  { simpl in Hl. lia. }
  cbn [batches concat]. rewrite IH; [apply take_drop|]. rewrite length_drop.
  cbn [length] in *. lia.
Qed.

Definition active (o : Order.t) : Prop :=
  Order.status o = OrderStatus.PENDING ∨ Order.status o = OrderStatus.READY.
#[global] Instance active_dec o : Decision (active o).
Proof. unfold active. apply _. Defined.

Lemma to_status_inactive now o : ¬ active (to_status OrderStatus.INVALID now o).
Proof. destruct o. by intros [|]. Qed.

(** The batched UPDATEs are one UPDATE over the concatenation. *)
Lemma sweep_batches_spec now total bs d :
  NoDup (concat bs) →
  sweep_batches now total bs d
  = inr (total + count (λ o, Order.id o ∈ concat bs ∧ active o) (orders d),
         set_orders (update_where (λ o, Order.id o ∈ concat bs ∧ active o)
                       (to_status OrderStatus.INVALID now) (orders d)) d).
Proof.
  revert total d. induction bs as [|b bs IH]; intros total d Hnd; simpl.
  - rewrite update_where_id by (intros o _ [Hin _]; by apply elem_of_nil in Hin).
    rewrite (proj2 (count_zero _ (orders d)))
      by (intros o _ [Hin _]; by apply elem_of_nil in Hin).
    rewrite Z.add_0_r. by destruct d.
  - simpl in Hnd. apply NoDup_app in Hnd as (_ & Hdisj & Hnd).
    unfold sweep_batch, mbind, tx_bind, tx_update at 1. rewrite IH by done. simpl.
    pose proof (to_status_inactive now) as Hin.
    rewrite <- Z.add_assoc, count_twice, update_where_twice.
    + do 2 f_equal; [f_equal; apply count_ext|unfold set_orders; f_equal; apply update_where_ext];
        intros o _; rewrite elem_of_app; unfold active; tauto.
    + intros o _ [_ Hact]. by apply (Hin o).
    + intros o [Hb _]. split; [intros [_ Hact]; by apply (Hin o)|].
      intros [Hrest _]. by apply (Hdisj (Order.id o)).
Qed.

Lemma unique_NoDup {R K} (key : R → K) t : unique (Some ∘ key) t ↔ NoDup (map key t).
Proof.
  rewrite <- unique_NoDup_omap.
  assert (omap (Some ∘ key) t = map key t) as ->; [|done].
  induction t as [|x t IH]; simpl; [done|by rewrite <- IH].
Qed.

Definition expired_active (now : Z) (o : Order.t) : Prop :=
  active o ∧ Order.expires o <= now.
#[global] Instance expired_active_dec now o : Decision (expired_active now o).
Proof. unfold expired_active. apply _. Defined.

(** The sweep, in batches of 900 ids, does exactly what one UPDATE over
    all orders would: every order that is [pending] or [ready] and expired
    becomes [invalid], no other row changes, and the count is returned. *)
Theorem sweep_expired_orders_spec now d :
  wf d →
  sweep_expired_orders now d
  = inr (count (expired_active now) (orders d),
         set_orders (update_where (expired_active now) (to_status OrderStatus.INVALID now)
                       (orders d)) d).
Proof.
  intros Hwf. unfold sweep_expired_orders, mbind, tx_bind, tx_select.
  set (ids := map Order.id _).
  assert (∀ o, o ∈ orders d → (Order.id o ∈ ids ∧ active o) ↔ expired_active now o) as Hids.
  { intros o Ho. unfold ids, expired_active. rewrite list_elem_of_fmap. split.
    - intros [(o' & Hid & Ho') Hact]. split; [done|].
      apply list_elem_of_filter in Ho' as [He Ho']. apply list_elem_of_filter in Ho' as [_ Ho'].
      assert (o' = o) as -> by
        (eapply (unique_elem_of (Some ∘ Order.id)); [apply Hwf|done..|simpl; congruence]).
      unfold is_expired in He. apply Is_true_true in He. by apply Z.leb_le.
    - intros [Hact He]. split; [|done]. exists o. split; [done|].
      apply list_elem_of_filter. split; [|by apply list_elem_of_filter].
      unfold is_expired. apply Is_true_true. by apply Z.leb_le. }
  assert (NoDup ids) as Hnd.
  { unfold ids. by apply unique_NoDup, unique_filter, unique_filter, Hwf. }
  assert (sweep_batches now 0 (batches (length ids) SWEEP_BATCH ids) d
          = inr (count (expired_active now) (orders d),
                 set_orders (update_where (expired_active now)
                   (to_status OrderStatus.INVALID now) (orders d)) d)) as Hsweep.
  { rewrite sweep_batches_spec; rewrite concat_batches by (done || unfold SWEEP_BATCH; lia).
    - rewrite Z.add_0_l.
      by rewrite (count_ext _ _ _ Hids), (update_where_ext _ _ _ _ Hids).
    - done. }
  destruct ids eqn:Hi; [|done]. rewrite <- Hsweep. by destruct d.
Qed.

(** ** Order creation *)

(** What the loop over the identifiers writes. *)
Definition new_authz (uuid : nat → string) (account_id order_id : string) (expires : Z)
    (n : nat) (identifier : dict) : Authz.t :=
  {| Authz.id := uuid n; Authz.account_id := account_id; Authz.order_id := order_id;
     Authz.identifier := identifier; Authz.status := "pending"; Authz.expires := expires |}.
Definition new_challenge (urls : UrlFns) (uuid : nat → string) (n : nat) : Challenge.t :=
  {| Challenge.id := uuid (1 + n)%nat; Challenge.authz_id := uuid n;
     Challenge.type := "http-01"; Challenge.status := "pending";
     Challenge.token := uuid (2 + n)%nat +:+ uuid (3 + n)%nat;
     Challenge.url := challenge_url_fn urls (uuid (1 + n)%nat);
     Challenge.validated_at := None |}.

Lemma insert_authzs_spec urls uuid aid oid expires n ids azs d res d' :
  insert_authzs urls uuid aid oid expires n ids azs d = inr (res, d') →
  res = azs ++ imap (λ i _, authz_url_fn urls (uuid (n + 4 * i)%nat)) ids
  ∧ d' = set_authorizations (authorizations d ++
           imap (λ i ident, new_authz uuid aid oid expires (n + 4 * i) ident) ids)
         (set_challenges (challenges d ++
           imap (λ i _, new_challenge urls uuid (n + 4 * i)) ids) d).
Proof.
  revert n azs d. induction ids as [|ident ids IH]; intros n azs d.
  { intros [= <- <-]. cbn [imap]. rewrite !app_nil_r. split; [done|]. by destruct d. }
  cbn [insert_authzs]. unfold mbind, tx_bind, tx_insert.
  destruct (challenge_clash _ _); [done|]. destruct (authz_clash _ _); [done|].
  intros Hins. apply IH in Hins as [-> ->]. clear IH. rewrite !imap_cons.
  assert (∀ {B} (f : nat → dict → B), imap (λ i x, f (4 + n + 4 * i)%nat x) ids
            = imap ((λ i x, f (n + 4 * i)%nat x) ∘ S) ids) as Hshift.
  { intros B f. apply imap_ext. intros i x _. cbn [compose]. f_equal. lia. }
  rewrite (Hshift _ (λ k _, authz_url_fn urls (uuid k))).
  rewrite (Hshift _ (new_authz uuid aid oid expires)).
  rewrite (Hshift _ (λ k _, new_challenge urls uuid k)).
  cbn [authorizations challenges set_authorizations set_challenges].
  rewrite <- !app_assoc, !Nat.mul_0_r, !Nat.add_0_r. done.
Qed.

Lemma check_order_rate_limits_ok now aid w pk gl d x d' :
  check_order_rate_limits now aid w pk gl d = inr (x, d') →
  d' = d ∧ (0 < pk ∨ 0 < gl →
    ∃ window a, w = Some window ∧ 1 <= window
      ∧ fetchone (λ a, Account.id a = aid) (accounts d) = Some a
      ∧ (0 < pk → recent_order_count_by_kid d (Account.eab_kid a) (now - window) < pk)
      ∧ (0 < gl → recent_order_count d (now - window) < gl)).
Proof.
  unfold check_order_rate_limits, get_account, tx_fetchone, tx_get, tx_raise, mbind, tx_bind,
    mret, tx_ret.
  destruct ((0 <? pk) || (0 <? gl)) eqn:Hon; [|].
  2:{ intros [= <- <-]. bool_hyps. split; [done|lia]. }
  destruct w as [window|]; [|done]. destruct (window <? 1) eqn:Hw; [done|].
  destruct (fetchone _ _) as [a|] eqn:Ha; [|done].
  destruct (0 <? pk) eqn:Hpk; [destruct (pk <=? _) eqn:Hc; [done|]|];
    (destruct (0 <? gl) eqn:Hgl; [destruct (gl <=? _) eqn:Hc'; [done|]|]);
    intros [= <- <-]; (split; [done|]); intros _; bool_hyps; exists window, a;
    split_and!; try done; lia.
Qed.

(** The database a successful creation leaves. *)
Lemma create_order_ok now uuid e aid ids urls w pk gl d o d' :
  create_order_with_authz now uuid e aid ids urls w pk gl d = inr (o, d') →
  violates (Some ∘ Order.id) o (orders d) = false
  ∧ accounts d' = accounts d
  ∧ Order.id o = uuid 0%nat ∧ Order.account_id o = aid ∧ Order.identifiers o = ids
  ∧ Order.created_at o = now ∧ Order.status o = OrderStatus.PENDING
  ∧ Order.authorizations o = imap (λ i _, authz_url_fn urls (uuid (1 + 4 * i)%nat)) ids
  ∧ (∃ o0, OrderLife.fixed o0 = OrderLife.fixed o
     ∧ orders d' = update_where (λ x, Order.id x = uuid 0%nat)
                     (Order.set_authorizations (Order.authorizations o)) (orders d ++ [o0])
     ∧ Order.set_authorizations (Order.authorizations o) o0 = o)
  ∧ authorizations d' = authorizations d ++
      imap (λ i ident, new_authz uuid aid (uuid 0%nat) (now + e) (1 + 4 * i) ident) ids
  ∧ challenges d' = challenges d ++ imap (λ i _, new_challenge urls uuid (1 + 4 * i)) ids.
Proof.
  unfold create_order_with_authz, mbind, tx_bind.
  destruct (check_order_rate_limits _ _ _ _ _ d) as [|[[] d1]] eqn:Hlim; [done|].
  apply check_order_rate_limits_ok in Hlim as [-> _]. unfold tx_insert at 1, order_clash.
  destruct (violates _ _ _) eqn:Hv; [done|].
  destruct (insert_authzs _ _ _ _ _ _ _ _ _) as [|[azs d2]] eqn:Hins; [done|].
  apply insert_authzs_spec in Hins as [-> ->].
  unfold tx_update, mret, tx_ret. intros [= <- <-].
  split_and!; try done. eexists. split_and!; [| |done]; done.
Qed.

Lemma count_update_keep {R} q `{∀ r : R, Decision (q r)} p `{∀ r, Decision (p r)} f t :
  (∀ r, q (f r) ↔ q r) → count q (update_where p f t) = count q t.
Proof.
  intros Hq. unfold count, update_where. f_equal.
  induction t as [|r t IH]; [done|]. simpl. rewrite !filter_cons.
  pose proof (Hq r).
  destruct (decide (p r)); destruct (decide (q r)); simpl;
    repeat first [rewrite decide_True by tauto | rewrite decide_False by tauto]; simpl; lia.
Qed.

Lemma recent_counts_created now uuid e aid ids urls w pk gl d o d' kid cutoff :
  create_order_with_authz now uuid e aid ids urls w pk gl d = inr (o, d') →
  recent_order_count_by_kid d' kid cutoff <= recent_order_count_by_kid d kid cutoff + 1
  ∧ recent_order_count d' cutoff <= recent_order_count d cutoff + 1.
Proof.
  intros (_ & Hacc & _ & _ & _ & _ & _ & _ & (o0 & Hfix & Hord & _) & _)%create_order_ok.
  unfold recent_order_count_by_kid, recent_order_count, kid_of_account.
  rewrite Hord, Hacc. split.
  - rewrite count_update_keep by (intros []; done). rewrite count_app, count_singleton.
    case_decide; lia.
  - rewrite count_update_keep by (intros []; done). rewrite count_app, count_singleton.
    case_decide; lia.
Qed.

(** Order creation never takes a kid, or the server, over its rate limit:
    after a creation under a limit, the orders of the window number at most
    the limit, per EAB kid across all of the kid's accounts and globally. *)
Theorem create_order_within_limits now uuid e aid ids urls window pk gl d o d' :
  create_order_with_authz now uuid e aid ids urls (Some window) pk gl d = inr (o, d') →
  (0 < pk → ∃ a, fetchone (λ a, Account.id a = aid) (accounts d) = Some a
     ∧ recent_order_count_by_kid d' (Account.eab_kid a) (now - window) <= pk)
  ∧ (0 < gl → recent_order_count d' (now - window) <= gl).
Proof.
  intros Hc. assert (∃ x d1, check_order_rate_limits now aid (Some window) pk gl d = inr (x, d1))
    as (x & d1 & Hlim).
  { revert Hc. unfold create_order_with_authz, mbind, tx_bind.
    destruct (check_order_rate_limits _ _ _ _ _ d) as [|[x d1]]; [done|eauto]. }
  apply check_order_rate_limits_ok in Hlim as [-> Hlim].
  split; intros Hpos; destruct (Hlim ltac:(auto)) as (w & a & [= <-] & Hw & Ha & Hpk & Hgl);
    pose proof (recent_counts_created _ _ _ _ _ _ _ _ _ _ _ _
                  (Account.eab_kid a) (now - window) Hc) as [? ?].
  - exists a. split; [done|]. specialize (Hpk Hpos). lia.
  - specialize (Hgl Hpos). lia.
Qed.

(** A created order is stored whole: the order returned is the one a
    lookup finds, [pending], with one authorization URL per identifier, in
    order; behind the i-th URL are a new pending authorization for the i-th
    identifier and its pending http-01 challenge, tied to the order. *)
Theorem create_order_stored now uuid e aid ids urls w pk gl d o d' :
  create_order_with_authz now uuid e aid ids urls w pk gl d = inr (o, d') →
  find_order (Order.id o) d' = Some o
  ∧ Order.status o = OrderStatus.PENDING ∧ Order.identifiers o = ids
  ∧ length (Order.authorizations o) = length ids
  ∧ ∀ i ident, ids !! i = Some ident → ∃ az ch,
      authorizations d' !! (length (authorizations d) + i)%nat = Some az
      ∧ challenges d' !! (length (challenges d) + i)%nat = Some ch
      ∧ Order.authorizations o !! i = Some (authz_url_fn urls (Authz.id az))
      ∧ Authz.identifier az = ident ∧ Authz.status az = "pending"%string
      ∧ Authz.order_id az = Order.id o ∧ Authz.account_id az = Order.account_id o
      ∧ Challenge.authz_id ch = Authz.id az ∧ Challenge.status ch = "pending"%string
      ∧ Challenge.type ch = "http-01"%string
      ∧ Challenge.url ch = challenge_url_fn urls (Challenge.id ch).
Proof.
  intros (Hv & _ & Hid & Haid & Hids & _ & Hs & Hazs & (o0 & Hfix & Hord & Ho) & Haz & Hch)
    %create_order_ok.
  split_and!; [|done|done|by rewrite Hazs, length_imap|].
  - unfold find_order. rewrite Hord, fetchone_update_where by (by intros []).
    assert (Order.id o0 = Order.id o) as Hid0 by (unfold OrderLife.fixed in Hfix; congruence).
    rewrite fetchone_app. rewrite (proj2 (fetchone_None _ (orders d))).
    + unfold fetchone. rewrite filter_cons, decide_True by done. simpl.
      rewrite decide_True by congruence. by rewrite Ho.
    + intros x Hx Hxid. eapply (proj1 (violates_false _ _ _) Hv x (Order.id x)); [done..|].
      simpl. congruence.
  - intros i ident Hi. rewrite Haz, Hch, Hazs.
    assert (∀ n, n + i - n = i)%nat as Hsub by lia.
    rewrite !lookup_app_r, !Hsub by lia.
    rewrite !list_lookup_imap, Hi. simpl. do 2 eexists. split_and!; done.
Qed.
