(* ===== verification/CertTheorems.v ===== *)
(** * Certificates: what the store promises

    Issuance, quarantine, revocation and CA-side confirmation, each with its
    audit row, on every branch and along every history. *)

From S2P Require Import Prelude PyStr Exn Json Jwk Sql Db Act X509 AuditBounds.
From S2P Require Import StoreAudit StoreAccounts StoreOrders StoreCerts.
From S2P Require Import StoreRecovery StoreInv StoreOps OrderTheorems.
Local Open Scope Z_scope.

Definition find_cert (id : string) (d : Db) : option Cert.t :=
  fetchone (λ c, Cert.id c = id) (certificates d).

Lemma find_cert_id id d c : find_cert id d = Some c → Cert.id c = id ∧ c ∈ certificates d.
Proof. by intros [? ?]%fetchone_Some. Qed.

Lemma find_cert_le id d d' c :
  wf d' → db_le d d' → find_cert id d = Some c →
  ∃ c', find_cert id d' = Some c' ∧ CertLife.le c c'.
Proof.
  intros Hwf' Hle Hfind. apply find_cert_id in Hfind as [Hid Hc].
  apply list_elem_of_lookup in Hc as [i Hi].
  destruct (le_certs _ _ Hle i c Hi) as (c' & Hi' & Hle').
  exists c'. split; [|done]. destruct Hle' as [Hfix _]. unfold CertLife.fixed in Hfix.
  eapply (fetchone_unique (Some ∘ Cert.id) _ _ id);
    [apply Hwf'|intros r Hr; simpl; by f_equal|by eapply list_elem_of_lookup_2|].
  simpl. congruence.
Qed.

(** An UPDATE keyed on the certificate id. *)
Lemma count_cert id p `{∀ c, Decision (p c)} d :
  wf d → (∀ c, p c → Cert.id c = id) →
  count p (certificates d)
  = match find_cert id d with Some c => if decide (p c) then 1 else 0 | None => 0 end.
Proof. intros Hwf Hp. apply (count_key Cert.id); [apply Hwf|done]. Qed.

Lemma find_cert_update id p `{∀ c, Decision (p c)} f d :
  (∀ c, p c → Cert.id (f c) = Cert.id c) →
  find_cert id (set_certificates (update_where p f (certificates d)) d)
  = (λ c, if decide (p c) then f c else c) <$> find_cert id d.
Proof.
  intros Hf. unfold find_cert. simpl. apply fetchone_update_where.
  intros c Hp. by rewrite (Hf c Hp).
Qed.

Lemma update_certs_none p `{∀ c, Decision (p c)} f d :
  count p (certificates d) = 0 →
  set_certificates (update_where p f (certificates d)) d = d.
Proof.
  intros Hc. rewrite update_where_id by (by apply (proj1 (count_zero p _))). by destruct d.
Qed.

Section claims.
Context `{CertParser}.

Lemma get_certificate_by_order_ok oid d r d' :
  get_certificate_by_order oid d = inr (r, d') →
  d' = d ∧ match r with
           | Some c => c ∈ certificates d ∧ Cert.order_id c = oid
                       ∧ Cert.status c ≠ CertStatus.QUARANTINED
           | None => ∀ c, c ∈ certificates d → Cert.order_id c = oid →
                     Cert.status c = CertStatus.QUARANTINED
           end.
Proof.
  unfold get_certificate_by_order, mbind, tx_bind, tx_fetchone, certificate_from_opt,
    certificate_from_row.
  destruct (fetchone _ _) as [c|] eqn:Hf; unfold mbind, tx_bind, tx_of_res, mret, tx_ret.
  - apply fetchone_Some in Hf as [[? ?] ?]. destruct (load_json _); [done|].
    by intros [= <- <-].
  - intros [= <- <-]. split; [done|]. intros c Hc Hoid.
    destruct (decide (Cert.status c = CertStatus.QUARANTINED)) as [|Hne]; [done|].
    by destruct (proj1 (fetchone_None _ _) Hf c Hc).
Qed.

(** The CAS statement inside a longer transaction. *)
Lemma update_orders_cas id p `{∀ o, Decision (p o)} f d :
  wf d → (∀ o, p o → Order.id o = id) →
  ∃ n, update_orders p f d = inr (n, set_orders (update_where p f (orders d)) d)
    ∧ ((n =? 1) = true ↔ ∃ o, find_order id d = Some o ∧ p o)
    ∧ ((n =? 1) = false → update_where p f (orders d) = orders d).
Proof.
  intros Hwf Hp. exists (count p (orders d)). split; [done|].
  rewrite (count_key Order.id p (orders d) id (wf_orders d Hwf) Hp). unfold find_order.
  destruct (fetchone _ (orders d)) as [o|] eqn:Hf; [case_decide as Hpo|].
  - split; [split; [by exists o|done]|done].
  - split; [split; [done|naive_solver]|]. intros _. apply update_where_id.
    intros o' Ho' Hpo'. destruct Hpo. apply fetchone_Some in Hf as [Hid Ho].
    assert (o' = o) as ->; [|done].
    eapply (unique_elem_of (Some ∘ Order.id)); [apply Hwf|done..|].
    simpl. rewrite (Hp o' Hpo'). congruence.
  - split; [split; [done|naive_solver]|]. intros _. apply update_where_id.
    intros o Ho Hpo. by apply (proj1 (fetchone_None _ _) Hf o Ho), Hp.
Qed.

Lemma insert_new_cert_ok (ex : option Cert.t) row d d0 :
  cert_wf row → wf d →
  match ex with Some _ => mret tt | None => insert_cert row end d = inr (tt, d0) →
  wf d0 ∧ orders d0 = orders d ∧ audit_log d0 = audit_log d
  ∧ match ex with
    | Some _ => certificates d0 = certificates d
    | None => cert_clash d row = false ∧ certificates d0 = certificates d ++ [row]
    end.
Proof.
  intros Hrow Hwf. destruct ex; [by intros [= <-]|]. intros Hins.
  destruct (tx_ok_insert_cert row Hrow d tt d0 Hwf Hins) as [Hwf0 _].
  revert Hins. unfold tx_insert. destruct (cert_clash d row); [done|]. by intros [= <-].
Qed.

Lemma record_issuance_in_conn_ok now ex ci ia oid aid pem ch tpl rq md serial validity url
    sans subj eg d applied ev d1 :
  wf d →
  record_issuance_in_conn now ex ci ia oid aid pem ch tpl rq md serial validity url sans subj
    eg d = inr ((applied, ev), d1) →
  match ex with
  | Some _ => certificates d1 = certificates d
  | None => ∃ row, cert_clash d row = false
                   ∧ Cert.id row = ci ∧ Cert.order_id row = oid
                   ∧ Cert.status row = CertStatus.VALID
                   ∧ certificates d1 = certificates d ++ [row]
  end
  ∧ (applied = true ↔ ∃ o, find_order oid d = Some o ∧ processing_cas oid eg o)
  ∧ orders d1 = (if applied then update_where (processing_cas oid eg)
                   (λ o, Order.set_certificate_url (Some url)
                           (Order.set_status OrderStatus.VALID o)) (orders d)
                 else orders d)
  ∧ audit_log d1 = audit_log d ++ [ev]
  ∧ Audit.order_id ev = Some oid
  ∧ Audit.event_type ev = (if applied then "certificate-issued"
                           else "finalize-enrollment-race")%string.
Proof.
  intros Hwf. unfold record_issuance_in_conn. cbv zeta. unfold mbind at 1, tx_bind at 1.
  set (row := cert_row ci oid aid pem ch tpl rq ia md serial CertStatus.VALID None None validity).
  destruct (match ex with Some _ => mret tt | None => insert_cert row end d)
    as [|[[] d0]] eqn:Hins; [done|].
  apply insert_new_cert_ok in Hins as (Hwf0 & Hords & Haud & Hcerts); [|by split|done].
  set (f := λ o, Order.set_certificate_url (Some url) (Order.set_status OrderStatus.VALID o)).
  destruct (update_orders_cas oid (processing_cas oid eg) f d0 Hwf0) as (n & Hupd & Hn & Hno);
    [by intros o [[? _] _]|].
  unfold mbind at 1, tx_bind at 1. rewrite Hupd.
  assert (find_order oid d0 = find_order oid d) as Hfind by (unfold find_order; by rewrite Hords).
  rewrite Hfind in Hn.
  destruct (n =? 1) eqn:Hn1; unfold mbind, tx_bind, record_audit_in_conn, get_order,
    tx_fetchone, mret, tx_ret; intros [= <- <- <-]; simpl; rewrite Haud;
    (split; [destruct ex; naive_solver|]); split_and!; try done;
    first [by rewrite Hords | by rewrite (Hno eq_refl)].
Qed.

Lemma record_issuance_run_ok now uuid oid aid pem ch tpl rq md url sans subj eg d r d' :
  wf d →
  run (record_issuance now uuid oid aid pem ch tpl rq md url sans subj eg) d = Some (r, d') →
  match r with
  | inl _ => d' = d
  | inr (c, applied, ev) =>
    (∃ c', find_cert (Cert.id c) d' = Some c' ∧ Cert.order_id c' = oid
           ∧ Cert.status c' ≠ CertStatus.QUARANTINED)
    ∧ audit_log d' = audit_log d ++ [ev]
    ∧ Audit.order_id ev = Some oid
    ∧ (applied = true ↔ ∃ o, find_order oid d = Some o ∧ processing_cas oid eg o)
    ∧ (if applied : bool
       then Audit.event_type ev = "certificate-issued"%string
            ∧ ∃ o', find_order oid d' = Some o'
                ∧ Order.status o' = OrderStatus.VALID
                ∧ Order.certificate_url o' = Some (url (Cert.id c))
       else Audit.event_type ev = "finalize-enrollment-race"%string ∧ orders d' = orders d)
  end.
Proof.
  intros Hwf. unfold record_issuance. rewrite run_bind, run_run_tx. unfold transact.
  destruct (get_certificate_by_order oid d) as [e|[existing d0]] eqn:Hex;
    [by intros [= <- <-]|].
  apply get_certificate_by_order_ok in Hex as [-> Hex].
  destruct (serial_from_pem pem) as [e|serial]; [by intros [= <- <-]|].
  destruct (validity_from_pem pem) as [e|validity]; [by intros [= <- <-]|].
  unfold act_of_res. rewrite !run_bind. cbn [run]. rewrite run_bind. cbn [run].
  rewrite run_bind, run_run_tx. unfold transact.
  destruct (record_issuance_in_conn _ _ _ _ _ _ _ _ _ _ _ _ _ _ _ _ _ _) as [e|[res d1]]
    eqn:Hconn; [by intros [= <- <-]|].
  destruct res as [applied ev]. cbn [run mret act_ret]. intros [= <- <-]. cbn [fst snd].
  apply record_issuance_in_conn_ok in Hconn
    as (Hcerts & Happ & Hords & Haud & Hoid & Htype); [|done].
  assert (find_cert (from_option Cert.id uuid existing) d1 =
          match existing with
          | Some _ => find_cert (from_option Cert.id uuid existing) d
          | None => last (certificates d1)
          end) as Hfind.
  { unfold find_cert. destruct existing as [c|]; [by rewrite Hcerts|].
    destruct Hcerts as (row & Hclash & Hid & _ & _ & ->). simpl in *.
    rewrite last_snoc, fetchone_app. rewrite (proj2 (fetchone_None _ (certificates d))).
    - unfold fetchone. by rewrite filter_cons, decide_True by done.
    - intros c Hc Hcid. unfold cert_clash in Hclash.
      apply orb_false_iff in Hclash as [Hv _].
      eapply (proj1 (violates_false _ _ _) Hv c (Cert.id c)); [done..|].
      simpl. congruence. }
  split_and!; [|done..|].
  - simpl. rewrite Hfind. destruct existing as [c|].
    + destruct Hex as (Hc & Hco & Hcs). exists c. split_and!; [|done..].
      eapply (fetchone_unique (Some ∘ Cert.id) _ _ (Cert.id c));
        [apply Hwf|intros r Hr; simpl; by f_equal|done|done].
    + destruct Hcerts as (row & _ & _ & Hro & Hrs & ->). exists row.
      rewrite last_snoc. split_and!; [done..|by rewrite Hrs].
  - destruct applied; [|done]. split; [done|].
    destruct (proj1 Happ eq_refl) as (o & Ho & Hp).
    assert (find_order oid d1 = Some (Order.set_certificate_url
              (Some (url (from_option Cert.id uuid existing)))
              (Order.set_status OrderStatus.VALID o))) as Ho'.
    { unfold find_order. rewrite Hords, fetchone_update_where by (by intros []).
      unfold find_order in Ho. rewrite Ho. simpl. by rewrite decide_True. }
    eexists. split; [exact Ho'|done].
Qed.

(** The call returns: it never waits. *)
Lemma record_issuance_runs now uuid oid aid pem ch tpl rq md url sans subj eg d :
  ∃ r d', run (record_issuance now uuid oid aid pem ch tpl rq md url sans subj eg) d
            = Some (r, d').
Proof.
  unfold record_issuance. rewrite run_bind, run_run_tx. unfold transact.
  destruct (get_certificate_by_order oid d) as [e|[existing d0]]; [by eexists _, _|].
  destruct (serial_from_pem pem) as [e|serial]; [by eexists _, _|].
  destruct (validity_from_pem pem) as [e|validity]; [by eexists _, _|].
  unfold act_of_res. rewrite !run_bind. cbn [run]. rewrite run_bind. cbn [run].
  rewrite run_bind, run_run_tx. unfold transact.
  destruct (record_issuance_in_conn _ _ _ _ _ _ _ _ _ _ _ _ _ _ _ _ _ _) as [e|[[? ?] ?]];
    by eexists _, _.
Qed.


(** A second certificate for an order is not recorded.  When the order
    already has a certificate row, [record_issuance] appends an audit row
    naming the new serial but leaves the [certificates] table as it was: the
    returned record pairs the old row's id with the new PEM. *)
Theorem record_issuance_second_untracked now uuid oid aid pem ch tpl rq md url sans subj eg
    d c rec applied ev d' :
  wf d → get_certificate_by_order oid d = inr (Some c, d) →
  run (record_issuance now uuid oid aid pem ch tpl rq md url sans subj eg) d
    = Some (inr (rec, applied, ev), d') →
  certificates d' = certificates d ∧ Cert.id rec = Cert.id c ∧ Cert.cert_pem rec = pem.
Proof.
  intros Hwf Hget. unfold record_issuance. rewrite run_bind, run_run_tx. unfold transact.
  rewrite Hget.
  destruct (serial_from_pem pem) as [e|serial]; [done|].
  destruct (validity_from_pem pem) as [e|validity]; [done|].
  unfold act_of_res. rewrite !run_bind. cbn [run]. rewrite run_bind. cbn [run].
  rewrite run_bind, run_run_tx. unfold transact.
  destruct (record_issuance_in_conn _ _ _ _ _ _ _ _ _ _ _ _ _ _ _ _ _ _) as [e|[res d1]]
    eqn:Hconn; [done|].
  destruct res as [applied' ev']. cbn [run mret act_ret]. intros [= <- <- <- <-].
  apply record_issuance_in_conn_ok in Hconn as [Hcerts _]; done.
Qed.

(** What a quarantine writes. *)
Lemma quarantine_ok now uuid oid aid pem ch tpl rq md et vs re ss ed d c ev d' :
  wf d →
  quarantine_certificate now uuid oid aid pem ch tpl rq md et vs re ss ed d
    = inr ((c, ev), d') →
  cert_clash d c = false ∧ Cert.id c = uuid ∧ Cert.order_id c = oid
  ∧ Cert.status c = CertStatus.QUARANTINED ∧ Cert.ca_crl_updated c = false
  ∧ certificates d' = certificates d ++ [c]
  ∧ orders d' = update_where (has_status_in oid OrderStatus.PROCESSING OrderStatus.READY)
                  (Order.set_status OrderStatus.INVALID) (orders d)
  ∧ audit_log d' = audit_log d ++ [ev]
  ∧ Audit.event_type ev = et ∧ Audit.order_id ev = Some oid.
Proof.
  intros Hwf. unfold quarantine_certificate, mbind, tx_bind, tx_of_res.
  destruct (serial_from_pem pem) as [|serial]; [done|].
  destruct (validity_from_pem pem) as [|validity]; [done|].
  unfold tx_insert. destruct (cert_clash _ _) eqn:Hclash; [done|].
  unfold tx_update, record_audit_in_conn, mret, tx_ret. by intros [= <- <- <-].
Qed.

Lemma find_cert_appended d d' c :
  cert_clash d c = false → certificates d' = certificates d ++ [c] →
  find_cert (Cert.id c) d' = Some c.
Proof.
  intros Hclash Happ. unfold find_cert. rewrite Happ, fetchone_app.
  rewrite (proj2 (fetchone_None _ (certificates d))).
  - unfold fetchone. by rewrite filter_cons, decide_True by done.
  - intros c' Hc' Hid. unfold cert_clash in Hclash. apply orb_false_iff in Hclash as [Hv _].
    eapply (proj1 (violates_false _ _ _) Hv c' (Cert.id c')); [done..|]. simpl. congruence.
Qed.

(** C28 A quarantined certificate is never served.  Once a rejected
    certificate is recorded, then along every later history its row stays
    [quarantined], [get_certificate_by_order] never returns it, and the
    order it came from, if it was [processing] or [ready], is [invalid] for
    good; and it awaits CA-side revocation until a confirmation flips it. *)
Theorem quarantine_never_served now uuid oid aid pem ch tpl rq md et vs re ss ed d c ev d1 d2 :
  wf d →
  quarantine_certificate now uuid oid aid pem ch tpl rq md et vs re ss ed d
    = inr ((c, ev), d1) →
  rtc store_step d1 d2 →
  awaiting_ca c
  ∧ (∃ c', find_cert uuid d2 = Some c' ∧ Cert.status c' = CertStatus.QUARANTINED
           ∧ Cert.cert_pem c' = Cert.cert_pem c)
  ∧ (∀ c' d3, get_certificate_by_order oid d2 = inr (Some c', d3) → Cert.id c' ≠ uuid)
  ∧ (∀ o, find_order oid d = Some o →
       Order.status o = OrderStatus.PROCESSING ∨ Order.status o = OrderStatus.READY →
       ∃ o', find_order oid d2 = Some o' ∧ Order.status o' = OrderStatus.INVALID).
Proof.
  intros Hwf Hq Hsteps.
  destruct (store_tx_ok _ (T_quarantine_certificate now uuid oid aid pem ch tpl rq md et vs re
              ss ed) _ _ _ Hwf Hq) as [Hwf1 _].
  apply quarantine_ok in Hq
    as (Hclash & Hid & Hoid & Hs & Hcrl & Hcerts & Hords & _ & _ & _); [|done].
  destruct (store_steps_ok _ _ Hsteps Hwf1) as [Hwf2 Hle].
  pose proof (find_cert_appended d d1 c Hclash Hcerts) as Hfind. rewrite Hid in Hfind.
  destruct (find_cert_le _ _ _ _ Hwf2 Hle Hfind) as (c2 & Hc2 & Hfix & Hst & _ & _).
  assert (Cert.status c2 = CertStatus.QUARANTINED) as Hs2.
  { destruct Hst as [(? & _ & _)|[? _]]; congruence. }
  split_and!.
  - split; [by right|done].
  - exists c2. unfold CertLife.fixed in Hfix. split_and!; [done|done|congruence].
  - intros c' d3 (-> & Hc' & _ & Hns)%get_certificate_by_order_ok Hid'.
    apply find_cert_id in Hc2 as [Hid2 Hin2].
    assert (c' = c2) as ->; [|done].
    eapply (unique_elem_of (Some ∘ Cert.id)); [apply Hwf2|done..|simpl; congruence].
  - intros o Ho Hos.
    assert (∃ o1, find_order oid d1 = Some o1 ∧ Order.status o1 = OrderStatus.INVALID)
      as (o1 & Ho1 & Hs1).
    { unfold find_order. rewrite Hords, fetchone_update_where by (by intros []).
      unfold find_order in Ho. rewrite Ho. simpl. eexists. split; [done|].
      apply fetchone_Some in Ho as [? _]. rewrite decide_True; [by destruct o|done]. }
    destruct (order_history oid d1 d2 o1 Hwf1 Hsteps Ho1) as (o2 & Ho2 & _ & _ & _ & Hfin).
    exists o2. split; [done|]. specialize (Hfin (or_introl Hs1)).
    unfold OrderLife.state in Hfin. congruence.
Qed.

(** ** Revocation *)

Lemma certificate_from_row_ok row c : certificate_from_row row = inr c → c = row.
Proof. unfold certificate_from_row. by destruct (load_json _); intros [= <-]. Qed.

Lemma update_revocable id f d :
  wf d → (∀ c, Cert.id (f c) = Cert.id c) →
  ∃ n, update_certs (revocable id) f d
       = inr (n, set_certificates (update_where (revocable id) f (certificates d)) d)
    ∧ ((n =? 1) = true ↔ ∃ c, find_cert id d = Some c ∧ Cert.status c = CertStatus.VALID)
    ∧ ((n =? 1) = false →
       set_certificates (update_where (revocable id) f (certificates d)) d = d)
    ∧ find_cert id (set_certificates (update_where (revocable id) f (certificates d)) d)
      = (λ c, if decide (Cert.status c = CertStatus.VALID) then f c else c) <$> find_cert id d.
Proof.
  intros Hwf Hf. exists (count (revocable id) (certificates d)). split; [done|].
  assert (∀ c, revocable id c → Cert.id c = id) as Hp by by intros c [? _].
  rewrite find_cert_update by auto.
  pose proof (count_cert id (revocable id) d Hwf Hp) as Hcount.
  destruct (find_cert id d) as [c|] eqn:Hfind.
  - apply find_cert_id in Hfind as [Hid _]. unfold revocable in *.
    destruct (decide (Cert.status c = CertStatus.VALID)) as [Hs|Hs].
    + rewrite decide_True in Hcount by done. rewrite Hcount. simpl.
      rewrite (decide_True (P := _ ∧ _)) by done. rewrite decide_True by done.
      split_and!; [|done|done]. split; [by exists c|done].
    + rewrite decide_False in Hcount by naive_solver. rewrite Hcount.
      split_and!; [naive_solver|intros _; by apply update_certs_none|simpl].
      rewrite !decide_False by naive_solver. done.
  - rewrite Hcount. split_and!; [naive_solver|intros _; by apply update_certs_none|done].
Qed.

Lemma record_revocation_ok now id oid aid reason ra sans ds d u ev d1 :
  wf d →
  record_revocation now id oid aid reason ra sans ds d = inr ((u, ev), d1) →
  (won_cas u = true ↔ ∃ c, find_cert id d = Some c ∧ Cert.status c = CertStatus.VALID)
  ∧ (won_cas u = true → ∃ c e, record u = Some c ∧ find_cert id d1 = Some c
       ∧ Cert.status c = CertStatus.REVOKED ∧ Cert.revocation_reason c = reason
       ∧ Cert.revoked_at c = Some (default now ra)
       ∧ ev = Some e ∧ audit_log d1 = audit_log d ++ [e]
       ∧ Audit.event_type e = "certificate-revoked"%string
       ∧ Audit.order_id e = Some oid)
  ∧ (won_cas u = false → d1 = d ∧ ev = None ∧ record u = find_cert id d).
Proof.
  intros Hwf. unfold record_revocation. cbv zeta.
  set (f := Cert.set_revoked CertStatus.REVOKED reason (Some (default now ra))).
  destruct (update_revocable id f d Hwf ltac:(done)) as (n & Hupd & Hn & Hno & Hfind).
  unfold mbind at 1, tx_bind at 1. rewrite Hupd. clear Hupd.
  set (d0 := set_certificates (update_where (revocable id) f (certificates d)) d) in *.
  unfold mbind at 1, tx_bind at 1, tx_fetchone.
  fold (find_cert id d0). rewrite Hfind.
  destruct (find_cert id d) as [c|]; simpl.
  2:{ intros [= <- <- <-]. simpl. split_and!; [naive_solver|done|].
      intros _. split_and!; [|done|done]. apply Hno. destruct (n =? 1); [|done].
      destruct (proj1 Hn eq_refl) as (? & ? & _). done. }
  destruct (n =? 1) eqn:Hn1; simpl.
  - destruct (proj1 Hn eq_refl) as (c' & [= <-] & Hs). rewrite decide_True in * by done.
    unfold mbind, tx_bind, tx_update, record_audit_in_conn, tx_of_res.
    destruct (certificate_from_row _) as [|c2] eqn:Hrow; [done|].
    apply certificate_from_row_ok in Hrow as ->. intros [= <- <- <-].
    split_and!; [done| |done]. intros _. do 2 eexists. split_and!; try done.
    change (find_cert id d0 = Some (f c)). rewrite Hfind. simpl. by rewrite decide_True.
  - unfold mbind, tx_bind, tx_of_res.
    destruct (certificate_from_row _) as [|c2] eqn:Hrow; [done|].
    apply certificate_from_row_ok in Hrow as ->. intros [= <- <- <-].
    assert (Cert.status c ≠ CertStatus.VALID) as Hs.
    { intros Hs. assert (false = true) by (apply Hn; by exists c). done. }
    split_and!; [naive_solver|done|]. intros _. rewrite decide_False by done.
    split_and!; [by apply Hno|done|done].
Qed.

(** Revocation on every branch: the call wins exactly when the
    certificate is [valid]; then the row returned, and stored, is revoked
    with the given reason and time, and one [certificate-revoked] row is
    appended.  Otherwise nothing is written and there is no event. *)
Theorem record_revocation_spec now id oid aid reason ra sans ds d u ev d1 :
  wf d →
  record_revocation now id oid aid reason ra sans ds d = inr ((u, ev), d1) →
  (won_cas u = true ↔ ∃ c, find_cert id d = Some c ∧ Cert.status c = CertStatus.VALID)
  ∧ (won_cas u = true → ∃ c e, record u = Some c ∧ find_cert id d1 = Some c
       ∧ Cert.status c = CertStatus.REVOKED ∧ Cert.revocation_reason c = reason
       ∧ Cert.revoked_at c = Some (default now ra)
       ∧ ev = Some e ∧ audit_log d1 = audit_log d ++ [e]
       ∧ Audit.event_type e = "certificate-revoked"%string
       ∧ Audit.order_id e = Some oid)
  ∧ (won_cas u = false → d1 = d ∧ ev = None ∧ record u = find_cert id d).
Proof. apply record_revocation_ok. Qed.

(** The first revocation stands.  After a revocation that won, every
    later history keeps its reason and time, and every later revocation of
    the certificate loses and changes nothing. *)
Theorem revocation_first_wins now id oid aid reason ra sans ds d u ev d1 d2 :
  wf d →
  record_revocation now id oid aid reason ra sans ds d = inr ((u, ev), d1) →
  won_cas u = true → rtc store_step d1 d2 →
  (∃ c, find_cert id d2 = Some c ∧ Cert.status c = CertStatus.REVOKED
        ∧ Cert.revocation_reason c = reason ∧ Cert.revoked_at c = Some (default now ra))
  ∧ ∀ now' oid' aid' reason' ra' sans' ds' u' ev' d3,
      record_revocation now' id oid' aid' reason' ra' sans' ds' d2 = inr ((u', ev'), d3) →
      won_cas u' = false ∧ d3 = d2 ∧ ev' = None.
Proof.
  intros Hwf Hrev Hwon Hsteps.
  destruct (store_tx_ok _ (T_record_revocation now id oid aid reason ra sans ds)
              _ _ _ Hwf Hrev) as [Hwf1 _].
  apply record_revocation_ok in Hrev as (_ & Hrev & _); [|done].
  destruct (Hrev Hwon) as (c & e & _ & Hc & Hs & Hr & Ht & _).
  destruct (store_steps_ok _ _ Hsteps Hwf1) as [Hwf2 Hle].
  destruct (find_cert_le _ _ _ _ Hwf2 Hle Hc) as (c2 & Hc2 & _ & Hst & _ & _).
  assert (Cert.status c2 = CertStatus.REVOKED ∧ Cert.revocation_reason c2 = reason
          ∧ Cert.revoked_at c2 = Some (default now ra)) as (Hs2 & Hr2 & Ht2).
  { destruct Hst as [(? & ? & ?)|[? _]]; [split_and!; congruence|congruence]. }
  split; [by exists c2|]. intros now' oid' aid' reason' ra' sans' ds' u' ev' d3.
  intros (Hw & _ & Hl)%record_revocation_ok; [|done].
  assert (won_cas u' = false) as Hw'.
  { destruct (won_cas u'); [|done]. destruct (proj1 Hw eq_refl) as (? & ? & ?). congruence. }
  destruct (Hl Hw') as (? & ? & _). done.
Qed.

(** ** CA-side confirmation *)

Lemma advance_frame now key num upd url d :
  ∃ b d1, advance_crl_watermark_in_conn now key num upd url d = inr (b, d1)
    ∧ certificates d1 = certificates d ∧ audit_log d1 = audit_log d
    ∧ audit_seq d1 = audit_seq d.
Proof.
  unfold advance_crl_watermark_in_conn, mbind, tx_bind, tx_fetchone.
  destruct (fetchone _ _); [case_match|]; by do 2 eexists.
Qed.

Lemma confirmed_none serial t :
  count (confirmable serial)
    (update_where (confirmable serial) (Cert.set_ca_crl_updated true) t) = 0.
Proof.
  apply count_zero. intros c (c0 & _ & ->)%update_where_elem_of.
  case_decide as Hc; [|done]. by intros [_ [_ ?]].
Qed.

(** Confirming a CA-side revocation, on every branch.  With exactly one
    certificate of the serial awaiting, it is confirmed and the audit row
    appended together.  With none, nothing is written.  With several rows of
    the serial awaiting, all of them leave the pending list, yet the answer
    is [(False, None)] and no audit row is written. *)
Theorem confirm_ca_revocation_with_audit_spec now s audit w url d :
  let serial := canonical_serial s in
  let n := count (confirmable serial) (certificates d) in
  ∃ res d1, confirm_ca_revocation_with_audit now s audit w url d = inr (res, d1)
    ∧ (n = 1 → ∃ ev, res = (true, Some ev) ∧ audit_log d1 = audit_log d ++ [ev]
         ∧ Audit.event_type ev = event_type audit)
    ∧ (n = 0 → res = (false, None) ∧ d1 = d)
    ∧ (2 <= n → res = (false, None) ∧ audit_log d1 = audit_log d)
    ∧ (0 < n → certificates d1
         = update_where (confirmable serial) (Cert.set_ca_crl_updated true) (certificates d)
         ∧ count (confirmable serial) (certificates d1) = 0).
Proof.
  cbv zeta. set (serial := canonical_serial s).
  set (n := count (confirmable serial) (certificates d)).
  unfold confirm_ca_revocation_with_audit, mbind, tx_bind, tx_update. fold serial. fold n.
  set (d0 := set_certificates _ d).
  pose proof (count_nonneg (confirmable serial) (certificates d)) as Hpos. fold n in Hpos.
  destruct (n =? 1) eqn:Hn; simpl.
  - apply Z.eqb_eq in Hn.
    assert (∃ d2, match w with
                  | Some w => match this_update w with
                      | Some update => advance_crl_watermark_in_conn now (issuer_key w)
                          (crl_number w) update url ≫= λ _, mret tt
                      | None => mret tt end
                  | None => mret tt end d0 = inr (tt, d2)
              ∧ certificates d2 = certificates d0 ∧ audit_log d2 = audit_log d0)
      as (d2 & Hw & Hc & Ha).
    { destruct w as [w|]; [destruct (this_update w) as [upd|]|]; [|by eexists..].
      destruct (advance_frame now (issuer_key w) (crl_number w) upd url d0)
        as (b & d2 & Heq & Hc & Ha & _).
      exists d2. unfold mbind, tx_bind. rewrite Heq. by split_and!. }
    unfold mbind, tx_bind in Hw. rewrite Hw. do 2 eexists. split; [done|].
    simpl. rewrite Hc, Ha. split_and!; [intros _; by eexists|lia|lia|intros _].
    split; [done|apply confirmed_none].
  - apply Z.eqb_neq in Hn. do 2 eexists. split; [done|].
    split_and!; [done| |done|intros _; split; [done|apply confirmed_none]].
    intros Hn0. split; [done|]. by apply update_certs_none.
Qed.
End claims.
