(* ===== verification/SerialTheorems.v ===== *)
(** * One serial, one key: theorems about [canonical_serial]

    A serial number reaches the store as [format(n, "x")], as certutil prints
    it, or as an operator types it.  [serial_value] reads any of these; the
    canonical form is equal exactly when the numbers are. *)

From S2P Require Import Prelude PyStr Exn X509.
Local Open Scope Z_scope.

(** The value of an upper-case hex digit. *)
Definition hex_upper_value (c : ascii) : option Z :=
  if in_range 48 57 c then Some (code c - 48)
  else if in_range 65 70 c then Some (code c - 55)
  else None.

Fixpoint hex_value_acc (acc : Z) (l : list ascii) : option Z :=
  match l with
  | [] => Some acc
  | c :: l => hex_upper_value c ≫= λ v, hex_value_acc (16 * acc + v) l
  end.

(** The number a presentation stands for: surrounding blanks, either case, an
    optional [0x], any number of leading zeros, at least one digit. *)
Definition serial_value (s : string) : option Z :=
  match chars (removeprefix (upper (strip s)) "0X") with
  | [] => None
  | l => hex_value_acc 0 l
  end.

(** ** Digits *)

Lemma hex_upper_value_bound c v : hex_upper_value c = Some v → 0 <= v < 16.
Proof.
  unfold hex_upper_value, in_range. case_match; [|case_match]; intros [= <-]; bool_hyps; lia.
Qed.

Lemma code_inj c c' : code c = code c' → c = c'.
Proof.
  unfold code. intros Hc. apply N2Z.inj in Hc.
  by rewrite <- (ascii_N_embedding c), <- (ascii_N_embedding c'), Hc.
Qed.

Lemma hex_upper_value_inj c c' v :
  hex_upper_value c = Some v → hex_upper_value c' = Some v → c = c'.
Proof.
  unfold hex_upper_value, in_range. intros H H'. apply code_inj.
  repeat case_match; simplify_eq; bool_hyps; lia.
Qed.

Lemma hex_upper_value_zero c : hex_upper_value c = Some 0 ↔ c = "0"%char.
Proof.
  split; [|by intros ->]. intros H. by apply (hex_upper_value_inj _ _ 0).
Qed.

Lemma hex_value_acc_snoc acc l c :
  hex_value_acc acc (l ++ [c])
  = hex_value_acc acc l ≫= λ n, hex_upper_value c ≫= λ v, Some (16 * n + v).
Proof.
  revert acc. induction l as [|x l IH]; intros acc; simpl; [done|].
  destruct (hex_upper_value x); simpl; [apply IH|done].
Qed.

Lemma hex_value_acc_nonneg acc l n : 0 <= acc → hex_value_acc acc l = Some n → acc <= n.
Proof.
  revert acc. induction l as [|c l IH]; intros acc Hacc; simpl.
  { intros [= ->]. lia. }
  destruct (hex_upper_value c) as [v|] eqn:Hv; [|done]. simpl.
  apply hex_upper_value_bound in Hv. intros Hn. apply IH in Hn; lia.
Qed.

(** Leading zeros do not change the value. *)
Lemma hex_value_lstrip l :
  hex_value_acc 0 (drop_while (λ x, bool_decide (x = "0"%char)) l) = hex_value_acc 0 l.
Proof.
  induction l as [|c l IH]; [done|]. cbn [drop_while].
  destruct (bool_decide (c = "0"%char)) eqn:Hc; [|done].
  apply bool_decide_eq_true in Hc as ->. rewrite IH. done.
Qed.

Definition no_leading_zero (l : list ascii) : Prop := head l ≠ Some "0"%char.

Lemma no_leading_zero_lstrip l :
  no_leading_zero (drop_while (λ x, bool_decide (x = "0"%char)) l).
Proof.
  unfold no_leading_zero. destruct (drop_while _ l) as [|c k] eqn:Hd; [done|].
  apply drop_while_head in Hd. apply bool_decide_eq_false in Hd. simpl. congruence.
Qed.

Lemma no_leading_zero_prefix l c : no_leading_zero (l ++ [c]) → no_leading_zero l.
Proof. by destruct l. Qed.

Lemma hex_value_zero l : no_leading_zero l → hex_value_acc 0 l = Some 0 → l = [].
Proof.
  destruct l as [|c l]; [done|]. intros Hnz. simpl.
  destruct (hex_upper_value c) as [v|] eqn:Hv; [|done]. simpl. intros Hn.
  pose proof (hex_upper_value_bound c v Hv).
  apply hex_value_acc_nonneg in Hn; [|lia]. assert (v = 0) as -> by lia.
  apply hex_upper_value_zero in Hv as ->. by destruct Hnz.
Qed.

(** Digit strings without leading zeros are determined by their value. *)
Lemma hex_value_inj l l' n :
  no_leading_zero l → no_leading_zero l' →
  hex_value_acc 0 l = Some n → hex_value_acc 0 l' = Some n → l = l'.
Proof.
  revert l' n. induction l as [|c l IH] using rev_ind; intros l' n Hnz Hnz' Hl Hl'.
  { simpl in Hl. simplify_eq. symmetry. by apply hex_value_zero. }
  destruct l' as [|c' l' _] using rev_ind.
  { simpl in Hl'. simplify_eq. by apply hex_value_zero. }
  rewrite hex_value_acc_snoc in Hl, Hl'.
  destruct (hex_value_acc 0 l) as [m|] eqn:Hm; [|done].
  destruct (hex_value_acc 0 l') as [m'|] eqn:Hm'; [|done]. simpl in *.
  destruct (hex_upper_value c) as [v|] eqn:Hv; [|done].
  destruct (hex_upper_value c') as [v'|] eqn:Hv'; [|done]. simplify_eq/=.
  pose proof (hex_upper_value_bound _ _ Hv). pose proof (hex_upper_value_bound _ _ Hv').
  assert (m = m' ∧ v = v') as [-> ->] by lia.
  f_equal; [|by rewrite (hex_upper_value_inj c c' v')].
  eapply IH; [by eapply no_leading_zero_prefix..|done|done].
Qed.

(** ** [format(n, "x")] *)

Lemma hex_digit_upper v :
  0 <= v < 16 → hex_upper_value (upper_char (hex_digit v)) = Some v.
Proof.
  intros Hv. assert (v ∈ seqZ 0 16) as Hin by (apply elem_of_seqZ; lia).
  revert v Hv Hin. cut (Forall (λ v, hex_upper_value (upper_char (hex_digit v)) = Some v)
                          (seqZ 0 16)).
  { intros Hall v _ Hin. by rewrite Forall_forall in Hall; apply Hall. }
  repeat constructor.
Qed.

Lemma hex_digits_spec fuel n acc :
  0 <= n < 16 ^ Z.of_nat (S fuel) →
  ∃ ds, hex_digits (S fuel) n acc = ds ++ acc ∧ ds ≠ []
    ∧ Forall (λ c, ∃ v, 0 <= v < 16 ∧ c = hex_digit v) ds
    ∧ hex_value_acc 0 (map upper_char ds) = Some n.
Proof.
  revert n acc. induction fuel as [|fuel IH]; intros n acc Hn; cbn [hex_digits];
    pose proof (Z.mod_pos_bound n 16 ltac:(lia)) as Hmod;
    (destruct (n / 16 =? 0) eqn:Hq;
     [ apply Z.eqb_eq in Hq; exists [hex_digit (n mod 16)]; split_and!;
       [done|done|by repeat constructor; exists (n mod 16)|];
       simpl; rewrite hex_digit_upper by done; simpl; f_equal;
       pose proof (Z.div_mod n 16); lia
     | apply Z.eqb_neq in Hq ]).
  - change (16 ^ Z.of_nat 1) with 16 in Hn. rewrite Z.div_small in Hq; lia.
  - destruct (IH (n / 16) (hex_digit (n mod 16) :: acc)) as (ds & Hds & Hne & Hall & Hval).
    { split; [apply Z.div_pos; lia|]. apply Z.div_lt_upper_bound; [lia|].
      replace (Z.of_nat (S (S fuel))) with (Z.succ (Z.of_nat (S fuel))) in Hn by lia.
      rewrite Z.pow_succ_r in Hn; lia. }
    exists (ds ++ [hex_digit (n mod 16)]). split_and!.
    + change (hex_digits (S fuel) (n / 16) (hex_digit (n mod 16) :: acc) =
              (ds ++ [hex_digit (n mod 16)]) ++ acc).
      rewrite Hds. by rewrite <- app_assoc.
    + by destruct ds.
    + apply Forall_app; split; [done|]. repeat constructor. by exists (n mod 16).
    + rewrite map_app. simpl. rewrite hex_value_acc_snoc, Hval, hex_digit_upper by done.
      simpl. f_equal. pose proof (Z.div_mod n 16). lia.
Qed.

Lemma format_x_chars n :
  0 <= n → ∃ ds, chars (format_x n) = ds ∧ ds ≠ []
    ∧ Forall (λ c, ∃ v, 0 <= v < 16 ∧ c = hex_digit v) ds
    ∧ hex_value_acc 0 (map upper_char ds) = Some n.
Proof.
  intros Hn. unfold format_x. rewrite chars_of_chars.
  destruct (Z.ltb_spec n 0); [lia|]. rewrite Z.abs_eq by lia. cbn [app].
  destruct (hex_digits_spec (Z.to_nat (Z.log2 n)) n []) as (ds & Hds & ?).
  - split; [done|]. destruct (Z.eq_dec n 0) as [->|]; [done|].
    rewrite Nat2Z.inj_succ, Z2Nat.id by apply Z.log2_nonneg.
    pose proof (Z.log2_spec n ltac:(lia)) as [_ Hlt].
    eapply Z.lt_le_trans; [exact Hlt|]. apply Z.pow_le_mono_l. lia.
  - exists ds. by rewrite Hds, app_nil_r.
Qed.

Lemma hex_digit_plain c :
  (∃ v, 0 <= v < 16 ∧ c = hex_digit v) →
  is_space c = false ∧ upper_char c ≠ "X"%char.
Proof.
  intros (v & Hv & ->). assert (v ∈ seqZ 0 16) as Hin by (apply elem_of_seqZ; lia).
  revert v Hv Hin.
  cut (Forall (λ v, is_space (hex_digit v) = false ∧ upper_char (hex_digit v) ≠ "X"%char)
         (seqZ 0 16)).
  { intros Hall v _ Hin. rewrite Forall_forall in Hall. by apply Hall. }
  repeat constructor; done.
Qed.

Lemma strip_plain l :
  Forall (λ c, is_space c = false) l → strip (of_chars l) = of_chars l.
Proof.
  intros Hl. unfold strip. rewrite chars_of_chars.
  assert (∀ k, Forall (λ c, is_space c = false) k → drop_while is_space k = k) as Hdrop.
  { intros k. destruct 1 as [|c k Hc _]; [done|]. simpl. by rewrite Hc. }
  rewrite Hdrop by done. unfold rdrop_while. rewrite Hdrop; [by rewrite rev_involutive|].
  by apply Forall_rev.
Qed.

Lemma serial_value_format_x n : 0 <= n → serial_value (format_x n) = Some n.
Proof.
  intros Hn. destruct (format_x_chars n Hn) as (ds & Hds & Hne & Hall & Hval).
  rewrite <- (of_chars_chars (format_x n)), Hds. unfold serial_value.
  rewrite strip_plain by (eapply Forall_impl; [exact Hall|]; intros c; apply hex_digit_plain).
  unfold upper. rewrite chars_of_chars.
  assert (removeprefix (of_chars (map upper_char ds)) "0X" = of_chars (map upper_char ds)) as ->.
  { unfold removeprefix, startswith. rewrite chars_of_chars.
    destruct ds as [|c [|c' ds]]; [done| |].
    - simpl. by case_decide.
    - apply Forall_cons in Hall as [_ [Hc' _]%Forall_cons].
      apply hex_digit_plain in Hc' as [_ Hc']. simpl.
      case_decide; [|done]. by rewrite decide_False by congruence. }
  rewrite chars_of_chars. by destruct ds.
Qed.

(** ** The canonical form *)

Lemma canonical_serial_chars s n :
  serial_value s = Some n →
  ∃ l, no_leading_zero l ∧ hex_value_acc 0 l = Some n
    ∧ canonical_serial s = (if decide (l = []) then "0"%string else of_chars l).
Proof.
  unfold serial_value, canonical_serial, lstrip_char.
  set (body := chars (removeprefix (upper (strip s)) "0X")). intros Hv.
  exists (drop_while (λ x, bool_decide (x = "0"%char)) body).
  split_and!; [apply no_leading_zero_lstrip| |].
  - rewrite hex_value_lstrip. by destruct body.
  - by destruct (drop_while _ body).
Qed.

(** Serial lookups meet: for two presentations of serial numbers, the
    store's canonical keys are equal exactly when the numbers are, whatever
    the case, padding, [0x] prefix or surrounding blanks; and the form the
    store derives from a certificate is a presentation of its serial. *)
Theorem canonical_serial_iff s s' n n' :
  serial_value s = Some n → serial_value s' = Some n' →
  (canonical_serial s = canonical_serial s' ↔ n = n')
  ∧ serial_value (format_x n) = Some n.
Proof.
  intros Hs Hs'. assert (0 <= n) as Hn.
  { revert Hs. unfold serial_value. case_match; [done|]. by apply hex_value_acc_nonneg. }
  split; [|by apply serial_value_format_x].
  destruct (canonical_serial_chars s n Hs) as (l & Hnz & Hl & ->).
  destruct (canonical_serial_chars s' n' Hs') as (l' & Hnz' & Hl' & ->).
  split.
  - intros Heq. assert (∀ k, no_leading_zero k → of_chars k ≠ "0"%string) as Hzero.
    { intros k Hk Hz. apply (f_equal chars) in Hz. rewrite chars_of_chars in Hz. by subst. }
    assert (l = l') as ->; [|congruence].
    repeat case_decide; subst; try done.
    + by destruct (Hzero l').
    + by destruct (Hzero l).
    + apply (f_equal chars) in Heq. by rewrite !chars_of_chars in Heq.
  - intros ->. by rewrite (hex_value_inj l l' n').
Qed.
