(* ===== verification/NonceTheorems.v ===== *)
(** * Nonces: single use and time to live

    With the frame rule: which transactions leave a table alone. *)

From S2P Require Import Prelude PyStr Exn Json Jwk Sql Db X509 StoreAudit StoreAccounts.
From S2P Require Import StoreOrders StoreCerts StoreRecovery StoreInv.
From S2P Require Import StoreOps.
Local Open Scope Z_scope.

(** ** Frames *)

Section frame.
Context {X : Type} (π : Db → X).

Definition frames {A} (m : Tx A) : Prop := ∀ d x d', m d = inr (x, d') → π d' = π d.

Lemma frames_ret {A} (x : A) : frames (mret x).
Proof. by intros d y d' [= _ <-]. Qed.
Lemma frames_raise {A} e : frames (tx_raise (A:=A) e).
Proof. by intros d y d'. Qed.
Lemma frames_of_res {A} (r : Res Exn A) : frames (tx_of_res r).
Proof. intros d y d'. unfold tx_of_res. destruct r; [done|]. by intros [= _ <-]. Qed.
Lemma frames_read {A} (f : Db → A) : frames (λ d, inr (f d, d)).
Proof. by intros d y d' [= _ <-]. Qed.
Lemma frames_bind {A B} (m : Tx A) (k : A → Tx B) :
  frames m → (∀ x, frames (k x)) → frames (m ≫= k).
Proof.
  intros Hm Hk d y d'. unfold mbind, tx_bind.
  destruct (m d) as [|[x d1]] eqn:Hmd; [done|]. intros Hkd.
  rewrite (Hk x d1 y d' Hkd). by eapply Hm.
Qed.

(** Writes to a table the projection does not see. *)
Context {R : Type} (get : Db → list R) (set : list R → Db → Db).
Hypothesis set_frame : ∀ t d, π (set t d) = π d.

Lemma frames_update p `{∀ r, Decision (p r)} f : frames (tx_update get set p f).
Proof using set_frame. intros d y d' [= _ <-]. apply set_frame. Qed.
Lemma frames_delete p `{∀ r, Decision (p r)} : frames (tx_delete get set p).
Proof using set_frame. intros d y d' [= _ <-]. apply set_frame. Qed.
Lemma frames_insert clash r : frames (tx_insert get set clash r).
Proof using set_frame.
  intros d y d'. unfold tx_insert. destruct (clash d r); [done|]. intros [= _ <-].
  apply set_frame.
Qed.
End frame.

Create HintDb frame discriminated.

Ltac frame_auto :=
  repeat match goal with
  | |- frames _ (_ ≫= _) => apply frames_bind; [|intros ?]
  | |- frames _ (mret _) => apply frames_ret
  | |- frames _ (tx_raise _) => apply frames_raise
  | |- frames _ (tx_of_res _) => apply frames_of_res
  | |- frames _ tx_get => apply frames_read
  | |- frames _ (tx_fetchone _ _) => apply frames_read
  | |- frames _ (tx_select _ _) => apply frames_read
  | |- frames _ (tx_count _ _) => apply frames_read
  | |- frames _ (tx_update _ _ _ _) => by apply frames_update
  | |- frames _ (tx_delete _ _ _) => by apply frames_delete
  | |- frames _ (tx_insert _ _ _ _) => by apply frames_insert
  | |- frames _ (if _ then _ else _) => case_match
  | |- frames _ (match _ with _ => _ end) => case_match
  | |- frames _ _ => solve [auto with frame]
  end.

(** ** The nonce table *)

Lemma nonces_record_audit now a : frames nonces (record_audit_in_conn now a).
Proof. by intros d y d' [= _ <-]. Qed.
Lemma nonces_update_details i ds : frames nonces (update_audit_details i ds).
Proof. by intros d y d' [= _ <-]. Qed.
Lemma nonces_delete_audit c : frames nonces (delete_audit_rows_before c).
Proof. by intros d y d' [= _ <-]. Qed.
Lemma nonces_account_keys p `{∀ a, Decision (p a)} f : frames nonces (update_account_keys p f).
Proof. intros d y d'. unfold update_account_keys. case_match; [done|]. by intros [= _ <-]. Qed.
Lemma nonces_put_watermark f :
  frames nonces (tx_put (λ d, set_crl_watermark (f d) d)).
Proof. by intros d y d' [= _ <-]. Qed.

#[export] Hint Resolve nonces_record_audit nonces_update_details nonces_delete_audit
  nonces_account_keys nonces_put_watermark : frame.

Lemma nonces_advance now k n u s : frames nonces (advance_crl_watermark_in_conn now k n u s).
Proof. unfold advance_crl_watermark_in_conn. cbv zeta. frame_auto. Qed.
Lemma nonces_insert_authzs urls uuid aid oid e n ids azs :
  frames nonces (insert_authzs urls uuid aid oid e n ids azs).
Proof. revert n azs. induction ids; intros; simpl; frame_auto. Qed.
Lemma nonces_sweep_batches now total bs : frames nonces (sweep_batches now total bs).
Proof. revert total. induction bs; intros; simpl; unfold sweep_batch; frame_auto. Qed.
Lemma nonces_limits now aid w pk gl : frames nonces (check_order_rate_limits now aid w pk gl).
Proof. unfold check_order_rate_limits, get_account. cbv zeta. frame_auto. Qed.
Lemma nonces_insert_account now i j k s c :
  frames nonces (insert_account_in_conn now i j k s c).
Proof. unfold insert_account_in_conn. cbv zeta. frame_auto. Qed.

#[export] Hint Resolve nonces_advance nonces_insert_authzs nonces_sweep_batches nonces_limits
  nonces_insert_account : frame.

(** The step that mints a nonce. *)
Definition mints (n : string) (d d' : Db) : Prop :=
  ∃ now g r, create_nonce now n g d = inr (r, d').

Lemma delete_first_subseteq {R} p `{∀ r : R, Decision (p r)} k t :
  delete_first p k t ⊆ t.
Proof. apply sublist_subseteq, sublist_delete_first. Qed.

Lemma create_nonce_mints now n g d r d' x :
  create_nonce now n g d = inr (r, d') → x ∈ nonces d' →
  x ∈ nonces d ∨ Nonce.nonce x = n.
Proof.
  unfold create_nonce, mbind, tx_bind, tx_insert. destruct (nonce_clash _ _); [done|].
  intros Hc Hx.
  assert (x ∈ nonces d ++ [{| Nonce.nonce := n; Nonce.created_at := now |}]) as Hin.
  { revert Hc Hx. destruct (g mod NONCE_GC_PROBABILITY =? 0); unfold tx_put, mret, tx_ret;
      intros [= _ <-]; simpl; [|done]. apply delete_first_subseteq. }
  apply elem_of_app in Hin as [Hin|Hin]; [by left|right].
  apply list_elem_of_singleton in Hin as ->. done.
Qed.

Section claims.
Context `{CertParser}.

Lemma store_step_nonces d d' x :
  store_step d d' → x ∈ nonces d' → x ∈ nonces d ∨ mints (Nonce.nonce x) d d'.
Proof.
  intros (A & m & y & Hm & Heq) Hx.
  assert (frames nonces m ∨ (∃ n, mints n d d' ∧ (x ∈ nonces d ∨ Nonce.nonce x = n))
          ∨ nonces d' ⊆ nonces d) as [Hf|[Hmint|Hsub]].
  { destruct Hm;
      try (left; unfold record_audit, reset_crl_watermark, create_account,
        create_account_with_audit, update_account_status, update_account_key,
        update_account_key_in_conn, update_account_key_with_audit, check_key_change_limit, create_order_with_authz,
        update_authorization_status, update_challenge_status, record_pending_ca_request,
        clear_pending_ca_request, acquire_processing_lease, transition_pending_to_ready,
        transition_processing_to_ready, transition_processing_to_valid,
        transition_active_to_invalid, transition_processing_to_invalid,
        transition_to_revoked, reclaim_processing_order, sweep_expired_orders,
        create_certificate, record_issuance_in_conn, quarantine_certificate,
        record_revocation, revoke_certificate_in_conn, confirm_ca_revocation,
        confirm_ca_revocation_with_audit, attach_recovered_chain_with_audit,
        certificate_from_opt, cas_orders, get_order; cbv zeta; by frame_auto).
    - right. left. exists n. split; [by do 3 eexists|].
      by eapply create_nonce_mints.
    - right. right. revert Heq. unfold consume_nonce, mbind, tx_bind, tx_fetchone.
      destruct n; try by intros [= _ <-]. destruct (fetchone _ _); [|by intros [= _ <-]].
      unfold tx_delete, mret, tx_ret. intros [= _ <-]. apply list_subseteq_filter.
    - right. right. injection Heq as _ <-. apply list_subseteq_filter. }
  - rewrite (Hf _ _ _ Heq) in Hx. by left.
  - destruct Hmint as (n & Hmint & [?|<-]); [by left|by right].
  - left. by apply Hsub.
Qed.

Definition nonce_live (now : Z) (n : string) (d : Db) : Prop :=
  ∃ x, x ∈ nonces d ∧ Nonce.nonce x = n ∧ now - NONCE_TTL_SECONDS <= Nonce.created_at x.

Lemma consume_nonce_ok now n d :
  wf d →
  ∃ b d', consume_nonce now (JStr n) d = inr (b, d')
    ∧ (b = true ↔ nonce_live now n d)
    ∧ (b = true → ∀ x, x ∈ nonces d' → Nonce.nonce x ≠ n)
    ∧ (b = false → d' = d).
Proof.
  intros Hwf. unfold consume_nonce, mbind, tx_bind, tx_fetchone. cbv zeta.
  set (live := λ x, Nonce.nonce x = n ∧ now - NONCE_TTL_SECONDS <= Nonce.created_at x).
  destruct (fetchone live (nonces d)) as [x|] eqn:Hf.
  - unfold tx_delete. do 2 eexists. split; [done|].
    apply fetchone_Some in Hf as [Hlive Hx].
    assert (count live (nonces d) = 1) as Hcount.
    { destruct (count_unique (Some ∘ Nonce.nonce) live (nonces d) n) as [Hc|Hc];
        [apply Hwf|by intros r [<- _]| |done].
      by destruct (proj1 (count_zero live (nonces d)) Hc x). }
    rewrite Hcount. split_and!; [|intros _|done].
    + split; [|done]. intros _. exists x. by destruct Hlive.
    + simpl. intros y [Hnl Hy]%list_elem_of_filter Hyn. apply Hnl. unfold live.
      split; [done|]. destruct Hlive as [Hxn Hxt].
      by rewrite (unique_elem_of (Some ∘ Nonce.nonce) (nonces d) y x n (wf_nonces d Hwf) Hy Hx
                    ltac:(simpl; by f_equal) ltac:(simpl; by f_equal)).
  - do 2 eexists. split; [done|]. split_and!; [|done|done].
    split; [done|]. intros (x & Hx & Hxn & Hxt).
    by destruct (proj1 (fetchone_None live _) Hf x Hx).
Qed.

(** C39 A nonce is accepted exactly when the table holds it and it is within
    its time to live, and accepting it removes it: along every later history
    in which it is not minted again, it is refused. *)
Theorem consume_nonce_single_use now n d :
  wf d →
  ∃ b d', consume_nonce now (JStr n) d = inr (b, d')
    ∧ (b = true ↔ nonce_live now n d)
    ∧ (b = false → d' = d)
    ∧ (b = true → ∀ d2 now2,
         rtc (λ d d', store_step d d' ∧ ¬ mints n d d') d' d2 →
         consume_nonce now2 (JStr n) d2 = inr (false, d2)).
Proof.
  intros Hwf. destruct (consume_nonce_ok now n d Hwf) as (b & d' & Heq & Hb & Hgone & Hno).
  exists b, d'. split_and!; [done|done|done|]. intros Hbt d2 now2 Hsteps.
  specialize (Hgone Hbt).
  assert (wf d') as Hwf' by (eapply store_tx_ok; [apply T_consume_nonce|done|exact Heq]).
  clear Heq Hb Hno Hbt.
  induction Hsteps as [d'|d' d1 d2 [Hstep Hnm] _ IH].
  - destruct (consume_nonce_ok now2 n d' Hwf') as (b2 & d3 & Heq2 & Hb2 & _ & Hno2).
    destruct b2; [|by rewrite Hno2 in Heq2].
    destruct (proj1 Hb2 eq_refl) as (x & Hx & Hxn & _). by destruct (Hgone x).
  - apply IH; [|by eapply store_step_ok].
    intros x Hx Hxn. destruct (store_step_nonces d' d1 x Hstep Hx) as [Hx'|Hmint].
    + by eapply Hgone.
    + by rewrite Hxn in Hmint.
Qed.
End claims.
