(* ===== verification/AccountTheorems.v ===== *)
(** * Accounts: quotas, deactivation and key rollover *)

From S2P Require Import Prelude PyStr Exn Json Jwk Sql Db X509 AuditBounds StoreAudit.
From S2P Require Import StoreAccounts StoreOrders StoreCerts StoreRecovery.
From S2P Require Import StoreInv StoreOps.
Local Open Scope Z_scope.

Definition find_account (id : string) (d : Db) : option Account.t :=
  fetchone (λ a, Account.id a = id) (accounts d).

Definition accounts_of_kid (kid : string) (d : Db) : Z :=
  count (λ a, Account.eab_kid a = kid) (accounts d).

Lemma insert_account_ok now id jwk kid s c d a d' :
  insert_account_in_conn now id jwk kid s c d = inr (a, d') →
  d' = set_accounts (accounts d ++ [a]) d
  ∧ account_clash d a = false
  ∧ Account.id a = id ∧ Account.eab_kid a = kid ∧ Account.status a = s
  ∧ Account.jwk_json a = dump_json jwk
  ∧ ∃ tp, jwk_thumbprint jwk = inr tp ∧ Account.jwk_thumbprint a = Some tp.
Proof.
  unfold insert_account_in_conn, mbind, tx_bind, tx_of_res, mret, tx_ret, tx_insert.
  destruct (jwk_thumbprint jwk) as [|tp] eqn:Htp; [done|]. cbv zeta.
  destruct (account_clash _ _) eqn:Hclash; [done|]. intros [= <- <-].
  split_and!; try done. by exists tp.
Qed.

Lemma count_table_le {A} (R : relation A) p `{∀ x, Decision (p x)} t t' :
  (∀ x y, R x y → p x → p y) → table_le R t t' → count p t <= count p t'.
Proof.
  intros Hp Hle. unfold count.
  revert t' Hle. induction t as [|x t IH]; intros t' Hle; [simpl; lia|].
  destruct (Hle 0%nat x eq_refl) as (x' & Hx' & HR). destruct t' as [|y t']; [done|].
  simplify_eq/=. assert (table_le R t t') as Hle'.
  { intros i z Hz. apply (Hle (S i) z Hz). }
  specialize (IH t' Hle'). rewrite !filter_cons.
  destruct (decide (p x)) as [Hpx|]; [rewrite decide_True by eauto|case_decide];
    cbn [length]; lia.
Qed.

Lemma accounts_of_kid_mono kid d d' : db_le d d' → accounts_of_kid kid d <= accounts_of_kid kid d'.
Proof.
  intros Hle. unfold accounts_of_kid.
  apply (count_table_le AccountLife.le); [|apply Hle].
  intros x y (_ & Hk & _) Hx. congruence.
Qed.

Section claims.
Context `{CertParser}.

(** Account creation under an EAB kid, on every branch: a successful
    call found the kid under its quota, stores one account whose thumbprint
    is that of its key, with its audit row naming it, and leaves the kid
    within the quota; once the quota is used up, every creation along every
    later history is refused, since no history frees a slot. *)
Theorem create_account_quota now id jwk kid s c audit q d :
  1 <= q → carries_account_id audit = false →
  (∀ a ev d', create_account_with_audit now id jwk kid s c audit q d = inr ((a, ev), d') →
     accounts_of_kid kid d < q ∧ accounts_of_kid kid d' = accounts_of_kid kid d + 1
     ∧ accounts d' = accounts d ++ [a] ∧ audit_log d' = audit_log d ++ [ev]
     ∧ Audit.account_id ev = Some (Account.id a) ∧ Account.eab_kid a = kid
     ∧ ∃ tp, jwk_thumbprint jwk = inr tp ∧ Account.jwk_thumbprint a = Some tp)
  ∧ (∀ d2, wf d → rtc store_step d d2 → q <= accounts_of_kid kid d →
     ∃ n, q <= n ∧ create_account_with_audit now id jwk kid s c audit q d2
                   = inl (EabAccountLimitExceeded kid q n)).
Proof.
  intros Hq Haid.
  assert (∀ d, create_account_with_audit now id jwk kid s c audit q d =
    if q <=? accounts_of_kid kid d
    then inl (EabAccountLimitExceeded kid q (accounts_of_kid kid d))
    else match insert_account_in_conn now id jwk kid s c d with
         | inl e => inl e
         | inr (a, d1) =>
           match record_audit_in_conn now (with_account_id (Account.id a) audit) d1 with
           | inl e => inl e
           | inr (ev, d2) => inr ((a, ev), d2)
           end
         end) as Hunf.
  { intros d0. unfold create_account_with_audit. rewrite Haid.
    destruct (q <? 1) eqn:Hq1; bool_hyps; [lia|].
    unfold mbind, tx_bind, tx_count, tx_raise, mret, tx_ret. fold (accounts_of_kid kid d0).
    by destruct (q <=? accounts_of_kid kid d0). }
  split.
  - intros a ev d'. rewrite Hunf. destruct (q <=? _) eqn:Hc; [done|]. bool_hyps.
    destruct (insert_account_in_conn _ _ _ _ _ _ d) as [|[a0 d1]] eqn:Hins; [done|].
    apply insert_account_ok in Hins as (-> & _ & _ & Hk & _ & _ & tp & Htp & Hatp).
    intros [= <- <- <-]. unfold accounts_of_kid at 2. simpl.
    rewrite count_app, count_singleton, decide_True by done.
    split_and!; try done. by exists tp.
  - intros d2 Hwf Hsteps Hfull. destruct (store_steps_ok _ _ Hsteps Hwf) as [_ Hle].
    pose proof (accounts_of_kid_mono kid d d2 Hle). rewrite Hunf.
    exists (accounts_of_kid kid d2). split; [lia|]. by rewrite (proj2 (Z.leb_le _ _)) by lia.
Qed.

(** A deactivated account stays deactivated along every history, and no
    key rollover of it succeeds again. *)
Theorem deactivation_final id d d2 a :
  wf d → rtc store_step d d2 → find_account id d = Some a →
  Account.status a = AccountStatus.DEACTIVATED →
  (∃ a2, find_account id d2 = Some a2 ∧ Account.status a2 = AccountStatus.DEACTIVATED
         ∧ Account.eab_kid a2 = Account.eab_kid a)
  ∧ (∀ s, update_account_status id s d2 = inr (false, d2))
  ∧ (∀ now jwk tp audit w l, carries_account_id audit = false →
     is_Some (match jwk_thumbprint jwk with inr t => Some t | inl _ => None end) →
     update_account_key_with_audit now id jwk tp audit w l d2 = inl AccountKeyStale).
Proof.
  intros Hwf Hsteps Hfind Hs. destruct (store_steps_ok _ _ Hsteps Hwf) as [Hwf2 Hle].
  apply fetchone_Some in Hfind as [Hid Ha].
  apply list_elem_of_lookup in Ha as [i Hi].
  destruct (le_accounts _ _ Hle i a Hi) as (a2 & Hi2 & Hid2 & Hk2 & _ & _ & Hs2).
  assert (find_account id d2 = Some a2) as Hfind2.
  { eapply (fetchone_unique (Some ∘ Account.id) _ _ id);
      [apply Hwf2|intros r Hr; simpl; by f_equal|by eapply list_elem_of_lookup_2|].
    simpl. congruence. }
  specialize (Hs2 Hs). split_and!.
  - by exists a2.
  - intros s. unfold update_account_status, mbind, tx_bind, tx_update, mret, tx_ret.
    assert (∀ r, r ∈ accounts d2 →
      ¬ (Account.id r = id ∧ Account.status r = AccountStatus.VALID)) as Hno.
    { intros r Hr [Hrid Hrs].
      assert (r = a2) as -> by (eapply (unique_elem_of (Some ∘ Account.id));
        [apply Hwf2|done|by eapply list_elem_of_lookup_2|done|simpl; congruence]).
      congruence. }
    rewrite (proj2 (count_zero _ _) Hno), update_where_id by done. by destruct d2.
  - intros now jwk tp audit w l Haid [t Ht].
    unfold update_account_key_with_audit. rewrite Haid.
    destruct (jwk_thumbprint jwk) as [|t']; [done|].
    unfold mbind, tx_bind, tx_of_res, tx_fetchone. fold (find_account id d2).
    rewrite Hfind2. case_decide as Hd; [|done]. destruct Hd as [_ Hd]. congruence.
Qed.

Lemma update_key_ok now id jwk old audit w l d ev d' :
  wf d →
  update_account_key_with_audit now id jwk old audit w l d = inr (ev, d') →
  ∃ a tp, find_account id d = Some a ∧ jwk_thumbprint jwk = inr tp
    ∧ Account.status a = AccountStatus.VALID ∧ thumbprint_str a = old
    ∧ (0 < l → ∃ window, w = Some window ∧ 1 <= window
         ∧ key_change_count d (Account.eab_kid a) (now - window) < l)
    ∧ find_account id d' = Some (Account.set_key (dump_json jwk) (Some tp) a)
    ∧ audit_log d' = audit_log d ++ [ev] ∧ Audit.account_id ev = Some id
    ∧ Audit.event_type ev = event_type audit.
Proof.
  intros Hwf. unfold update_account_key_with_audit at 1.
  destruct (carries_account_id audit); [done|].
  unfold mbind at 1, tx_bind at 1, tx_of_res.
  destruct (jwk_thumbprint jwk) as [|tp] eqn:Htp; [done|].
  unfold mbind at 1, tx_bind at 1, tx_fetchone. fold (find_account id d).
  destruct (find_account id d) as [a|] eqn:Hfind; [|done].
  case_decide as Hok; [|done]. destruct Hok as [Hold Hs].
  unfold mbind at 1, tx_bind at 1.
  destruct (check_key_change_limit now a w l d) as [|[[] d0]] eqn:Hlim; [done|].
  assert (d0 = d ∧ (0 < l → ∃ window, w = Some window ∧ 1 <= window
            ∧ key_change_count d (Account.eab_kid a) (now - window) < l)) as [-> Hl].
  { revert Hlim. unfold check_key_change_limit. destruct (0 <? l) eqn:Hl0; [|by intros [= <-]; bool_hyps; split; [|lia]].
    destruct w as [window|]; [|done]. destruct (window <? 1) eqn:Hw; [done|].
    unfold mbind, tx_bind, tx_get. destruct (l <=? _) eqn:Hc; [done|]. intros [= <-].
    bool_hyps. split; [done|]. intros _. by exists window. }
  unfold mbind, tx_bind, update_account_keys.
  destruct (idx_accounts_thumbprint_unique d && _); [done|].
  destruct (negb _) eqn:Hrow; [done|]. unfold record_audit_in_conn. intros [= <- <-].
  apply negb_false_iff, Z.eqb_eq in Hrow.
  set (p := λ a, Account.id a = id ∧ Account.jwk_thumbprint a = Some old
                 ∧ Account.status a = AccountStatus.VALID) in *.
  assert (p a) as Hpa.
  { rewrite (count_key Account.id p (accounts d) id) in Hrow; [|apply Hwf|by intros r [? _]].
    fold (find_account id d) in Hrow. rewrite Hfind in Hrow. by case_decide. }
  set (d1 := set_audit_log _ _ _).
  assert (find_account id d1 = Some (Account.set_key (dump_json jwk) (Some tp) a)) as Hfind1.
  { unfold find_account, d1. simpl. rewrite fetchone_update_where by (by intros []).
    fold (find_account id d). rewrite Hfind. simpl. by rewrite decide_True. }
  exists a, tp. by split_and!.
Qed.

(** Key rollover, when it succeeds: the account was valid and its stored
    key was the one that authorised the request; under a limit, fewer than
    the limit of the kid's rollovers were recorded in the window; the new
    key and its thumbprint are stored and one audit row naming the account
    is appended.  The replaced key then authorises nothing: every further
    rollover signed by it is refused. *)
Theorem update_account_key_authorised now id jwk old audit w l d ev d' :
  wf d →
  update_account_key_with_audit now id jwk old audit w l d = inr (ev, d') →
  ∃ a tp, find_account id d = Some a ∧ jwk_thumbprint jwk = inr tp
    ∧ Account.status a = AccountStatus.VALID ∧ thumbprint_str a = old
    ∧ (0 < l → ∃ window, w = Some window ∧ 1 <= window
         ∧ key_change_count d (Account.eab_kid a) (now - window) < l)
    ∧ find_account id d' = Some (Account.set_key (dump_json jwk) (Some tp) a)
    ∧ audit_log d' = audit_log d ++ [ev] ∧ Audit.account_id ev = Some id
    ∧ (tp ≠ old → ∀ now' jwk' audit' w' l' r,
         update_account_key_with_audit now' id jwk' old audit' w' l' d' ≠ inr r).
Proof.
  intros Hwf Hup. destruct (update_key_ok _ _ _ _ _ _ _ _ _ _ Hwf Hup)
    as (a & tp & Hfind & Htp & Hs & Hold & Hl & Hfind1 & Hlog & Hid & _).
  exists a, tp. split_and!; try done.
  intros Hne now' jwk' audit' w' l' r. unfold update_account_key_with_audit.
  destruct (carries_account_id audit'); [done|].
  unfold mbind at 1, tx_bind at 1, tx_of_res. destruct (jwk_thumbprint jwk'); [done|].
  unfold mbind at 1, tx_bind at 1, tx_fetchone. fold (find_account id d').
  rewrite Hfind1. by rewrite decide_False by (intros [? _]; by destruct Hne).
Qed.
End claims.
