(* ===== verification/HttpTheorems.v ===== *)
(** * What a request body and its media type may be

    The body reader against its three bounds, and the media-type matcher, with
    its possessive white space, against the grammar of RFC 9110. *)

From S2P Require Import Prelude PyStr Exn Http.
Local Open Scope Z_scope.

(** ** Bodies *)

Definition stream_time (stream : list Pull) : Z := foldr (λ p t, pull_delay p + t) 0 stream.
Definition stream_body (stream : list Pull) : list Z := concat (map pull_chunk stream).

Lemma read_chunks_iff stream fin max timeout elapsed total chunks body :
  Forall (λ p, 0 ≤ pull_delay p) stream → total ≤ max →
  read_chunks stream fin max timeout elapsed total chunks = inr body ↔
  elapsed + stream_time stream < timeout ∧ elapsed + stream_time stream + fin ≤ timeout
  ∧ total + Z.of_nat (length (stream_body stream)) ≤ max
  ∧ body = concat chunks ++ stream_body stream.
Proof.
  intros Hs. revert elapsed total chunks. unfold stream_time, stream_body.
  induction Hs as [|p s Hp Hs IH]; intros elapsed total chunks Ht; cbn.
  - rewrite app_nil_r. destruct (Z.leb_spec (timeout - elapsed) 0); [split; [done|lia]|].
    destruct (Z.ltb_spec (timeout - elapsed) fin); [split; [done|lia]|].
    split; [intros [= <-]; split_and!; [lia|lia|lia|done]|]. by intros (_&_&_&->).
  - assert (0 ≤ foldr (λ p t, pull_delay p + t) 0 s) as Hpos.
    { clear IH. induction Hs; cbn; lia. }
    destruct (Z.leb_spec (timeout - elapsed) 0); [split; [done|lia]|].
    destruct (Z.ltb_spec (timeout - elapsed) (pull_delay p)); [split; [done|lia]|].
    rewrite length_app, Nat2Z.inj_add.
    destruct (Z.ltb_spec max (total + Z.of_nat (length (pull_chunk p))));
      [split; [done|lia]|].
    rewrite IH by lia. rewrite concat_app. cbn. rewrite app_nil_r, <- app_assoc.
    split; intros (?&?&?&->); (split_and!; [lia|lia|lia|done]).
Qed.

Definition length_acceptable (request : Request) (max : Z) : Prop :=
  match content_length request with
  | None => True
  | Some s => ∃ n, py_int s = Some n ∧ 0 ≤ n ≤ max
  end.

(** C21 A body is read exactly when its declared length, if any, is a number
    within the limit, the octets that arrive are within it whatever was
    declared, and they have all arrived by the deadline, however the sender
    splits them; what is read is then every octet, in order. *)
Theorem read_body_limited_iff request max timeout body :
  Forall (λ p, 0 ≤ pull_delay p) (body_stream request) → 0 ≤ end_delay request →
  read_body_limited request max timeout = inr body ↔
  1 ≤ max ∧ length_acceptable request max
  ∧ stream_time (body_stream request) < timeout
  ∧ stream_time (body_stream request) + end_delay request ≤ timeout
  ∧ Z.of_nat (length body) ≤ max ∧ body = stream_body (body_stream request).
Proof.
  intros Hs He. unfold read_body_limited, length_acceptable.
  destruct (Z.ltb_spec max 1) as [|Hmax]; [split; [done|lia]|].
  assert (read_chunks (body_stream request) (end_delay request) max timeout 0 0 [] = inr body ↔
          stream_time (body_stream request) < timeout
          ∧ stream_time (body_stream request) + end_delay request ≤ timeout
          ∧ Z.of_nat (length body) ≤ max ∧ body = stream_body (body_stream request)) as Hr.
  { rewrite read_chunks_iff by (done || lia). cbn.
    split; intros (?&?&?&->); split_and!; done. }
  destruct (content_length request) as [s|]; simpl; [|rewrite Hr; naive_solver].
  destruct (py_int s) as [n|]; simpl; [|naive_solver].
  destruct (Z.ltb_spec n 0), (Z.ltb_spec max n); simpl;
    rewrite ?Hr; split; try done; try (intros (_ & (m & [= <-] & ?) & _); lia).
  - intros (?&?&?&?). split_and!; try done. by exists n.
  - by intros (_ & _ & ?).
Qed.

Definition demo_request : Request :=
  {| request_id := 7; content_types := ["application/jose+json"%string]; content_length := Some "3"%string;
     body_stream := [{| pull_delay := 5; pull_chunk := [123] |};
                     {| pull_delay := 7; pull_chunk := [32; 125] |}];
     end_delay := 1 |}.

Lemma read_body_limited_iff_witness :
  Forall (λ p, 0 ≤ pull_delay p) (body_stream demo_request) ∧ 0 ≤ end_delay demo_request ∧
  read_body_limited demo_request 3 13 = inr [123; 32; 125] ∧
  read_body_limited demo_request 3 12 = inl (Acme malformed).
Proof.
  assert (Forall (λ p, 0 ≤ pull_delay p) (body_stream demo_request)) as Hs by (by repeat constructor).
  assert (0 ≤ end_delay demo_request) as He by done.
  split; [exact Hs|]. split; [exact He|]. split; [|by vm_compute].
  apply (proj2 (read_body_limited_iff demo_request 3 13 [123; 32; 125] Hs He)).
  split_and!; try done. by exists 3.
Defined.

(** ** Media types *)

Definition ows (l : list ascii) : Prop := Forall (λ c, is_ows c = true) l.
Definition token (l : list ascii) : Prop := l ≠ [] ∧ Forall (λ c, is_tchar c = true) l.

(** RFC 9110 section 5.6.4, without the quotes. *)
Inductive quoted_text : list ascii → Prop :=
  | Q_end : quoted_text []
  | Q_text c l : is_qdtext c = true → quoted_text l → quoted_text (c :: l)
  | Q_pair c l : is_quoted_pair c = true → quoted_text l → quoted_text ("\"%char :: c :: l).

Inductive parameter_value : list ascii → Prop :=
  | V_token l : token l → parameter_value l
  | V_quoted l : quoted_text l → parameter_value ("034"%char :: l ++ ["034"%char]).

(** Section 5.6.6: parameters = *( OWS ";" OWS [ parameter ] ) *)
Inductive parameters : list ascii → Prop :=
  | P_none : parameters []
  | P_empty o1 o2 l : ows o1 → ows o2 → parameters l → parameters (o1 ++ ";"%char :: o2 ++ l)
  | P_one o1 o2 name value l :
      ows o1 → ows o2 → token name → parameter_value value → parameters l →
      parameters (o1 ++ ";"%char :: o2 ++ name ++ "="%char :: value ++ l).

(** Section 8.3.1, with optional white space around it. *)
Definition media_type (l group : list ascii) : Prop :=
  ∃ o1 typ subtype ps o2,
    ows o1 ∧ token typ ∧ token subtype ∧ parameters ps ∧ ows o2
    ∧ group = typ ++ "/"%char :: subtype ∧ l = o1 ++ group ++ ps ++ o2.

(** *** Characters *)

Lemma char_classes c :
  (is_ows c = true → is_tchar c = false ∧ c ≠ ";"%char)
  ∧ (is_tchar c = true → is_ows c = false ∧ c ≠ ";"%char ∧ c ≠ "/"%char ∧ c ≠ "="%char
       ∧ code c =? 34 = false)
  ∧ (is_qdtext c = true → code c =? 34 = false ∧ code c =? 92 = false).
Proof.
  revert c. refine (ascii_forall (λ c, _) _). by vm_compute.
Qed.

Definition stops (f : ascii → bool) (l : list ascii) : Prop :=
  match l with [] => True | c :: _ => f c = false end.

Lemma span_app f k l :
  Forall (λ c, f c = true) k → stops f l → span f (k ++ l) = (k, l).
Proof.
  intros Hk Hl. induction Hk as [|c k Hc _ IH]; simpl.
  - destruct l as [|c l]; simpl in *; [done|]. by rewrite Hl.
  - by rewrite Hc, IH.
Qed.

Lemma span_spec f l k r :
  span f l = (k, r) → l = k ++ r ∧ Forall (λ c, f c = true) k ∧ stops f r.
Proof.
  revert k r. induction l as [|c l IH]; intros k r; simpl; [by intros [= <- <-]|].
  destruct (f c) eqn:Hc; [|by intros [= <- <-]].
  destruct (span f l) as [k' r']. intros [= <- <-].
  destruct (IH k' r' eq_refl) as (-> & Hk & Hr). split_and!; [done|by constructor|done].
Qed.

Lemma match_token_app k l : token k → stops is_tchar l → match_token (k ++ l) = Some (k, l).
Proof.
  intros [Hne Hk] Hl. unfold match_token. rewrite span_app by done. by destruct k.
Qed.
Lemma match_token_spec l k r : match_token l = Some (k, r) → l = k ++ r ∧ token k ∧ stops is_tchar r.
Proof.
  unfold match_token. destruct (span is_tchar l) as [k' r'] eqn:Hs. 
  apply span_spec in Hs as (-> & Hk & Hr). destruct k' as [|c k']; [done|].
  intros [= <- <-]. by split_and!.
Qed.
Lemma match_token_stop l : stops is_tchar l → match_token l = None.
Proof. unfold match_token. destruct l as [|c l]; simpl; [done|]. by intros ->. Qed.

Lemma drop_ows_app o l : ows o → drop_while is_ows (o ++ l) = drop_while is_ows l.
Proof. apply drop_while_app_all. Qed.
Lemma drop_ows_stop l : stops is_ows l → drop_while is_ows l = l.
Proof. destruct l as [|c l]; simpl; [done|]. by intros ->. Qed.
Lemma drop_ows_spec l : ∃ o, l = o ++ drop_while is_ows l ∧ ows o.
Proof. apply drop_while_suffix. Qed.

Lemma token_head k l : token k → ∃ c k', k ++ l = c :: k' ∧ is_tchar c = true.
Proof.
  intros [Hne Hk]. destruct k as [|c k]; [done|]. apply Forall_cons in Hk as [Hc _].
  by exists c, (k ++ l).
Qed.

Lemma drop_ows_token k l : token k → drop_while is_ows (k ++ l) = k ++ l.
Proof.
  intros Hk. destruct (token_head k l Hk) as (c & k' & -> & Hc). apply drop_ows_stop.
  by apply char_classes.
Qed.

(** *** Values *)

Lemma match_quoted_app q r : quoted_text q → match_quoted (q ++ "034"%char :: r) = Some r.
Proof.
  induction 1 as [|c l Hc _ IH|c l Hc _ IH]; simpl; [done| |by rewrite Hc].
  destruct (proj2 (proj2 (char_classes c)) Hc) as [-> ->]. by rewrite Hc.
Qed.
Lemma match_quoted_spec n l r :
  (length l ≤ n)%nat → match_quoted l = Some r →
  ∃ q, l = q ++ "034"%char :: r ∧ quoted_text q.
Proof.
  revert l. induction n as [|n IH]; intros [|c l] Hn; simpl in *; try done; [lia|].
  destruct (code c =? 34) eqn:Hq.
  { intros [= <-]. exists []. split; [|constructor]. simpl. f_equal.
    apply Z.eqb_eq in Hq. unfold code in Hq. rewrite <- (ascii_N_embedding c).
    by replace (N_of_ascii c) with 34%N by lia. }
  destruct (code c =? 92) eqn:Hb.
  - destruct l as [|c' l]; [done|]. destruct (is_quoted_pair c') eqn:Hc; [|done].
    intros (q & -> & Hqt)%IH; [|simpl in *; lia]. exists ("\"%char :: c' :: q).
    split; [|by constructor]. simpl. f_equal.
    apply Z.eqb_eq in Hb. unfold code in Hb. rewrite <- (ascii_N_embedding c).
    by replace (N_of_ascii c) with 92%N by lia.
  - destruct (is_qdtext c) eqn:Hc; [|done]. intros (q & -> & Hqt)%IH; [|lia].
    exists (c :: q). split; [done|by constructor].
Qed.

Lemma match_value_app v r :
  parameter_value v → stops is_tchar r → match_value (v ++ r) = Some r.
Proof.
  intros [k Hk|q Hq] Hr.
  - pose proof (match_token_app k r Hk Hr) as Hm. destruct (token_head k r Hk) as (c & k' & Heq & Hc).
    rewrite Heq in *. simpl. destruct (proj1 (proj2 (char_classes c)) Hc) as (_&_&_&_&->).
    by rewrite Hm.
  - simpl. rewrite <- app_assoc. by apply match_quoted_app.
Qed.
Lemma match_value_spec l r :
  match_value l = Some r → ∃ v, l = v ++ r ∧ parameter_value v.
Proof.
  destruct l as [|c l]; simpl; [done|]. destruct (code c =? 34) eqn:Hq.
  - intros (q & -> & Hqt)%(match_quoted_spec _ _ _ (le_n _)).
    exists ("034"%char :: q ++ ["034"%char]). split; [|by constructor].
    simpl. rewrite <- app_assoc. f_equal. 
    apply Z.eqb_eq in Hq. unfold code in Hq. rewrite <- (ascii_N_embedding c).
    by replace (N_of_ascii c) with 34%N by lia.
  - intros ([k r'] & (Heq & Hk & _)%match_token_spec & ->)%fmap_Some.
    exists k. split; [done|by constructor].
Qed.

(** *** Parameters *)

Lemma parameters_head l o :
  parameters l → ows o → stops is_tchar (drop_while is_ows (l ++ o)).
Proof.
  intros Hl Ho. assert (drop_while is_ows o = []) as Hnil.
  { rewrite <- (app_nil_r o). by rewrite drop_ows_app. }
  destruct Hl as [|o1 o2 l' Ho1 _ _|o1 o2 name v l' Ho1 _ _ _ _]; simpl; [by rewrite Hnil|..];
    rewrite <- app_assoc, drop_ows_app by done; done.
Qed.
Lemma parameters_stop l o : parameters l → ows o → stops is_tchar (l ++ o).
Proof.
  assert (∀ o r, ows o → stops is_tchar r → stops is_tchar (o ++ r)) as Hows.
  { intros o' r [|c o'' Hc _] Hr; simpl; [done|]. by apply char_classes. }
  intros Hl Ho. destruct Hl as [|o1 o2 l' Ho1 _ _|o1 o2 name v l' Ho1 _ _ _ _]; simpl;
    rewrite <- ?app_assoc; [rewrite <- (app_nil_r o)|..]; by apply Hows.
Qed.

Lemma match_parameters_drop fuel l :
  match_parameters fuel (drop_while is_ows l) = match_parameters fuel l.
Proof. destruct fuel; simpl; [done|]. by rewrite drop_while_idem. Qed.

Lemma match_parameters_complete ps o fuel :
  parameters ps → ows o → (length ps < fuel)%nat → match_parameters fuel (ps ++ o) = true.
Proof.
  intros Hps Ho. revert fuel.
  induction Hps as [|o1 o2 l Ho1 Ho2 Hl IH|o1 o2 name v l Ho1 Ho2 Hname Hv Hl IH];
    intros [|fuel] Hf; try lia; simpl.
  - rewrite <- (app_nil_r o). by rewrite drop_ows_app.
  - rewrite <- app_assoc, drop_ows_app by done. simpl.
    rewrite <- app_assoc, drop_ows_app by done.
    rewrite match_token_stop by (by apply parameters_head).
    rewrite match_parameters_drop. apply IH. rewrite length_app in Hf. simpl in Hf.
    rewrite length_app in Hf. lia.
  - rewrite <- app_assoc, drop_ows_app by done. simpl.
    rewrite <- !app_assoc, drop_ows_app, drop_ows_token by done. simpl.
    rewrite match_token_app by done. simpl. rewrite <- app_assoc.
    rewrite match_value_app by (done || by apply parameters_stop).
    apply IH. rewrite length_app in Hf. simpl in Hf. rewrite !length_app in Hf. simpl in Hf.
    rewrite length_app in Hf. lia.
Qed.

Lemma match_parameters_sound fuel l :
  match_parameters fuel l = true → ∃ ps o, l = ps ++ o ∧ parameters ps ∧ ows o.
Proof.
  revert l. induction fuel as [|fuel IH]; intros l; simpl; [done|].
  destruct (drop_ows_spec l) as (o1 & Hl & Ho1).
  destruct (drop_while is_ows l) as [|c l1] eqn:Hd.
  { intros _. exists [], o1. rewrite Hl, app_nil_r. by split_and!; [|constructor|]. }
  case_bool_decide as Hc; [|done]. subst c. cbn [negb]. rewrite Hl. clear l Hl Hd.
  destruct (drop_ows_spec l1) as (o2 & Hl & Ho2).
  destruct (match_token (drop_while is_ows l1)) as [[name [|c l2]]|] eqn:Ht; [done| |].
  - apply match_token_spec in Ht as (Heq & Hname & _). rewrite Heq in Hl.
    case_bool_decide as Hc; [|done]. subst c.
    destruct (match_value l2) as [l3|] eqn:Hv; [|done].
    apply match_value_spec in Hv as (v & -> & Hv). intros (ps & o & -> & Hps & Ho)%IH.
    exists (o1 ++ ";"%char :: o2 ++ name ++ "="%char :: v ++ ps), o.
    split_and!; [|by constructor|done]. rewrite Hl. simplify_list_eq. done.
  - intros (ps & o & Heq & Hps & Ho)%IH.
    exists (o1 ++ ";"%char :: o2 ++ ps), o. split_and!; [|by constructor|done].
    rewrite Hl, Heq. simplify_list_eq. done.
Qed.

(** C22 The deterministic matcher accepts a Content-Type value exactly when the
    RFC 9110 grammar derives it, white space and empty parameters included,
    and returns its type "/" subtype: possessive white space loses no parse. *)
Theorem match_media_type_iff l group :
  match_media_type l = Some group ↔ media_type l group.
Proof.
  unfold match_media_type, media_type. split.
  - destruct (drop_ows_spec l) as (o1 & Hl & Ho1).
    destruct (match_token (drop_while is_ows l)) as [[typ [|c l1]]|] eqn:Ht; simpl; [done| |done].
    apply match_token_spec in Ht as (Heq & Htyp & _). rewrite Heq in Hl.
    case_bool_decide as Hc; [|done]. subst c.
    destruct (match_token l1) as [[sub l2]|] eqn:Hs; simpl; [|done].
    apply match_token_spec in Hs as (-> & Hsub & _).
    case_match eqn:Hp; [|done]. intros [= <-].
    apply (match_parameters_sound (S (length l2))) in Hp as (ps & o2 & -> & Hps & Ho2).
    exists o1, typ, sub, ps, o2. split_and!; try done. rewrite Hl. simplify_list_eq. done.
  - intros (o1 & typ & sub & ps & o2 & Ho1 & Htyp & Hsub & Hps & Ho2 & -> & ->).
    rewrite drop_ows_app by done. rewrite <- app_assoc, drop_ows_token by done.
    rewrite match_token_app by done. cbn [mbind option_bind app].
    rewrite bool_decide_eq_true_2 by done.
    rewrite match_token_app by (done || by apply parameters_stop).
    cbn [mbind option_bind]. rewrite match_parameters_complete by (done || rewrite length_app; lia). done.
Qed.
