(* ===== verification/JwsTheorems.v ===== *)
(** * What a verified JWS is

    [verify_flattened_jws] and [verify_eab_jws] of jws.py against RFC 7515 and
    RFC 8555: exactly which messages they accept, and under which keys; and the
    DER form of their ECDSA signatures. *)

From S2P Require Import Prelude PyStr Sha256 Json Exn Base64 Jwk Jws.
From stdpp Require Import sorting.
Local Open Scope Z_scope.
Local Open Scope res_scope.

Lemma or_else_ok {A} e (r : Res Exn A) x : or_else e r = inr x ↔ r = inr x.
Proof. destruct r; simpl; split; congruence. Qed.
Lemma loads_or_ok `{JsonLoads} e b v : loads_or e b = inr v ↔ loads b = inr v.
Proof. unfold loads_or. destruct (loads b) as [[]|]; split; congruence. Qed.
Lemma loads_b64_ok `{JsonLoads} s v :
  loads_b64 s = inr v ↔ ∃ b, base64url_decode s = inr b ∧ loads b = inr v.
Proof.
  unfold loads_b64. destruct (base64url_decode s) as [e|b]; simpl.
  - split; [done|]. by intros (b & ? & _).
  - destruct (loads b) eqn:Hl; split; try done; [intros (b' & [= <-] & ?); congruence| |].
    + intros [= <-]. by exists b.
    + intros (b' & [= <-] & ?). congruence.
Qed.
Lemma require_flattened_ok jws :
  require_flattened jws = inr tt ↔
  dict_get "header" jws = None ∧ dict_get "signatures" jws = None.
Proof.
  unfold require_flattened. destruct (dict_get "header" jws), (dict_get "signatures" jws);
    repeat case_bool_decide; naive_solver.
Qed.

Lemma jws_members_ok jws p y s :
  jws_members jws = Some (p, y, s) ↔
  dict_get "protected" jws = Some (JStr p) ∧ dict_get "payload" jws = Some (JStr y)
  ∧ dict_get "signature" jws = Some (JStr s).
Proof. unfold jws_members. repeat case_match; naive_solver. Qed.

(** Goals and hypotheses in the [Res] monad, taken apart. *)
Ltac res_ok H :=
  repeat match type of H with
  | res_bind _ _ = inr _ => rewrite res_bind_ok in H; destruct H as (? & ? & H)
  | (if ?b then inl _ else _) = inr _ => destruct b eqn:?; [discriminate H|]
  | (if ?b then _ else inl _) = inr _ => destruct b eqn:?; [|discriminate H]
  | inr _ = inr _ => injection H as H
  end.

(** ** Account-key signatures *)

Section flattened.
Context `{JsonLoads, SignatureBackend}.

(** The six algorithms, each with its key type, curve and digest. *)
Inductive signature_valid (signature input : list Z) : string → PublicKey → Prop :=
  | S_rsa alg h n e :
      (alg, h) ∈ [("RS256", SHA256); ("RS384", SHA384); ("RS512", SHA512)]%string →
      rsa_pkcs1v15_verify n e signature input h = true →
      signature_valid signature input alg (RSAKey n e)
  | S_ecdsa alg crv width h x y der :
      (alg, crv, width, h) ∈ [("ES256", "P-256", 32, SHA256); ("ES384", "P-384", 48, SHA384);
                              ("ES512", "P-521", 66, SHA512)]%string →
      raw_ecdsa_to_der signature width = inr der →
      ecdsa_verify crv x y der input h = true →
      signature_valid signature input alg (ECKey crv x y).

(** One protected header, one signature, over the two members as spelled. *)
Definition signed_by (jws : dict) (key : PublicKey) (payload : list Z) : Prop :=
  dict_get "header" jws = None ∧ dict_get "signatures" jws = None ∧
  ∃ p y s octets signature header alg,
    dict_get "protected" jws = Some (JStr p) ∧ dict_get "payload" jws = Some (JStr y)
    ∧ dict_get "signature" jws = Some (JStr s)
    ∧ base64url_decode p = inr octets ∧ base64url_decode y = inr payload
    ∧ base64url_decode s = inr signature
    ∧ loads octets = inr (JObj header) ∧ dict_get "alg" header = Some (JStr alg)
    ∧ signature_valid signature (signing_input p y) alg key.

(** The two tables, as the code looks them up. *)
Lemma rs_table alg h :
  (alg, h) ∈ [("RS256", SHA256); ("RS384", SHA384); ("RS512", SHA512)]%string ↔
  alg ∈ RS_ALGORITHMS ∧ hash_for_alg alg = inr h.
Proof.
  unfold RS_ALGORITHMS. rewrite !elem_of_cons, !elem_of_nil. split.
  - intros [?|[?|[?|[]]]]; simplify_eq; (split; [tauto|done]).
  - intros [[->|[->|[->|[]]]] Hh]; vm_compute in Hh; simplify_eq; tauto.
Qed.

Definition curve_width (crv : string) : Z :=
  coordinate_length (default 0 (curve_key_size (Some (JStr crv)))).

Lemma es_table alg crv width h :
  (alg, crv, width, h) ∈ [("ES256", "P-256", 32, SHA256); ("ES384", "P-384", 48, SHA384);
                          ("ES512", "P-521", 66, SHA512)]%string ↔
  alg ∈ ES_ALGORITHMS ∧ Some alg = expected_alg crv ∧ curve_width crv = width
  ∧ hash_for_alg alg = inr h.
Proof.
  rewrite !elem_of_cons, elem_of_nil. split.
  - intros [?|[?|[?|[]]]]; simplify_eq; (split; [unfold ES_ALGORITHMS; set_solver|done]).
  - intros (_ & Hexp & Hw & Hh). unfold expected_alg in Hexp.
    repeat case_decide; simplify_eq; vm_compute in Hh; simplify_eq; naive_solver.
Qed.

Lemma es_not_rs alg : alg ∈ ES_ALGORITHMS → alg ∉ RS_ALGORITHMS.
Proof.
  unfold ES_ALGORITHMS, RS_ALGORITHMS. rewrite !elem_of_cons, elem_of_nil.
  intros [->|[->|[->|[]]]]; set_solver.
Qed.

Lemma verify_signature_ok alg key signature input :
  verify_signature alg key signature input = inr tt ↔ signature_valid signature input alg key.
Proof.
  unfold verify_signature. split.
  - case_bool_decide as Hrs; [|case_bool_decide as Hes; [|done]]; destruct key as [n e|crv x y];
      try done.
    + rewrite res_bind_ok. intros (h & Hh & Hv). case_match eqn:Hok; [|done].
      apply (S_rsa _ _ _ h); [by apply rs_table|done].
    + case_bool_decide as Hexp; [|done]. cbn [negb]. rewrite res_bind_ok.
      intros (der & Hd & Hv). rewrite res_bind_ok in Hv. destruct Hv as (h & Hh & Hv).
      case_match eqn:Hok; [|done].
      by apply (S_ecdsa _ _ _ crv (curve_width crv) h x y der); [apply es_table| |].
  - intros [alg' h n e Hin Hv|alg' crv width h x y der Hin Hd Hv].
    + apply rs_table in Hin as [Hrs Hh]. rewrite bool_decide_eq_true_2 by done.
      rewrite Hh. simpl. by rewrite Hv.
    + apply es_table in Hin as (Hes & Hexp & Hw & Hh).
      rewrite bool_decide_eq_false_2 by (by apply es_not_rs).
      rewrite !bool_decide_eq_true_2 by done. cbn [negb].
      fold (curve_width crv). rewrite Hw, Hd. cbn [res_bind]. rewrite Hh. simpl. by rewrite Hv.
Qed.

(** C10 Exactly which messages verify under a key: flattened, without an
    unprotected header or several signatures, all three members base64url
    strings, a protected header that names one of six algorithms, the one that
    fits the key's type and curve, and a signature the backend accepts over
    the two members as they were sent. *)
Theorem verify_flattened_iff jws key payload :
  verify_flattened_jws jws key = inr payload ↔ signed_by jws key payload.
Proof.
  unfold verify_flattened_jws, signed_by. rewrite res_bind_ok. split.
  - intros ([] & [Hh Hs]%require_flattened_ok & Hm). split; [done|]. split; [done|].
    destruct (jws_members jws) as [[[p y] s]|] eqn:Hj; [|done].
    apply jws_members_ok in Hj as (Hp & Hy & Hsg).
    rewrite res_bind_ok in Hm. destruct Hm as (octets & Ho%or_else_ok & Hm).
    rewrite res_bind_ok in Hm. destruct Hm as (signature & Hsd%or_else_ok & Hm).
    rewrite res_bind_ok in Hm. destruct Hm as (body & Hb%or_else_ok & Hm).
    rewrite res_bind_ok in Hm. destruct Hm as (header & Hl%loads_or_ok & Hm).
    destruct header as [| | | | | |header]; try done.
    destruct (dict_get "alg" header) as [[| | | |alg| |]|] eqn:Ha; try done.
    rewrite res_bind_ok in Hm. destruct Hm as ([] & Hv & [= ->]).
    apply verify_signature_ok in Hv.
    by exists p, y, s, octets, signature, header, alg.
  - intros (Hh & Hs & p & y & s & octets & signature & header & alg & Hp & Hy & Hsg & Ho & Hb
            & Hsd & Hl & Ha & Hv).
    exists tt. split; [by apply require_flattened_ok|].
    rewrite (proj2 (jws_members_ok jws p y s)) by done.
    rewrite Ho, Hsd, Hb. cbn. unfold loads_or. rewrite Hl. cbn. rewrite Ha.
    by rewrite (proj2 (verify_signature_ok _ _ _ _) Hv).
Qed.
End flattened.

(** ** Sorted members *)

Definition str_le (s t : string) : Prop := String.leb s t = true.
#[local] Instance str_le_antisym : AntiSymm eq str_le.
Proof. intros s t. apply String.leb_antisym. Qed.

Lemma str_le_trans s t u : str_le s t → str_le t u → str_le s u.
Proof.
  unfold str_le, String.leb. revert t u.
  induction s as [|a s IH]; intros [|b t] [|c u]; simpl; try done.
  unfold Ascii.compare.
  destruct (N.compare_spec (N_of_ascii a) (N_of_ascii b)) as [Hab|Hab|Hab]; try done;
    destruct (N.compare_spec (N_of_ascii b) (N_of_ascii c)) as [Hbc|Hbc|Hbc]; try done;
    destruct (N.compare_spec (N_of_ascii a) (N_of_ascii c)); try done; try lia.
  apply IH.
Qed.

Lemma insert_pair_perm kv d : insert_pair kv d ≡ₚ kv :: d.
Proof.
  induction d as [|kv' d IH]; simpl; [done|]. destruct (String.leb _ _); [done|].
  rewrite IH. by apply Permutation_swap.
Qed.
Lemma sort_pairs_perm d : sort_pairs d ≡ₚ d.
Proof.
  induction d as [|kv d IH]; [done|]. unfold sort_pairs in *. simpl.
  by rewrite insert_pair_perm, IH.
Qed.

Lemma insert_pair_sorted kv d :
  StronglySorted str_le d.*1 → StronglySorted str_le (insert_pair kv d).*1.
Proof.
  induction d as [|kv' d IH]; simpl; intros Hs; [by repeat constructor|].
  apply StronglySorted_inv in Hs as [Hs Hall]. destruct (String.leb kv.1 kv'.1) eqn:Hle; simpl.
  - constructor; [by constructor|]. constructor; [done|].
    eapply Forall_impl; [exact Hall|]. intros k Hk. by eapply str_le_trans.
  - constructor; [by apply IH|]. rewrite (insert_pair_perm kv d). simpl. constructor; [|done].
    destruct (String.leb_total kv.1 kv'.1) as [?|?]; [congruence|done].
Qed.
Lemma sort_pairs_sorted d : StronglySorted str_le (sort_pairs d).*1.
Proof.
  induction d as [|kv d IH]; [constructor|]. unfold sort_pairs in *. simpl.
  by apply insert_pair_sorted.
Qed.

Lemma dict_get_elem k v d : NoDup d.*1 → dict_get k d = Some v ↔ (k, v) ∈ d.
Proof.
  induction d as [|[k' v'] d IH]; cbn [dict_get fmap list_fmap fst snd].
  { split; [done|]. by intros ?%elem_of_nil. }
  intros [Hk' Hd]%NoDup_cons. rewrite elem_of_cons. case_decide as Hk.
  - subst k'. split; [intros [= ->]; by left|]. intros [[= ->]|Hin]; [done|].
    destruct Hk'. apply list_elem_of_fmap. by exists (k, v).
  - rewrite IH by done. split; [by right|]. by intros [[= ? ?]|?].
Qed.

Lemma dict_get_perm k d e : NoDup d.*1 → d ≡ₚ e → dict_get k d = dict_get k e.
Proof.
  intros Hd He. assert (NoDup e.*1) as Hd' by (by rewrite <- He).
  apply option_eq. intros v. rewrite !dict_get_elem by done. by rewrite He.
Qed.

Section members.
Context `{FloatEq}.

(** Two sorted lists of members compare pair by pair. *)
Lemma pairs_eq_spec d e :
  pairs_eq d e = true ↔ Forall2 (λ p q, p.1 = q.1 ∧ py_eq p.2 q.2 = true) d e.
Proof.
  unfold pairs_eq. split.
  - revert e. induction d as [|p d IH]; intros [|q e]; simpl; try done.
    rewrite !andb_true_iff, bool_decide_eq_true. intros (Hlen & [? ?] & Hall).
    constructor; [done|]. apply IH. by rewrite andb_true_iff.
  - induction 1 as [|p q d e [Hk Hv] _ IH]; [done|]. simpl in *.
    apply andb_true_iff in IH as [IH1 IH2].
    by rewrite Hk, Hv, bool_decide_eq_true_2, IH1, IH2.
Qed.

Definition same_value (v w : option json) : Prop :=
  match v, w with
  | Some v, Some w => py_eq v w = true
  | None, None => True
  | _, _ => False
  end.

Lemma pairs_eq_values d e :
  NoDup d.*1 → NoDup e.*1 → StronglySorted str_le d.*1 → StronglySorted str_le e.*1 →
  pairs_eq d e = true ↔ ∀ k, same_value (dict_get k d) (dict_get k e).
Proof.
  intros Hd He Hsd Hse. rewrite pairs_eq_spec. split.
  - intros Hall k. clear Hd He Hsd Hse.
    induction Hall as [|[k1 v1] [k2 v2] d e [Hk Hv] _ IH]; simpl in *; [done|].
    subst k2. case_decide; done.
  - intros Hsame. assert (d.*1 = e.*1) as Hkeys.
    { apply (StronglySorted_unique str_le); [done|done|]. apply NoDup_Permutation; [done|done|].
      assert (∀ (d : dict) k, NoDup d.*1 → k ∈ d.*1 ↔ is_Some (dict_get k d)) as Hin.
      { intros d' k Hd'. rewrite list_elem_of_fmap. split.
        - intros ([k' v] & -> & Hv). exists v. by apply dict_get_elem.
        - intros [v Hv%dict_get_elem]; [|done]. by exists (k, v). }
      intros k. rewrite !Hin by done. specialize (Hsame k).
      destruct (dict_get k d), (dict_get k e); simpl in Hsame; done. }
    apply Forall2_same_length_lookup_2.
    { by rewrite <- (length_fmap fst d), <- (length_fmap fst e), Hkeys. }
    intros i [k1 v1] [k2 v2] H1 H2.
    assert (k1 = k2) as <-.
    { assert (d.*1 !! i = Some k1) as Hi by (by rewrite list_lookup_fmap, H1).
      rewrite Hkeys, list_lookup_fmap, H2 in Hi. by injection Hi. }
    split; [done|]. specialize (Hsame k1). simpl.
    rewrite (proj2 (dict_get_elem k1 v1 d Hd)) in Hsame by (by eapply list_elem_of_lookup_2).
    by rewrite (proj2 (dict_get_elem k1 v2 e He)) in Hsame by (by eapply list_elem_of_lookup_2).
Qed.

Lemma canonical_jwk_spec d e :
  NoDup d.*1 → NoDup e.*1 →
  pairs_eq (canonical_jwk d) (canonical_jwk e) = true ↔
  ∀ k, k ≠ "alg"%string → same_value (dict_get k d) (dict_get k e).
Proof.
  assert (∀ d : dict, NoDup d.*1 → NoDup (dict_pop "alg" d).*1) as Hpop.
  { intros d' Hd'. unfold dict_pop. eapply sublist_NoDup; [exact Hd'|].
    apply fmap_sublist, sublist_filter. }
  intros Hd He. apply Hpop in Hd as Hd'. apply Hpop in He as He'. unfold canonical_jwk.
  rewrite pairs_eq_values by (apply sort_pairs_sorted || by rewrite sort_pairs_perm).
  assert (∀ (d : dict) k, NoDup (dict_pop "alg" d).*1 →
            dict_get k (sort_pairs (dict_pop "alg" d))
            = if decide ("alg"%string = k) then None else dict_get k d) as Hget.
  { intros d' k Hd''. rewrite <- dict_get_pop. symmetry. apply dict_get_perm; [done|].
    symmetry. apply sort_pairs_perm. }
  split; intros Hs k.
  - intros Hk. specialize (Hs k). rewrite !Hget in Hs by done.
    by rewrite !decide_False in Hs by done.
  - rewrite !Hget by done. case_decide; [done|]. apply Hs. congruence.
Qed.
End members.

(** ** The external account binding *)

Section binding.
Context `{JsonLoads, FloatEq}.

(** A binding of [account_jwk] under [mac_key] for the endpoint [url]. *)
Definition bound_by (eab_jws account_jwk : dict) (mac_key : list Z) (url : option string)
    (kid : json) : Prop :=
  dict_get "header" eab_jws = None ∧ dict_get "signatures" eab_jws = None ∧
  ∃ p y s octets payload header alg h jwk,
    dict_get "protected" eab_jws = Some (JStr p) ∧ dict_get "payload" eab_jws = Some (JStr y)
    ∧ dict_get "signature" eab_jws = Some (JStr s)
    ∧ base64url_decode p = inr octets ∧ loads octets = inr (JObj header)
    ∧ base64url_decode y = inr payload ∧ loads payload = inr (JObj jwk)
    ∧ dict_get "alg" header = Some (JStr alg)
    ∧ (alg, h) ∈ [("HS256", SHA256); ("HS384", SHA384); ("HS512", SHA512)]%string
    ∧ dict_get "kid" header = Some kid ∧ truthy (Some kid) = true
    ∧ (∀ u, url = Some u → dict_get "url" header = Some (JStr u))
    ∧ pairs_eq (canonical_jwk jwk) (canonical_jwk account_jwk) = true
    ∧ base64url_decode s = inr (hmac h mac_key (signing_input p y)).

Lemma hs_table alg h :
  (alg, h) ∈ [("HS256", SHA256); ("HS384", SHA384); ("HS512", SHA512)]%string ↔
  alg ∈ HS_ALGORITHMS ∧ hash_for_alg alg = inr h.
Proof.
  unfold HS_ALGORITHMS. rewrite !elem_of_cons, !elem_of_nil. split.
  - intros [?|[?|[?|[]]]]; simplify_eq; (split; [tauto|done]).
  - intros [[->|[->|[->|[]]]] Hh]; vm_compute in Hh; simplify_eq; tauto.
Qed.

Lemma verify_hmac_ok p y signature mac_key alg :
  verify_hmac p y signature mac_key alg = true ↔
  ∃ h, hash_for_alg alg = inr h ∧ signature = hmac h mac_key (signing_input p y).
Proof.
  unfold verify_hmac. destruct (hash_for_alg alg) as [|h].
  - split; [done|]. by intros (? & ? & _).
  - rewrite bool_decide_eq_true. split; [by intros <-; eexists|].
    by intros (h' & [= <-] & ->).
Qed.

Lemma url_matches url header :
  match url with
  | Some u => negb (bool_decide (dict_get "url" header = Some (JStr u)))
  | None => false
  end = false ↔ ∀ u, url = Some u → dict_get "url" header = Some (JStr u).
Proof.
  destruct url as [u|]; [|naive_solver]. rewrite negb_false_iff, bool_decide_eq_true.
  naive_solver.
Qed.

Lemma truthy_some v : truthy v = true → ∃ w, v = Some w.
Proof. destruct v as [w|]; [by exists w|done]. Qed.

(** C11 Exactly which external account bindings verify: one flattened JWS under
    the MAC key, with an HMAC of the algorithm its header names over its two
    members as spelled, a kid, the endpoint's URL when one is expected, and a
    payload that is the account's key. *)
Theorem verify_eab_iff eab_jws account_jwk mac_key url kid :
  verify_eab_jws eab_jws account_jwk mac_key url = inr kid ↔
  bound_by eab_jws account_jwk mac_key url kid.
Proof.
  unfold verify_eab_jws, bound_by. rewrite res_bind_ok. split.
  - intros ([] & [Hh Hs]%require_flattened_ok & Hm). split; [done|]. split; [done|].
    destruct (jws_members eab_jws) as [[[p y] s]|] eqn:Hj; [|done].
    apply jws_members_ok in Hj as (Hp & Hy & Hsg). res_ok Hm.
    match goal with E : or_else _ (loads_b64 p) = _ |- _ =>
      apply or_else_ok, loads_b64_ok in E as (octets & Ho & Hl) end.
    case_match; try done. case_match; try done. case_match; try done. subst. res_ok Hm.
    match goal with E : or_else _ (base64url_decode y) = _ |- _ => apply or_else_ok in E end.
    match goal with E : loads_or _ _ = _ |- _ => apply loads_or_ok in E end.
    case_match; try done. res_ok Hm. bool_hyps. 
    match goal with E : or_else _ (base64url_decode s) = _ |- _ => apply or_else_ok in E end.
    match goal with E : verify_hmac _ _ _ _ _ = true |- _ =>
      apply verify_hmac_ok in E as (h & Hh' & ->) end.
    match goal with E : truthy _ = true |- _ => destruct (truthy_some _ E) as [k Hk] end.
    rewrite Hk in *. subst kid. subst. simpl.
    do 9 eexists. split_and!; eauto; [by apply hs_table|by apply url_matches].
  - intros (Hh & Hs & p & y & s & octets & payload & header & alg & h & jwk & Hp & Hy & Hsg & Ho
            & Hl & Hb & Hlp & Ha & [Hin Hh']%hs_table & Hk & Ht & Hu%url_matches & Hpe & Hsd).
    exists tt. split; [by apply require_flattened_ok|].
    rewrite (proj2 (jws_members_ok eab_jws p y s)) by done.
    assert (loads_b64 p = inr (JObj header)) as -> by (apply loads_b64_ok; by exists octets).
    cbn. rewrite Ha, bool_decide_eq_true_2 by done. cbn [negb]. rewrite Hk, Ht. cbn [negb].
    rewrite Hu, Hb. cbn. unfold loads_or. rewrite Hlp. cbn. rewrite Hpe. cbn. rewrite Hsd. cbn.
    by rewrite (proj2 (verify_hmac_ok _ _ _ _ _)) by (by exists h).
Qed.
End binding.

(** ** The DER form of an ECDSA signature reads back

    A strict DER reader for SEQUENCE { r INTEGER, s INTEGER }, and the round
    trip with [_raw_ecdsa_to_der] of jws.py. *)

(** ** A strict reader *)

(** Definite lengths in their shortest form. *)
Definition read_length (l : list Z) : option (Z * list Z) :=
  match l with
  | [] => None
  | n :: l =>
    if n <? 128 then Some (n, l)
    else
      let k := Z.to_nat (n - 128) in
      let digits := take k l in
      if (length digits =? k)%nat && (0 <? default 0 (head digits)) && (128 <=? be_int digits)
      then Some (be_int digits, drop k l)
      else None
  end.

(** The contents of an element with tag [tag], and what follows it. *)
Definition read_element (tag : Z) (l : list Z) : option (list Z * list Z) :=
  match l with
  | t :: l =>
    if t =? tag then
      '(n, l) ← read_length l;
      if n <=? Z.of_nat (length l) then Some (take (Z.to_nat n) l, drop (Z.to_nat n) l)
      else None
    else None
  | [] => None
  end.

(** The contents of a non-negative INTEGER: the fewest octets. *)
Definition minimal_integer (l : list Z) : bool :=
  match l with
  | [] => false
  | [a] => a <? 128
  | a :: b :: _ => (a <? 128) && ((0 <? a) || (128 <=? b))
  end.
Definition read_integer (l : list Z) : option (Z * list Z) :=
  '(contents, l) ← read_element 2 l;
  if minimal_integer contents then Some (be_int contents, l) else None.

Definition read_signature (l : list Z) : option (Z * Z) :=
  '(body, rest) ← read_element 48 l;
  '(r, body) ← read_integer body;
  '(s, body) ← read_integer body;
  if bool_decide (rest = [] ∧ body = []) then Some (r, s) else None.

(** ** Octets of an integer *)

Lemma be_byte_eq n z : Z.land (Z.shiftr z (8 * Z.of_nat n)) 255 = z / 256 ^ Z.of_nat n mod 256.
Proof.
  change 255 with (Z.ones 8). rewrite Z.land_ones by lia. rewrite Z.shiftr_div_pow2 by lia.
  rewrite Z.pow_mul_r by lia. done.
Qed.

Lemma be_int_be_bytes n z : be_int (be_bytes n z) = z mod 256 ^ Z.of_nat n.
Proof.
  revert z. induction n as [|n IH]; intros z.
  - cbn. by rewrite Z.mod_1_r.
  - cbn [be_bytes]. rewrite be_int_cons, length_be_bytes, IH, be_byte_eq.
    rewrite Nat2Z.inj_succ, Z.pow_succ_r by lia.
    rewrite (Z.mul_comm 256), Z.rem_mul_r by lia. lia.
Qed.

(** ** INTEGER *)

Lemma bit_length_spec z :
  0 ≤ z → z < 2 ^ bit_length z ∧ (0 < z → 2 ^ (bit_length z - 1) ≤ z) ∧ 0 ≤ bit_length z.
Proof.
  intros Hz. unfold bit_length. destruct (Z.eqb_spec z 0) as [->|Hnz]; [done|].
  rewrite Z.abs_eq by done. destruct (Z.log2_spec z) as [Hlo Hhi]; [lia|].
  rewrite <- Z.add_1_r in Hhi. pose proof (Z.log2_nonneg z).
  split_and!; [done|intros _; by replace (Z.log2 z + 1 - 1) with (Z.log2 z) by lia|lia].
Qed.

Definition octet_count (z : Z) : nat := Z.to_nat ((bit_length z + 8) / 8).

Lemma octet_count_spec z :
  0 ≤ z → ∃ k, octet_count z = S k ∧ 8 * Z.of_nat k ≤ bit_length z < 8 * Z.of_nat (S k).
Proof.
  intros Hz. destruct (bit_length_spec z Hz) as (_ & _ & Hb). unfold octet_count.
  pose proof (Z.div_mod (bit_length z + 8) 8 ltac:(lia)) as Hdm.
  pose proof (Z.mod_pos_bound (bit_length z + 8) 8 ltac:(lia)) as Hm.
  exists (Z.to_nat ((bit_length z + 8) / 8 - 1)). lia.
Qed.

(** The first octet never needs the zero that the code provides for. *)
Lemma first_octet z k :
  0 ≤ z → octet_count z = S k → 0 ≤ z / 256 ^ Z.of_nat k < 128.
Proof.
  intros Hz Hk. destruct (octet_count_spec z Hz) as (k' & Hk' & Hb).
  assert (k' = k) as -> by lia. destruct (bit_length_spec z Hz) as (Hlt & _ & _).
  split; [apply Z.div_pos; lia|]. apply Z.div_lt_upper_bound; [lia|].
  eapply Z.lt_le_trans; [exact Hlt|].
  replace (256 ^ Z.of_nat k * 128) with (2 ^ (8 * Z.of_nat k + 7))
    by (rewrite Z.pow_add_r, Z.pow_mul_r by lia; done).
  apply Z.pow_le_mono_r; lia.
Qed.

Lemma integer_octets z :
  0 ≤ z →
  integer_to_der_bytes z
  = 2 :: length_bytes (Z.of_nat (octet_count z)) ++ be_bytes (octet_count z) z.
Proof.
  intros Hz. unfold integer_to_der_bytes. cbv zeta.
  destruct (octet_count_spec z Hz) as (k & Hk & Hb).
  assert ((bit_length z + 8) / 8 =? 0 = false) as ->.
  { apply Z.eqb_neq. unfold octet_count in Hk. lia. }
  fold (octet_count z). rewrite Hk. cbn [be_bytes head default id].
  rewrite be_byte_eq. pose proof (first_octet z k Hz Hk) as Hf.
  rewrite (Z.mod_small _ 256) by lia.
  assert (Z.land (z / 256 ^ Z.of_nat k) 128 = 0) as ->.
  { change 128 with (2 ^ 7). apply Z.bits_inj'. intros i Hi.
    rewrite Z.land_spec, Z.pow2_bits_eqb, Z.bits_0 by lia.
    destruct (Z.eqb_spec 7 i) as [<-|]; [|by rewrite andb_false_r].
    rewrite Z.bits_above_log2; [done|lia|]. 
    destruct (Z.eq_dec (z / 256 ^ Z.of_nat k) 0) as [->|]; [done|].
    apply Z.log2_lt_pow2; lia. }
  simpl. by rewrite length_be_bytes.
Qed.

Lemma minimal_octets z : 0 ≤ z → minimal_integer (be_bytes (octet_count z) z) = true.
Proof.
  intros Hz. destruct (octet_count_spec z Hz) as (k & Hk & Hb). rewrite Hk.
  pose proof (first_octet z k Hz Hk) as Hf. destruct (bit_length_spec z Hz) as (_ & Hge & _).
  destruct k as [|k]; cbn [be_bytes minimal_integer]; rewrite be_byte_eq, (Z.mod_small _ 256) by lia.
  { apply Z.ltb_lt, Hf. }
  apply andb_true_iff. split; [apply Z.ltb_lt, Hf|].
  destruct (Z.ltb_spec 0 (z / 256 ^ Z.of_nat (S k))) as [|Hle]; [done|]. simpl.
  apply Z.leb_le. rewrite be_byte_eq.
  assert (0 < z) as Hpos.
  { destruct (Z.eq_dec z 0) as [->|]; [|lia]. cbn in Hb. lia. }
  assert (z < 256 ^ Z.of_nat (S k)) as Hsmall.
  { assert (z / 256 ^ Z.of_nat (S k) = 0) as H0 by lia.
    apply Z.div_small_iff in H0; [|lia]. lia. }
  rewrite Nat2Z.inj_succ, Z.pow_succ_r in Hsmall by lia.
  rewrite Z.mod_small; [|split; [apply Z.div_pos; lia|apply Z.div_lt_upper_bound; lia]].
  apply Z.div_le_lower_bound; [lia|]. etrans; [|by apply Hge].
  replace (256 ^ Z.of_nat k * 128) with (2 ^ (8 * Z.of_nat k + 7))
    by (rewrite Z.pow_add_r, Z.pow_mul_r by lia; done).
  apply Z.pow_le_mono_r; lia.
Qed.

Lemma octets_value z : 0 ≤ z → be_int (be_bytes (octet_count z) z) = z.
Proof.
  intros Hz. rewrite be_int_be_bytes. apply Z.mod_small. split; [done|].
  destruct (octet_count_spec z Hz) as (k & -> & Hb).
  destruct (bit_length_spec z Hz) as (Hlt & _ & _).
  eapply Z.lt_le_trans; [exact Hlt|]. change 256 with (2 ^ 8).
  rewrite <- Z.pow_mul_r by lia. apply Z.pow_le_mono_r; lia.
Qed.

(** ** The round trip *)

Lemma length_bytes_long n : 128 ≤ n < 256 → length_bytes n = [129; n].
Proof.
  intros Hn.
  assert (forallb (λ i, bool_decide (length_bytes (Z.of_nat i) = [129; Z.of_nat i]))
            (seq 128 128) = true) as H by (by vm_compute).
  rewrite forallb_forall in H. specialize (H (Z.to_nat n)).
  rewrite Z2Nat.id in H by lia. apply bool_decide_eq_true in H; [done|]. apply in_seq. lia.
Qed.

Lemma read_length_bytes n l : 0 ≤ n < 256 → read_length (length_bytes n ++ l) = Some (n, l).
Proof.
  intros Hn. destruct (Z.ltb_spec n 128).
  - unfold length_bytes. rewrite (proj2 (Z.ltb_lt n 128)) by done. cbn [app read_length].
    by rewrite (proj2 (Z.ltb_lt n 128)).
  - rewrite length_bytes_long by lia. unfold read_length. cbn [app].
    change (Z.to_nat (129 - 128)) with 1%nat. change (129 <? 128) with false.
    change (take 1 (n :: l)) with [n]. change (drop 1 (n :: l)) with l.
    assert (be_int [n] = n) as -> by (cbn; lia).
    rewrite (proj2 (Z.leb_le 128 n)) by lia.
    cbn. by rewrite (proj2 (Z.ltb_lt 0 n)) by lia.
Qed.

Lemma read_element_spec tag c l :
  (length c < 256)%nat →
  read_element tag (tag :: length_bytes (Z.of_nat (length c)) ++ c ++ l) = Some (c, l).
Proof.
  intros Hc. unfold read_element. rewrite Z.eqb_refl, read_length_bytes by lia. simpl.
  rewrite (proj2 (Z.leb_le _ _)) by (rewrite length_app; lia).
  by rewrite Nat2Z.id, take_app_length, drop_app_length.
Qed.

Lemma read_integer_spec z l :
  0 ≤ z → (octet_count z < 256)%nat →
  read_integer (integer_to_der_bytes z ++ l) = Some (z, l).
Proof.
  intros Hz Hn. rewrite integer_octets by done. unfold read_integer.
  pose proof (length_be_bytes (octet_count z) z) as Hlen. rewrite <- Hlen at 1.
  cbn [app]. rewrite <- app_assoc, read_element_spec by lia. simpl.
  by rewrite minimal_octets, octets_value.
Qed.

Lemma octet_count_bound z n : 0 ≤ z < 256 ^ Z.of_nat n → (octet_count z ≤ S n)%nat.
Proof.
  intros [Hz Hlt]. destruct (octet_count_spec z Hz) as (k & -> & Hb).
  destruct (bit_length_spec z Hz) as (_ & Hge & _).
  destruct (decide (k ≤ n)%nat) as [|Hk]; [lia|]. exfalso.
  assert (0 < z) as Hpos.
  { destruct (Z.eq_dec z 0) as [->|]; [|lia]. cbn in Hb. lia. }
  specialize (Hge Hpos). change 256 with (2 ^ 8) in Hlt. rewrite <- Z.pow_mul_r in Hlt by lia.
  assert (2 ^ (8 * Z.of_nat n) ≤ 2 ^ (bit_length z - 1)) by (apply Z.pow_le_mono_r; lia).
  lia.
Qed.

Lemma length_integer_der z : 0 ≤ z → (octet_count z < 128)%nat →
  length (integer_to_der_bytes z) = (2 + octet_count z)%nat.
Proof.
  intros Hz Hn. rewrite integer_octets by done. unfold length_bytes.
  rewrite (proj2 (Z.ltb_lt _ 128)) by lia. cbn [length app]. by rewrite length_be_bytes.
Qed.

(** C23 The DER signature handed to the backend is the strict DER encoding of
    exactly the two numbers the raw signature spells, for every coordinate
    width in use. *)
Theorem ecdsa_der_roundtrip signature width der :
  Forall is_byte signature → width ∈ [32; 48; 66] →
  raw_ecdsa_to_der signature width = inr der →
  read_signature der
  = Some (be_int (take (Z.to_nat width) signature), be_int (drop (Z.to_nat width) signature)).
Proof.
  intros Hs Hw. unfold raw_ecdsa_to_der.
  destruct (Z.eqb_spec (Z.of_nat (length signature)) (2 * width)) as [Hlen|]; [|done].
  cbn [negb]. cbv zeta.
  set (n := Z.to_nat width). set (r := be_int (take n signature)).
  set (s := be_int (drop n signature)).
  assert (n ≤ 66 ∧ length signature = n + n)%nat as [Hn Hln].
  { unfold n. repeat (apply elem_of_cons in Hw as [->|Hw]; [lia|]). by apply not_elem_of_nil in Hw. }
  assert (0 ≤ r < 256 ^ Z.of_nat n) as Hr.
  { pose proof (be_int_bound (take n signature) (Forall_take _ _ _ Hs)) as Hb.
    by rewrite length_take_le in Hb by lia. }
  assert (0 ≤ s < 256 ^ Z.of_nat n) as Hss.
  { pose proof (be_int_bound (drop n signature) (Forall_drop _ _ _ Hs)) as Hb.
    rewrite length_drop in Hb. by replace (length signature - n)%nat with n in Hb by lia. }
  pose proof (octet_count_bound r n Hr). pose proof (octet_count_bound s n Hss).
  set (body := integer_to_der_bytes r ++ integer_to_der_bytes s). intros Hder.
  replace der with (48 :: length_bytes (Z.of_nat (length body)) ++ body ++ [])
    by (rewrite app_nil_r; congruence).
  unfold read_signature.
  assert (length body < 256)%nat as Hbody.
  { unfold body. rewrite length_app, !length_integer_der by lia. lia. }
  rewrite read_element_spec by done. simpl. unfold body.
  rewrite read_integer_spec by lia. simpl.
  rewrite <- (app_nil_r (integer_to_der_bytes s)). rewrite read_integer_spec by lia. simpl. done.
Qed.

Theorem ecdsa_der_roundtrip_witness :
  Forall is_byte (replicate 32 255 ++ replicate 31 0 ++ [7]) ∧ 32 ∈ [32; 48; 66] ∧
  raw_ecdsa_to_der (replicate 32 255 ++ replicate 31 0 ++ [7]) 32
  = inr (48 :: 38 :: 2 :: 33 :: 0 :: replicate 32 255 ++ [2; 1; 7]) ∧
  read_signature (48 :: 38 :: 2 :: 33 :: 0 :: replicate 32 255 ++ [2; 1; 7])
  = Some (2 ^ 256 - 1, 7).
Proof.
  assert (Forall is_byte (replicate 32 255 ++ replicate 31 0 ++ [7])) as Hb.
  { repeat (constructor; [done|]). constructor. }
  assert (32 ∈ [32; 48; 66]) as Hw by (by left).
  split; [exact Hb|]. split; [exact Hw|]. split; [by vm_compute|].
  etransitivity;
    [apply (ecdsa_der_roundtrip (replicate 32 255 ++ replicate 31 0 ++ [7]) 32 _ Hb Hw);
     by vm_compute|by vm_compute].
Defined.
