(* ===== verification/AuthTheorems.v ===== *)
(** * What an authenticated request is

    [authenticate_account] of app_state.py: what it may do to the server, and
    what is true of a request it accepts. *)

From S2P Require Import Prelude PyStr Exn Base64 Json Jwk Sql Db StoreAudit StoreAccounts.
From S2P Require Import StoreOrders Act World Coalesce X509 CsrCheck StoreCerts Responses.
From S2P Require Import Finalize RoutesOrders RoutesAccounts Jws Http Url ServerJws.
From S2P Require Import StoreInv StoreOps Calm CalmActs NonceTheorems HttpTheorems JwsTheorems.
Local Open Scope Z_scope.

(** ** Running a program alone, backwards *)

Lemma run_bind_ok {W A B} (m : Act W A) (k : A → Act W B) w y w' :
  run (m ≫= k) w = Some (inr y, w') →
  ∃ x w1, run m w = Some (inr x, w1) ∧ run (k x) w1 = Some (inr y, w').
Proof.
  rewrite run_bind. destruct (run m w) as [[[e|x] w1]|]; [done| |done].
  intros Hk. by exists x, w1.
Qed.
Lemma run_of_res_ok {W A} (r : Res Exn A) (w : W) x w' :
  run (act_of_res r) w = Some (inr x, w') → r = inr x ∧ w' = w.
Proof. unfold act_of_res. simpl. by intros [= -> ->]. Qed.
Lemma run_db_ok {A} (m : Z → Tx A) w x w' :
  run (db m) w = Some (inr x, w') →
  ∃ d fs, m (w_now w) (w_db w) = inr (x, d) ∧ w' = set_db d (set_faults fs w).
Proof.
  unfold db. rewrite run_atomic.
  destruct (store_cases (m (w_now w)) w) as [(fs & _ & e & He)|(fs & y & d & Hm & ->)].
  - destruct (store (m (w_now w)) w) as [r w1]. simpl in He. by rewrite He.
  - intros [= -> <-]. by exists d, fs.
Qed.
Lemma run_db_ro_ok {A} (m : Z → Tx A) w x w' :
  (∀ now, tx_ro (m now)) → run (db m) w = Some (inr x, w') →
  m (w_now w) (w_db w) = inr (x, w_db w) ∧ ∃ fs, w' = set_faults fs w.
Proof.
  intros Hro (d & fs & Hm & ->)%run_db_ok. pose proof (Hro _ _ _ _ Hm) as ->.
  split; [done|]. exists fs. by destruct w.
Qed.

(** Take a successful run apart. *)
Ltac run_ok H :=
  let x := fresh "x" in let w := fresh "w" in let Hm := fresh "Hrun" in
  apply run_bind_ok in H as (x & w & Hm & H).

(** A calm program that ran alone keeps the database well formed. *)
Lemma calm_run {A} (m : Act World A) w r w' :
  calm_prog m → run m w = Some (r, w') → calm_w w w'.
Proof.
  revert m w. fix IH 1. intros [r0|f] w Hm; simpl; [by intros [= -> ->]|].
  specialize (Hm w). destruct (f w) as [[w1 m1]|]; [|done]. destruct Hm as [Hc Hm].
  intros Hrun. etrans; [exact Hc|by eapply IH].
Qed.
Lemma calm_run_wf {A} (m : Act World A) w r w' :
  calm_prog m → run m w = Some (r, w') → wf (w_db w) → wf (w_db w').
Proof. intros Hm Hr Hwf. by apply (calm_run _ _ _ _ Hm Hr). Qed.

(** ** Account URLs *)

Lemma split_once_spec c l k r :
  split_once c l = (k, r) → l = k ++ from_option (cons c) [] r ∧ c ∉ k.
Proof.
  revert k r. induction l as [|x l IH]; intros k r; simpl.
  { intros [= <- <-]. split; [done|apply not_elem_of_nil]. }
  case_bool_decide as Hx; [intros [= <- <-]; subst; split; [done|apply not_elem_of_nil]|].
  destruct (split_once c l) as [k' r']. intros [= <- <-].
  destruct (IH k' r' eq_refl) as [-> Hk]. split; [done|]. set_solver.
Qed.

Lemma startswith_drop s p : startswith s p = true → s = (p +:+ of_chars (drop (length (chars p)) (chars s))).
Proof.
  intros (t & ->)%startswith_spec. apply chars_inj. autorewrite with pystr.
  by rewrite <- length_chars, drop_app_length.
Qed.

(** A kid that names an account is its URL, or continues it with a slash. *)
Lemma kid_account_url `{ServerConfig} kid id :
  kid_to_account_id kid account_url_prefix = inr id →
  ∃ rest, kid = account_url id +:+ rest ∧ (rest = EmptyString ∨ startswith rest "/" = true).
Proof.
  unfold kid_to_account_id. cbv zeta.
  assert ((rstrip_char "/" account_url_prefix +:+ "/")%string = url "/acme/acct/") as ->.
  { apply chars_inj. unfold account_url_prefix, url, rstrip_char. autorewrite with pystr.
    change (chars "/acme/acct") with (chars "/acme/acc" ++ ["t"%char]).
    rewrite app_assoc, rdrop_while_snoc_neg by done. by rewrite <- !app_assoc. }
  destruct (startswith kid _) eqn:Hs; [|done]. cbn [negb]. intros [= <-].
  apply startswith_drop in Hs. set (rest := drop _ _) in *.
  destruct (split_once "/" rest) as [k r] eqn:Hr. apply split_once_spec in Hr as [Heq _].
  exists (of_chars (from_option (cons "/"%char) [] r)). split.
  - rewrite Hs, Heq. apply chars_inj. unfold account_url, url. autorewrite with pystr.
    by rewrite <- !app_assoc.
  - destruct r as [r|]; [right|by left]. apply startswith_spec. by exists (of_chars r).
Qed.

Section authenticate.
Context `{ServerConfig, JsonLoads, SignatureBackend, KeyBackend, NetlocCheck, CertParser}.

(** ** Calm *)

Lemma calm_enforce_usable a : calm_prog (enforce_account_usable a).
Proof. unfold enforce_account_usable. calm_auto. Qed.
Hint Resolve calm_enforce_usable : calm_act.
Lemma calm_consume_header header : calm_prog (consume_header_nonce header).
Proof using H H4.
  unfold consume_header_nonce. case_match; [auto with calm_act|].
  case_match; [case_match|]; auto with calm_act. apply calm_prog_bind; [|intros []; auto with calm_act].
  apply calm_prog_db_tx. auto with calm_act.
Qed.
Hint Resolve calm_consume_header : calm_act.
Lemma calm_parse_header request u : calm_prog (parse_jws_header request u).
Proof using H H0 H1 H2 H3 H4. unfold parse_jws_header. calm_auto. Qed.
Hint Resolve calm_parse_header : calm_act.
Lemma calm_verify_existing request u : calm_prog (verify_existing_account_jws request u).
Proof using H H0 H1 H2 H3 H4. unfold verify_existing_account_jws. calm_auto. Qed.
Lemma calm_verify_new request u : calm_prog (verify_new_account_jws request u).
Proof using H H0 H1 H2 H3 H4. unfold verify_new_account_jws. calm_auto. Qed.
Hint Resolve calm_verify_existing : calm_act.
Lemma calm_authenticate_account request path : calm_prog (authenticate_account request path).
Proof using H H0 H1 H2 H3 H4. unfold authenticate_account. calm_auto. Qed.
Lemma calm_authenticate request path : calm_prog (authenticate request path).
Proof using H H0 H1 H2 H3 H4.
  unfold authenticate. apply calm_prog_bind; [apply calm_authenticate_account|].
  intros x. apply calm_prog_ret.
Qed.
End authenticate.

(** ** Sound *)

(** The URL a header names and the one expected agree in every part that is
    compared. *)
Definition url_bound `{NetlocCheck} (header : dict) (expected : string) : Prop :=
  ∃ v hp ep, dict_get "url" header = Some v ∧ urlparse (py_str v) = inr hp
    ∧ urlparse expected = inr ep ∧ scheme hp ≠ EmptyString ∧ netloc hp ≠ EmptyString
    ∧ scheme hp = scheme ep ∧ netloc hp = netloc ep ∧ path hp = path ep ∧ query hp = query ep.

Lemma verify_url_bound `{NetlocCheck} header expected :
  verify_url header expected = inr tt → url_bound header expected.
Proof.
  unfold verify_url, url_bound. destruct (truthy _) eqn:Ht; [|done]. cbn [negb].
  apply truthy_some in Ht as [v Hv]. rewrite Hv. simpl. rewrite res_bind_ok.
  intros (hp & Hhp & Hok). rewrite res_bind_ok in Hok. destruct Hok as (ep & Hep & Hok).
  repeat (case_bool_decide; cbn [negb orb] in Hok; try discriminate Hok).
  by exists v, hp, ep.
Qed.

Section sound.
Context `{ServerConfig, JsonLoads, SignatureBackend, KeyBackend, NetlocCheck}.

(** The octets of a request, as a JWS and its protected header. *)
Definition request_jws (request : Request) (jws header : dict) : Prop :=
  ∃ raw group body p octets,
    content_types request = [raw] ∧ match_media_type (chars raw) = Some group
    ∧ lower (of_chars group) = JOSE_JSON
    ∧ read_body_limited request (max_jws_body_size_bytes config) BODY_TOTAL_TIMEOUT = inr body
    ∧ loads body = inr (JObj jws) ∧ dict_get "protected" jws = Some (JStr p)
    ∧ base64url_decode p = inr octets ∧ loads octets = inr (JObj header).

Lemma require_jose_ok request :
  require_jose_json request = inr tt →
  ∃ raw group, content_types request = [raw] ∧ match_media_type (chars raw) = Some group
    ∧ lower (of_chars group) = JOSE_JSON.
Proof.
  unfold require_jose_json. cbv zeta.
  destruct (content_types request) as [|raw [|raw' l]]; simpl; try done.
  - destruct (slen raw <=? MAX_CONTENT_TYPE_CHARS); [|done].
    destruct (match_media_type (chars raw)) as [group|] eqn:Hm; [|done].
    case_bool_decide as Hl; [|done]. intros _. by exists raw, group.
  - rewrite (proj2 (Z.ltb_lt _ _)) by lia. done.
Qed.

Lemma request_jws_ok request jws header :
  parse_jws_body request = inr jws → protected_header jws = inr header →
  request_jws request jws header.
Proof.
  unfold parse_jws_body, protected_header. rewrite res_bind_ok.
  intros ([] & (raw & group & Hct & Hm & Hl)%require_jose_ok & Hb).
  rewrite res_bind_ok in Hb. destruct Hb as (body & Hread & Hb).
  case_bool_decide; [done|]. rewrite res_bind_ok in Hb.
  destruct Hb as (data & Hd%loads_or_ok & Hb). destruct data; try done. injection Hb as ->.
  rewrite res_bind_ok. intros ([] & _ & Hp).
  destruct (dict_get "protected" jws) as [[| | | |p| |]|] eqn:Hpr; try done.
  rewrite res_bind_ok in Hp. destruct Hp as (h & (octets & Ho & Hlo)%or_else_ok%loads_b64_ok & Hp).
  destruct h; try done. injection Hp as ->. by exists raw, group, body, p, octets.
Qed.

Lemma nonce_ok header w w' :
  wf (w_db w) → run (consume_header_nonce header) w = Some (inr tt, w') →
  ∃ n d fs, dict_get "nonce" header = Some (JStr n) ∧ nonce_live (w_now w) n (w_db w)
    ∧ w' = set_db d (set_faults fs w) ∧ (∀ x, x ∈ nonces d → Nonce.nonce x ≠ n)
    ∧ consume_nonce (w_now w) (JStr n) (w_db w) = inr (true, d).
Proof.
  intros Hwf. unfold consume_header_nonce. destruct (truthy _); [|done]. cbn [negb].
  destruct (dict_get "nonce" header) as [[| | | |n| |]|]; try done. intros Hr. run_ok Hr.
  destruct x; [|done]. apply run_db_ok in Hrun as (d & fs & Hc & ->). injection Hr as <-.
  destruct (consume_nonce_ok (w_now w) n (w_db w) Hwf) as (b & d' & Heq & Hb & Hgone & _).
  rewrite Hc in Heq. injection Heq as <- <-. exists n, d, fs.
  split_and!; [done|by apply Hb|done|by apply Hgone|done].
Qed.

Lemma consume_only_nonces now n d d' b :
  consume_nonce now n d = inr (b, d') →
  accounts d' = accounts d ∧ orders d' = orders d ∧ certificates d' = certificates d
  ∧ audit_log d' = audit_log d.
Proof.
  unfold consume_nonce, mbind, tx_bind, tx_fetchone, tx_delete. 
  destruct n; try by intros [= _ <-]. destruct (fetchone _ _); by intros [= _ <-].
Qed.

Lemma enforce_ok account w w' :
  run (enforce_account_usable account) w = Some (inr tt, w') →
  Account.status account = AccountStatus.VALID ∧ Account.eab_kid account ∈ eab_kids config
  ∧ w' = w.
Proof.
  unfold enforce_account_usable.
  case_bool_decide as Hs; cbn [negb].
  - case_bool_decide as Hk; cbn [negb].
    + intros Hr. by injection Hr as <-.
    + intros Hr. run_ok Hr. done.
  - intros Hr. run_ok Hr. done.
Qed.

Lemma get_account_ok id w a w' :
  run (db (λ _, get_account id)) w = Some (inr (Some a), w') →
  a ∈ accounts (w_db w) ∧ Account.id a = id ∧ ∃ fs, w' = set_faults fs w.
Proof.
  intros (Hm & fs & ->)%run_db_ro_ok; [|intros; apply tx_ro_get_account].
  injection Hm as Hm. apply fetchone_Some in Hm as [Hid Hin].
  split_and!; [done|done|by exists fs].
Qed.

(** Two reads with nothing between them see one row. *)
Lemma same_account id w a w1 b w2 :
  run (db (λ _, get_account id)) w = Some (inr (Some a), w1) →
  run (db (λ _, get_account id)) w1 = Some (inr (Some b), w2) → b = a.
Proof.
  intros (Hm & fs & ->)%run_db_ro_ok; [|intros; apply tx_ro_get_account].
  intros (Hm' & _)%run_db_ro_ok; [|intros; apply tx_ro_get_account].
  simpl in Hm'. rewrite Hm in Hm'. by injection Hm'.
Qed.

Lemma header_kid_ok header kid :
  header_kid header = inr kid → dict_get "kid" header = Some (JStr kid).
Proof.
  unfold header_kid. destruct (truthy _); [|done]. cbn [negb].
  destruct (dict_get "kid" header) as [[| | | |k| |]|]; try done.
  case_bool_decide; [done|]. by intros [= ->].
Qed.

Lemma verify_signature_payload jws key payload :
  verify_jws_signature jws key = inr payload →
  ∃ octets, signed_by jws key octets
    ∧ (octets = [] ∧ payload = [] ∨ loads octets = inr (JObj payload)).
Proof.
  unfold verify_jws_signature. rewrite res_bind_ok. intros (octets & Hv & Hp).
  exists octets. split.
  - apply verify_flattened_iff.
    destruct (verify_flattened_jws jws key) as [[]|]; simpl in Hv; try done; congruence.
  - case_bool_decide as Hn; [injection Hp as <-; by left|right].
    rewrite res_bind_ok in Hp. destruct Hp as (v & Hl%loads_or_ok & Hp).
    destruct v; try done. by injection Hp as ->.
Qed.

(** The key an account row holds, with its RFC 7638 thumbprint. *)
Lemma stored_key_ok account key tp :
  stored_key account = inr (key, tp) →
  ∃ jwk, load_json (Account.jwk_json account) = inr jwk
    ∧ public_key_from_jwk jwk = inr key ∧ jwk_thumbprint jwk = inr tp.
Proof.
  unfold stored_key. rewrite res_bind_ok. intros (jwk & Hj & Hr).
  rewrite res_bind_ok in Hr. destruct Hr as (k & Hk & Hr).
  rewrite res_bind_ok in Hr. destruct Hr as (t & Ht & Hr). injection Hr as -> ->.
  by exists jwk.
Qed.

Lemma parse_header_ok request u w header jws w' :
  wf (w_db w) → run (parse_jws_header request u) w = Some (inr (header, jws), w') →
  request_jws request jws header ∧ url_bound header u ∧
  ∃ n d fs, dict_get "nonce" header = Some (JStr n) ∧ nonce_live (w_now w) n (w_db w)
    ∧ w' = set_spent ({[request_id request]} ∪ w_spent w) (set_db d (set_faults fs w))
    ∧ (∀ x, x ∈ nonces d → Nonce.nonce x ≠ n)
    ∧ consume_nonce (w_now w) (JStr n) (w_db w) = inr (true, d).
Proof.
  intros Hwf Hr. unfold parse_jws_header in Hr.
  run_ok Hr. apply run_of_res_ok in Hrun as [Hbody ->].
  run_ok Hr. apply run_of_res_ok in Hrun as [Hhead ->].
  run_ok Hr. destruct x1.
  apply nonce_ok in Hrun as (n & d & fs & Hn & Hlive & -> & Hgone & Hc); [|done].
  run_ok Hr. injection Hrun as <- <-.
  run_ok Hr. apply run_of_res_ok in Hrun as [Hurl ->]. destruct x1.
  injection Hr as <- <- <-. split; [by apply request_jws_ok|]. split; [by apply verify_url_bound|].
  by exists n, d, fs.
Qed.

(** A request that speaks for an account: the parts, and what binds them. *)
Definition authentic (request : Request) (endpoint : string) (w : World)
    (header payload : dict) (account : Account.t) (tp : string) : Prop :=
  ∃ jws nonce kid rest jwk key octets,
    request_jws request jws header
    ∧ dict_get "nonce" header = Some (JStr nonce) ∧ nonce_live (w_now w) nonce (w_db w)
    ∧ url_bound header (url endpoint)
    ∧ dict_get "kid" header = Some (JStr kid)
    ∧ kid = account_url (Account.id account) +:+ rest
    ∧ (rest = EmptyString ∨ startswith rest "/" = true)
    ∧ account ∈ accounts (w_db w)
    ∧ load_json (Account.jwk_json account) = inr jwk
    ∧ public_key_from_jwk jwk = inr key ∧ jwk_thumbprint jwk = inr tp
    ∧ signed_by jws key octets
    ∧ (octets = [] ∧ payload = [] ∨ loads octets = inr (JObj payload))
    ∧ Account.status account = AccountStatus.VALID
    ∧ Account.eab_kid account ∈ eab_kids config.

(** What using up a nonce leaves alone. *)
Definition same_rows (w w' : World) : Prop :=
  accounts (w_db w') = accounts (w_db w) ∧ orders (w_db w') = orders (w_db w)
  ∧ certificates (w_db w') = certificates (w_db w)
  ∧ audit_log (w_db w') = audit_log (w_db w).

Definition nonce_gone (header : dict) (w' : World) : Prop :=
  ∃ n, dict_get "nonce" header = Some (JStr n) ∧ ∀ x, x ∈ nonces (w_db w') → Nonce.nonce x ≠ n.

Lemma authenticate_ok request endpoint w header payload account tp w' :
  wf (w_db w) →
  run (authenticate_account request endpoint) w
  = Some (inr (header, (payload, account, tp)), w') →
  authentic request endpoint w header payload account tp
  ∧ nonce_gone header w' ∧ same_rows w w' ∧ w_now w' = w_now w
  ∧ request_id request ∈ w_spent w'.
Proof.
  intros Hwf Hr. unfold authenticate_account, verify_existing_account_jws in Hr. run_ok Hr.
  rename Hrun into Hv. run_ok Hv. destruct x0 as [h jws].
  apply parse_header_ok in Hrun as (Hjws & Hurl & n & d & fs & Hn & Hlive & -> & Hgone & Hc);
    [|done].
  apply consume_only_nonces in Hc as (Ha & Ho & Hce & Hau).
  run_ok Hv. apply run_of_res_ok in Hrun as [Hkid%header_kid_ok ->]. rename x0 into kid.
  run_ok Hv. apply run_of_res_ok in Hrun as [Hid%kid_account_url ->]. rename x0 into id.
  destruct Hid as (rest & Hkr & Hrest).
  run_ok Hv. destruct x0 as [a|]; [|done]. rename Hrun into Hg1.
  run_ok Hv. apply run_of_res_ok in Hrun as [Hkey%or_else_ok ->]. destruct x0 as [key t].
  apply stored_key_ok in Hkey as (jwk & Hj & Hpk & Ht).
  run_ok Hv. apply run_of_res_ok in Hrun as [Hp ->]. injection Hv as <- <-. rename x0 into pl.
  apply verify_signature_payload in Hp as (octets & Hsig & Hpl).
  run_ok Hr. destruct x as [b|]; [|done]. rename Hrun into Hg2.
  run_ok Hr. destruct x. apply enforce_ok in Hrun as (Hs & Hk & ->).
  injection Hr as <- <- <- <- <-.
  pose proof (same_account _ _ _ _ _ _ Hg1 Hg2) as ->.
  apply get_account_ok in Hg1 as (Hin & Hida & fs1 & ->).
  apply get_account_ok in Hg2 as (_ & _ & fs2 & ->). simpl in *.
  rewrite Ha in Hin. subst id.
  split; [by exists jws, n, kid, rest, jwk, key, octets|].
  split; [by exists n|]. split_and!; try done. set_solver.
Qed.

(** C5 An accepted request is authentic: its one body is a JWS of the ACME
    media type whose nonce was live and is now used up, whose header is bound
    to this server's URL for the endpoint and names the account's URL, and
    which verifies under the very key stored for that account, whose
    thumbprint is returned; the account is valid and its EAB kid still on the
    allow list; and nothing but the nonce changed. *)
Theorem authenticate_sound request endpoint w header payload account tp w' :
  wf (w_db w) →
  run (authenticate_account request endpoint) w
  = Some (inr (header, (payload, account, tp)), w') →
  authentic request endpoint w header payload account tp
  ∧ nonce_gone header w' ∧ same_rows w w' ∧ request_id request ∈ w_spent w'.
Proof.
  intros Hwf Hr. by destruct (authenticate_ok _ _ _ _ _ _ _ _ Hwf Hr) as (? & ? & ? & _ & ?).
Qed.
End sound.
