(* ===== verification/ServerTheorems.v ===== *)
(** * The served requests

    Every route of the server is a handler of [Issuance], so what is proved of
    interleaved handlers holds of the requests the server serves; and the
    nonces the responses carry. *)

From S2P Require Import Prelude PyStr Exn Json Jwk Sql Db StoreAudit StoreAccounts.
From S2P Require Import StoreOrders RateLimit Act World Coalesce X509 CsrCheck.
From S2P Require Import StoreCerts Responses Finalize RoutesOrders RoutesAdmin RoutesAccounts.
From S2P Require Import Jws Http Url ServerJws RoutesNewAccount RoutesAuthz RoutesRevocation.
From S2P Require Import Server StoreInv StoreOps Calm CalmActs Protocol.
From S2P Require Import ProtocolRules ProtocolRoutes Issuance NonceTheorems AuthTheorems.
Local Open Scope Z_scope.

#[local] Set Default Proof Using "All".

Section served.
Context `{ServerConfig, UuidSource, CertParser, CsrParser, CertDer}.
Context `{JsonLoads, SignatureBackend, KeyBackend, NetlocCheck, FloatEq}.
Context (revocation : RevocationLeg).

(** ** Calm parts *)

Lemma calm_refused {A} why more : calm_prog (binding_refused (A:=A) why more).
Proof. unfold binding_refused, creation_denied. calm_auto. Qed.
Hint Resolve calm_refused calm_enforce_usable : calm_act.

Lemma calm_eab_header eab : calm_prog (eab_header_kid eab).
Proof. unfold eab_header_kid. cbv zeta. calm_auto. Qed.
Lemma calm_mac_key kid : calm_prog (eab_mac_key kid).
Proof. unfold eab_mac_key. calm_auto. Qed.
Lemma calm_verified e a k kid u : calm_prog (verified_binding e a k kid u).
Proof. unfold verified_binding. calm_auto. Qed.
Lemma calm_created a e k c : calm_prog (created_account a e k c).
Proof. unfold created_account. calm_auto. Qed.
Hint Resolve calm_eab_header calm_mac_key calm_verified calm_created calm_verify_new
  calm_authenticate calm_authenticate_account : calm_act.

Lemma calm_new_account request : calm_prog (new_account request).
Proof. unfold new_account. cbv zeta. calm_auto. Qed.
Lemma calm_post_authorization i auth : calm_prog (post_authorization_as i auth).
Proof. destruct auth as [[??]?]. unfold post_authorization_as. calm_auto. Qed.
Lemma calm_all_valid urls : calm_prog (all_authorizations_valid urls).
Proof. induction urls as [|u urls IH]; cbn [all_authorizations_valid]; calm_auto. Qed.
Hint Resolve calm_all_valid : calm_act.
Lemma calm_maybe_ready i : calm_prog (maybe_ready_order i).
Proof. unfold maybe_ready_order. calm_auto. Qed.
Hint Resolve calm_maybe_ready : calm_act.
Lemma calm_post_challenge i auth : calm_prog (post_challenge_as i auth).
Proof. destruct auth as [[??]?]. unfold post_challenge_as. cbv zeta. calm_auto. Qed.
Lemma calm_post_certificate i auth : calm_prog (post_certificate_as i auth).
Proof. destruct auth as [[??]?]. unfold post_certificate_as. calm_auto. Qed.
Lemma calm_revocation_recorded a c s r sans res :
  calm_prog (revocation_recorded a c s r sans res).
Proof. unfold revocation_recorded. cbv zeta. calm_auto. Qed.
Hint Resolve calm_revocation_recorded : calm_act.
Lemma calm_revoke_cert auth : calm_prog (revoke_cert_as revocation auth).
Proof. destruct auth as [[??]?]. unfold revoke_cert_as. cbv zeta. calm_auto. Qed.

(** ** The composition root *)

Lemma calm_bucket_admits : calm_prog bucket_admits.
Proof.
  apply calm_prog_atomic. intros w. destruct (w_bucket w) as [b|]; [|reflexivity].
  destruct (take_token _ _) as [ok b']. by eapply (calm_w_frame _ _ []); rewrite ?app_nil_r.
Qed.
Lemma calm_bucket_retry : calm_prog bucket_retry.
Proof. apply calm_prog_atomic. intros w. destruct (w_bucket w); reflexivity. Qed.
Lemma calm_mint_nonce : calm_prog mint_nonce.
Proof. unfold mint_nonce. calm_auto. Qed.
Hint Resolve calm_bucket_admits calm_bucket_retry calm_mint_nonce : calm_act.
Lemma calm_nonce_response : calm_prog nonce_response.
Proof. unfold nonce_response. calm_auto. Qed.
Lemma calm_exception_handler e : calm_prog (acme_exception_handler e).
Proof. unfold acme_exception_handler. calm_auto. Qed.
Hint Resolve calm_exception_handler : calm_act.
Lemma calm_mint : calm_prog mint.
Proof. unfold mint. calm_auto. Qed.
Lemma calm_owed rid r : calm_prog (owed_nonce rid r).
Proof. unfold owed_nonce. calm_auto. Qed.
Hint Resolve calm_mint calm_owed : calm_act.
Lemma calm_with_nonce rid r : calm_prog (with_nonce rid r).
Proof. unfold with_nonce. calm_auto. Qed.
Lemma calm_handled r : calm_prog (handled r).
Proof. destruct r as [[]|]; simpl; auto with calm_act. Qed.
Lemma calm_response rid r : calm_prog (response ← handled r; with_nonce rid response).
Proof. apply calm_prog_bind; [apply calm_handled|apply calm_with_nonce]. Qed.

(** C6 Every request the server accepts on an ACME route, from its octets to
    its response, is one of the handlers whose interleavings [Issuance] is
    about. *)
Theorem served_handler request r : handler (acme_request revocation request r).
Proof.
  apply H_last; [|apply calm_response].
  destruct r; simpl;
    try (apply H_calm; solve
      [auto using calm_nonce_response, calm_new_account, calm_new_order, calm_get_order,
         calm_authenticate, calm_prog_ret
      |apply calm_prog_bind; [apply calm_authenticate|]; intros auth;
       auto using calm_post_authorization, calm_post_challenge, calm_post_certificate,
         calm_revoke_cert, calm_account_orders]).
  - unfold key_change. apply H_first; [apply calm_authenticate_account|].
    intros [h [[p a] tp]]. apply H_first; [apply calm_prog_of_res|]. intros [jwk ntp].
    apply H_first; [calm_auto|]. intros [x|]; [by apply H_calm|apply H_rotate_key].
  - apply H_first; [apply calm_authenticate|]. intros auth. apply H_account.
  - apply H_finalize. intros path. apply calm_authenticate.
Qed.
End served.

(** ** Nonces in responses *)

Lemma delete_first_keeps {R} (p : R → Prop) `{∀ r, Decision (p r)} n t x :
  x ∈ t → ¬ p x → x ∈ delete_first p n t.
Proof.
  revert n. induction t as [|r t IH]; intros n Hx Hp; [by apply not_elem_of_nil in Hx|].
  destruct n as [|n]; [done|]. cbn [delete_first]. apply elem_of_cons in Hx.
  case_decide; [|apply elem_of_cons]; naive_solver.
Qed.

(** A nonce just minted is accepted: the sweep of the same transaction spares it. *)
Lemma create_nonce_live now n g d x d' :
  create_nonce now n g d = inr (x, d') → x = n ∧ nonce_live now n d'.
Proof.
  unfold create_nonce, mbind, tx_bind, tx_insert.
  destruct (nonce_clash _ _); [done|]. set (row := {| Nonce.nonce := n |}).
  assert (row ∈ nonces d ++ [row]) as Hin by set_solver.
  destruct (g mod NONCE_GC_PROBABILITY =? 0).
  - intros [= <- <-]. split; [done|]. exists row. simpl. split_and!; [|done|].
    + apply delete_first_keeps; [done|]. simpl. unfold NONCE_TTL_SECONDS. lia.
    + unfold NONCE_TTL_SECONDS. lia.
  - intros [= <- <-]. split; [done|]. exists row. simpl. split_and!; [done|done|].
    unfold NONCE_TTL_SECONDS. lia.
Qed.

Lemma create_nonce_ok now n g d :
  (∀ x, x ∈ nonces d → Nonce.nonce x ≠ n) → ∃ d', create_nonce now n g d = inr (n, d').
Proof.
  intros Hfresh. unfold create_nonce, mbind, tx_bind, tx_insert.
  assert (nonce_clash d {| Nonce.nonce := n; Nonce.created_at := now |} = false) as ->.
  { unfold nonce_clash. apply violates_false. intros x k Hx [= <-] [= Hk].
    by apply (Hfresh x). }
  destruct (_ =? 0); by eexists.
Qed.

Section nonces.
Context `{ServerConfig, UuidSource}.

(** The nonce the next three uuids make. *)
Definition next_nonce (w : World) : string :=
  uuid_hex (uuid4 (w_uuids w)) +:+ uuid_hex (uuid4 (S (w_uuids w))).
(** The next transaction runs into no fault. *)
Definition store_ready (w : World) : Prop := ∀ f, head (w_faults w) ≠ Some (Some f).
(** A nonce the store would accept now. *)
Definition live_now (n : string) (w : World) : Prop := nonce_live (w_now w) n (w_db w).

Lemma store_ready_run {A} (m : Tx A) w x d :
  store_ready w → m (w_db w) = inr (x, d) → ∃ fs, store m w = (inr x, set_db d (set_faults fs w)).
Proof.
  intros Hr Hm. unfold store, transact. rewrite Hm.
  destruct (w_faults w) as [|[f|] fs] eqn:Hf.
  - exists []. by destruct w; simpl in *; subst.
  - specialize (Hr f). by rewrite Hf in Hr.
  - by exists fs.
Qed.

Lemma run_mint w :
  ∃ r w', run mint_nonce w = Some (r, w') ∧ w_spent w' = w_spent w
    ∧ (∀ n, r = inr n → live_now n w')
    ∧ (store_ready w → (∀ x, x ∈ nonces (w_db w) → Nonce.nonce x ≠ next_nonce w) →
       ∃ n, r = inr n).
Proof.
  unfold mint_nonce. rewrite run_bind. unfold fresh_uuids. rewrite run_atomic. unfold db.
  rewrite run_atomic. cbv beta. set (w1 := set_uuids _ w).
  set (n := uuid_hex _ +:+ uuid_hex _). set (g := uuid_int _).
  assert (n = next_nonce w) as Hn.
  { unfold n, next_nonce. by rewrite Nat.add_0_r, Nat.add_1_r. }
  destruct (store_cases (create_nonce (w_now w1) n g) w1)
    as [(fs & Hw & e & He)|(fs & x & d & Hm & Hs)].
  - destruct (store (create_nonce (w_now w1) n g) w1) as [r w2] eqn:Hst.
    cbn [fst snd] in Hw, He. exists r, w2.
    split; [done|]. split; [by rewrite Hw|]. split; [by rewrite He|].
    intros Hready Hfresh. exfalso.
    destruct (create_nonce_ok (w_now w1) n g (w_db w1)) as [d Hd]; [by rewrite Hn|].
    destruct (store_ready_run _ w1 _ _ Hready Hd) as [fs' Hok]. rewrite Hok in Hst.
    simplify_eq.
  - rewrite Hs. do 2 eexists. split; [done|]. split; [done|]. split; [|by eexists].
    intros y [= <-]. apply create_nonce_live in Hm as [-> Hlive]. exact Hlive.
Qed.

Lemma run_mint_opt w :
  ∃ r w', run mint w = Some (inr r, w') ∧ (∀ n, r = Some n → live_now n w')
    ∧ (store_ready w → (∀ x, x ∈ nonces (w_db w) → Nonce.nonce x ≠ next_nonce w) → is_Some r).
Proof.
  destruct (run_mint w) as (r & w' & Hrun & _ & Hlive & Hok). unfold mint, act_try.
  rewrite run_then, run_bind, Hrun. destruct r as [e|n].
  - exists None, w'. split; [done|]. split; [done|]. intros Hr Hf.
    by destruct (Hok Hr Hf).
  - exists (Some n), w'. split; [done|]. split; [by intros ? [= <-]; apply Hlive|done].
Qed.

(** C20 A client that spent a nonce can go on: a successful response to its
    request is delivered as it is, with one fresh nonce the store accepts
    added to it; only a mint that fails costs that header, and neither status
    nor body. *)
Theorem success_brings_nonce rid m w r w1 :
  run m w = Some (inr r, w1) → status_code r < 400 → has_nonce r = false →
  rid ∈ w_spent w1 →
  ∃ r' w', run (serve rid m) w = Some (inr r', w')
    ∧ status_code r' = status_code r ∧ content r' = content r
    ∧ (r' = r ∨ ∃ n, headers r' = headers r ++ [("replay-nonce"%string, n)] ∧ live_now n w')
    ∧ (store_ready w1 → (∀ x, x ∈ nonces (w_db w1) → Nonce.nonce x ≠ next_nonce w1) →
       ∃ n, headers r' = headers r ++ [("replay-nonce"%string, n)] ∧ live_now n w').
Proof.
  intros Hrun Hst Hno Hsp. unfold serve. rewrite run_then, Hrun. cbn [handled].
  unfold with_nonce, owed_nonce. cbn [mbind act_bind act_then mret act_ret].
  rewrite Hno. rewrite (proj2 (Z.ltb_lt _ _)) by done.
  destruct (run_mint_opt w1) as (o & w' & Hmint & Hlive & Hok).
  rewrite run_bind. cbn [mbind act_bind act_then act_get act_atomic run mret act_ret].
  rewrite bool_decide_eq_true_2 by done. rewrite run_bind, Hmint.
  destruct o as [n|].
  - do 2 eexists. split; [done|]. split; [done|]. split; [done|].
    split; [right|intros _ _]; exists n; (split; [done|by apply Hlive]).
  - do 2 eexists. split; [done|]. split; [done|]. split; [done|].
    split; [by left|]. intros Hr Hf. by destruct (Hok Hr Hf).
Qed.
(** *** badNonce *)

Definition problem_type (r : Response) : option json :=
  match content r with JObj m => dict_get "type" m | _ => None end.

Lemma run_bucket_admits w : ∃ b w', run bucket_admits w = Some (inr b, w').
Proof.
  unfold bucket_admits. rewrite run_atomic. destruct (w_bucket w) as [b|]; [|by do 2 eexists].
  destruct (take_token _ _). by do 2 eexists.
Qed.
Lemma run_bucket_retry w : ∃ r, run bucket_retry w = Some (r, w).
Proof.
  unfold bucket_retry. rewrite run_atomic. destruct (w_bucket w); by eexists.
Qed.

Lemma has_nonce_problem e n : has_nonce (problem e [("Replay-Nonce"%string, n)]) = true.
Proof.
  unfold has_nonce, problem. cbn [headers]. rewrite !existsb_app.
  apply orb_true_iff. right. apply orb_true_iff. by right.
Qed.

(** What the middleware does to a response: at most one header is added. *)
Lemma run_with_nonce rid r w :
  ∃ r' w', run (with_nonce rid r) w = Some (inr r', w')
    ∧ status_code r' = status_code r ∧ content r' = content r
    ∧ (has_nonce r = true → r' = r ∧ w' = w).
Proof.
  unfold with_nonce. rewrite run_bind. unfold owed_nonce.
  destruct (has_nonce r); [by do 2 eexists|].
  assert (∃ b w1, run (consumed ← act_get (λ w, bool_decide (rid ∈ w_spent w));
                       if status_code r <? 400 then mret consumed
                       else if negb consumed then mret false else bucket_admits) w
                  = Some (inr b, w1)) as (b & w1 & ->).
  { rewrite run_bind. unfold act_get. rewrite run_atomic.
    destruct (status_code r <? 400); [by do 2 eexists|].
    destruct (bool_decide _); [apply run_bucket_admits|by do 2 eexists]. }
  destruct b; [|by do 2 eexists]. rewrite run_bind.
  destruct (run_mint_opt w1) as ([n|] & w2 & -> & _); by do 2 eexists.
Qed.

(** Every badNonce the server sends carries exactly one nonce, and the
    store accepts it; when none may be or can be minted, the answer is
    rateLimited instead. *)
Theorem bad_nonce_brings_nonce rid m w e w1 r w' :
  run m w = Some (inl (Acme e), w1) → typ e = typ bad_nonce →
  run (serve rid m) w = Some (inr r, w') →
  (∃ n, r = problem e [("Replay-Nonce"%string, n)] ∧ live_now n w')
  ∨ (status_code r = 429 ∧ problem_type r = Some (JStr (typ (rate_limited None)))).
Proof.
  intros Hrun Ht. unfold serve. rewrite run_then, Hrun. cbn [handled].
  unfold acme_exception_handler. rewrite bool_decide_eq_true_2 by done. cbn [negb].
  rewrite run_bind. rewrite run_bind.
  destruct (run_bucket_admits w1) as (b & w2 & ->). rewrite run_bind.
  assert (∃ o w3, run (if (b : bool) then
            act_try (nonce ← mint_nonce; mret (Some nonce))
              (λ err, if is_sqlite_error err || is_os_error err then mret None
                      else act_raise err)
          else mret None) w2 = Some (o, w3)
          ∧ ∀ n, o = inr (Some n) → live_now n w3) as (o & w3 & -> & Hlive).
  { destruct b; [|by do 2 eexists].
    destruct (run_mint w2) as (rn & w3 & Hm & _ & Hl & _). unfold act_try.
    rewrite run_then, run_bind, Hm. destruct rn as [err|n].
    - destruct (is_sqlite_error err || is_os_error err); by do 2 eexists.
    - do 2 eexists. split; [done|]. intros ? [= <-]. by apply Hl. }
  destruct o as [err|[n|]]; [done| |].
  - cbn [run mret act_ret]. destruct (run_with_nonce rid (problem e [("Replay-Nonce"%string, n)]) w3)
      as (r' & w4 & -> & _ & _ & Hkeep).
    intros [= <- <-]. destruct (Hkeep (has_nonce_problem e n)) as [-> ->].
    left. exists n. split; [done|by apply Hlive].
  - rewrite run_bind. destruct (run_bucket_retry w3) as [[err|retry] ->]; [done|].
    cbn [run mret act_ret].
    destruct (run_with_nonce rid (problem (rate_limited (Some retry)) []) w3)
      as (r' & w4 & -> & Hst & Hc & _).
    intros [= <- <-]. right. unfold problem_type. by rewrite Hst, Hc.
Qed.
End nonces.
