(* ===== verification/RouteTheorems.v ===== *)
(** * What the authenticated routes promise

    Account creation, key rollover and revocation, each from the request to
    the rows it leaves. *)

From S2P Require Import Prelude PyStr Exn Base64 Json Jwk Sql Db StoreAudit StoreAccounts.
From S2P Require Import StoreOrders Act World Coalesce X509 CsrCheck StoreCerts Responses.
From S2P Require Import Finalize RoutesOrders RoutesAccounts Jws Http Url ServerJws.
From S2P Require Import RoutesNewAccount RoutesAuthz RoutesRevocation RateLimit Server.
From S2P Require Import StoreInv StoreOps Calm CalmActs NonceTheorems AccountTheorems.
From S2P Require Import CertTheorems HttpTheorems JwsTheorems AuthTheorems.
Local Open Scope Z_scope.

(** ** More on running backwards *)

Lemma run_try_ok {W A} (m : Act W A) h (w : W) x w' :
  run (act_try m h) w = Some (inr x, w') →
  run m w = Some (inr x, w')
  ∨ ∃ e w1, run m w = Some (inl e, w1) ∧ run (h e) w1 = Some (inr x, w').
Proof.
  unfold act_try. rewrite run_then. destruct (run m w) as [[[e|y] w1]|]; [| |done].
  - intros Hh. right. by exists e, w1.
  - intros Hx. by left.
Qed.
Lemma run_ret_ok {W A} (x y : A) (w w' : W) :
  run (mret x) w = Some (inr y, w') → x = y ∧ w' = w.
Proof. by intros [= -> ->]. Qed.

Lemma run_get_ok {W A} (f : W → A) (w : W) x w' :
  run (act_get f) w = Some (inr x, w') → x = f w ∧ w' = w.
Proof. by intros [= <- <-]. Qed.

Section accounts.
Context `{ServerConfig, UuidSource, JsonLoads, SignatureBackend, KeyBackend, NetlocCheck}.
Context `{FloatEq}.

(** A refusal never returns. *)
Lemma refused_ok {A} why more w (x : A) w' :
  run (binding_refused why more) w ≠ Some (inr x, w').
Proof. unfold binding_refused. intros Hr. run_ok Hr. done. Qed.

(** A message signed by the key it embeds. *)
Definition self_signed (request : Request) (endpoint : string) (header payload jwk : dict) :
    Prop :=
  ∃ jws key octets,
    request_jws request jws header ∧ url_bound header endpoint
    ∧ dict_get "jwk" header = Some (JObj jwk)
    ∧ public_key_from_jwk (JObj jwk) = inr key ∧ signed_by jws key octets
    ∧ (octets = [] ∧ payload = [] ∨ loads octets = inr (JObj payload)).

Lemma new_jws_ok request u w header payload jwk w' :
  wf (w_db w) →
  run (verify_new_account_jws request u) w = Some (inr (header, payload, jwk), w') →
  self_signed request u header payload jwk ∧ same_rows w w'
  ∧ ∃ n, dict_get "nonce" header = Some (JStr n) ∧ nonce_live (w_now w) n (w_db w).
Proof.
  intros Hwf Hr. unfold verify_new_account_jws in Hr. run_ok Hr. destruct x as [h jws].
  apply parse_header_ok in Hrun as (Hjws & Hurl & n & d & fs & Hn & Hlive & -> & _ & Hc); [|done].
  destruct (dict_get "jwk" h) as [[| | | | | |j]|] eqn:Hj; try done.
  case_bool_decide; [done|].
  run_ok Hr. apply run_of_res_ok in Hrun as [Hkey%or_else_ok ->].
  run_ok Hr. apply run_of_res_ok in Hrun as [Hp ->].
  apply run_ret_ok in Hr as [[= <- <- <-] ->].
  apply verify_signature_payload in Hp as (octets & Hsig & Hpl).
  split; [by exists jws, x, octets|]. split; [by apply consume_only_nonces in Hc|by exists n].
Qed.

Lemma eab_header_ok eab w header kid w' :
  run (eab_header_kid eab) w = Some (inr (header, kid), w') →
  w' = w ∧ kid ≠ EmptyString ∧ dict_get "kid" header = Some (JStr kid)
  ∧ ∃ p, dict_get "protected" eab = Some (JStr p) ∧ loads_b64 p = inr (JObj header).
Proof.
  unfold eab_header_kid. cbv zeta.
  destruct (negb _) eqn:Hs; [by intros ?%refused_ok|]. bool_hyps.
  destruct (dict_get "protected" eab) as [[| | | |p| |]|]; try done. simpl.
  destruct (loads_b64 p) as [|[| | | | | |hd]] eqn:Hl; try by intros ?%refused_ok.
  destruct (dict_get "kid" hd) as [[| | | |k| |]|] eqn:Hk; try by intros ?%refused_ok.
  case_bool_decide; [by intros ?%refused_ok|].
  intros [[= <- <-] ->]%run_ret_ok. split_and!; try done. by exists p.
Qed.

Lemma mac_key_ok kid w key w' :
  run (eab_mac_key kid) w = Some (inr key, w') →
  w' = w ∧ key ≠ [] ∧ eab_key_bytes config kid = inr (Some key).
Proof.
  unfold eab_mac_key. intros Hr. run_ok Hr. apply run_of_res_ok in Hrun as [Hk ->].
  destruct x as [[|b key']|]; try by apply refused_ok in Hr.
  apply run_ret_ok in Hr as [<- ->]. by rewrite Hk.
Qed.

Lemma verified_binding_ok eab jwk key kid u w vk w' :
  run (verified_binding eab jwk key kid u) w = Some (inr vk, w') →
  w' = w ∧ bound_by eab jwk key (Some u) (JStr vk).
Proof.
  unfold verified_binding. intros [Hr|(e & w1 & _ & Hr)]%run_try_ok.
  - run_ok Hr. apply run_of_res_ok in Hrun as [Hv%verify_eab_iff ->].
    destruct x; try done. by apply run_ret_ok in Hr as [<- ->].
  - destruct (is_jws_validation_error e); [by apply refused_ok in Hr|done].
Qed.

(** A created account, with its audit row, under the quota. *)
Definition created (w w' : World) (jwk : dict) (kid : string) (a : Account.t) : Prop :=
  accounts (w_db w') = accounts (w_db w) ++ [a]
  ∧ Account.status a = AccountStatus.VALID ∧ Account.eab_kid a = kid
  ∧ Account.jwk_json a = dump_json (JObj jwk)
  ∧ (∃ tp, jwk_thumbprint (JObj jwk) = inr tp ∧ Account.jwk_thumbprint a = Some tp)
  ∧ accounts_of_kid kid (w_db w) < max_accounts_per_eab_kid config
  ∧ ∃ ev, audit_log (w_db w') = audit_log (w_db w) ++ [ev]
      ∧ Audit.event_type ev = "account-created"%string
      ∧ Audit.account_id ev = Some (Account.id a).

Lemma create_account_ok now id jwk kid c audit q d a ev d' :
  create_account_with_audit now id jwk kid AccountStatus.VALID c audit q d
  = inr ((a, ev), d') →
  accounts_of_kid kid d < q ∧ accounts d' = accounts d ++ [a]
  ∧ audit_log d' = audit_log d ++ [ev] ∧ Audit.event_type ev = event_type audit
  ∧ Audit.account_id ev = Some (Account.id a)
  ∧ Account.eab_kid a = kid ∧ Account.status a = AccountStatus.VALID
  ∧ Account.jwk_json a = dump_json jwk
  ∧ ∃ tp, jwk_thumbprint jwk = inr tp ∧ Account.jwk_thumbprint a = Some tp.
Proof.
  unfold create_account_with_audit.
  destruct (q <? 1); [done|]. destruct (carries_account_id audit); [done|].
  unfold mbind, tx_bind at 1, tx_count.
  destruct (Z.leb_spec q (count (λ a, Account.eab_kid a = kid) (accounts d))); [done|].
  unfold tx_bind.
  destruct (insert_account_in_conn _ _ _ _ _ _ d) as [|[r d1]] eqn:Hi; [done|].
  apply insert_account_ok in Hi as (-> & _ & _ & Hk & Hs & Hj & Ht).
  unfold record_audit_in_conn, mret, tx_ret. intros [= <- <- <-]. simpl.
  split_and!; done.
Qed.

Lemma created_account_ok jwk header kid contact w a ev w' :
  run (created_account jwk header kid contact) w = Some (inr (inr (a, ev)), w') →
  created w w' jwk kid a.
Proof.
  unfold created_account. intros Hr. run_ok Hr.
  assert (same_rows w w0) as (Ha & _ & _ & Hau).
  { unfold fresh_uuids in Hrun. rewrite run_atomic in Hrun. by injection Hrun as _ <-. }
  apply run_try_ok in Hr as [Hr|(e & w2 & _ & Hr)].
  - run_ok Hr. destruct x0 as [a' ev'].
    apply run_db_ok in Hrun0 as (d & fs & Hc & ->).
    apply run_ret_ok in Hr as [[= -> ->] ->].
    apply create_account_ok in Hc as (Hq & Hac & Hl & Het & Hid & Hk & Hs & Hj & Ht).
    unfold accounts_of_kid in *. rewrite Ha in *. rewrite Hau in *.
    unfold created, accounts_of_kid. simpl. split_and!; try done. by exists ev.
  - destruct e; try done; run_ok Hr; (destruct x0 as [win|]; [by apply run_ret_ok in Hr as [[=] _]|]);
      [done|by apply refused_ok in Hr].
Qed.

Lemma created_account_inl jwk header kid contact w r w' :
  run (created_account jwk header kid contact) w = Some (inr (inl r), w') →
  status_code r ≠ 201.
Proof.
  unfold created_account. intros Hr. run_ok Hr.
  apply run_try_ok in Hr as [Hr|(e & w2 & _ & Hr)].
  - run_ok Hr. by apply run_ret_ok in Hr as [[=] _].
  - destruct e; try done; run_ok Hr; (destruct x0 as [win|];
      [by apply run_ret_ok in Hr as [[= <-] _]|]); [done|by apply refused_ok in Hr].
Qed.

Lemma get_by_jwk_ok jwk w a w' :
  run (db (λ _, get_account_by_jwk jwk)) w = Some (inr a, w') → same_rows w w'.
Proof.
  intros (_ & fs & ->)%run_db_ro_ok; [done|intros; apply tx_ro_get_account_by_jwk].
Qed.

(** The kid that was looked up is the one the binding verifies. *)
Lemma binding_kid eab jwk key u vk header kid p :
  bound_by eab jwk key u (JStr vk) → dict_get "protected" eab = Some (JStr p) →
  loads_b64 p = inr (JObj header) → dict_get "kid" header = Some (JStr kid) → vk = kid.
Proof.
  intros (_ & _ & p' & y & s & o & pl & h & alg & hh & j & Hp' & _ & _ & Ho & Hl & _ & _ & _
          & _ & Hk' & _) Hp (o' & Ho' & Hl')%loads_b64_ok Hk.
  congruence.
Qed.

Lemma emit_rows ev w x w' : run (emit_audit_hook ev) w = Some (inr x, w') → w_db w' = w_db w.
Proof.
  unfold emit_audit_hook. intros [= <- <-]. unfold emit. by destruct (audit_hook_configured _).
Qed.

Lemma created_rows w1 w2 w3 w4 jwk kid a :
  same_rows w1 w2 → created w2 w3 jwk kid a → w_db w4 = w_db w3 → created w1 w4 jwk kid a.
Proof.
  intros (Ha & _ & _ & Hl) Hc Hdb. unfold created, accounts_of_kid in *.
  by rewrite Hdb, <- Ha, <- Hl.
Qed.
Lemma same_rows_trans w1 w2 w3 : same_rows w1 w2 → same_rows w2 w3 → same_rows w1 w3.
Proof. unfold same_rows. intuition congruence. Qed.

(** C7 An account is created only for who holds both keys: the request is
    signed by the very key it asks to register, and carries a binding of that
    key, for this server's newAccount URL, under the non-empty MAC key of a
    kid on the allow list; the kid was under its quota; and one valid account
    of that key and kid is stored, with its audit row. *)
Theorem new_account_sound request w r w' :
  wf (w_db w) →
  run (new_account request) w = Some (inr r, w') → status_code r = 201 →
  ∃ header payload jwk eab mac_key kid a,
    self_signed request (url "/acme/new-acct") header payload jwk
    ∧ dict_get "externalAccountBinding" payload = Some (JObj eab)
    ∧ eab_key_bytes config kid = inr (Some mac_key) ∧ mac_key ≠ []
    ∧ bound_by eab jwk mac_key (Some (url "/acme/new-acct")) (JStr kid)
    ∧ created w w' jwk kid a
    ∧ headers r = [("Location"%string, account_url (Account.id a))].
Proof.
  intros Hwf Hr Hst. unfold new_account in Hr. cbv zeta in Hr. run_ok Hr.
  destruct x as [[header payload] jwk].
  apply new_jws_ok in Hrun as (Hself & Hrows & _); [|done].
  run_ok Hr. apply get_by_jwk_ok in Hrun as Hrows'.
  pose proof (same_rows_trans _ _ _ Hrows Hrows') as Hrows1.
  destruct x as [ex|]; [by apply run_ret_ok in Hr as [<- _]|].
  case_bool_decide; [done|].
  destruct (dict_get "externalAccountBinding" payload) as [[| | | | | |eab]|] eqn:Heab;
    try by apply refused_ok in Hr.
  run_ok Hr. destruct x as [eh kid]. apply eab_header_ok in Hrun0 as (-> & Hne & Hk & p & Hp & Hl).
  run_ok Hr. apply mac_key_ok in Hrun0 as (-> & Hkey & Hmac). rename x into mac_key.
  run_ok Hr. apply verified_binding_ok in Hrun0 as (-> & Hb). rename x into vk.
  pose proof (binding_kid _ _ _ _ _ _ _ _ Hb Hp Hl Hk) as ->.
  destruct (default _ _) as [| | | | |contact|]; try done.
  run_ok Hr. destruct x as [resp|[a ev]].
  { apply run_ret_ok in Hr as [<- ->]. exfalso. by apply (created_account_inl jwk eh kid contact) in Hrun0. }
  apply created_account_ok in Hrun0. run_ok Hr. apply emit_rows in Hrun1.
  apply run_ret_ok in Hr as [<- ->].
  exists header, payload, jwk, eab, mac_key, kid, a. split_and!; try done.
  by eapply created_rows.
Qed.
End accounts.

(** ** Key rollover *)

Section rollover.
Context `{ServerConfig, JsonLoads, SignatureBackend, KeyBackend, NetlocCheck, FloatEq}.

(** The inner message: signed by the new key, it names the account by the kid
    of the outer one, and the key to replace. *)
Definition inner_proof (outer_header inner : dict) (account : Account.t) (jwk : dict)
    (tp : string) : Prop :=
  ∃ p header key octets payload old t,
    dict_get "protected" inner = Some (JStr p) ∧ loads_b64 p = inr (JObj header)
    ∧ dict_get "jwk" header = Some (JObj jwk)
    ∧ dict_get "nonce" header = None ∧ dict_get "kid" header = None
    ∧ member_eq (dict_get "url" header) (dict_get "url" outer_header) = true
    ∧ public_key_from_jwk (JObj jwk) = inr key ∧ signed_by inner key octets
    ∧ loads octets = inr (JObj payload)
    ∧ member_eq (dict_get "account" payload) (dict_get "kid" outer_header) = true
    ∧ dict_get "oldKey" payload = Some (JObj old) ∧ jwk_thumbprint (JObj old) = inr t
    ∧ stored_thumbprint account = inr t ∧ jwk_thumbprint (JObj jwk) = inr tp ∧ tp ≠ t.

Lemma jws_error_ok {A} e (r : Res Exn A) x : jws_error e r = inr x → r = inr x.
Proof. destruct r as [err|]; simpl; [by destruct (is_jws_validation_error err)|done]. Qed.

Lemma not_is_some {A} (o : option A) : bool_decide (is_Some o) = false → o = None.
Proof. rewrite bool_decide_eq_false. destruct o; [|done]. intros Hn. by destruct Hn. Qed.

Lemma inner_header_ok outer inner header :
  inner_header outer inner = inr header →
  ∃ p jwk, dict_get "protected" inner = Some (JStr p) ∧ loads_b64 p = inr (JObj header)
    ∧ dict_get "jwk" header = Some (JObj jwk)
    ∧ dict_get "nonce" header = None ∧ dict_get "kid" header = None
    ∧ member_eq (dict_get "url" header) (dict_get "url" outer) = true.
Proof.
  unfold inner_header. destruct (negb _); [done|]. rewrite res_bind_ok. intros ([] & _ & Hr).
  rewrite res_bind_ok in Hr. destruct Hr as (v & Hv & Hr).
  destruct (dict_get "protected" inner) as [[| | | |p| |]|]; try done.
  apply or_else_ok in Hv. destruct v as [| | | | | |h]; try done.
  destruct (dict_get "jwk" h) as [[| | | | | |jwk]|] eqn:Hj; try done.
  destruct (member_eq _ _) eqn:Hu; [|done]. cbn [negb] in Hr.
  destruct (bool_decide (is_Some (dict_get "nonce" h))) eqn:Hn; [done|].
  destruct (bool_decide (is_Some (dict_get "kid" h))) eqn:Hk; [done|].
  injection Hr as <-. exists p, jwk. split_and!; try done; by apply not_is_some.
Qed.

Lemma inner_payload_ok inner jwk payload :
  inner_payload inner jwk = inr payload →
  ∃ key octets, public_key_from_jwk jwk = inr key ∧ signed_by inner key octets
    ∧ loads octets = inr (JObj payload).
Proof.
  unfold inner_payload. rewrite res_bind_ok. intros (key & Hk%or_else_ok & Hr).
  rewrite res_bind_ok in Hr. destruct Hr as (octets & Hv & Hr).
  rewrite res_bind_ok in Hr. destruct Hr as (v & Hl%loads_or_ok & Hr).
  destruct v; try done. injection Hr as ->. exists key, octets. split_and!; try done.
  apply verify_flattened_iff.
  destruct (verify_flattened_jws inner key) as [[]|]; simpl in Hv; try done; congruence.
Qed.

Lemma rollover_ok outer inner account jwk tp :
  validated_rollover outer inner account = inr (jwk, tp) →
  ∃ d, jwk = JObj d ∧ inner_proof outer inner account d tp.
Proof.
  unfold validated_rollover. rewrite res_bind_ok.
  intros (h & (p & d & Hp & Hl & Hj & Hn & Hk & Hu)%inner_header_ok & Hr). rewrite Hj in Hr.
  simpl in Hr. rewrite res_bind_ok in Hr.
  destruct Hr as (pl & (key & octets & Hpk & Hsig & Hlo)%inner_payload_ok & Hr).
  rewrite res_bind_ok in Hr. destruct Hr as (ntp & Ht & Hr). injection Hr as <- <-.
  unfold key_thumbprints in Ht. destruct (member_eq (dict_get "account" pl) _) eqn:Ha; [|done].
  destruct (dict_get "oldKey" pl) as [[| | | | | |old]|] eqn:Hold; try done. cbn [negb] in Ht.
  rewrite res_bind_ok in Ht. destruct Ht as (t & Hot%jws_error_ok & Ht).
  rewrite res_bind_ok in Ht. destruct Ht as (cur & Hcur & Ht).
  case_bool_decide; [|done]. subst cur. cbn [negb] in Ht.
  rewrite res_bind_ok in Ht. destruct Ht as (nt & Hnt%jws_error_ok & Ht).
  case_bool_decide as Hne; [done|]. injection Ht as <-.
  exists d. split; [done|]. by exists p, h, key, octets, pl, old, t.
Qed.

(** Under the account's lock, alone. *)
Lemma run_holding_ok {A} aid (body : Act World A) w x w' :
  run (holding_lock aid body) w = Some (inr x, w') →
  ∃ w1 w2, run body w1 = Some (inr x, w2) ∧ w_db w1 = w_db w ∧ w_now w1 = w_now w
    ∧ w_db w' = w_db w2.
Proof.
  unfold holding_lock. intros Hr. run_ok Hr. unfold lock_account, act_await in Hrun. simpl in Hrun.
  destruct (bool_decide _); [|done]. injection Hrun as <- <-.
  unfold act_finally in Hr. rewrite run_then in Hr.
  destruct (run body _) as [[r w2]|] eqn:Hb; [|done].
  rewrite run_then in Hr. unfold unlock_account, act_modify in Hr. rewrite run_atomic in Hr.
  simpl in Hr. injection Hr as -> <-. by do 2 eexists.
Qed.

Lemma key_change_locked_ok account jwk ntp tp w r ev w' :
  wf (w_db w) →
  run (key_change_locked account jwk ntp tp) w = Some (inr (r, ev), w') →
  ∃ a t, find_account (Account.id account) (w_db w) = Some a
    ∧ Account.status a = AccountStatus.VALID ∧ Account.eab_kid a ∈ eab_kids config
    ∧ stored_thumbprint a = inr tp ∧ jwk_thumbprint jwk = inr t
    ∧ find_account (Account.id account) (w_db w')
      = Some (Account.set_key (dump_json jwk) (Some t) a)
    ∧ audit_log (w_db w') = audit_log (w_db w) ++ [ev]
    ∧ Audit.event_type ev = "account-key-changed"%string ∧ status_code r = 200.
Proof.
  intros Hwf Hr. unfold key_change_locked in Hr. cbv zeta in Hr. run_ok Hr.
  destruct x as [a|]; [|done].
  apply run_db_ro_ok in Hrun as [Hg (fs & ->)]; [|intros; apply tx_ro_get_account].
  injection Hg as Hg. run_ok Hr. destruct x. apply enforce_ok in Hrun as (Hs & Hk & ->).
  run_ok Hr. apply run_of_res_ok in Hrun as [Ht ->]. case_bool_decide; [|done]. subst x.
  cbn [negb] in Hr. run_ok Hr. apply run_db_ok in Hrun as (d & fs' & Hup & ->).
  apply run_ret_ok in Hr as [[= <- <-] ->].
  apply update_key_ok in Hup as (a' & t & Hf & Hjt & _ & _ & _ & Hf' & Hl & _ & Het); [|done].
  simpl in *. assert (find_account (Account.id account) (w_db w) = Some a) as Hg' by exact Hg.
  assert (a' = a) as -> by congruence. exists a, t. by split_and!.
Qed.

Lemma rotate_key_ok account jwk ntp tp w r w' :
  wf (w_db w) →
  run (rotate_key account jwk ntp tp) w = Some (inr r, w') →
  ∃ a t ev, find_account (Account.id account) (w_db w) = Some a
    ∧ Account.status a = AccountStatus.VALID ∧ Account.eab_kid a ∈ eab_kids config
    ∧ stored_thumbprint a = inr tp ∧ jwk_thumbprint jwk = inr t
    ∧ find_account (Account.id account) (w_db w')
      = Some (Account.set_key (dump_json jwk) (Some t) a)
    ∧ audit_log (w_db w') = audit_log (w_db w) ++ [ev]
    ∧ Audit.event_type ev = "account-key-changed"%string ∧ status_code r = 200.
Proof.
  intros Hwf Hr. unfold rotate_key in Hr. cbv zeta in Hr. run_ok Hr. destruct x as [r0 ev].
  apply run_try_ok in Hrun as [Hrun|(e & w1 & _ & Hrun)].
  - apply run_holding_ok in Hrun as (w1 & w2 & Hb & Hdb & _ & Hdb').
    apply key_change_locked_ok in Hb as (a & t & Hf & Hs & Hk & Ht & Hj & Hf' & Hl & Het & Hst);
      [|by rewrite Hdb].
    run_ok Hr. apply emit_rows in Hrun. apply run_ret_ok in Hr as [<- ->].
    exists a, t, ev. by rewrite Hrun, Hdb', <- Hdb.
  - exfalso. destruct e; try done; run_ok Hrun; try done.
    destruct x as [ex|]; [by destruct (negb _)|done].
Qed.
Lemma new_key_unused jwk tp w w' :
  jwk_thumbprint jwk = inr tp →
  run (db (λ _, get_account_by_jwk jwk)) w = Some (inr None, w') →
  ∀ b, b ∈ accounts (w_db w) → Account.jwk_thumbprint b ≠ Some tp.
Proof.
  intros Ht (Hm & _)%run_db_ro_ok; [|intros; apply tx_ro_get_account_by_jwk].
  unfold get_account_by_jwk in Hm. rewrite Ht in Hm. injection Hm as Hm.
  by rewrite fetchone_None in Hm.
Qed.

Lemma find_account_in a d : wf d → a ∈ accounts d → find_account (Account.id a) d = Some a.
Proof.
  intros Hwf Ha. eapply (fetchone_unique (Some ∘ Account.id) _ _ (Account.id a));
    [apply Hwf|intros r Hr; simpl; by f_equal|done|done].
Qed.

(** C8 A key is replaced only by who holds both: the outer request is
    authentic for the account under its present key, and carries a message
    signed by the new one that names that account and that present key; no
    account had the new key.  The account then has it, and one more audit row
    records it. *)
Theorem key_change_sound `{CertParser} request w r w' :
  wf (w_db w) →
  run (key_change request) w = Some (inr r, w') →
  ∃ header inner account tp jwk new_tp ev,
    authentic request "/acme/key-change" w header inner account tp
    ∧ inner_proof header inner account jwk new_tp
    ∧ stored_thumbprint account = inr tp
    ∧ (∀ b, b ∈ accounts (w_db w) → Account.jwk_thumbprint b ≠ Some new_tp)
    ∧ find_account (Account.id account) (w_db w')
      = Some (Account.set_key (dump_json (JObj jwk)) (Some new_tp) account)
    ∧ audit_log (w_db w') = audit_log (w_db w) ++ [ev]
    ∧ Audit.event_type ev = "account-key-changed"%string
    ∧ status_code r = 200.
Proof.
  intros Hwf Hr. unfold key_change in Hr. run_ok Hr. destruct x as [header [[inner account] tp]].
  pose proof (calm_run_wf _ _ _ _ (calm_authenticate_account _ _) Hrun Hwf) as Hwf1.
  apply authenticate_ok in Hrun as (Hauth & _ & (Ha & _ & _ & Hl) & _); [|done].
  run_ok Hr. destruct x as [jwk ntp].
  apply run_of_res_ok in Hrun as [(d & -> & Hin)%rollover_ok ->].
  run_ok Hr. destruct x; [done|].
  assert (jwk_thumbprint (JObj d) = inr ntp) as Ht.
  { unfold inner_proof in Hin. by destruct_and?; naive_solver. }
  pose proof (new_key_unused _ _ _ _ Ht Hrun) as Hnew.
  apply run_db_ro_ok in Hrun as [_ (fs & ->)]; [|intros; apply tx_ro_get_account_by_jwk].
  apply rotate_key_ok in Hr as (a & t & ev & Hf & _ & _ & Hst & Ht' & Hf' & Hlog & Het & Hs);
    [|done].
  simpl in Hf, Hlog. rewrite Ht in Ht'. injection Ht' as <-.
  assert (account ∈ accounts (w_db w0)) as Hac.
  { rewrite Ha. by destruct Hauth as (?&?&?&?&?&?&?&_&_&_&_&_&_&_&Hac&_). }
  rewrite (find_account_in _ _ Hwf1 Hac) in Hf. injection Hf as <-.
  exists header, inner, account, tp, d, ntp, ev. rewrite Hl in Hlog. rewrite Ha in Hnew.
  by split_and!.
Qed.
End rollover.

(** ** Revocation *)

Section revocation.
Context `{ServerConfig, CertParser, CertDer, JsonLoads, SignatureBackend, KeyBackend}.
Context `{NetlocCheck}.

Lemma leg_revoke_ok leg now pem reason res :
  leg_revoke leg now pem reason = inr res →
  rr_reason res = reason ∧ rr_revoked_at res = Some now.
Proof.
  destruct leg; simpl; [by intros [= <-]|].
  unfold certsrv_revoke. rewrite res_bind_ok. by intros (? & _ & [= <-]).
Qed.

Lemma get_by_serial_ok serial aid w c w' :
  run (db (λ _, get_certificate_by_serial serial (Some aid))) w = Some (inr (Some c), w') →
  c ∈ certificates (w_db w) ∧ Cert.account_id c = aid
  ∧ Cert.serial_number c = Some (canonical_serial serial) ∧ ∃ fs, w' = set_faults fs w.
Proof.
  intros (Hm & Hw)%run_db_ro_ok; [|intros; apply tx_ro_get_certificate_by_serial].
  unfold get_certificate_by_serial, mbind, tx_bind, tx_fetchone in Hm.
  destruct (fetchone _ _) as [row|] eqn:Hf; [|done].
  apply fetchone_Some in Hf as [[Hs Ha] Hin].
  unfold certificate_from_opt, tx_of_res, mbind, tx_bind, certificate_from_row in Hm.
  destruct (load_json _); [done|]. injection Hm as ->.
  split_and!; try done. destruct Ha as [|Ha]; [done|by injection Ha].
Qed.

Lemma find_cert_in c d : wf d → c ∈ certificates d → find_cert (Cert.id c) d = Some c.
Proof.
  intros Hwf Hc. eapply (fetchone_unique (Some ∘ Cert.id) _ _ (Cert.id c));
    [apply Hwf|intros r Hr; simpl; by f_equal|done|done].
Qed.

(** What a revocation leaves: the row revoked under one audit row. *)
Definition revoked_now (w w' : World) (c : Cert.t) (reason : option Z) : Prop :=
  ∃ c' ev, find_cert (Cert.id c) (w_db w') = Some c'
    ∧ Cert.status c' = CertStatus.REVOKED ∧ Cert.revocation_reason c' = reason
    ∧ Cert.revoked_at c' = Some (w_now w)
    ∧ audit_log (w_db w') = audit_log (w_db w) ++ [ev]
    ∧ Audit.event_type ev = "certificate-revoked"%string
    ∧ Audit.order_id ev = Some (Cert.order_id c).

Lemma revocation_recorded_ok aid c serial reason sans res w r w' :
  wf (w_db w) → c ∈ certificates (w_db w) →
  rr_reason res = reason → rr_revoked_at res = Some (w_now w) →
  run (revocation_recorded aid c serial reason sans res) w = Some (inr r, w') →
  status_code r = 200 ∧
  ((Cert.status c = CertStatus.VALID ∧ revoked_now w w' c reason)
   ∨ (Cert.status c ≠ CertStatus.VALID ∧ w_db w' = w_db w)).
Proof.
  intros Hwf Hc Hre Hat Hr. unfold revocation_recorded in Hr. run_ok Hr.
  apply run_get_ok in Hrun as [-> ->].
  rewrite Hat in Hr. cbv zeta in Hr. run_ok Hr. destruct x as [u ev].
  apply run_db_ok in Hrun as (d & fs & Hrec & ->). apply record_revocation_ok in Hrec; [|done].
  assert (find_cert (Cert.id c) (w_db w) = Some c) as Hfc by by apply find_cert_in.
  rewrite Hfc in Hrec. destruct Hrec as (Hwon & Hyes & Hno).
  destruct (record u) as [c1|] eqn:Hu; [|done]. destruct (won_cas u) eqn:Hw; simpl in Hr.
  - destruct (proj1 Hwon eq_refl) as (c2 & [= <-] & Hs).
    destruct (Hyes eq_refl) as (c' & e & _ & Hf & Hst & Hrr & Hra & -> & Hl & Het & Ho).
    run_ok Hr. apply emit_rows in Hrun. apply run_ret_ok in Hr as [<- ->].
    split; [done|]. left. split; [done|]. exists c', e. rewrite Hrun. split_and!; try done.
    rewrite Hrr. rewrite Hre. by destruct reason.
  - apply run_ret_ok in Hr as [<- ->]. destruct (Hno eq_refl) as (-> & _).
    split; [done|]. right. split; [|done]. intros Hs.
    by discriminate (proj2 Hwon (ex_intro _ c (conj eq_refl Hs))).
Qed.

(** C9 A revocation is answered only to the certificate's holder: the request
    is authentic for the account whose certificate it is, submits the very
    octets of that certificate, and gives a reason of the RFC.  A valid
    certificate is then revoked for that reason, at that time, with one audit
    row; one that was not valid is answered and nothing is written. *)
Theorem revoke_cert_sound leg request w r w' :
  wf (w_db w) →
  run (with_account request RevokeCert (revoke_cert_as leg)) w = Some (inr r, w') →
  ∃ header payload account tp serial der reason c,
    authentic request "/acme/revoke-cert" w header payload account tp
    ∧ submitted_certificate payload = inr (serial, der)
    ∧ revocation_reason_of payload = inr reason
    ∧ c ∈ certificates (w_db w) ∧ Cert.account_id c = Account.id account
    ∧ der = pem_public_bytes (Cert.cert_pem c)
    ∧ status_code r = 200
    ∧ ((Cert.status c = CertStatus.VALID ∧ revoked_now w w' c reason)
       ∨ (Cert.status c ≠ CertStatus.VALID ∧ same_rows w w')).
Proof.
  intros Hwf Hr. unfold with_account, authenticate in Hr. run_ok Hr. run_ok Hrun.
  apply run_ret_ok in Hrun as [<- ->]. destruct x0 as [header [[payload account] tp]].
  pose proof (calm_run_wf _ _ _ _ (calm_authenticate_account _ _) Hrun0 Hwf) as Hwf1.
  apply authenticate_ok in Hrun0 as (Hauth & _ & Hrows & Hnow & _); [|done].
  simpl in Hr. run_ok Hr. destruct x as [serial der]. apply run_of_res_ok in Hrun as [Hsub ->].
  run_ok Hr. rename x into reason. apply run_of_res_ok in Hrun as [Hrea ->].
  run_ok Hr. destruct x as [c|]; [|done].
  apply get_by_serial_ok in Hrun as (Hc & Hacc & _ & fs & ->).
  run_ok Hr. apply run_of_res_ok in Hrun as [_ ->]. simpl in Hr.
  case_bool_decide as Hder; [|done]. cbn [negb] in Hr.
  run_ok Hr. apply run_of_res_ok in Hrun as [_ ->].
  destruct Hrows as (Ha & Ho & Hce & Hl).
  exists header, payload, account, tp, serial, der, reason, c.
  assert (status_code r = 200 ∧ ((Cert.status c = CertStatus.VALID ∧ revoked_now w w' c reason)
     ∨ (Cert.status c ≠ CertStatus.VALID ∧ same_rows w w'))) as [Hst Hout]; cycle 1.
  { rewrite <- Hce. by split_and!. }
  case_bool_decide as Hrev.
  { apply run_ret_ok in Hr as [<- ->]. split; [done|]. right. by rewrite Hrev. }
  run_ok Hr. apply run_get_ok in Hrun as [-> ->].
  destruct (leg_revoke _ _ _ _) as [e|res] eqn:Hleg; [by run_ok Hr|].
  apply leg_revoke_ok in Hleg as [Hre Hat].
  apply revocation_recorded_ok in Hr; [|done..]. destruct Hr as (Hst & [[Hv Hr]|[Hnv Hdb]]).
  - split; [done|]. left. split; [done|]. unfold revoked_now in *. simpl in *.
    by rewrite <- Hl, <- Hnow.
  - split; [done|]. right. split; [done|]. unfold same_rows. rewrite Hdb. by split_and!.
Qed.
End revocation.
