(* ===== verification/CrlTheorems.v ===== *)
(** * What the CRL evidence is worth

    Which documents prove a revocation, where the server may be sent to fetch
    one, and which chains are put back. *)

From S2P Require Import Prelude PyStr Time Exn Json Sha256 Sql Db X509 StoreAudit Url Jws.
From S2P Require Import IssuerRecovery CrlEvidence CrlFetch JwsTheorems.
From stdpp Require Import pretty.
Local Open Scope Z_scope.

(** ** Issuers *)

Section issuers.
Context `{IssuerBackend}.

(** [child] names [parent] its issuer, and [parent]'s key signed it. *)
Definition issued_by (child parent : Certificate) : Prop :=
  subject parent = issuer child ∧ ∃ u, verify_directly_issued_by child parent = inr u.

Lemma signed_by_ok child c : signed_by_candidate child c = inr true ↔ ∃ u, verify_directly_issued_by child c = inr u.
Proof.
  unfold signed_by_candidate. destruct (verify_directly_issued_by child c) as [e|u].
  - case_bool_decide; naive_solver.
  - naive_solver.
Qed.

Lemma first_issuer_ok leaf cs c :
  first_issuer leaf cs = inr (Some c) → c ∈ cs ∧ issued_by leaf c.
Proof.
  induction cs as [|x cs IH]; simpl; [done|].
  case_bool_decide as Hn; simpl; [|intros ?%IH; set_solver].
  rewrite res_bind_ok. intros ([] & Hs & Hr).
  - injection Hr as <-. apply signed_by_ok in Hs. split; [by left|by split].
  - apply IH in Hr. set_solver.
Qed.

(** The issuer that is found is in the stored chain, and signed the leaf. *)
Lemma issuing_ca_ok pem chain c :
  issuing_ca_certificate pem chain = inr (Some c) →
  ∃ leaf entries entry cs, load_certificate pem = inr leaf ∧ iterate chain = inr entries
    ∧ JStr entry ∈ entries ∧ load_certificates entry = inr cs ∧ c ∈ cs ∧ issued_by leaf c.
Proof.
  unfold issuing_ca_certificate. destruct (load_certificate pem) as [[]|leaf]; try done.
  rewrite res_bind_ok. intros (entries & Hi & Hf). exists leaf, entries.
  cut (∃ entry cs, JStr entry ∈ entries ∧ load_certificates entry = inr cs ∧ c ∈ cs
                   ∧ issued_by leaf c); [naive_solver|].
  clear Hi. induction entries as [|e entries IH]; simpl in Hf; [done|].
  rewrite res_bind_ok in Hf. destruct Hf as (s & Hs & Hf).
  destruct e as [| | | |s'| |]; try done. injection Hs as ->.
  destruct (load_certificates s) as [[]|cs] eqn:Hl; try done.
  - apply IH in Hf as (entry & cs & Hin & Hrest). exists entry, cs. by split; [right|].
  - rewrite res_bind_ok in Hf. destruct Hf as ([x|] & Hx & Hf).
    + injection Hf as ->. apply first_issuer_ok in Hx as [Hc Hby].
      exists s, cs. by split; [left|].
    + apply IH in Hf as (entry & cs' & Hin & Hrest). exists entry, cs'. by split; [right|].
Qed.
End issuers.

(** ** Documents *)

Section documents.
Context `{IssuerBackend}.
Context `{CrlBackend}.

(** In force at [now] (microseconds), dated no later than the clock's skew
    allows, and no older than the limit. *)
Definition fresh (crl : Crl) (now max_age : Z) : Prop :=
  ∃ next, next_update_utc crl = Some next ∧ now ≤ next * 10 ^ 6
    ∧ ∀ this, last_update_utc crl = Some this →
        this * 10 ^ 6 ≤ now + CLOCK_SKEW * 10 ^ 6 ∧ now - this * 10 ^ 6 ≤ max_age * 10 ^ 6.

(** The serial is on the list, and not as one taken off hold. *)
Definition lists_revoked (crl : Crl) (serial : Z) : Prop :=
  ∃ reason, revoked_entry crl serial = Some (inr reason) ∧ reason ≠ Some remove_from_crl.

(** A base CRL that the leaf's own issuer signed, fresh, not older than the
    watermark where that is enforced, and listing the serial. *)
Definition proves_revoked (body : list Z) (serial : Z) (pem : string) (chain : json)
    (now max_age : Z) (wm : option CrlWatermark) (enforce : bool) : Prop :=
  ∃ crl ca number,
    load_crl body = inr (Some crl)
    ∧ issuing_ca_certificate pem chain = inr (Some ca)
    ∧ is_signature_valid crl ca = inr true
    ∧ fresh crl now max_age
    ∧ crl_number_extension crl = inr number ∧ delta_crl_indicator crl = inr false
    ∧ (enforce = true →
       compare_to_watermark wm (pretty <$> number) (last_update_utc crl) ≠ WATERMARK_OLDER)
    ∧ lists_revoked crl serial.

Lemma stale_none crl now max_age : stale crl now max_age = None ↔ fresh crl now max_age.
Proof.
  unfold stale, fresh. destruct (next_update_utc crl) as [next|]; [|naive_solver].
  destruct (_ <? now) eqn:Hnext.
  { split; [done|]. intros (n & [= ->] & Hn & _). apply Z.ltb_lt in Hnext. lia. }
  apply Z.ltb_ge in Hnext. destruct (last_update_utc crl) as [this|].
  2:{ split; [|done]. intros _. exists next. by split_and!. }
  destruct (now + _ <? _) eqn:Hfut.
  { apply Z.ltb_lt in Hfut. split; [done|]. intros (n & _ & _ & Ht). specialize (Ht this eq_refl). lia. }
  apply Z.ltb_ge in Hfut. destruct (max_age * _ <? _) eqn:Hold.
  { apply Z.ltb_lt in Hold. split; [done|]. intros (n & _ & _ & Ht). specialize (Ht this eq_refl). lia. }
  apply Z.ltb_ge in Hold. split; [|done]. intros _. exists next. split_and!; [done|lia|].
  intros t [= <-]. lia.
Qed.
Lemma stale_no_proof crl now max_age e :
  stale crl now max_age = Some e → revoked e = false ∧ checked e = false.
Proof.
  unfold stale. destruct (next_update_utc crl) as [next|]; [|by intros [= <-]].
  destruct (_ <? now); [by intros [= <-]|]. destruct (last_update_utc crl); [|done].
  destruct (_ <? _); [by intros [= <-]|]. destruct (_ <? _); [by intros [= <-]|done].
Qed.

Lemma entry_revokes_true entry text :
  entry_revokes entry = inr (true, text) →
  ∃ reason, entry = Some (inr reason) ∧ reason ≠ Some remove_from_crl.
Proof.
  destruct entry as [[e|r]|]; simpl; [done| |done].
  destruct r as [[]|]; intros [=]; by eexists.
Qed.
Lemma entry_revokes_listed crl serial :
  lists_revoked crl serial → ∃ text, entry_revokes (revoked_entry crl serial) = inr (true, text).
Proof.
  intros (reason & -> & Hne). destruct reason as [[]|]; first [by destruct Hne|eexists; reflexivity].
Qed.

(** What a document that passed the tests says. *)
Lemma verified_document_iff crl serial key wm enforce :
  (∃ e, verified_document crl serial key wm enforce = inr e ∧ revoked e = true) ↔
  ∃ number, crl_number_extension crl = inr number ∧ delta_crl_indicator crl = inr false
    ∧ (enforce = true →
       compare_to_watermark wm (pretty <$> number) (last_update_utc crl) ≠ WATERMARK_OLDER)
    ∧ lists_revoked crl serial.
Proof.
  unfold verified_document. split.
  - intros (e & Hv & Hr). rewrite res_bind_ok in Hv. destruct Hv as (number & -> & Hv).
    rewrite res_bind_ok in Hv. destruct Hv as ([] & -> & Hv); [by injection Hv as <-|].
    destruct (bool_decide _ && enforce) eqn:Hold; [by injection Hv as <-|].
    rewrite res_bind_ok in Hv. destruct Hv as ([b text] & Hen & Hv). injection Hv as <-.
    simpl in Hr. subst b. exists number. split_and!; [done|done| |by eapply entry_revokes_true].
    intros -> Ho. by rewrite andb_true_r, bool_decide_eq_false in Hold.
  - intros (number & -> & -> & Hmono & Hlist). simpl.
    destruct (entry_revokes_listed _ _ Hlist) as [text ->]. simpl.
    destruct (bool_decide _ && enforce) eqn:Hold; [|by eexists].
    apply andb_true_iff in Hold as [Ho%bool_decide_eq_true ->]. by destruct (Hmono eq_refl).
Qed.
Lemma verified_document_checked crl serial key wm enforce e :
  verified_document crl serial key wm enforce = inr e → revoked e = true → checked e = true.
Proof.
  unfold verified_document. rewrite res_bind_ok. intros (n & _ & Hv).
  rewrite res_bind_ok in Hv. destruct Hv as ([] & _ & Hv); [by injection Hv as <-|].
  destruct (bool_decide _ && enforce); [by injection Hv as <-|].
  rewrite res_bind_ok in Hv. by destruct Hv as (x & _ & [= <-]).
Qed.

(** A document whose evidence says revoked proves it, and was checked. *)
Lemma document_revoked body serial pem chain now max_age wm enforce e :
  document_evidence body serial pem chain now max_age wm enforce = inr e → revoked e = true →
  proves_revoked body serial pem chain now max_age wm enforce.
Proof.
  unfold document_evidence, proves_revoked. intros Hd Hr.
  rewrite res_bind_ok in Hd. destruct Hd as ([crl|] & -> & Hd); [|by injection Hd as <-].
  rewrite res_bind_ok in Hd. destruct Hd as ([ca|] & -> & Hd); [|by injection Hd as <-].
  rewrite res_bind_ok in Hd. destruct Hd as ([] & Hsig & Hd); [|by injection Hd as <-].
  simpl in Hd. destruct (stale crl now max_age) as [e'|] eqn:Hst.
  { injection Hd as ->. apply stale_no_proof in Hst as []. congruence. }
  destruct (proj1 (verified_document_iff crl serial (watermark_key ca) wm enforce))
    as (number & Hdoc); [by exists e|].
  exists crl, ca, number. split; [done|]. split; [done|]. split; [done|].
  split; [by apply stale_none|done].
Qed.

(** C16 A document is taken as proof of a revocation exactly when it is a base
    CRL that verifies under the key of the certificate's own issuer (found in
    its stored chain by signature), that is in force, not dated ahead and not
    too old, that is not older than the newest one acted on (where that is
    enforced), and that lists the serial with any reason but removeFromCRL. *)
Theorem document_proves_iff body serial pem chain now max_age wm enforce :
  (∃ e, document_evidence body serial pem chain now max_age wm enforce = inr e
        ∧ verification e = CRL_VERIFIED)
  ↔ proves_revoked body serial pem chain now max_age wm enforce.
Proof.
  split.
  - intros (e & Hd & Hv). unfold verification in Hv.
    destruct (checked e && revoked e) eqn:Hcr; [clear Hv|done].
    apply andb_true_iff in Hcr as [_ Hr]. by eapply document_revoked.
  - unfold document_evidence.
    intros (crl & ca & number & -> & -> & Hsig & Hfresh & Hdoc). simpl. rewrite Hsig. simpl.
    rewrite (proj2 (stale_none _ _ _) Hfresh).
    destruct (proj2 (verified_document_iff crl serial (watermark_key ca) wm enforce))
      as (e & He & Hr); [by exists number|].
    exists e. split; [done|]. unfold verification.
    by rewrite (verified_document_checked _ _ _ _ _ _ He Hr), Hr.
Qed.
End documents.

(** ** Requests *)

Section requests.
Context `{NetlocCheck, Cdp}.

(** Where a redirect may lead: the configured host over http or https, never
    down to http, at the configured port, or from port 80 up to 443. *)
Definition permitted (origin target : ParseResult) : Prop :=
  is_http (scheme target) = true
  ∧ (∃ host, hostname target = Some host
             ∧ lower host = lower (default EmptyString (hostname origin)))
  ∧ (scheme origin = "https"%string → scheme target = "https"%string)
  ∧ ∃ port port', effective_port origin = inr port ∧ effective_port target = inr port'
      ∧ (port' = port
         ∨ scheme origin = "http"%string ∧ scheme target = "https"%string
           ∧ port = Some 80 ∧ port' = Some 443).

Lemma vet_redirect_ok location current origin target :
  vet_redirect location current origin = inr (inl target) →
  ∃ parsed, urlparse target = inr parsed ∧ permitted origin parsed.
Proof.
  unfold vet_redirect. rewrite res_bind_ok. intros (t & _ & Hr).
  rewrite res_bind_ok in Hr. destruct Hr as (parsed & Hp & Hr).
  destruct (hostname parsed) as [host|] eqn:Hh; [|done].
  destruct (is_http (scheme parsed)) eqn:Hs; [|done]. cbn [negb] in Hr.
  case_bool_decide as Hhost; [|done]. cbn [negb] in Hr.
  destruct (bool_decide _ && bool_decide _) eqn:Hdown; [done|].
  rewrite res_bind_ok in Hr. destruct Hr as (port & Hport & Hr).
  rewrite res_bind_ok in Hr. destruct Hr as (port' & Hport' & Hr).
  case_bool_decide as Hin; [done|]. injection Hr as ->.
  exists parsed. split; [done|]. split; [done|]. split; [by exists host|]. split.
  - intros Ho. rewrite Ho in Hdown. unfold is_http in Hs. apply orb_true_iff in Hs.
    rewrite !bool_decide_eq_true in Hs. rewrite bool_decide_eq_true_2 in Hdown by done.
    apply bool_decide_eq_false in Hdown. by destruct Hs.
  - exists port, port'. split; [done|]. split; [done|].
    apply elem_of_cons in Hin as [->|Hin]; [by left|]. right.
    destruct (bool_decide _ && _ && _) eqn:Hup; [|by apply not_elem_of_nil in Hin].
    rewrite !andb_true_iff, !bool_decide_eq_true in Hup. destruct Hup as [[? ?] ->].
    by apply list_elem_of_singleton in Hin as ->.
Qed.

(** What an answer that is followed leads to. *)
Lemma answered_follow o h url origin a target :
  answered o h url origin a = Follow target →
  follow_redirects o = true ∧ ∃ parsed, urlparse target = inr parsed ∧ permitted origin parsed.
Proof.
  unfold answered. destruct (flagged_on_entry a); [done|].
  destruct (_ && _); [|by destruct (_ && _)].
  destruct (follow_redirects o); [|done]. cbn [negb]. destruct (location a) as [[|c l]|]; [done| |done].
  destruct (vet_redirect _ _ _) as [|[t|]] eqn:Hv; [done| |done].
  intros [= ->]. split; [done|]. by eapply vet_redirect_ok.
Qed.

Lemma read_document_bound o rs flagged body body' :
  Z.of_nat (length body) ≤ max_bytes o →
  read_document o rs flagged body = inr body' → Z.of_nat (length body') ≤ max_bytes o.
Proof.
  revert body. induction rs as [|[|e|octets late] rs IH]; intros body Hb; simpl.
  - destruct flagged; [done|]. by intros [= <-].
  - done.
  - done.
  - case_bool_decide; [destruct flagged; [done|]; by intros [= <-]|].
    destruct (_ <? _) eqn:Hlt; [done|]. destruct late; [done|].
    apply IH. by apply Z.ltb_ge.
Qed.
Lemma answered_bound o h url origin a body :
  0 ≤ max_bytes o → answered o h url origin a = Stop (inr body) →
  Z.of_nat (length body) ≤ max_bytes o.
Proof.
  intros Ho. unfold answered. destruct (flagged_on_entry a); [done|].
  destruct (_ && _).
  - destruct (negb _); [done|]. destruct (location a) as [[|c l]|]; [done| |done].
    by destruct (vet_redirect _ _ _) as [|[|]].
  - destruct (_ && _); [done|]. intros [= Hr].
    by apply (read_document_bound o _ _ [] body) in Hr.
Qed.

Lemma open_pinned_sent h addresses e r sent :
  open_pinned h addresses e = (r, sent) → sent `sublist_of` addresses.
Proof.
  revert e r sent. induction addresses as [|a addresses IH]; intros e r sent; simpl.
  - by intros [= _ <-].
  - destruct (attempt h a) as [|e'|ans].
    + intros [= _ <-]. apply sublist_nil_l.
    + destruct (open_pinned h addresses e') as [r' sent'] eqn:Ho. intros [= _ <-].
      apply sublist_skip. exact (IH _ _ _ Ho).
    + intros [= _ <-]. apply sublist_skip, sublist_nil_l.
Qed.

(** Every request of the hops, and the size of what they bring. *)
Lemma fetch_hops_ok o turns url origin addresses r trace :
  0 ≤ max_bytes o → fetch_hops o turns url origin addresses = (r, trace) →
  (∀ u a, (u, a) ∈ trace → a ∈ addresses
     ∧ (u = url ∨ follow_redirects o = true
                  ∧ ∃ p, urlparse u = inr p ∧ permitted origin p))
  ∧ (length trace ≤ turns * length addresses)%nat
  ∧ ∀ body, r = inr body → Z.of_nat (length body) ≤ max_bytes o.
Proof.
  intros Ho. revert url r trace. induction turns as [|turns IH]; intros url r trace; simpl.
  { intros [= <- <-]. split_and!; [by intros ? ? ?%not_elem_of_nil|done|done]. }
  destruct (hop_expired _).
  { intros [= <- <-]. split_and!; [by intros ? ? ?%not_elem_of_nil|simpl; lia|done]. }
  destruct (open_pinned _ _ _) as [opened sent] eqn:Hop.
  apply open_pinned_sent in Hop as Hsub.
  assert (∀ u a, (u, a) ∈ map (pair url) sent → a ∈ addresses ∧ u = url) as Hsent.
  { intros u a (a' & [= -> ->] & Hin)%list_elem_of_fmap. split; [|done].
    by eapply elem_of_sublist. }
  pose proof (sublist_length _ _ Hsub) as Hlen.
  destruct opened as [e|a].
  { intros [= <- <-]. split_and!; [naive_solver|rewrite length_map; lia|done]. }
  destruct (answered o _ url origin a) as [r'|target] eqn:Ha.
  { intros [= <- <-]. split_and!; [naive_solver|rewrite length_map; lia|].
    intros body ->. by eapply answered_bound. }
  apply answered_follow in Ha as (Hfollow & Htarget).
  destruct (fetch_hops o turns target origin addresses) as [r' more] eqn:Hmore.
  intros [= <- <-]. destruct (IH _ _ _ Hmore) as (Hin & Hl & Hb). split_and!; [|  |done].
  - intros u x [Hx%Hsent|Hx%Hin]%elem_of_app; [naive_solver|].
    destruct Hx as [Hx [->|Hu]]; split; [done|by right|done|by right].
  - rewrite length_app, length_map. lia.
Qed.


(** What a retrieval without a document says. *)
Lemma transfer_no_proof text n e : revoked (transfer_failed text n e) = false.
Proof. unfold transfer_failed. by destruct (past_deadline e). Qed.
Lemma read_no_proof o rs flagged body e :
  read_document o rs flagged body = inl e → revoked e = false.
Proof.
  revert body. induction rs as [|[|x|octets late] rs IH]; intros body; simpl.
  - destruct flagged; by intros [= <-].
  - by intros [= <-].
  - intros [= <-]. apply transfer_no_proof.
  - case_bool_decide; [destruct flagged; by intros [= <-]|].
    destruct (_ <? _); [by intros [= <-]|]. destruct late; [by intros [= <-]|apply IH].
Qed.
Lemma answered_no_proof o h url origin a e :
  answered o h url origin a = Stop (inl e) → revoked e = false.
Proof.
  unfold answered. destruct (flagged_on_entry a); [by intros [= <-]|].
  destruct (_ && _).
  - destruct (negb _); [by intros [= <-]|].
    destruct (location a) as [[|c l]|]; [by intros [= <-]| |by intros [= <-]].
    destruct (vet_redirect _ _ _) as [err|[|]]; [|done|by intros [= <-]].
    intros [= <-]. apply transfer_no_proof.
  - destruct (_ && _); intros [= Hr]; [rewrite <- Hr; apply transfer_no_proof|].
    by apply read_no_proof in Hr.
Qed.
Lemma hops_no_proof o turns url origin addresses e trace :
  fetch_hops o turns url origin addresses = (inl e, trace) → revoked e = false.
Proof.
  revert url trace. induction turns as [|turns IH]; intros url trace; simpl; [by intros [= <- _]|].
  destruct (hop_expired _); [by intros [= <- _]|].
  destruct (open_pinned _ _ _) as [[x|a] sent]; [intros [= <- _]; apply transfer_no_proof|].
  destruct (answered o _ url origin a) as [r|target] eqn:Ha.
  - intros [= -> _]. by apply answered_no_proof in Ha.
  - destruct (fetch_hops o turns target origin addresses) as [r more] eqn:Hm.
    intros [= -> _]. by eapply IH.
Qed.
Lemma fetch_no_proof o url e trace : fetch_document o url = inr (inl e, trace) → revoked e = false.
Proof.
  unfold fetch_document. rewrite res_bind_ok. intros (origin & _ & Hr).
  destruct (hostname origin) as [host|]; [|by injection Hr as <- _].
  destruct (negb _); [by injection Hr as <- _|].
  rewrite res_bind_ok in Hr. destruct Hr as (port & _ & Hr).
  case_bool_decide; [by injection Hr as <- _|].
  apply (inj inr) in Hr. by apply hops_no_proof in Hr.
Qed.

(** Evidence of a revocation has a document that proves it. *)
Lemma fetched_revoked `{IssuerBackend} `{CrlBackend} o url serial pem chain wm now e :
  fetch_crl_evidence o url serial pem chain wm now = inr e → revoked e = true →
  ∃ body trace, fetch_document o url = inr (inr body, trace)
    ∧ proves_revoked body serial pem chain now (max_age_seconds o) wm (enforce_monotonic o).
Proof.
  unfold fetch_crl_evidence. rewrite res_bind_ok. intros ([[x|body] trace] & Hf & Hr) Hrev.
  - injection Hr as ->. apply fetch_no_proof in Hf. congruence.
  - exists body, trace. split; [done|]. by eapply document_revoked.
Qed.
End requests.

(** ** Recovered chains *)

Section recovery.
Context `{IssuerBackend}.

(** A CA certificate of a stored chain, under its fingerprint. *)
Definition stored_ca (chains : list (string * list json)) (c : CandidateIssuer) : Prop :=
  ∃ chain entry cs,
    (source_certificate_id c, chain) ∈ chains ∧ JStr entry ∈ chain
    ∧ load_certificates entry = inr cs ∧ candidate_certificate c ∈ cs
    ∧ is_ca_certificate (candidate_certificate c) = inr true
    ∧ fingerprint c = certificate_fingerprint (candidate_certificate c).

(** Each certificate of the path is the issuer of the one below. *)
Fixpoint linked (leaf : Certificate) (path : list CandidateIssuer) : Prop :=
  match path with
  | [] => True
  | c :: path => issued_by leaf (candidate_certificate c) ∧ linked (candidate_certificate c) path
  end.

(** The pool of candidates, as the loops keep it. *)
Record pool_ok (good : CandidateIssuer → Prop) (max : Z) (cs : list CandidateIssuer) : Prop := {
  pool_good : Forall good cs;
  pool_distinct : NoDup (map fingerprint cs);
  pool_bound : Z.of_nat (length cs) ≤ max;
}.

Lemma collect_parsed_ok good max id parsed cs cs' t :
  (∀ c, c ∈ parsed → is_ca_certificate c = inr true →
        good {| candidate_certificate := c; fingerprint := certificate_fingerprint c;
                source_certificate_id := id |}) →
  pool_ok good max cs → collect_parsed max id parsed cs = inr (cs', t) →
  pool_ok good max cs' ∧ cs `prefix_of` cs'
  ∧ (t = false → ∀ c, c ∈ parsed → is_ca_certificate c = inr true →
       certificate_fingerprint c ∈ map fingerprint cs').
Proof.
  revert cs. induction parsed as [|c parsed IH]; intros cs Hgood Hok; simpl.
  { intros [= <- <-]. split_and!; [done|done|by intros _ c ?%not_elem_of_nil]. }
  rewrite res_bind_ok. intros (ca & Hca & Hr).
  assert (∀ c', c' ∈ parsed → is_ca_certificate c' = inr true → good {|
    candidate_certificate := c'; fingerprint := certificate_fingerprint c';
    source_certificate_id := id |}) as Hgood' by (intros; apply Hgood; [by right|done]).
  destruct (negb ca || bool_decide _) eqn:Hskip.
  - destruct (IH cs Hgood' Hok Hr) as (Hok' & Hpre & Hall). split; [done|]. split; [done|].
    intros Ht x [->|Hx]%elem_of_cons Hxa; [|by apply Hall].
    rewrite Hca in Hxa. injection Hxa as ->. apply bool_decide_eq_true in Hskip.
    destruct Hpre as [k ->]. rewrite map_app. by apply elem_of_app; left.
  - apply orb_false_iff in Hskip as [Hc Hnew%bool_decide_eq_false].
    apply negb_false_iff in Hc as ->.
    destruct (max <=? _) eqn:Hmax; [injection Hr as <- <-; by split_and!|].
    apply Z.leb_gt in Hmax. apply IH in Hr as (Hok' & Hpre & Hall); [|done|].
    + split; [done|]. split; [by eapply prefix_app_l|].
      intros Ht x [->|Hx]%elem_of_cons Hxa; [|by apply Hall].
      destruct Hpre as [k ->]. rewrite !map_app, !elem_of_app. left. right. by left.
    + destruct Hok as [Hg Hd Hb]. split.
      * apply Forall_app. split; [done|]. apply Forall_singleton, Hgood; [by left|done].
      * rewrite map_app. apply NoDup_app. split; [done|]. split; [|apply NoDup_singleton].
        intros x Hx ->%list_elem_of_singleton. done.
      * rewrite length_app. simpl. lia.
Qed.

Lemma collect_entries_ok good max id entries cs cs' t :
  (∀ entry parsed c, JStr entry ∈ entries → load_certificates entry = inr parsed →
        c ∈ parsed → is_ca_certificate c = inr true →
        good {| candidate_certificate := c; fingerprint := certificate_fingerprint c;
                source_certificate_id := id |}) →
  pool_ok good max cs → collect_entries max id entries cs = inr (cs', t) →
  pool_ok good max cs' ∧ cs `prefix_of` cs'
  ∧ (t = false → ∀ entry parsed c, JStr entry ∈ entries → load_certificates entry = inr parsed →
       c ∈ parsed → is_ca_certificate c = inr true →
       certificate_fingerprint c ∈ map fingerprint cs').
Proof.
  revert cs. induction entries as [|e entries IH]; intros cs Hgood Hok; simpl.
  { intros [= <- <-]. split_and!; [done|done|by intros _ ? ? c ?%not_elem_of_nil]. }
  rewrite res_bind_ok. intros (pem & He & Hr). destruct e as [| | | |s| |]; try done.
  injection He as ->.
  assert (∀ entry parsed c, JStr entry ∈ entries → load_certificates entry = inr parsed →
    c ∈ parsed → is_ca_certificate c = inr true → good {| candidate_certificate := c;
    fingerprint := certificate_fingerprint c; source_certificate_id := id |}) as Hgood'
    by (intros ? ? ? ?; apply Hgood; by right).
  destruct (load_certificates pem) as [err|parsed] eqn:Hl.
  - assert (collect_entries max id entries cs = inr (cs', t)) as Hr' by by destruct err.
    destruct (IH cs Hgood' Hok Hr') as (Hok' & Hpre & Hall). split; [done|]. split; [done|].
    intros Ht entry ps c [[= ->]|Hin]%elem_of_cons Hps; [congruence|]. by eapply Hall.
  - rewrite res_bind_ok in Hr. destruct Hr as ([cs1 t1] & Hc & Hr).
    apply (collect_parsed_ok good) in Hc as (Hok1 & Hpre1 & Hall1);
      [|intros c Hin Hca; by apply (Hgood pem parsed c); [left|..]|done].
    simpl in Hr. destruct t1; [injection Hr as <- <-; by split_and!|].
    destruct (IH cs1 Hgood' Hok1 Hr) as (Hok' & Hpre & Hall). split; [done|].
    split; [by etrans|]. intros Ht entry ps c [[= ->]|Hin]%elem_of_cons Hps; [|by eapply Hall].
    intros Hc Hca. rewrite Hl in Hps. injection Hps as ->. specialize (Hall1 eq_refl c Hc Hca).
    destruct Hpre as [k ->]. rewrite map_app. apply elem_of_app. by left.
Qed.

Lemma collect_rows_ok good mr mc chains cs rows cs' rows' t :
  (∀ id chain entry parsed c, (id, chain) ∈ chains → JStr entry ∈ chain →
        load_certificates entry = inr parsed → c ∈ parsed → is_ca_certificate c = inr true →
        good {| candidate_certificate := c; fingerprint := certificate_fingerprint c;
                source_certificate_id := id |}) →
  pool_ok good mc cs → rows ≤ mr → collect_rows mr mc chains cs rows = inr (cs', rows', t) →
  pool_ok good mc cs' ∧ cs `prefix_of` cs' ∧ rows' ≤ mr
  ∧ (t = false → ∀ id chain entry parsed c, (id, chain) ∈ chains → JStr entry ∈ chain →
       load_certificates entry = inr parsed → c ∈ parsed → is_ca_certificate c = inr true →
       certificate_fingerprint c ∈ map fingerprint cs').
Proof.
  revert cs rows. induction chains as [|[id chain] chains IH]; intros cs rows Hgood Hok Hrows; simpl.
  { intros [= <- <- <-]. split_and!; [done|done|done|by intros _ ? ? ? ? c ?%not_elem_of_nil]. }
  destruct (mr <=? rows) eqn:Hmr; [intros [= <- <- <-]; by split_and!|]. apply Z.leb_gt in Hmr.
  rewrite res_bind_ok. intros ([cs1 t1] & Hc & Hr).
  apply (collect_entries_ok good) in Hc as (Hok1 & Hpre1 & Hall1);
    [|intros entry ps c; apply Hgood; by left|done].
  simpl in Hr. destruct t1; [injection Hr as <- <- <-; split_and!; [done|done|lia|done]|].
  apply IH in Hr as (Hok' & Hpre & Hmr' & Hall); [|intros ? ? ? ? ? ?; apply Hgood; by right|done|lia].
  split; [done|]. split; [by etrans|]. split; [done|].
  intros Ht i ch entry ps c [[= -> ->]|Hin]%elem_of_cons; [|by eapply Hall].
  intros He Hps Hc Hca. specialize (Hall1 eq_refl entry ps c He Hps Hc Hca).
  destruct Hpre as [k ->]. rewrite map_app. apply elem_of_app. by left.
Qed.

Lemma direct_issuer_ok child cs consumed found :
  direct_issuer child cs consumed = inr found →
  match found with
  | Some c => c ∈ cs ∧ fingerprint c ∉ consumed ∧ issued_by child (candidate_certificate c)
  | None => ∀ c, c ∈ cs → fingerprint c ∉ consumed → ¬ issued_by child (candidate_certificate c)
  end.
Proof.
  induction cs as [|c cs IH]; simpl.
  { intros [= <-]. by intros c ?%not_elem_of_nil. }
  destruct (bool_decide _ || _) eqn:Hskip.
  - intros Hr%IH. destruct found as [f|]; [set_solver|].
    intros x [->|Hx]%elem_of_cons Hn; [|by apply Hr]. intros [Hs _].
    rewrite bool_decide_eq_false_2, bool_decide_eq_true_2 in Hskip by done. done.
  - apply orb_false_iff in Hskip as [Hn%bool_decide_eq_false Hs%negb_false_iff%bool_decide_eq_true].
    rewrite res_bind_ok. intros ([] & Hb & Hr).
    + injection Hr as <-. apply signed_by_ok in Hb. split; [by left|]. by split.
    + apply IH in Hr. destruct found as [f|]; [set_solver|].
      intros x [->|Hx]%elem_of_cons Hnx; [|by apply Hr]. intros [_ Hv].
      apply signed_by_ok in Hv. congruence.
Qed.

Lemma no_path_ok depth child (cs : list CandidateIssuer) (consumed : list string) :
  linked child [] ∧ Forall (.∈ cs) ([] : list CandidateIssuer) ∧ NoDup (map fingerprint [])
  ∧ (∀ c : CandidateIssuer, c ∈ ([] : list CandidateIssuer) → fingerprint c ∉ consumed) ∧ (length (@nil CandidateIssuer) ≤ depth)%nat.
Proof.
  split_and!; [done|apply Forall_nil_2|apply NoDup_nil_2|by intros ? ?%not_elem_of_nil|simpl; lia].
Qed.

Lemma build_path_ok depth child cs consumed path :
  build_path depth child cs consumed = inr path →
  linked child path ∧ Forall (.∈ cs) path ∧ NoDup (map fingerprint path)
  ∧ (∀ c, c ∈ path → fingerprint c ∉ consumed) ∧ (length path ≤ depth)%nat.
Proof.
  revert child consumed path. induction depth as [|depth IH]; intros child consumed path; simpl.
  { intros [= <-]. apply no_path_ok. }
  rewrite res_bind_ok. intros ([c|] & Hd%direct_issuer_ok & Hr);
    [|injection Hr as <-; apply no_path_ok].
  destruct Hd as (Hc & Hn & Hby). case_bool_decide.
  - injection Hr as <-. split_and!; [done|by repeat constructor|apply NoDup_singleton| |simpl; lia].
    by intros x ->%list_elem_of_singleton.
  - rewrite res_bind_ok in Hr. destruct Hr as (rest & Hp & Hr). injection Hr as <-.
    apply IH in Hp as (Hl & Hin & Hnd & Hfresh & Hlen). split_and!.
    + by split.
    + by constructor.
    + simpl. constructor; [|done]. intros (x & Hx & Hxin)%list_elem_of_fmap.
      apply (Hfresh x Hxin). rewrite <- Hx. by left.
    + intros x [->|Hx]%elem_of_cons; [done|]. intros Hxc. apply (Hfresh x Hx). by right.
    + simpl. lia.
Qed.

(** C18 What is put back as the chain of a certificate.  A recovered chain
    consists of CA certificates of other stored chains, the first of which
    signed the certificate and each further one the one before; none occurs
    twice and there are at most eight.  And a search that was not cut short
    and recovered nothing tells that no CA certificate of the stored chains
    (none of its fingerprint that was looked at) signed the certificate. *)
Theorem recovered_chain_verified pem chains max_rows max_candidates o leaf :
  0 ≤ max_rows → 0 ≤ max_candidates → load_certificate pem = inr leaf →
  recover_issuer_chain pem chains max_rows max_candidates = inr o →
  rows_scanned o ≤ max_rows ∧ candidates_considered o ≤ max_candidates
  ∧ (recovered o = true → ∃ path,
       recovered_chain o = map candidate_pem path ∧ linked leaf path
       ∧ Forall (stored_ca chains) path ∧ NoDup (map fingerprint path)
       ∧ (length path ≤ 8)%nat)
  ∧ (recovered o = false → truncated o = false →
     ∀ id chain entry cs c, (id, chain) ∈ chains → JStr entry ∈ chain →
       load_certificates entry = inr cs → c ∈ cs → is_ca_certificate c = inr true →
       ∃ c', certificate_fingerprint c' = certificate_fingerprint c ∧ ¬ issued_by leaf c').
Proof.
  intros Hmr Hmc Hleaf. unfold recover_issuer_chain. rewrite Hleaf, res_bind_ok.
  intros ([[cs rows] t] & Hc & Hr). unfold collect_candidate_issuers in Hc.
  apply (collect_rows_ok (stored_ca chains)) in Hc as ([Hgood Hnd Hb] & _ & Hrows & Hall);
    [|intros; by do 3 eexists|by split; [|constructor|]|done].
  case_bool_decide as Hnil.
  { injection Hr as <-. simpl. split_and!; [done|done|done|]. intros _ -> id chain entry ps c.
    intros H1 H2 H3 H4 H5. specialize (Hall eq_refl id chain entry ps c H1 H2 H3 H4 H5).
    rewrite Hnil in Hall. by apply not_elem_of_nil in Hall. }
  rewrite res_bind_ok in Hr. destruct Hr as (path & Hp & Hr).
  unfold build_verified_chain in Hp. case_bool_decide as Hpath.
  - injection Hr as <-. simpl. split_and!; [done|done|done|]. intros _ -> id chain entry ps c.
    intros H1 H2 H3 H4 H5. specialize (Hall eq_refl id chain entry ps c H1 H2 H3 H4 H5).
    apply list_elem_of_fmap in Hall as (x & Hx & Hin).
    rewrite Forall_forall in Hgood. destruct (Hgood x Hin) as (? & ? & ? & _ & _ & _ & _ & _ & Hfp).
    exists (candidate_certificate x). split; [congruence|].
    change MAX_CHAIN_DEPTH with (S 7) in Hp. cbn [build_path] in Hp.
    rewrite res_bind_ok in Hp. destruct Hp as ([y|] & Hd%direct_issuer_ok & Hp).
    { subst path. case_bool_decide; [done|]. rewrite res_bind_ok in Hp. by destruct Hp as (? & _ & [=]). }
    by apply Hd; [|apply not_elem_of_nil].
  - injection Hr as <-. simpl. apply build_path_ok in Hp as (Hl & Hin & Hd & _ & Hlen).
    split_and!; [done|done| |].
    + intros _. exists path. split_and!; [done|done| |done|done].
      rewrite !Forall_forall in *. intros x Hx. by apply Hgood, Hin.
    + unfold recovered. simpl. intros Hf%negb_false_iff%bool_decide_eq_true. by destruct path.
Qed.
End recovery.
