(* ===== verification/ConfirmTheorems.v ===== *)
(** * A CA-side revocation is recorded on evidence

    What the confirmation route does to the certificates: with evidence
    required, a row is flagged only where a document proves the revocation. *)

From S2P Require Import Prelude PyStr Time Exn Json Sql Db StoreAudit StoreAccounts StoreOrders.
From S2P Require Import Act World Coalesce X509 CsrCheck StoreCerts Responses Finalize Jws Http.
From S2P Require Import Url RoutesAdmin StoreRecovery IssuerRecovery CrlEvidence CrlFetch.
From S2P Require Import RoutesConfirm StoreInv StoreOps Calm CalmActs CertTheorems AuthTheorems.
From S2P Require Import RouteTheorems CrlTheorems.
Local Open Scope Z_scope.

(** ** Running a program, whatever it ends in *)

Lemma run_bind_any {W A B} (m : Act W A) (k : A → Act W B) w r w' :
  run (m ≫= k) w = Some (r, w') →
  (∃ e, run m w = Some (inl e, w'))
  ∨ ∃ x w1, run m w = Some (inr x, w1) ∧ run (k x) w1 = Some (r, w').
Proof.
  rewrite run_bind. destruct (run m w) as [[[e|x] w1]|]; [| |done].
  - intros [= _ ->]. left. by exists e.
  - intros Hk. right. by exists x, w1.
Qed.
Lemma run_then_any {W A B} (m : Act W A) (k : Res Exn A → Act W B) w r w' :
  run (act_then m k) w = Some (r, w') → ∃ x w1, run m w = Some (x, w1) ∧ run (k x) w1 = Some (r, w').
Proof. rewrite run_then. destruct (run m w) as [[x w1]|]; [|done]. intros Hk. by exists x, w1. Qed.
Lemma run_db_any {A} (m : Z → Tx A) w r w' :
  run (db m) w = Some (r, w') →
  (∃ fs e, r = inl e ∧ w' = set_faults fs w)
  ∨ ∃ fs x d, r = inr x ∧ m (w_now w) (w_db w) = inr (x, d) ∧ w' = set_db d (set_faults fs w).
Proof.
  unfold db. rewrite run_atomic.
  destruct (store_cases (m (w_now w)) w) as [(fs & Hw & e & He)|(fs & x & d & Hm & ->)].
  - destruct (store (m (w_now w)) w) as [r0 w1]. simpl in *. intros [= -> ->]. left. by exists fs, e.
  - intros [= <- <-]. right. by exists fs, x, d.
Qed.

(** ** Relations every step keeps *)

Section frames.
Context (R : World → World → Prop) {HR : PreOrder R}.

Definition keeps {A} (m : Act World A) : Prop := ∀ w r w', run m w = Some (r, w') → R w w'.

Lemma keeps_done {A} (r : Res Exn A) : keeps (Done r).
Proof using HR. intros w r' w' [= _ <-]. reflexivity. Qed.
Lemma keeps_bind {A B} (m : Act World A) (k : A → Act World B) :
  keeps m → (∀ x, keeps (k x)) → keeps (m ≫= k).
Proof using HR.
  intros Hm Hk w r w' [(e & He)|(x & w1 & Hx & Hr)]%run_bind_any; [by eapply Hm|].
  etrans; [by eapply Hm|by eapply Hk].
Qed.
Lemma keeps_try {A} (m : Act World A) h : keeps m → (∀ e, keeps (h e)) → keeps (act_try m h).
Proof using HR.
  intros Hm Hh w r w' (x & w1 & Hx & Hr)%run_then_any. etrans; [by eapply Hm|].
  destruct x as [e|x]; [by eapply Hh|]. by injection Hr as _ <-.
Qed.
Lemma keeps_get {A} (f : World → A) : keeps (act_get f).
Proof using HR. intros w r w' [= _ <-]. reflexivity. Qed.
Lemma keeps_db {A} (m : Z → Tx A) :
  (∀ fs w, R w (set_faults fs w)) →
  (∀ w x d fs, m (w_now w) (w_db w) = inr (x, d) → R w (set_db d (set_faults fs w))) →
  keeps (db m).
Proof.
  intros Hf Hm w r w' [(fs & e & _ & ->)|(fs & x & d & _ & Hx & ->)]%run_db_any; [done|by eapply Hm].
Qed.
Lemma keeps_db_ro {A} (m : Z → Tx A) :
  (∀ fs w, R w (set_faults fs w)) → (∀ now, tx_ro (m now)) → keeps (db m).
Proof.
  intros Hf Hro. apply keeps_db; [done|]. intros w x d fs Hx. rewrite (Hro _ _ _ _ Hx).
  assert (set_db (w_db w) (set_faults fs w) = set_faults fs w) as -> by by destruct w. done.
Qed.
End frames.

(** ** Audit rows *)

(** Neither a certificate nor a watermark changes, nor does the clock. *)
Definition trail (w w' : World) : Prop :=
  certificates (w_db w') = certificates (w_db w)
  ∧ crl_watermark (w_db w') = crl_watermark (w_db w) ∧ w_now w' = w_now w.
#[export] Instance trail_preorder : PreOrder trail.
Proof. split; unfold trail; [done|]. intros ??? (?&?&?) (?&?&?). split_and!; congruence. Qed.

Definition eff_trail {A} (e : Eff A) : Prop := ∀ w, trail w (e w).2.

Lemma trail_faults fs w : trail w (set_faults fs w).
Proof. done. Qed.
Lemma eff_trail_ret {A} (x : A) : eff_trail (mret x).
Proof. by intros w. Qed.
Lemma eff_trail_bind {A B} (m : Eff A) (k : A → Eff B) :
  eff_trail m → (∀ x, eff_trail (k x)) → eff_trail (m ≫= k).
Proof.
  intros Hm Hk w. specialize (Hm w). unfold mbind, eff_bind. destruct (m w) as [[e|x] w1]; [done|].
  etrans; [exact Hm|apply Hk].
Qed.
Lemma eff_trail_store {A} (m : Tx A) :
  (∀ d x d', m d = inr (x, d') →
     certificates d' = certificates d ∧ crl_watermark d' = crl_watermark d) → eff_trail (store m).
Proof.
  intros Hm w. destruct (store_cases m w) as [(fs & -> & _)|(fs & x & d & Hx & ->)]; [done|].
  apply Hm in Hx as []. by split_and!.
Qed.
Lemma eff_trail_record now a : eff_trail (store (record_audit now a)).
Proof. apply eff_trail_store. by intros d x d' [= _ <-]. Qed.

Section audit.
Context `{ServerConfig}.

Lemma eff_trail_open now key a closed : eff_trail (open_window now key a closed).
Proof.
  intros w. unfold open_window. destruct (evict_for_new_window _ _ _) as [ws e].
  refine (eff_trail_bind _ _ (eff_trail_record _ _) _ (set_windows ws e w)).
  intros row. apply eff_trail_bind; [by intros ?|intros _; apply eff_trail_ret].
Qed.
Lemma eff_trail_extend key x kid : eff_trail (extend key x kid).
Proof.
  intros w. unfold extend.
  refine (eff_trail_store _ _ (set_windows _ _ w)). by intros d y d' [= _ <-].
Qed.
Lemma eff_trail_coalesce a : eff_trail (coalesce a).
Proof.
  intros w. unfold coalesce. case_match.
  { refine (eff_trail_bind _ _ (eff_trail_record _ _) _ w). intros row. apply eff_trail_ret. }
  destruct (win_get _ _) as [x|]; [case_match|]; [|apply eff_trail_open..].
  refine (eff_trail_bind _ _ (eff_trail_extend _ _ _) _ w). intros []; [apply eff_trail_ret|].
  apply eff_trail_bind; [by intros ?|]. intros _. apply eff_trail_open.
Qed.
Lemma trail_emit ev w : trail w (emit ev w).
Proof. unfold emit. by destruct (audit_hook_configured _). Qed.

Lemma trail_audit a : keeps trail (audit a).
Proof.
  intros w r w'. unfold audit. rewrite run_atomic. intros [= Hr].
  enough (eff_trail (audit_event a)) as Ht by (specialize (Ht w); by rewrite Hr in Ht).
  apply eff_trail_bind; [apply eff_trail_coalesce|]. intros [row|]; [|apply eff_trail_ret].
  intros w0. apply trail_emit.
Qed.
Lemma trail_hook ev : keeps trail (emit_audit_hook ev).
Proof. intros w r w' [= _ <-]. apply trail_emit. Qed.
End audit.

(** ** Rows *)

(** What only a confirmation changes of a row. *)
Definition same_row (c c' : Cert.t) : Prop :=
  Cert.id c = Cert.id c' ∧ Cert.serial_number c = Cert.serial_number c'
  ∧ Cert.status c = Cert.status c' ∧ Cert.ca_crl_updated c = Cert.ca_crl_updated c'.
Definition kept (w w' : World) : Prop :=
  ∀ c', c' ∈ certificates (w_db w') → ∃ c, c ∈ certificates (w_db w) ∧ same_row c c'.
#[export] Instance kept_preorder : PreOrder kept.
Proof.
  split; [by intros w c' Hc; exists c'|]. intros w1 w2 w3 H12 H23 c3 Hin.
  destruct (H23 c3 Hin) as (c2 & Hin2 & ? & ? & ? & ?).
  destruct (H12 c2 Hin2) as (c1 & ? & ? & ? & ? & ?). exists c1. by repeat split; try congruence.
Qed.
Lemma trail_kept w w' : trail w w' → kept w w'.
Proof. intros (Hc & _ & _) c'. rewrite Hc. by exists c'. Qed.
Lemma keeps_trail {A} (m : Act World A) : keeps trail m → keeps kept m.
Proof. intros Hm w r w' Hr. by apply trail_kept, (Hm w r w'). Qed.

(** What the recovery of a chain does to the rows. *)
Lemma attach_ok now id chain a d x d' :
  attach_recovered_chain_with_audit now id chain a d = inr (x, d') →
  (∀ c', c' ∈ certificates d' → ∃ c, c ∈ certificates d
     ∧ (c' = c ∨ c' = Cert.set_chain_pem (dump_json (JArr (map JStr chain))) c))
  ∧ crl_watermark d' = crl_watermark d
  ∧ match x.1 with Some c => c ∈ certificates d' ∧ Cert.id c = id | None => True end.
Proof.
  unfold attach_recovered_chain_with_audit, mbind, tx_bind, tx_update. cbv zeta.
  assert (∀ c', c' ∈ update_where (λ c, Cert.id c = id ∧ chain_empty (Cert.chain_pem c))
            (Cert.set_chain_pem (dump_json (JArr (map JStr chain)))) (certificates d) →
          ∃ c, c ∈ certificates d
            ∧ (c' = c ∨ c' = Cert.set_chain_pem (dump_json (JArr (map JStr chain))) c)) as Hrows.
  { intros c' (c & Hc & ->)%update_where_elem_of. exists c. split; [done|]. case_decide; auto. }
  destruct (negb _); [by intros [= <- <-]|]. unfold tx_fetchone.
  destruct (fetchone _ _) as [row|] eqn:Hf; [|by intros [= <- <-]].
  apply fetchone_Some in Hf as [Hid Hin]. unfold record_audit_in_conn, tx_of_res, certificate_from_row.
  destruct (load_json _); [done|]. by intros [= <- <-].
Qed.

Lemma tx_ro_chains n : tx_ro (list_certificate_chains n).
Proof. by intros d x d' [= _ <-]. Qed.
Lemma tx_ro_watermark key : tx_ro (read_crl_watermark key).
Proof. by intros d x d' [= _ <-]. Qed.
Lemma tx_ro_incidents a e n : tx_ro (list_audit_events a e n).
Proof. by intros d x d' [= _ <-]. Qed.

Lemma confirm_rows now serial a wm url d x d' c' :
  confirm_ca_revocation_with_audit now serial a wm url d = inr (x, d') →
  c' ∈ certificates d' → Cert.ca_crl_updated c' = true →
  ∃ c, c ∈ certificates d ∧ Cert.id c = Cert.id c'
    ∧ (Cert.ca_crl_updated c = true ∨ confirmable (canonical_serial serial) c).
Proof.
  unfold confirm_ca_revocation_with_audit, mbind, tx_bind, tx_update.
  set (d0 := set_certificates _ d). intros Hm Hc Hu.
  assert (certificates d' = certificates d0) as Hd.
  { destruct (negb _); [by injection Hm as _ <-|].
    destruct wm as [w|]; [destruct (this_update w) as [u|]|].
    - destruct (advance_frame now (issuer_key w) (crl_number w) u url d0) as (b & d1 & He & Hcs & _).
      rewrite He in Hm. by injection Hm as _ <-.
    - by injection Hm as _ <-.
    - by injection Hm as _ <-. }
  rewrite Hd in Hc. apply update_where_elem_of in Hc as (c & Hin & ->).
  exists c. split; [done|]. case_decide; [split; [done|by right]|split; [done|by left]].
Qed.

Section confirm.
Context `{ServerConfig, ConfirmConfig, CertParser, JsonLoads, NetlocCheck, IssuerBackend}.
Context `{CrlBackend}.

Lemma kept_faults fs w : kept w (set_faults fs w).
Proof. by intros c'; exists c'. Qed.
Lemma kept_ro {A} (m : Z → Tx A) : (∀ now, tx_ro (m now)) → keeps kept (db m).
Proof. apply keeps_db_ro, kept_faults. Qed.

Lemma kept_attempted {A} (m : Act World A) : keeps kept m → keeps kept (attempted m).
Proof.
  intros Hm. apply keeps_try; [apply _| |intros e; apply keeps_done, _].
  apply keeps_bind; [apply _|done|]. intros x. apply keeps_done, _.
Qed.

Lemma kept_attach c o : keeps kept (attach_recovered c o).
Proof.
  apply keeps_bind; [apply _|apply kept_attempted, keeps_db; [apply kept_faults|]|].
  - intros w x d fs Hm c' Hc'. simpl in Hc'.
    apply attach_ok in Hm as (Hrows & _). destruct (Hrows c' Hc') as (c0 & Hin & Hcase).
    exists c0. split; [done|]. by destruct Hcase as [->| ->].
  - intros [[[r|] ev]|]; [| |apply keeps_done, _].
    + apply keeps_bind; [apply _| |intros _; apply keeps_done, _].
      destruct ev; [apply keeps_trail, trail_hook|apply keeps_done, _].
    + apply keeps_bind; [apply _|apply kept_ro; intros _; apply tx_ro_get_certificate|].
      intros x. apply keeps_done, _.
Qed.

Lemma kept_recover c : keeps kept (recover_issuer_evidence c).
Proof.
  unfold recover_issuer_evidence. destruct (truthy _); [apply keeps_done, _|].
  apply keeps_bind; [apply _|apply kept_attempted, keeps_bind|].
  - apply _.
  - apply kept_ro. intros _. apply tx_ro_chains.
  - intros x. apply keeps_done, _.
  - intros [o|]; [|apply keeps_done, _]. destruct (negb _); [|apply kept_attach].
    apply keeps_bind; [apply _|apply keeps_trail, trail_audit|intros _; apply keeps_done, _].
Qed.

Lemma kept_fetch cdp n c wm : keeps kept (fetch cdp n c wm).
Proof. apply keeps_bind; [apply _|apply keeps_get, _|intros x; apply keeps_done, _]. Qed.

Lemma kept_evidence cdp c : keeps kept (crl_evidence_for cdp c).
Proof.
  unfold crl_evidence_for. case_bool_decide; [apply keeps_done, _|].
  destruct (py_int16 _); [|apply keeps_done, _].
  apply keeps_try; [apply _| |intros e; apply keeps_done, _].
  apply keeps_bind; [apply _| |intros e; apply keeps_done, _].
  apply keeps_bind; [apply _|apply kept_recover|]. intros c'.
  apply keeps_bind; [apply _|apply keeps_done, _|]. intros key.
  apply keeps_bind; [apply _| |].
  { destruct key; [apply kept_ro; intros _; apply tx_ro_watermark|apply keeps_done, _]. }
  intros wm. apply keeps_bind; [apply _|apply kept_fetch|]. intros e.
  destruct (_ && _); [apply kept_fetch|apply keeps_done, _].
Qed.

(** ** Evidence *)

(** The chain the evidence is checked against: the stored one, or one put
    together from the other stored chains. *)
Definition evidence_chain (w : World) (c : Cert.t) (chain : json) : Prop :=
  chain = chain_value c
  ∨ ∃ chains o, list_certificate_chains (DEFAULT_MAX_ROWS + 1) (w_db w) = inr (chains, w_db w)
      ∧ recover_issuer_chain (Cert.cert_pem c) chains DEFAULT_MAX_ROWS DEFAULT_MAX_CANDIDATES
        = inr o
      ∧ recovered o = true ∧ chain = JArr (map JStr (recovered_chain o)).

(** The watermark recorded for the issuer. *)
Definition watermark_of (w : World) (pem : string) (chain : json) (wm : option CrlWatermark) :
    Prop :=
  ∃ key, crl_watermark_key pem chain = inr key
    ∧ match key with
      | Some k => read_crl_watermark k (w_db w) = inr (wm, w_db w)
      | None => wm = None
      end.

(** A document fetched now from the configured URL proves the revocation. *)
Definition revocation_proved (cdp : nat → Cdp) (w : World) (c : Cert.t) : Prop :=
  ∃ i n chain wm body trace,
    py_int16 (default EmptyString (Cert.serial_number c)) = Some n
    ∧ evidence_chain w c chain ∧ watermark_of w (Cert.cert_pem c) chain wm
    ∧ @fetch_document _ (cdp i) (crl_options confirm_config)
        (revocation_confirm_crl_url confirm_config) = inr (inr body, trace)
    ∧ proves_revoked body n (Cert.cert_pem c) chain (w_now w * 10 ^ 6)
        (max_age_seconds (crl_options confirm_config)) wm
        (enforce_monotonic (crl_options confirm_config)).

Lemma attempted_ok {A} (m : Act World A) w x w' :
  run (attempted m) w = Some (inr x, w') →
  match x with
  | Some y => run m w = Some (inr y, w')
  | None => ∃ e, run m w = Some (inl e, w')
  end.
Proof.
  intros [Hr|(e & w1 & He & Hr)]%run_try_ok.
  - run_ok Hr. by apply run_ret_ok in Hr as [<- ->].
  - apply run_ret_ok in Hr as [<- ->]. exists e. rewrite run_bind in He.
    by destruct (run m w) as [[[e0|y] w2]|]; simplify_eq/=.
Qed.

(** The certificate is the one row of its id, with some chain. *)
Definition row_of (w : World) (c c' : Cert.t) (w' : World) : Prop :=
  Cert.cert_pem c' = Cert.cert_pem c ∧ evidence_chain w c (chain_value c')
  ∧ crl_watermark (w_db w') = crl_watermark (w_db w) ∧ w_now w' = w_now w.

Lemma row_of_self w c w' :
  crl_watermark (w_db w') = crl_watermark (w_db w) → w_now w' = w_now w → row_of w c c w'.
Proof. intros. by split_and!; [|left|..]. Qed.

Lemma attach_recovered_ok w0 c o chains w c' w' :
  wf (w_db w) → c ∈ certificates (w_db w) → w_db w = w_db w0 → w_now w = w_now w0 →
  list_certificate_chains (DEFAULT_MAX_ROWS + 1) (w_db w0) = inr (chains, w_db w0) →
  recover_issuer_chain (Cert.cert_pem c) chains DEFAULT_MAX_ROWS DEFAULT_MAX_CANDIDATES = inr o →
  recovered o = true →
  run (attach_recovered c o) w = Some (inr c', w') → row_of w0 c c' w'.
Proof.
  intros Hwf Hin Hdb Hnow Hch Hrec Hok Hr. unfold attach_recovered in Hr. run_ok Hr.
  apply attempted_ok in Hrun. destruct x as [[found ev]|].
  2:{ destruct Hrun as (e & Hrun). apply run_db_any in Hrun as [(fs & e' & _ & ->)|(?&?&?&?&_)]; [|done].
      apply run_ret_ok in Hr as [<- ->]. apply row_of_self; simpl; congruence. }
  apply run_db_ok in Hrun as (d & fs & Hm & ->). apply attach_ok in Hm as (Hrows & Hwm & Hfound).
  assert (∀ x w1, x ∈ certificates d → Cert.id x = Cert.id c →
            trail (set_db d (set_faults fs w)) w1 → row_of w0 c x w1) as Hrow.
  { intros x w1 Hx Hid (_ & Hw1 & Hn1). destruct (Hrows x Hx) as (c0 & Hc0 & Hcase).
    assert (c0 = c) as ->.
    { apply (find_cert_in _ _ Hwf) in Hc0 as Hf0. apply (find_cert_in _ _ Hwf) in Hin as Hf.
      assert (Cert.id c0 = Cert.id c) as He by (rewrite <- Hid; by destruct Hcase as [->| ->]).
      rewrite He in Hf0. congruence. }
    split_and!; [by destruct Hcase as [->| ->]| |rewrite Hw1; simpl; congruence
                |rewrite Hn1; simpl; congruence].
    destruct Hcase as [->| ->]; [by left|]. right. by exists chains, o. }
  destruct found as [row|].
  - destruct Hfound as [Hrin Hid]. run_ok Hr. apply run_ret_ok in Hr as [<- ->].
    apply Hrow; [done|done|]. destruct ev; [by eapply trail_hook|by injection Hrun as _ <-].
  - run_ok Hr. apply run_ret_ok in Hr as [<- ->].
    apply run_db_ro_ok in Hrun as (Hg & fs' & ->); [|intros; apply tx_ro_get_certificate].
    destruct x as [x|]; simpl; [|apply row_of_self; simpl; congruence].
    unfold get_certificate, mbind, tx_bind, tx_fetchone in Hg. simpl in Hg.
    destruct (fetchone _ _) as [row|] eqn:Hf; [|done]. apply fetchone_Some in Hf as [Hid Hxin].
    unfold certificate_from_opt, tx_of_res, mbind, tx_bind, certificate_from_row in Hg.
    destruct (load_json _); [done|]. injection Hg as ->. by apply Hrow.
Qed.

Lemma recover_ok c w c' w' :
  wf (w_db w) → c ∈ certificates (w_db w) →
  run (recover_issuer_evidence c) w = Some (inr c', w') → row_of w c c' w'.
Proof.
  intros Hwf Hin. unfold recover_issuer_evidence.
  destruct (truthy _); [intros [<- ->]%run_ret_ok; by apply row_of_self|].
  intros Hr. run_ok Hr. apply attempted_ok in Hrun. destruct x as [o|].
  2:{ destruct Hrun as (e & Hrun). apply run_ret_ok in Hr as [<- ->].
      apply run_bind_any in Hrun as [(e' & Hrun)|(chains & w1 & Hrun & He)].
      - apply run_db_any in Hrun as [(fs & e2 & _ & ->)|(?&?&?&?&_)]; [|done]. by apply row_of_self.
      - apply run_db_ro_ok in Hrun as (_ & fs & ->); [|intros; apply tx_ro_chains].
        injection He as _ <-. by apply row_of_self. }
  run_ok Hrun. apply run_db_ro_ok in Hrun0 as (Hch & fs & ->); [|intros; apply tx_ro_chains].
  apply run_of_res_ok in Hrun as [Hrec ->].
  destruct (recovered o) eqn:Hok; cbn [negb] in Hr.
  - by eapply (attach_recovered_ok w c o x (set_faults fs w)).
  - run_ok Hr. apply run_ret_ok in Hr as [<- ->].
    apply trail_audit in Hrun as (_ & Hwm & Hn). by apply row_of_self.
Qed.

Lemma fetch_ok cdp n c wm w e w' :
  run (fetch cdp n c wm) w = Some (inr e, w') → w' = w ∧
  @fetch_crl_evidence _ cdp _ _ (crl_options confirm_config)
     (revocation_confirm_crl_url confirm_config) n (Cert.cert_pem c) (chain_value c) wm
     (w_now w * 10 ^ 6) = inr e.
Proof.
  unfold fetch. intros Hr. run_ok Hr. apply run_get_ok in Hrun as [-> ->].
  by apply run_of_res_ok in Hr as [? ->].
Qed.

Lemma read_watermark_frame key d d' wm :
  crl_watermark d' = crl_watermark d → read_crl_watermark key d' = inr (wm, d') →
  read_crl_watermark key d = inr (wm, d).
Proof.
  unfold read_crl_watermark, mbind, tx_bind, tx_fetchone, mret, tx_ret. intros ->. congruence.
Qed.

Lemma evidence_ok cdp c w e w' :
  wf (w_db w) → c ∈ certificates (w_db w) →
  run (crl_evidence_for cdp c) w = Some (inr (Some e), w') → revoked e = true →
  revocation_proved cdp w c.
Proof.
  intros Hwf Hin Hr Hrev. unfold crl_evidence_for in Hr.
  case_bool_decide; [done|]. destruct (py_int16 _) as [n|] eqn:Hn; [|by injection Hr as <- _].
  apply run_try_ok in Hr as [Hr|(x & w1 & _ & Hr)]; [|by injection Hr as <- _].
  run_ok Hr. apply run_ret_ok in Hr as [[= ->] ->].
  unfold retrieve in Hrun. run_ok Hrun. rename x into c'.
  apply recover_ok in Hrun0 as (Hpem & Hchain & Hwm & Hnow); [|done..].
  run_ok Hrun. apply run_of_res_ok in Hrun0 as [Hkey ->]. rename x into key.
  run_ok Hrun. rename x into wm.
  assert (watermark_of w (Cert.cert_pem c) (chain_value c') wm ∧ w_now w2 = w_now w) as [Hof Hnow2].
  { rewrite <- Hpem. destruct key as [k|].
    - apply run_db_ro_ok in Hrun0 as (Hread & fs & ->); [|intros; apply tx_ro_watermark].
      split; [|done]. exists (Some k). split; [done|]. by eapply read_watermark_frame.
    - apply run_ret_ok in Hrun0 as [<- ->]. split; [|done]. by exists None. }
  run_ok Hrun. apply fetch_ok in Hrun1 as [-> Hfetch].
  assert (∃ i, @fetch_crl_evidence _ (cdp i) _ _ (crl_options confirm_config)
     (revocation_confirm_crl_url confirm_config) n (Cert.cert_pem c') (chain_value c') wm
     (w_now w2 * 10 ^ 6) = inr e) as (i & Hev).
  { destruct (_ && _); [apply fetch_ok in Hrun as [_ Hrun]; by exists 1%nat|].
    apply run_ret_ok in Hrun as [-> _]. by exists 0%nat. }
  apply (@fetched_revoked _ (cdp i) _ _) in Hev as (body & trace & Hdoc & Hproof); [|done].
  rewrite Hpem, Hnow2 in Hproof. by exists i, n, (chain_value c'), wm, body, trace.
Qed.

(** ** The route *)

Lemma kept_refused {A} a e : keeps kept (audit a;; act_raise (A:=A) e).
Proof.
  apply keeps_bind; [apply _|apply keeps_trail, trail_audit|intros _; apply keeps_done, _].
Qed.

Lemma get_by_serial_any serial w c w' :
  run (db (λ _, get_certificate_by_serial serial None)) w = Some (inr (Some c), w') →
  c ∈ certificates (w_db w) ∧ Cert.serial_number c = Some (canonical_serial serial)
  ∧ ∃ fs, w' = set_faults fs w.
Proof.
  intros (Hm & Hw)%run_db_ro_ok; [|intros; apply tx_ro_get_certificate_by_serial].
  unfold get_certificate_by_serial, mbind, tx_bind, tx_fetchone in Hm.
  destruct (fetchone _ _) as [row|] eqn:Hf; [|done].
  apply fetchone_Some in Hf as [[Hs _] Hin].
  unfold certificate_from_opt, tx_of_res, mbind, tx_bind, certificate_from_row in Hm.
  destruct (load_json _); [done|]. by injection Hm as ->.
Qed.

(** What a confirmation writes to the certificates, given its evidence. *)
Lemma confirm_with_ok serial cert published e w r w' :
  revocation_confirm_require_crl_evidence confirm_config = true →
  run (confirm_with serial cert published e) w = Some (r, w') →
  kept w w' ∨ from_option revoked false e = true
    ∧ ∀ c', c' ∈ certificates (w_db w') → Cert.ca_crl_updated c' = true →
      ∃ c, c ∈ certificates (w_db w) ∧ Cert.id c = Cert.id c'
        ∧ (Cert.ca_crl_updated c = true ∨ confirmable (canonical_serial serial) c).
Proof.
  intros Hreq. unfold confirm_with. rewrite Hreq. cbn [andb]. cbv zeta.
  destruct (from_option revoked false e) eqn:Hrev; cbn [negb];
    [|intros Hr; left; by eapply kept_refused].
  intros [(x & Hr)|(x & w1 & Hr & Hk)]%run_bind_any.
  { left. apply run_db_any in Hr as [(fs & ? & _ & ->)|(?&?&?&?&_)]; [apply kept_faults|done]. }
  right. split; [done|]. intros c' Hc Hu.
  apply run_db_ok in Hr as (d & fs & Hm & ->).
  assert (certificates (w_db w') = certificates d) as Hd.
  { destruct (negb x.1); [by injection Hk as _ <-|].
    enough (trail (set_db d (set_faults fs w)) w') as (-> & _) by done.
    eapply (keeps_bind trail); [| |exact Hk]; [|intros ?; apply keeps_done, _].
    destruct x.2; [apply trail_hook|apply keeps_done, _]. }
  rewrite Hd in Hc. by eapply confirm_rows.
Qed.

End confirm.
