(* ===== verification/AuditTheorems.v ===== *)
(** * What start-up and retention promise

    Which settings are accepted, what has been demonstrated when the server
    starts, which audit rows a sweep may delete, and what the mirror of the
    trail keeps. *)

From S2P Require Import Prelude PyStr Time Json Exn Base64 Policy Url Sql Db StoreAudit Act.
From S2P Require Import RateLimit World Coalesce X509 RoutesNewAccount StoreRecovery Config Siem.
From S2P Require Import Retention StoreInv StoreOps Calm CalmActs AuthTheorems RouteTheorems.
From S2P Require Import ConfirmTheorems.
From Stdlib Require Import SpecFloat.
Local Open Scope Z_scope.

(** ** Settings *)

Lemma refuse_if_ok b : refuse_if b = inr tt ↔ b = false.
Proof. by destruct b. Qed.
(** A name, or a name behind one leftmost wildcard label. *)
Definition dns_pattern (p : string) : Prop :=
  ∃ name, validate_dns_name name = inr tt ∧ has_char "*" name = false
    ∧ (p = name ∨ p = ("*." +:+ name)%string).

Definition bare_origin `{NetlocCheck} (url : string) : Prop :=
  ∃ p, urlsplit url = inr p ∧ scheme p ∈ ["http"; "https"]%string ∧ netloc p ≠ EmptyString
    ∧ path p ∈ [""; "/"]%string ∧ query p = EmptyString ∧ fragment p = EmptyString.

(** A credential that carries weight. *)
Definition strong_entry (e : EABEntry) : Prop :=
  strip (kid e) = kid e ∧ kid e ≠ EmptyString
  ∧ ∃ key, base64url_decode (mac_key e) = inr key ∧ MIN_EAB_MAC_KEY_BYTES ≤ Z.of_nat (length key).
Definition strong_token (t : string) : Prop := t = EmptyString ∨ MIN_ADMIN_TOKEN_CHARS ≤ slen t.
Definition strong_credentials (c : RAConfig) : Prop :=
  Forall strong_entry (eab_allowlist c)
  ∧ strong_token (admin_token c) ∧ strong_token (revocation_confirm_token c)
  ∧ (admin_token c = revocation_confirm_token c → admin_token c = EmptyString).

(** A sink that leaves the host, over TLS with a credential, or over TCP where
    that was acknowledged. *)
Definition offbox_sink `{NetlocCheck} (c : RAConfig) : Prop :=
  siem_sink c = syslog ∧ siem_syslog_proto c = tcp
    ∧ audit_offbox_allow_unauthenticated_syslog c = true
  ∨ siem_sink c = hec ∧ siem_hec_token c ≠ EmptyString
    ∧ ∃ p, urlsplit (siem_hec_url c) = inr p ∧ scheme p = "https"%string ∧ is_Some (hostname p)
        ∧ username p = None ∧ password p = None.

Definition positive (x : spec_float) : Prop := SFltb (S754_zero false) x = true.

Record acceptable `{NetlocCheck} (c : RAConfig) : Prop := {
  ok_ranges : 1 ≤ max_accounts_per_eab_kid c ∧ 1 ≤ adcs_enrollment_max_workers c
    ∧ adcs_enrollment_max_workers c ≤ adcs_enrollment_max_pending c
    ∧ 1 ≤ revocation_confirm_crl_max_workers c
    ∧ revocation_confirm_crl_max_workers c ≤ revocation_confirm_crl_max_pending c
    ∧ 0 ≤ rate_limit_key_changes_per_window c ∧ 0 ≤ audit_denial_coalesce_window_seconds c
    ∧ 0 ≤ audit_retention_days c ∧ 0 ≤ audit_store_warn_mib c ∧ 0 ≤ audit_jsonl_max_mib c
    ∧ 0 ≤ audit_jsonl_keep c ∧ 1 ≤ siem_hec_queue_max c ∧ 1 ≤ max_admin_body_size_bytes c;
  ok_times : positive (adcs_enrollment_timeout_seconds c)
    ∧ positive (adcs_enrollment_total_timeout_seconds c)
    ∧ positive (siem_syslog_timeout_seconds c)
    ∧ SFltb (adcs_enrollment_total_timeout_seconds c) (adcs_enrollment_timeout_seconds c) = false
    ∧ SFleb (revocation_confirm_crl_total_timeout_seconds c) (S754_zero false) = false
    ∧ SFltb (revocation_confirm_crl_total_timeout_seconds c)
            (revocation_confirm_crl_timeout_seconds c) = false;
  ok_scopes : ∀ k ps p, (k, ps) ∈ san_scopes c → p ∈ ps → dns_pattern p;
  ok_prune : audit_prune_enabled c = false;
  ok_origin : bare_origin (base_url c);
  ok_kids : NoDup (map kid (eab_allowlist c));
  ok_credentials : allow_weak_credentials c = true ∨ strong_credentials c;
  ok_offbox : if audit_offbox_required c then offbox_sink c
              else audit_offbox_allow_unauthenticated_syslog c = false;
  ok_evidence : revocation_confirm_require_crl_evidence c = true →
                revocation_confirm_crl_url c ≠ EmptyString;
  ok_tls : is_Some (tls_certfile c) ↔ is_Some (tls_keyfile c);
}.

Lemma has_char_drop2 p : startswith p "*." = true →
  p = ("*." +:+ of_chars (drop 2 (chars p)))%string.
Proof. intros H. apply (startswith_drop p "*.") in H. exact H. Qed.
Lemma star_prefix name : startswith ("*." +:+ name) "*." = true.
Proof. apply startswith_spec. by exists name. Qed.

Lemma dns_pattern_ok p : validate_dns_pattern p = inr tt ↔ dns_pattern p.
Proof.
  unfold validate_dns_pattern, dns_pattern. destruct (has_char "*" p) eqn:Hstar; simpl.
  - split.
    + destruct (startswith p "*.") eqn:Hs; [|done]. simpl.
      destruct (has_char "*" (of_chars _)) eqn:Hr; [done|]. simpl.
      case_bool_decide; [done|]. simpl.
      destruct (validate_dns_name _) as [|[]] eqn:Hv; [done|]. intros _.
      exists (of_chars (drop 2 (chars p))). split_and!; [done|done|right]. by apply has_char_drop2.
    + intros (name & Hv & Hn & [->| ->]); [congruence|]. rewrite star_prefix.
      assert (of_chars (drop 2 (chars ("*." +:+ name))) = name) as ->
        by (rewrite chars_app; simpl; rewrite drop_0; apply of_chars_chars).
      rewrite Hn, Hv, bool_decide_eq_false_2; [done|by intros ->].
  - split.
    + destruct (validate_dns_name p) as [|[]] eqn:Hv; [done|]. intros _. exists p. by split_and!; [..|left].
    + intros (name & Hv & Hn & [->| ->]); [by rewrite Hv|]. exfalso.
      unfold has_char in Hstar. apply bool_decide_eq_false in Hstar. apply Hstar.
      rewrite chars_app. by left.
Qed.

Lemma fields_ok c :
  validate_fields c = inr tt ↔
  field_constraints c = true ∧ ∀ k ps p, (k, ps) ∈ san_scopes c → p ∈ ps → dns_pattern p.
Proof.
  unfold validate_fields. rewrite res_then_ok, refuse_if_ok, negb_false_iff, res_iter_ok, Forall_forall.
  split; intros [Hf Hs]; (split; [done|]).
  - intros k ps p Hin Hp. specialize (Hs _ Hin). unfold validate_dns_patterns in Hs.
    rewrite res_iter_ok, Forall_forall in Hs. by apply dns_pattern_ok, Hs.
  - intros [k ps] Hin. apply res_iter_ok, Forall_forall. intros p Hp. by eapply dns_pattern_ok, Hs.
Qed.

Lemma kids_ok seen es :
  no_duplicate_kids seen es = inr tt ↔
  NoDup (map kid es) ∧ ∀ k, k ∈ map kid es → k ∉ seen.
Proof.
  revert seen. induction es as [|e es IH]; intros seen; simpl.
  { split; [|done]. intros _. split; [apply NoDup_nil_2|by intros ? ?%not_elem_of_nil]. }
  case_bool_decide as Hin.
  - split; [done|]. intros [_ Hk]. destruct (Hk (kid e)); [by left|done].
  - rewrite IH, NoDup_cons. setoid_rewrite elem_of_cons. split.
    + intros [Hnd Hk]. split; [split; [|done]|].
      * intros Hx. apply (Hk _ Hx). by left.
      * intros k [->|Hx]; [done|]. intros Hs. apply (Hk _ Hx). by right.
    + intros [[Hx Hnd] Hk]. split; [done|]. intros k Hkin [->|Hs]; [done|].
      apply (Hk k); [by right|done].
Qed.

Lemma origin_ok `{NetlocCheck} c :
  base_url_is_a_bare_origin c = inr tt ↔ bare_origin (base_url c).
Proof.
  unfold base_url_is_a_bare_origin, bare_origin. rewrite res_bind_ok. split.
  - intros (p & Hp & Hr). exists p. split; [done|].
    case_bool_decide as Hs; [done|]. case_bool_decide as Hn; [done|].
    case_bool_decide as Hpa; [done|]. apply refuse_if_ok, orb_false_iff in Hr as [Hq Hf].
    apply negb_false_iff, bool_decide_eq_true in Hq, Hf. split_and!; try done; by apply dec_stable.
  - intros (p & Hp & Hs & Hn & Hpa & Hq & Hf). exists p. split; [done|].
    rewrite bool_decide_eq_false_2 by (by intros ?). rewrite bool_decide_eq_false_2 by done.
    rewrite bool_decide_eq_false_2 by (by intros ?). apply refuse_if_ok.
    by rewrite !bool_decide_eq_true_2.
Qed.

Lemma entry_problems_ok e : eab_problems e = inr 0%nat ↔ strong_entry e.
Proof.
  unfold eab_problems, strong_entry. cbv zeta.
  destruct (bool_decide (strip (kid e) = EmptyString) || _) eqn:Hname.
  - split.
    + destruct (base64url_decode _) as [[]|key]; try done. by case_match.
    + intros (Hs & Hne & _). rewrite Hs, bool_decide_eq_false_2, bool_decide_eq_true_2 in Hname; done.
  - bool_hyps. assert (strip (kid e) = kid e ∧ kid e ≠ EmptyString) as [Hs Hne] by (split; congruence).
    destruct (base64url_decode _) as [err|key].
    + split; [by destruct err|]. by intros (_ & _ & ? & ? & _).
    + destruct (_ <? _) eqn:Hlen; bool_hyps.
      * split; [done|]. intros (_ & _ & k & [= <-] & ?). lia.
      * split; [|done]. intros _. split_and!; [done..|]. by exists key.
Qed.
Lemma all_problems_ok es : all_eab_problems es = inr 0%nat ↔ Forall strong_entry es.
Proof.
  induction es as [|e es IH]; simpl; [by split|].
  rewrite Forall_cons, <- IH, <- entry_problems_ok, res_bind_ok. split.
  - intros (n & -> & Hr). rewrite res_bind_ok in Hr. destruct Hr as (k & -> & [= Hnk]).
    split; f_equal; lia.
  - intros [-> ->]. by exists 0%nat.
Qed.
Lemma token_problems_ok t : token_problems t = 0%nat ↔ strong_token t.
Proof.
  unfold token_problems, strong_token. case_bool_decide; simpl; [by split; [left|]|].
  destruct (_ <? _) eqn:Hl; bool_hyps; [split; [done|]; intros [?|?]; [done|lia]|].
  split; [by right|done].
Qed.
Lemma shared_problems_ok c :
  shared_token_problems c = 0%nat ↔
  (admin_token c = revocation_confirm_token c → admin_token c = EmptyString).
Proof.
  unfold shared_token_problems. repeat case_bool_decide; simpl; split; try done; try congruence.
  intros Hc. by apply Hc in H1.
Qed.
Lemma credentials_ok c :
  credentials_are_strong c = inr tt ↔ allow_weak_credentials c = true ∨ strong_credentials c.
Proof.
  unfold credentials_are_strong, strong_credentials.
  destruct (allow_weak_credentials c); [by split; [left|]|].
  rewrite res_bind_ok, <- all_problems_ok, <- !token_problems_ok, <- shared_problems_ok. split.
  - intros (n & Hn & Hr). right. apply refuse_if_ok in Hr. bool_hyps.
    assert (n = 0%nat) as -> by lia. split_and!; [done|lia..].
  - intros [|(Hn & H1 & H2 & H3)]; [done|]. exists 0%nat. split; [done|].
    apply refuse_if_ok. by rewrite H1, H2, H3.
Qed.

Lemma offbox_ok `{NetlocCheck} c :
  offbox_audit_when_required c = inr tt ↔
  if audit_offbox_required c then offbox_sink c
  else audit_offbox_allow_unauthenticated_syslog c = false.
Proof.
  unfold offbox_audit_when_required, offbox_sink.
  destruct (audit_offbox_required c); cbn [negb]; [|apply refuse_if_ok].
  destruct (siem_sink c); simpl.
  - split; [done|]. by intros [(? & _)|(? & _)].
  - case_bool_decide as Hp.
    + split; [done|]. intros [(_ & Ht & _)|(? & _)]; congruence.
    + rewrite refuse_if_ok, negb_false_iff. split.
      * intros Ha. left. split_and!; [done| |done]. by destruct (siem_syslog_proto c).
      * by intros [(_ & _ & Ha)|(? & _)].
  - rewrite res_bind_ok. split.
    + intros (p & Hp & Hr%refuse_if_ok). bool_hyps. right. split_and!; [done..|].
      exists p. split_and!; try done; [by destruct (hostname p)|..]; by apply eq_None_not_Some.
    + intros [(? & _)|(_ & Ht & p & Hp & Hs & [host Hh] & Hu & Hpw)]; [done|].
      exists p. split; [done|]. apply refuse_if_ok. rewrite Hs, Hh, Hu, Hpw.
      rewrite bool_decide_eq_true_2 by done.
      by rewrite !bool_decide_eq_false_2 by (done || by intros [? [=]]).
Qed.

Lemma constraints_ok c :
  field_constraints c = true ↔
  1 ≤ max_accounts_per_eab_kid c
  ∧ positive (adcs_enrollment_timeout_seconds c) ∧ positive (adcs_enrollment_total_timeout_seconds c)
  ∧ 1 ≤ adcs_enrollment_max_workers c ∧ 1 ≤ adcs_enrollment_max_pending c
  ∧ 0 ≤ rate_limit_key_changes_per_window c ∧ 0 ≤ audit_denial_coalesce_window_seconds c
  ∧ 0 ≤ audit_retention_days c ∧ 0 ≤ audit_store_warn_mib c ∧ 0 ≤ audit_jsonl_max_mib c
  ∧ 0 ≤ audit_jsonl_keep c ∧ positive (siem_syslog_timeout_seconds c) ∧ 1 ≤ siem_hec_queue_max c.
Proof.
  unfold field_constraints, positive, positive_float. rewrite !andb_true_iff, !Z.leb_le. tauto.
Qed.

Lemma timeouts_ok c :
  crl_timeouts_are_coherent c = inr tt ↔
  SFleb (revocation_confirm_crl_total_timeout_seconds c) (S754_zero false) = false
  ∧ SFltb (adcs_enrollment_total_timeout_seconds c) (adcs_enrollment_timeout_seconds c) = false
  ∧ adcs_enrollment_max_workers c ≤ adcs_enrollment_max_pending c
  ∧ 1 ≤ revocation_confirm_crl_max_workers c ∧ 1 ≤ revocation_confirm_crl_max_pending c
  ∧ revocation_confirm_crl_max_workers c ≤ revocation_confirm_crl_max_pending c
  ∧ 1 ≤ max_admin_body_size_bytes c
  ∧ SFltb (revocation_confirm_crl_total_timeout_seconds c)
          (revocation_confirm_crl_timeout_seconds c) = false.
Proof.
  unfold crl_timeouts_are_coherent. rewrite refuse_if_ok, !orb_false_iff, !Z.ltb_ge. tauto.
Qed.


(** ** The floor *)

Lemma half_even_bounds a b : 0 < b → a - b ≤ 2 * (b * div_half_even a b) - a ≤ a + b.
Proof.
  intros Hb. unfold div_half_even. pose proof (Z.div_mod a b ltac:(lia)) as Hd.
  pose proof (Z.mod_pos_bound a b Hb) as Hm. set (q := a / b) in *. set (r := a mod b) in *.
  destruct (2 * r <? b) eqn:H1; [apply Z.ltb_lt in H1; nia|apply Z.ltb_ge in H1].
  destruct (b <? 2 * r) eqn:H2; [apply Z.ltb_lt in H2; nia|apply Z.ltb_ge in H2].
  destruct (Z.even q); nia.
Qed.

(** The days that are counted cover the seconds. *)
Lemma ceil_days_covers nb na :
  na - nb ≤ 86400 * ceil_days (julianday na - julianday nb).
Proof.
  unfold julianday. set (a := (UNIX_EPOCH_JD_MS + na * 1000) * JD_SCALE).
  set (b := (UNIX_EPOCH_JD_MS + nb * 1000) * JD_SCALE).
  pose proof (half_even_bounds a 86400000 ltac:(lia)) as Ha.
  pose proof (half_even_bounds b 86400000 ltac:(lia)) as Hb.
  set (x := div_half_even a 86400000) in *. set (y := div_half_even b 86400000) in *.
  unfold ceil_days. pose proof (Z.div_mod (- (x - y)) JD_SCALE ltac:(done)) as Hd.
  pose proof (Z.mod_pos_bound (- (x - y)) JD_SCALE ltac:(done)) as Hm.
  set (k := - (x - y) / JD_SCALE) in *.
  assert (a - b = 1000 * JD_SCALE * (na - nb)) as Hab by (unfold a, b; ring).
  unfold JD_SCALE, UNIX_EPOCH_JD_MS in *. lia.
Qed.

Lemma fold_max_ge l m x :
  fold_left max_opt l (Some m) = Some x → m ≤ x ∧ ∀ y, y ∈ l → y ≤ x.
Proof.
  revert m. induction l as [|z l IH]; intros m; simpl.
  { intros [= ->]. split; [lia|by intros ? ?%not_elem_of_nil]. }
  intros Hf. apply IH in Hf as [Hm Hall]. split; [lia|].
  intros y [->|Hy]%elem_of_cons; [lia|by apply Hall].
Qed.
Lemma fold_max_none l x : fold_left max_opt l None = Some x → ∀ y, y ∈ l → y ≤ x.
Proof.
  destruct l as [|z l]; simpl; [done|]. intros [Hz Hall]%fold_max_ge y [->|Hy]%elem_of_cons;
    [done|by apply Hall].
Qed.

Lemma ceil_days_mono a b : a ≤ b → ceil_days a ≤ ceil_days b.
Proof. intros H. unfold ceil_days. pose proof (Z.div_le_mono (- b) (- a) JD_SCALE ltac:(done)). lia. Qed.

(** Every validity is known, and within [days]. *)
Definition validities_within (days : Z) (d : Db) : Prop :=
  ∀ c, c ∈ certificates d →
    ∃ nb na, Cert.not_before c = Some nb ∧ Cert.not_after c = Some na ∧ na - nb ≤ 86400 * days.

Lemma summary_ok d days unknown d' :
  certificate_validity_summary d = inr ((Some days, unknown), d') →
  d' = d ∧ validities_within days d.
Proof.
  unfold certificate_validity_summary.
  destruct ((_ =? 0) || negb (_ =? 0)) eqn:Hz; [done|]. bool_hyps.
  destruct (fold_left max_opt _ None) as [longest|] eqn:Hf; [|done].
  intros [= <- _ <-]. split; [done|]. intros c Hc.
  assert (¬ validity_unknown c) as Hk.
  { by apply (count_zero validity_unknown (certificates d)). }
  unfold validity_unknown in Hk.
  destruct (Cert.not_before c) as [nb|] eqn:Hnb; [|destruct Hk; by left].
  destruct (Cert.not_after c) as [na|] eqn:Hna; [|destruct Hk; by right].
  exists nb, na. split; [done|]. split; [done|].
  etrans; [apply ceil_days_covers|]. apply Z.mul_le_mono_nonneg_l; [done|].
  apply ceil_days_mono. apply (fold_max_none _ _ Hf). apply list_elem_of_omap. exists c.
  split; [done|]. unfold cert_julian_days. by rewrite Hnb, Hna.
Qed.

Lemma tx_ro_summary : tx_ro certificate_validity_summary.
Proof.
  intros d x d'. unfold certificate_validity_summary. case_match; [by intros [= _ <-]|].
  case_match; by intros [= _ <-].
Qed.

(** Reading the floor changes nothing. *)
Lemma floor_any w r w' :
  run retention_floor_days w = Some (r, w') →
  (∃ fs, w' = set_faults fs w)
  ∧ ∀ days, r = inr (Some days) → validities_within (days - RETENTION_FLOOR_GRACE_DAYS) (w_db w).
Proof.
  unfold retention_floor_days. rewrite run_bind.
  destruct (run (db _) w) as [[r0 w0]|] eqn:Hr; [|done].
  apply run_db_any in Hr as [(fs & e & -> & ->)|(fs & [m u] & d & -> & Hs & ->)].
  - intros [= <- <-]. split; [by exists fs|done].
  - apply tx_ro_summary in Hs as Hd. subst d. intros [= <- <-]. split.
    { exists fs. by destruct w. }
    intros days [= Hdays]. destruct m as [m|]; [|done]. simpl in Hdays. injection Hdays as <-.
    replace (m + RETENTION_FLOOR_GRACE_DAYS - RETENTION_FLOOR_GRACE_DAYS) with m by lia.
    by apply summary_ok in Hs as [_ Hv].
Qed.

(** What a sweep that may delete has found. *)
Definition prunable (c : RAConfig) (siem : option SiemEmitter) (w : World) (before : Z) : Prop :=
  audit_prune_enabled c = true ∧ audit_offbox_required c = true
  ∧ (∃ s, siem = Some s ∧ enabled s = true ∧ (probe_offbox_delivery s).1 = true)
  ∧ before = w_now w - audit_retention_days c * 86400
  ∧ validities_within (audit_retention_days c - RETENTION_FLOOR_GRACE_DAYS) (w_db w).

Lemma validities_mono a b d : a ≤ b → validities_within a d → validities_within b d.
Proof.
  intros Hab Hv c Hc. destruct (Hv c Hc) as (nb & na & ? & ? & ?). exists nb, na. split_and!; [done..|lia].
Qed.

Lemma evaluate_any c siem w r w' :
  run (evaluate c siem) w = Some (r, w') →
  (∃ fs, w' = set_faults fs w)
  ∧ ∀ d before, r = inr d → may_prune d = true → cutoff d = Some before → prunable c siem w before.
Proof.
  unfold evaluate. rewrite run_bind.
  destruct (run retention_floor_days w) as [[r0 w0]|] eqn:Hr; [|done].
  apply floor_any in Hr as [[fs ->] Hfloor]. destruct r0 as [e|floor].
  { intros [= <- <-]. split; [by exists fs|done]. }
  assert (∀ why, run (mret {| may_prune := false; decision_reason := why; cutoff := None;
                              floor_days := floor |}) (set_faults fs w) = Some (r, w') →
            (∃ fs, w' = set_faults fs w)
            ∧ ∀ d before, r = inr d → may_prune d = true → cutoff d = Some before →
                prunable c siem w before) as Hrefuse.
  { intros why [= <- <-]. split; [by exists fs|]. by intros d before [= <-]. }
  cbv zeta. destruct (audit_retention_days c <=? 0); [apply Hrefuse|].
  destruct (audit_prune_enabled c) eqn:Hp; cbn [negb]; [|apply Hrefuse].
  destruct (audit_offbox_required c) eqn:Ho; cbn [negb]; [|apply Hrefuse].
  destruct siem as [s|]; [|apply Hrefuse].
  destruct (enabled s) eqn:He; cbn [negb]; [|apply Hrefuse].
  destruct floor as [days|]; [|apply Hrefuse].
  destruct (audit_retention_days c <? days) eqn:Hd; [apply Hrefuse|apply Z.ltb_ge in Hd].
  destruct (probe_offbox_delivery s).1 eqn:Hpr; cbn [negb]; [|apply Hrefuse].
  intros [= <- <-]. split; [by exists fs|]. intros d before [= <-] _ [= <-].
  split_and!; try done; [by exists s|].
  eapply validities_mono; [|by apply Hfloor]. lia.
Qed.

(** C30 Deleting audit rows.  A sweep only ever removes rows, and only where
    pruning is enabled, the trail is required to leave the host, and delivery
    was demonstrated in the sweep itself.  And the evidence of a live
    certificate survives: a removed row that is no older than the start of a
    stored certificate's validity (as the row of its issuance is) tells that the
    certificate has been expired for more than the fourteen days of grace.
    However the sweep ends. *)
Theorem sweep_keeps_evidence c siem w r w' a :
  run (run_sweep c siem) w = Some (r, w') →
  a ∈ audit_log (w_db w) → a ∉ audit_log (w_db w') →
  audit_prune_enabled c = true ∧ audit_offbox_required c = true
  ∧ (∃ s, siem = Some s ∧ enabled s = true ∧ (probe_offbox_delivery s).1 = true)
  ∧ ∀ cert, cert ∈ certificates (w_db w) →
      ∃ nb na, Cert.not_before cert = Some nb ∧ Cert.not_after cert = Some na
        ∧ (nb ≤ Audit.timestamp a → na + RETENTION_FLOOR_GRACE_DAYS * 86400 < w_now w).
Proof.
  unfold run_sweep. intros Hr Ha Hn. rewrite run_bind in Hr.
  destruct (run (evaluate c siem) w) as [[r0 w0]|] eqn:He; [|done].
  apply evaluate_any in He as [[fs ->] Hprune]. destruct r0 as [e|d]; [by injection Hr as _ <-|].
  destruct (may_prune d) eqn:Hmay; [|by injection Hr as _ <-].
  destruct (cutoff d) as [before|] eqn:Hcut; [|by injection Hr as _ <-].
  destruct (Hprune d before eq_refl Hmay Hcut) as (Hp & Ho & Hs & -> & Hv).
  split; [done|]. split; [done|]. split; [done|]. intros cert Hc.
  destruct (Hv cert Hc) as (nb & na & Hnb & Hna & Hle). exists nb, na. split; [done|]. split; [done|].
  intros Hts. enough (Audit.timestamp a < w_now w - audit_retention_days c * 86400) by lia.
  destruct (decide (Audit.timestamp a < w_now w - audit_retention_days c * 86400)) as [|Hge]; [done|].
  destruct Hn. apply run_bind_any in Hr as [(e & Hr)|(n & w1 & Hr & Hk)].
  { apply run_db_any in Hr as [(fs' & ? & _ & ->)|(?&?&?&?&_)]; done. }
  apply run_db_ok in Hr as (d1 & fs1 & Hdel & ->). injection Hdel as _ <-.
  assert (a ∈ delete_where (λ a, Audit.timestamp a < w_now w - audit_retention_days c * 86400)
                (audit_log (w_db w))) as Hkeep by by apply list_elem_of_filter.
  apply run_bind_any in Hk as [(e & Hk)|(row & w2 & Hk & Hend)].
  - apply run_db_any in Hk as [(fs' & ? & _ & ->)|(?&?&?&?&_)]; done.
  - apply run_db_ok in Hk as (d2 & fs2 & [= _ <-] & ->). injection Hend as _ <-. simpl.
    apply elem_of_app. by left.
Qed.

(** ** Start-up *)

Lemma probe_sinks s :
  (probe_offbox_delivery s).1 = true →
  enabled s = true ∧ delivery s = inr tt
  ∧ (sink (siem_config s) = hec
     ∨ sink (siem_config s) = syslog ∧ syslog_proto (siem_config s) = tcp).
Proof.
  unfold probe_offbox_delivery. destruct (enabled s); [|done]. simpl.
  destruct (sink (siem_config s)) eqn:Hs; [done|..];
    destruct (delivery s) as [|[]]; try done;
    [|intros _; split; [done|]; split; [done|by left]].
  case_bool_decide; [done|]. intros _. split; [done|]. split; [done|]. right.
  split; [done|]. by destruct (syslog_proto (siem_config s)).
Qed.

Section startup.
Context `{ServerConfig}.

(** C29 What has been demonstrated when the server starts.  No pruning is
    configured; where an off-box trail is required, the server's own emitter is
    enabled and has just delivered an event, to a collector over TLS or a TCP
    relay; and where audit rows are to be kept for a number of days, that number
    covers every stored certificate's validity and fourteen days more, unless
    some certificate's validity is unknown. *)
Theorem create_app_demonstrates c hook emitter w w' :
  run (create_app c hook emitter) w = Some (inr tt, w') →
  audit_prune_enabled c = false
  ∧ (audit_offbox_required c = true → hook = false →
     ∃ s, emitter = inr s ∧ enabled s = true ∧ delivery s = inr tt
       ∧ (sink (siem_config s) = hec
          ∨ sink (siem_config s) = syslog ∧ syslog_proto (siem_config s) = tcp))
  ∧ (0 < audit_retention_days c →
     (∀ x, x ∈ certificates (w_db w) → ¬ validity_unknown x) → certificates (w_db w) ≠ [] →
     validities_within (audit_retention_days c - RETENTION_FLOOR_GRACE_DAYS) (w_db w)).
Proof.
  unfold create_app. destruct (audit_prune_enabled c); [done|]. intros Hr. split; [done|].
  run_ok Hr. apply run_of_res_ok in Hrun as [Hem ->]. split.
  - intros Ho ->. rewrite res_bind_ok in Hem. destruct Hem as (s & -> & Hs). exists s.
    unfold offbox_audit_demonstrated in Hs. rewrite Ho in Hs. simpl in Hs.
    destruct (enabled s) eqn:He; [|done]. destruct (probe_offbox_delivery s).1 eqn:Hp; [|done].
    split; [done|]. split; [done|]. by apply probe_sinks in Hp as (_ & ? & ?).
  - intros Hpos Hknown Hne. clear Hem. run_ok Hr. clear Hr. rename Hrun into Hr.
    unfold assert_retention_above_floor in Hr.
    rewrite (proj2 (Z.leb_gt _ _) Hpos) in Hr. run_ok Hr. rename x1 into floor.
    destruct floor as [days|].
    + apply floor_any in Hrun as [_ Hfloor]. destruct (_ <? _) eqn:Hd; [done|].
      apply Z.ltb_ge in Hd. eapply validities_mono; [|by apply Hfloor]. lia.
    + exfalso. unfold retention_floor_days in Hrun. run_ok Hrun.
      apply run_ret_ok in Hrun as [Hnone _].
      apply run_db_ro_ok in Hrun0 as [Hs _]; [|intros; apply tx_ro_summary].
      destruct x1 as [[m|] u]; [done|].
      unfold certificate_validity_summary in Hs.
      rewrite (proj2 (count_zero validity_unknown _) Hknown) in Hs. simpl in Hs.
      destruct (certificates (w_db w)) as [|cert l] eqn:Hcs; [done|]. cbn [length] in Hs.
      rewrite orb_false_r in Hs. rewrite (proj2 (Z.eqb_neq _ _)) in Hs by lia.
      destruct (fold_left max_opt _ None) eqn:Hf; [done|]. cbn [omap list_omap] in Hf.
      assert (¬ validity_unknown cert) as Hx by (apply Hknown; by left).
      unfold validity_unknown in Hx.
      destruct (cert_julian_days cert) as [j|] eqn:Hj.
      * simpl in Hf. clear -Hf. revert Hf. generalize j. induction (omap cert_julian_days l) as [|z t IH];
          intros m; simpl; [done|]. apply IH.
      * unfold cert_julian_days in Hj. destruct (Cert.not_after cert), (Cert.not_before cert); naive_solver.
Qed.
End startup.

(** ** What the audit mirror keeps

    The JSONL mirror as the transcript of its files, oldest first. *)

Lemma app_str_assoc (a b c : string) : (a +:+ (b +:+ c) = (a +:+ b) +:+ c)%string.
Proof. apply chars_inj. by rewrite !chars_app, app_assoc. Qed.
Lemma app_str_nil (a : string) : (a +:+ EmptyString = a)%string.
Proof. apply chars_inj. by rewrite chars_app, app_nil_r. Qed.

Lemma slen_nil : slen EmptyString = 0.
Proof. done. Qed.

(** ** The transcript *)

Definition content (i : nat) (t : gmap nat string) : string := default EmptyString (t !! i).
(** The files [i], ..., [1], and the path itself, one after the other. *)
Fixpoint transcript (i : nat) (t : gmap nat string) : string :=
  match i with
  | O => content 0 t
  | S j => (content i t +:+ transcript j t)%string
  end.
Definition kept_files (c : SiemConfig) : nat := Z.to_nat (Z.max (jsonl_keep c) 0).

Lemma transcript_ext k t t' :
  (∀ i, (i ≤ k)%nat → content i t = content i t') → transcript k t = transcript k t'.
Proof.
  induction k as [|k IH]; intros H; simpl; [by apply H|].
  rewrite H by lia. f_equal. apply IH. intros i Hi. apply H. lia.
Qed.

Lemma content_move i j x t : i ≠ j → is_Some (t !! i) →
  content x (move i j t) = if decide (x = j) then content i t
                           else if decide (x = i) then EmptyString else content x t.
Proof.
  intros Hij [s Hs]. unfold content, move. rewrite Hs.
  destruct (decide (x = j)) as [->|Hj]; [by rewrite lookup_insert_eq|].
  rewrite lookup_insert_ne by done. destruct (decide (x = i)) as [->|Hi];
    [by rewrite lookup_delete_eq|by rewrite lookup_delete_ne].
Qed.
Lemma move_missing i j t : t !! i = None → move i j t = t.
Proof. unfold move. by intros ->. Qed.

(** Moving a file into the next place, when that is free. *)
Lemma transcript_move i k t : (S i ≤ k)%nat → t !! S i = None →
  transcript k (move i (S i) t) = transcript k t.
Proof.
  intros Hk Hfree. destruct (t !! i) as [s|] eqn:Hs; [|by rewrite move_missing].
  assert (is_Some (t !! i)) as Hsome by by rewrite Hs.
  assert (transcript (S i) (move i (S i) t) = transcript (S i) t) as Hbase.
  { assert (∀ j, (j < i)%nat → transcript j (move i (S i) t) = transcript j t) as Hlow.
    { intros j Hj. apply transcript_ext. intros x Hx.
      rewrite content_move by (lia || done). by rewrite !decide_False by lia. }
    assert (content (S i) t = EmptyString) as He by (unfold content; by rewrite Hfree).
    cbn [transcript]. rewrite (content_move i (S i) (S i)) by (lia || done).
    rewrite decide_True, He by done. destruct i as [|i]; cbn [transcript].
    - rewrite (content_move 0 1 0) by (lia || done).
      rewrite decide_False, decide_True by lia. apply app_str_nil.
    - rewrite (content_move (S i) (S (S i)) (S i)) by (lia || done).
      rewrite decide_False, decide_True by lia. rewrite Hlow by lia. done. }
  clear Hfree. induction Hk as [|k Hk IH]; [done|].
  cbn [transcript]. rewrite IH, content_move by (lia || done). by rewrite !decide_False by lia.
Qed.

Lemma move_free i t : is_Some (t !! i) → move i (S i) t !! i = None.
Proof. intros [s Hs]. unfold move. rewrite Hs, lookup_insert_ne by lia. apply lookup_delete_eq. Qed.

Lemma fs_op_cases {A} (f : gmap nat string → A * gmap nat string) m :
  (∃ fs e, fs_op f m = (inl e, MkMirror (files m) fs))
  ∨ ∃ fs, fs_op f m = (inr (f (files m)).1, MkMirror (f (files m)).2 fs).
Proof.
  unfold fs_op. destruct (fs_faults m) as [|[] fs]; [right|left|right].
  - exists []. by destruct (f (files m)).
  - by exists fs, (OSError "file system").
  - exists fs. by destruct (f (files m)).
Qed.

(** The shift loses nothing once the place above is free. *)
Lemma shift_free i m k : (S i ≤ k)%nat → files m !! S i = None →
  transcript k (files (shift_files i m)) = transcript k (files m).
Proof.
  revert m. induction i as [|i IH]; intros m Hk Hfree; cbn [shift_files].
  - destruct (fs_op_cases (λ t, (tt, move 0 1 t)) m) as [(fs & e & ->)|(fs & ->)]; [done|].
    by apply transcript_move.
  - case_bool_decide as Hsome; [|apply IH; [lia|by apply eq_None_not_Some]].
    destruct (fs_op_cases (λ t, (tt, move (S i) (S (S i)) t)) m) as [(fs & e & ->)|(fs & ->)]; [done|].
    rewrite IH; [by apply transcript_move|lia|by apply move_free].
Qed.

(** A rotation loses at most the oldest file. *)
Definition loses_oldest (k : nat) (t t' : gmap nat string) : Prop :=
  transcript k t' = transcript k t ∨ transcript k t = (content k t +:+ transcript k t')%string.

Lemma overwrite_oldest i t : is_Some (t !! i) →
  transcript (S i) (move i (S i) t) = transcript i t.
Proof.
  intros Hs. cbn [transcript]. rewrite content_move, decide_True by (lia || done).
  destruct i as [|i]; cbn [transcript]; rewrite (content_move _ _ _) by (lia || done);
    rewrite decide_False, decide_True by lia; [apply app_str_nil|].
  f_equal. simpl. apply transcript_ext. intros x Hx. rewrite content_move by (lia || done).
  by rewrite !decide_False by lia.
Qed.

Lemma shift_loses_oldest i m :
  loses_oldest (S i) (files m) (files (shift_files i m)).
Proof.
  destruct i as [|i]; cbn [shift_files].
  - destruct (fs_op_cases (λ t, (tt, move 0 1 t)) m) as [(fs & e & ->)|(fs & ->)]; [by left|]. simpl.
    destruct (files m !! 0%nat) as [s|] eqn:Hs; [right|left; by rewrite move_missing].
    rewrite (overwrite_oldest 0) by by rewrite Hs. done.
  - case_bool_decide as Hsome.
    + destruct (fs_op_cases (λ t, (tt, move (S i) (S (S i)) t)) m) as [(fs & e & ->)|(fs & ->)];
        [by left|]. right. rewrite shift_free; [|lia|by apply move_free].
      cbn [files snd]. by rewrite overwrite_oldest.
    + left. apply shift_free; [lia|by apply eq_None_not_Some].
Qed.

Lemma rotate_loses_oldest c m :
  (1 ≤ kept_files c)%nat → loses_oldest (kept_files c) (files m) (files (rotate_jsonl_if_needed c m)).
Proof.
  intros Hk. unfold rotate_jsonl_if_needed. case_match; [by left|].
  destruct (fs_op_cases (λ t, (file_size 0 t, t)) m) as [(fs & e & ->)|(fs & ->)]; [by left|].
  cbn [fst snd]. case_match; [by left|]. fold (kept_files c).
  destruct (kept_files c) as [|k]; [lia|].
  apply (shift_loses_oldest k (MkMirror (files m) fs)).
Qed.

(** ** Exports *)

(** The events handed to the mirror, one after the other, and the text of
    those whose append the file system took. *)
Definition exports (c : SiemConfig) (lines : list string) (m : Mirror) : Mirror :=
  fold_left (λ m line, to_jsonl c line m) lines m.
Definition takes_append (c : SiemConfig) (m : Mirror) : bool :=
  match jsonl_path c, fs_faults m with None, _ | _, true :: _ => false | _, _ => true end.
Fixpoint written (c : SiemConfig) (lines : list string) (m : Mirror) : string :=
  match lines with
  | [] => EmptyString
  | line :: lines =>
    ((if takes_append c m then line else EmptyString) +:+ written c lines (to_jsonl c line m))%string
  end.

Definition append_line (line : string) (t : gmap nat string) : gmap nat string :=
  <[0%nat := (content 0 t +:+ line)%string]> t.

Lemma to_jsonl_taken c line m :
  takes_append c m = true →
  ∃ fs, to_jsonl c line m = rotate_jsonl_if_needed c (MkMirror (append_line line (files m)) fs)
    ∧ (fs_faults m = [] → fs = []).
Proof.
  intros Ht. unfold to_jsonl, takes_append, fs_op in *. destruct (jsonl_path c); [|done].
  destruct (fs_faults m) as [|[] fs]; [|done|].
  - by exists [].
  - by exists fs.
Qed.
Lemma to_jsonl_refused c line m : takes_append c m = false → files (to_jsonl c line m) = files m.
Proof.
  unfold to_jsonl, takes_append, fs_op. destruct (jsonl_path c); [|done].
  by destruct (fs_faults m) as [|[] fs].
Qed.

Lemma content_append line t i :
  content i (append_line line t) = if decide (i = 0%nat) then (content 0 t +:+ line)%string
                                   else content i t.
Proof.
  unfold append_line, content at 1. case_decide as Hi; [by rewrite Hi, lookup_insert_eq|].
  by rewrite lookup_insert_ne.
Qed.
Lemma transcript_append k line t :
  transcript k (append_line line t) = (transcript k t +:+ line)%string.
Proof.
  induction k as [|k IH]; cbn [transcript]; rewrite content_append; [done|].
  rewrite decide_False, IH by lia. by rewrite app_str_assoc.
Qed.

Lemma app_str_inj_l (a b b' : string) : (a +:+ b = a +:+ b')%string → b = b'.
Proof. intros H%(f_equal chars). rewrite !chars_app in H. by apply chars_inj, (app_inv_head (chars a)). Qed.

(** One event: the transcript grows by it, less the oldest file at most. *)
Lemma to_jsonl_step c line m :
  ∃ lost, (transcript (kept_files c) (files m)
           +:+ (if takes_append c m then line else EmptyString)
           = lost +:+ transcript (kept_files c) (files (to_jsonl c line m)))%string
    ∧ (takes_append c m = true → (1 ≤ kept_files c)%nat →
       ∃ before, transcript (kept_files c) (files (to_jsonl c line m)) = (before +:+ line)%string).
Proof.
  destruct (takes_append c m) eqn:Ht.
  2:{ exists EmptyString. rewrite to_jsonl_refused by done. by rewrite app_str_nil. }
  destruct (to_jsonl_taken c line m Ht) as (fs & -> & _).
  rewrite <- transcript_append. set (m1 := MkMirror (append_line line (files m)) fs).
  change (append_line line (files m)) with (files m1).
  destruct (decide (1 ≤ kept_files c)%nat) as [Hk|Hk].
  - destruct (rotate_loses_oldest c m1 Hk) as [Hr|Hr].
    + exists EmptyString. split; [by rewrite Hr|]. intros _ _. rewrite Hr.
      exists (transcript (kept_files c) (files m)). apply transcript_append.
    + exists (content (kept_files c) (files m1)). split; [done|]. intros _ _.
      destruct (kept_files c) as [|k] eqn:Hkept; [lia|]. exists (transcript k (files m)).
      apply (app_str_inj_l (content (S k) (files m1))). rewrite <- Hr. cbn [transcript].
      f_equal. apply transcript_append.
  - assert (kept_files c = 0%nat) as Hkept by lia. rewrite Hkept. cbn [transcript].
    enough (content 0 (files (rotate_jsonl_if_needed c m1)) = content 0 (files m1)
            ∨ content 0 (files (rotate_jsonl_if_needed c m1)) = EmptyString) as [-> | ->].
    { exists EmptyString. split; [done|lia]. }
    { exists (content 0 (files m1)). split; [by rewrite app_str_nil|lia]. }
    unfold rotate_jsonl_if_needed. case_match; [by left|].
    destruct (fs_op_cases (λ t, (file_size 0 t, t)) m1) as [(fs' & e & ->)|(fs' & ->)]; [by left|].
    cbn [fst snd]. case_match; [by left|]. fold (kept_files c). rewrite Hkept.
    match goal with |- context [fs_op ?f ?m'] =>
      destruct (fs_op_cases f m') as [(fs2 & e & ->)|(fs2 & ->)] end; [by left|right].
    unfold content. simpl. by rewrite lookup_insert_eq.
Qed.

Lemma exports_suffix c lines m :
  ∃ lost, (transcript (kept_files c) (files m) +:+ written c lines m
           = lost +:+ transcript (kept_files c) (files (exports c lines m)))%string.
Proof.
  revert m. induction lines as [|line lines IH]; intros m; cbn [exports written fold_left].
  { exists EmptyString. by rewrite app_str_nil. }
  destruct (to_jsonl_step c line m) as (l1 & H1 & _). destruct (IH (to_jsonl c line m)) as (l2 & H2).
  exists (l1 +:+ l2)%string. rewrite app_str_assoc, H1, <- !app_str_assoc. f_equal. exact H2.
Qed.

Lemma exports_snoc c lines line m :
  exports c (lines ++ [line]) m = to_jsonl c line (exports c lines m).
Proof. unfold exports. by rewrite fold_left_app. Qed.

(** ** Sizes *)

Definition sizes_within (b : Z) (t : gmap nat string) : Prop := ∀ i, slen (content i t) ≤ b.

Lemma sizes_move b i j t : 0 ≤ b → i ≠ j → sizes_within b t → sizes_within b (move i j t).
Proof.
  intros Hb Hij Hs x. destruct (t !! i) as [s|] eqn:Hi; [|by rewrite move_missing].
  rewrite content_move by (done || by rewrite Hi). repeat case_decide; [apply Hs|done|apply Hs].
Qed.
Lemma sizes_shift b i m : 0 ≤ b → sizes_within b (files m) → sizes_within b (files (shift_files i m)).
Proof.
  intros Hb. revert m. induction i as [|i IH]; intros m Hs; cbn [shift_files].
  - destruct (fs_op_cases (λ t, (tt, move 0 1 t)) m) as [(fs & e & ->)|(fs & ->)]; [done|].
    by apply sizes_move.
  - case_bool_decide; [|by apply IH].
    destruct (fs_op_cases (λ t, (tt, move (S i) (S (S i)) t)) m) as [(fs & e & ->)|(fs & ->)]; [done|].
    apply IH. apply sizes_move; [done|lia|done].
Qed.
Lemma shift_clears i m :
  fs_faults m = [] → content 0 (files (shift_files i m)) = EmptyString
                     ∧ fs_faults (shift_files i m) = [].
Proof.
  revert m. induction i as [|i IH]; intros m Hf; cbn [shift_files]; unfold fs_op; rewrite Hf.
  - simpl. split; [|done]. destruct (files m !! 0%nat) as [s|] eqn:Hs.
    + rewrite content_move by (done || by rewrite Hs). done.
    + rewrite move_missing by done. unfold content. by rewrite Hs.
  - case_bool_decide; [by apply IH|by apply IH].
Qed.

Lemma content_truncate i t :
  content i (<[0%nat := EmptyString]> t) = if decide (i = 0%nat) then EmptyString else content i t.
Proof.
  unfold content. case_decide as Hi; [by rewrite Hi, lookup_insert_eq|by rewrite lookup_insert_ne].
Qed.

(** What holds between events when no operation of the file system fails. *)
Definition mirror_within (c : SiemConfig) (longest : Z) (m : Mirror) : Prop :=
  let max_bytes := jsonl_max_mib c * 1024 * 1024 in
  fs_faults m = [] ∧ slen (content 0 (files m)) ≤ max_bytes
  ∧ sizes_within (max_bytes + longest) (files m).

Lemma mirror_within_step c longest line m :
  0 < jsonl_max_mib c → 0 ≤ longest → slen line ≤ longest →
  mirror_within c longest m → mirror_within c longest (to_jsonl c line m).
Proof.
  intros Hmax Hl Hline (Hf & H0 & Hs). unfold mirror_within in *. cbv zeta in *.
  set (max_bytes := jsonl_max_mib c * 1024 * 1024) in *.
  assert (0 < max_bytes) as Hpos by (unfold max_bytes; lia).
  destruct (jsonl_path c) as [p|] eqn:Hp; [|unfold to_jsonl; by rewrite Hp].
  destruct (to_jsonl_taken c line m) as (fs & -> & Hfs).
  { unfold takes_append. by rewrite Hp, Hf. }
  rewrite Hfs by done. clear fs Hfs.
  assert (sizes_within (max_bytes + longest) (append_line line (files m))) as Hs1.
  { intros i. rewrite content_append. case_decide; [|apply Hs].
    unfold slen in *. rewrite length_string_app. lia. }
  unfold rotate_jsonl_if_needed. cbv zeta. fold max_bytes.
  rewrite (proj2 (Z.leb_gt _ _)) by done. unfold fs_op at 1. simpl.
  assert (file_size 0 (append_line line (files m)) = slen (content 0 (append_line line (files m))))
    as Hsize by (unfold file_size, content; by destruct (append_line line (files m) !! 0%nat)).
  rewrite Hsize. destruct (_ <? _) eqn:Hlt; [apply Z.ltb_lt in Hlt|apply Z.ltb_ge in Hlt].
  - simpl. split; [done|]. split; [lia|done].
  - destruct (Z.to_nat (Z.max (jsonl_keep c) 0)) as [|k].
    + unfold fs_op. simpl. split; [done|]. split; [rewrite content_truncate, decide_True, slen_nil by done; lia|].
      intros i. rewrite content_truncate. case_decide; [rewrite slen_nil; lia|apply Hs1].
    + destruct (shift_clears k (MkMirror (append_line line (files m)) []) eq_refl) as [Hc Hf'].
      split; [done|]. split; [rewrite Hc, slen_nil; lia|]. by apply sizes_shift; [lia|].
Qed.

Lemma sum_within b t k s :
  sizes_within b t →
  fold_right Z.add 0 (map (λ i, file_size i t) (seq s k)) ≤ Z.of_nat k * b.
Proof.
  intros Hs. revert s. induction k as [|k IH]; intros s; cbn [seq map fold_right]; [lia|].
  specialize (IH (S s)). specialize (Hs s). unfold file_size, content in *.
  destruct (t !! s) as [x|]; simpl in *; [|rewrite slen_nil in Hs]; lia.
Qed.

(** The local mirror of the audit stream.  Whatever operations of the file
    system fail, the files read from the oldest to the newest are the end of
    what was written, in order and without gaps: rotation only ever drops the
    oldest part; and with at least one rotated file kept, the event written last
    is still there.  While nothing fails, the files together stay within
    [keep + 1] times the limit and one event. *)
Theorem mirror_keeps_latest c lines faults longest :
  let m := exports c lines (MkMirror ∅ faults) in
  (∃ lost, written c lines (MkMirror ∅ faults)
           = (lost +:+ transcript (kept_files c) (files m))%string)
  ∧ (∀ line, takes_append c m = true → (1 ≤ kept_files c)%nat →
     ∃ before, transcript (kept_files c) (files (to_jsonl c line m)) = (before +:+ line)%string)
  ∧ (faults = [] → 0 < jsonl_max_mib c → 0 ≤ longest → Forall (λ l, slen l ≤ longest) lines →
     jsonl_bytes c (files m)
     ≤ Z.of_nat (S (kept_files c)) * (jsonl_max_mib c * 1024 * 1024 + longest)).
Proof.
  cbv zeta. split; [|split].
  - destruct (exports_suffix c lines (MkMirror ∅ faults)) as (lost & Hl). exists lost.
    rewrite <- Hl. cbn [files]. enough (transcript (kept_files c) (∅ : gmap nat string) = EmptyString) as -> by done.
    generalize (kept_files c). intros k. induction k as [|k IH]; [done|]. cbn [transcript]. by rewrite IH.
  - intros line Ht Hk. destruct (to_jsonl_step c line (exports c lines (MkMirror ∅ faults)))
      as (_ & _ & Hlast). by apply Hlast.
  - intros -> Hmax Hl Hlines.
    assert (mirror_within c longest (exports c lines (MkMirror ∅ []))) as (_ & _ & Hs).
    { induction lines as [|line lines IH] using rev_ind.
      - assert (∀ i, slen (content i (∅ : gmap nat string)) = 0) as He by done.
        split; [done|]. split; [rewrite He; lia|]. intros i. rewrite He. lia.
      - apply Forall_app in Hlines as [Hls [Hline _]%Forall_cons].
        rewrite exports_snoc. apply mirror_within_step; [done..|]. by apply IH. }
    unfold jsonl_bytes. destruct (jsonl_path c); [|lia]. apply (sum_within _ _ (S (kept_files c)) 0 Hs).
Qed.
