(* ===== verification/IdentifierTheorems.v ===== *)
(** * What the identifier gate promises

    The verdict on a history without a declaration, as a statement about its
    lineages; and what exit code 0 of the gate says of every path, message and
    entry it was given. *)

From S2P Require Import Prelude PyStr Json Re.
From stdpp Require Import sorting.
From S2P Require Import Identifiers.
Local Open Scope Z_scope.
Local Open Scope res_scope.

(** ** Lineages *)

(** The commits of a walk in topological order, as [--topo-order] promises: no
    commit comes after one of its parents, and none twice. *)
Definition topological (w : Walk) : Prop :=
  NoDup (order w)
  ∧ ∀ l1 c l2 ps p, order w = l1 ++ c :: l2 → graph w !! c = Some ps → p ∈ ps → p ∉ l1 ++ [c].

Section lineages.
Context (g : gmap string (list string)) (present : gmap string (option string)).

(** [e] is the declaration met first on some way from [c] to its ancestors. *)
Inductive nearest : string → string → Prop :=
  | nearest_here c e : present !! c = Some (Some e) → nearest c e
  | nearest_parent c ps p e :
      present !! c = Some None → g !! c = Some ps → p ∈ ps → nearest p e → nearest c e.

Lemma nearest_declared c e e' : present !! c = Some (Some e) → nearest c e' ↔ e' = e.
Proof.
  intros Hc. split; [|intros ->; by constructor].
  inversion 1; simplify_eq; congruence.
Qed.
Lemma nearest_undeclared c e :
  present !! c = Some None → nearest c e ↔ ∃ p, p ∈ default [] (g !! c) ∧ nearest p e.
Proof.
  intros Hc. split.
  - inversion 1 as [? ? Hc'|? ps p ? _ Hg Hp He]; simplify_eq. exists p. by rewrite Hg.
  - intros (p & Hp & He). destruct (g !! c) as [ps|] eqn:Hg; [|by apply elem_of_nil in Hp].
    by eapply nearest_parent.
Qed.
Lemma nearest_outside c e : present !! c = None → ¬ nearest c e.
Proof. intros Hc. inversion 1; congruence. Qed.

Context (private_blob : gmap string bool).
Definition marked (e : string) : Prop := e ≠ EmptyString ∧ private_blob !! e = Some true.
Definition safe_from (l : list string) : gmap string bool :=
  fold_left (judge g present private_blob) (reverse l) ∅.
Lemma safe_from_cons c l :
  safe_from (c :: l) = judge g present private_blob (safe_from l) c.
Proof. unfold safe_from. by rewrite reverse_cons, fold_left_app. Qed.

Lemma marked_bool e :
  negb (bool_decide (e = EmptyString)) && default false (private_blob !! e) = true ↔ marked e.
Proof.
  unfold marked. rewrite andb_true_iff, negb_true_iff, bool_decide_eq_false.
  by destruct (private_blob !! e) as [[]|]; naive_solver.
Qed.

(** A suffix of a walk in topological order is judged right: the parents of a
    commit are behind it, or are not in the walk. *)
Lemma safe_from_spec ord l1 l :
  topological (MkWalk g ord) → (∀ c, is_Some (present !! c) ↔ c ∈ ord) → ord = l1 ++ l →
  (∀ c, c ∈ l → ∃ b, safe_from l !! c = Some b ∧ (b = true ↔ ∀ e, nearest c e → marked e))
  ∧ ∀ c, c ∉ l → safe_from l !! c = None.
Proof.
  intros [Hnd Htopo] Hdom. simpl in *. revert l1.
  induction l as [|c l IH]; intros l1 Hord.
  { split; [by intros c ?%elem_of_nil|]. intros c _. apply lookup_empty. }
  destruct (IH (l1 ++ [c])) as [Hin Hout]; [by rewrite <- app_assoc|].
  assert (c ∉ l) as Hcl.
  { rewrite Hord in Hnd. apply NoDup_app in Hnd as (_ & _ & Hnd). by apply NoDup_cons in Hnd as []. }
  rewrite safe_from_cons. unfold judge. split.
  - intros c' Hc'. destruct (decide (c' = c)) as [->|Hne].
    2: { rewrite lookup_insert_ne by done. apply Hin. by apply elem_of_cons in Hc' as [|]. }
    rewrite lookup_insert_eq. eexists. split; [done|].
    assert (is_Some (present !! c)) as [[e|] Hc].
    { apply Hdom. rewrite Hord. apply elem_of_app. right. by left. }
    + rewrite Hc, marked_bool. setoid_rewrite (nearest_declared _ _ _ Hc). naive_solver.
    + rewrite Hc, <- Is_true_true, forallb_True, Forall_forall.
      setoid_rewrite (nearest_undeclared _ _ Hc). split.
      * intros Hall e (p & Hp & He). specialize (Hall p Hp).
        destruct (decide (p ∈ l)) as [Hpl|Hpl].
        -- destruct (Hin p Hpl) as (b & Hb & Hspec). rewrite Hb in Hall. simpl in Hall.
           apply Hspec; [by destruct b|done].
        -- exfalso. eapply nearest_outside; [|done]. apply eq_None_not_Some. rewrite Hdom, Hord.
           destruct (g !! c) as [ps|] eqn:Hg; [|by apply elem_of_nil in Hp].
           specialize (Htopo l1 c l ps p Hord Hg Hp). set_solver.
      * intros Hall p Hp. destruct (decide (p ∈ l)) as [Hpl|Hpl]; [|by rewrite Hout].
        destruct (Hin p Hpl) as (b & Hb & Hspec). rewrite Hb. simpl.
        apply Is_true_true_2, Hspec. intros e He. apply Hall. by exists p.
  - intros c' Hc'. rewrite not_elem_of_cons in Hc'. destruct Hc' as [Hne Hc'].
    by rewrite lookup_insert_ne, Hout by done.
Qed.
End lineages.

Lemma present_of_dom ord checked c :
  length checked = length ord → is_Some (present_of ord checked !! c) ↔ c ∈ ord.
Proof.
  unfold present_of. intros Hlen.
  enough (∀ m, is_Some (fold_left (λ m '(commit, row), <[commit := entry_of row]> m)
                          (zip ord checked) m !! c) ↔ c ∈ ord ∨ is_Some (m !! c)) as ->.
  { rewrite lookup_empty. naive_solver. }
  revert checked Hlen. induction ord as [|x ord IH]; intros [|row checked] [=] m; simpl.
  { set_solver. }
  rewrite IH, lookup_insert_is_Some by done. rewrite elem_of_cons. 
  destruct (decide (x = c)) as [->|]; naive_solver.
Qed.

(** ** The declarations of a history *)

Lemma elem_of_sorted_names s l : s ∈ sorted_names l ↔ s ∈ l.
Proof. unfold sorted_names. by rewrite merge_sort_Permutation, elem_of_remove_dups. Qed.
Lemma elem_of_blobs_of present e :
  e ∈ blobs_of present ↔ e ≠ EmptyString ∧ ∃ c, present !! c = Some (Some e).
Proof.
  unfold blobs_of. rewrite elem_of_sorted_names, list_elem_of_filter, list_elem_of_omap.
  f_equiv. setoid_rewrite list_elem_of_fmap. split.
  - intros (x & ([c y] & -> & Hy%elem_of_map_to_list) & Hx). exists c. by simpl in *; subst.
  - intros (c & Hc%elem_of_map_to_list). exists (Some e). split; [|done]. by exists (c, Some e).
Qed.

(** An object as [git cat-file --batch] prints it: a line with its name, its
    kind and its size, the content, and a line feed. *)
Definition batch_object (content : string → string) (oid : string) (text : list ascii) : Prop :=
  ∃ header field,
    text = header ++ LF :: chars (content oid) ++ [LF] ∧ LF ∉ header
    ∧ byte_words (of_chars header) = [oid; "blob"; field]%string
    ∧ size_of field = Ok (length (chars (content oid))).

Lemma batch_header_app header rest :
  LF ∉ header → batch_header (header ++ LF :: rest) = Ok (byte_words (of_chars header), rest).
Proof.
  intros Hlf. unfold batch_header.
  replace (find_char LF (header ++ LF :: rest)) with (Some (length header)).
  - rewrite take_app_length. replace (S (length header)) with (length (header ++ [LF])).
    + change (LF :: rest) with ([LF] ++ rest). by rewrite app_assoc, drop_app_length.
    + rewrite length_app. simpl. lia.
  - symmetry. induction header as [|c header IH]; cbn [app find_char]; [by rewrite decide_True|].
    apply not_elem_of_cons in Hlf as [Hc Hlf]. rewrite decide_False by done. by rewrite IH.
Qed.

Section history.
Context `{Git, Codecs, TomlLoads, Environment}.

(** The text of a declaration is read, and names "private-until-review". *)
Definition private_content (text : string) : Prop :=
  ∃ t, decode_utf8 text = Some t ∧ text_declares_private t = true.

Lemma read_blobs_spec content oids objs tail pb :
  Forall2 (batch_object content) oids objs →
  ∃ pb', read_blobs oids (concat objs ++ tail) pb = Ok pb'
    ∧ (∀ oid, oid ∈ oids → pb' !! oid = Some true ↔ private_content (content oid))
    ∧ ∀ oid, oid ∉ oids → pb' !! oid = pb !! oid.
Proof.
  intros Hobjs. revert pb.
  induction Hobjs as [|oid obj oids objs Hobj Hobjs IH]; intros pb.
  { exists pb. split_and!; [done|by intros ? ?%elem_of_nil|done]. }
  destruct Hobj as (header & field & -> & Hlf & Hwords & Hsize).
  cbn [read_blobs concat]. rewrite <- !app_assoc, <- app_comm_cons, batch_header_app by done.
  cbn [res_bind fst snd]. rewrite Hwords. cbn [lookup list_lookup]. rewrite Hsize. cbn [res_bind].
  set (verdict := match decode_utf8 _ with Some _ => _ | None => _ end).
  rewrite <- app_assoc, (app_assoc _ [LF]), drop_app_length'
    by (rewrite length_app; simpl; lia).
  destruct (IH (<[oid := verdict]> pb)) as (pb' & -> & Hin & Hout).
  exists pb'. split; [done|]. split.
  - intros o Ho. destruct (decide (o ∈ oids)) as [|Hno]; [by apply Hin|].
    assert (o = oid) as -> by set_solver. rewrite Hout, lookup_insert_eq by done.
    unfold verdict, private_content. rewrite <- app_assoc, take_app_length, of_chars_chars.
    destruct (decode_utf8 (content oid)) as [t|].
    + split; [intros [= Heq]; by exists t|]. by intros (? & [= <-] & ->).
    + split; [done|]. by intros (? & ? & _).
  - intros o Ho. apply not_elem_of_cons in Ho as [Ho Hno]. by rewrite Hout, lookup_insert_ne by done.
Qed.

(** What git prints for the walk and for the declarations, as documented: the
    walk is in topological order, and the blobs come out one after the other. *)
Definition documented (content : string → string) : Prop :=
  ∀ w head rows, read_history = Ok (w, head, rows) →
    topological w
    ∧ ∀ out, history_run ["cat-file"; "--batch"]%string
               (Some (requests (blobs_of (present_of (order w) rows)))) = Ok out →
      ∃ objs, Forall2 (batch_object content) (blobs_of (present_of (order w) rows)) objs
              ∧ chars out = concat objs.

Lemma private_blobs_spec content w head rows pb :
  documented content → read_history = Ok (w, head, rows) →
  private_blobs (blobs_of (present_of (order w) rows)) = Ok pb →
  ∀ c e, present_of (order w) rows !! c = Some (Some e) →
    marked pb e ↔ e ≠ EmptyString ∧ private_content (content e).
Proof.
  intros Hdoc Hread Hpb c e Hc. unfold marked.
  enough (e ≠ EmptyString → pb !! e = Some true ↔ private_content (content e)) by tauto. intros Hne.
  destruct (Hdoc _ _ _ Hread) as [_ Hout]. clear Hdoc.
  assert (e ∈ blobs_of (present_of (order w) rows)) as He by (apply elem_of_blobs_of; eauto).
  revert Hpb Hout He. generalize (blobs_of (present_of (order w) rows)). intros oids.
  unfold private_blobs. destruct oids as [|oid oids]; [by intros _ _ ?%elem_of_nil|].
  rewrite res_bind_ok. intros (out & Hrun & Hread') Hout He.
  destruct (Hout _ Hrun) as (objs & Hobjs & Heq). rewrite Heq in Hread'.
  destruct (read_blobs_spec content _ _ [] ∅ Hobjs) as (pb' & Hpb' & Hin & _).
  rewrite app_nil_r, Hread' in Hpb'. injection Hpb' as <-. by apply Hin.
Qed.

Lemma read_history_rows w head rows :
  read_history = Ok (w, head, rows) → length rows = length (order w).
Proof.
  unfold read_history, declaration_rows.
  rewrite !res_bind_ok. intros (? & _ & H'). rewrite !res_bind_ok in H'.
  destruct H' as (? & _ & H'). rewrite !res_bind_ok in H'. destruct H' as (checked & Hc & [= <- <- <-]).
  rewrite res_bind_ok in Hc. destruct Hc as (? & _ & Hc). case_bool_decide as Hlen; [|done].
  by injection Hc as <-.
Qed.

(** Every lineage that ends in one of [heads]. *)
Definition lineages_private (content : string → string) (w : Walk) (rows heads : list string) : Prop :=
  ∀ c e, c ∈ heads → nearest (graph w) (present_of (order w) rows) c e →
    e ≠ EmptyString ∧ private_content (content e).

Lemma judged content w head rows pb c :
  documented content → read_history = Ok (w, head, rows) →
  private_blobs (blobs_of (present_of (order w) rows)) = Ok pb →
  default false (judge_all w (present_of (order w) rows) pb !! c) = true ↔
  c ∈ order w ∧ lineages_private content w rows [c].
Proof.
  intros Hdoc Hread Hpb.
  assert (length rows = length (order w)) as Hlen by by eapply read_history_rows.
  destruct (safe_from_spec (graph w) (present_of (order w) rows) pb (order w) [] (order w))
    as [Hin Hout]; [by destruct w; apply (Hdoc _ _ _ Hread)|by intros; apply present_of_dom|done|].
  change (judge_all w _ pb) with (safe_from (graph w) (present_of (order w) rows) pb (order w)).
  assert (∀ e, nearest (graph w) (present_of (order w) rows) c e →
            marked pb e ↔ e ≠ EmptyString ∧ private_content (content e)) as Hmarked.
  { intros e He. induction He as [c e Hc|]; [|done]. by eapply private_blobs_spec. }
  unfold lineages_private. setoid_rewrite list_elem_of_singleton.
  destruct (decide (c ∈ order w)) as [Hc|Hc].
  - destruct (Hin c Hc) as (b & -> & Hb). simpl. rewrite Hb. split.
    + intros Hall. split; [done|]. intros ? e -> He. by apply Hmarked, Hall.
    + intros [_ Hall] e He. apply Hmarked; [done|]. by apply (Hall c).
  - rewrite (Hout c Hc). simpl. naive_solver.
Qed.

(** C31 A repository without a declaration is passed over exactly when it is
    new and holds no commit at all, or its whole history can be read and
    trusted and no lineage says otherwise: on every way from HEAD, and from
    every tip of a ref, to the past, the declaration that is met first, if
    any, is a regular file that names "private-until-review".  So the
    declaration of a public repository does not stop counting when it is
    deleted, whichever branches and merges come after. *)
Theorem absence_skips_iff content (Hgit : documented content) :
  absent_declaration_verdict = Ok false ↔
  (git_or_none ["rev-parse"; "--verify"; "-q"; "HEAD"]%string = Ok None
   ∧ require_verified_objects = Ok tt
   ∧ ∃ kinds, history_run ["cat-file"; "--batch-all-objects"; "--batch-check=%(objecttype)"]%string
                None = Ok kinds ∧ "commit"%string ∉ byte_words kinds)
  ∨ (∃ id, git_or_none ["rev-parse"; "--verify"; "-q"; "HEAD"]%string = Ok (Some id))
    ∧ require_whole_history = Ok tt
    ∧ ∃ w head rows pb, read_history = Ok (w, head, rows)
        ∧ private_blobs (blobs_of (present_of (order w) rows)) = Ok pb
        ∧ head ∈ order w ∧ lineages_private content w rows (head :: tips w).
Proof.
  unfold absent_declaration_verdict.
  destruct (git_or_none _) as [f|[id|]]; cbn [res_bind].
  { split; [done|]. by intros [[? _]|[[? ?] _]]. }
  - unfold history_verdict. rewrite res_then_ok, res_bind_ok. split.
    + intros (Hwhole & [[w head] rows] & Hread & Hv). right.
      split; [by eexists|]. split; [done|].
      rewrite res_bind_ok in Hv. destruct Hv as (pb & Hpb & Hv). exists w, head, rows, pb.
      case_match eqn:Hsafe; [|done]. apply andb_true_iff in Hsafe as [Hhead Htips].
      apply (judged content w head rows pb) in Hhead as [Hin Hhead]; [|done..].
      split_and!; [done..|]. intros c e [->|Hc]%elem_of_cons; [apply Hhead; by left|].
      apply Is_true_true_2 in Htips. rewrite forallb_True, Forall_forall in Htips.
      specialize (Htips c Hc). apply Is_true_true_1, (judged content w head rows pb) in Htips as [_ Htips]; [|done..].
      apply Htips. by left.
    + intros [(? & _)|([id' _] & Hwhole & w & head & rows & pb & Hread & Hpb & Hin & Hall)]; [done|].
      split; [done|]. exists (w, head, rows). split; [done|].
      rewrite Hpb. cbn [res_bind].
      assert (∀ c, c ∈ order w → c ∈ head :: tips w →
        default false (judge_all w (present_of (order w) rows) pb !! c) = true) as Hsafe.
      { intros c Hc Hh. apply (judged content w head); [done..|]. split; [done|].
        intros ? e ->%list_elem_of_singleton. by apply Hall. }
      rewrite Hsafe by (done || by left). cbn [andb].
      assert (forallb (λ t, default false (judge_all w (present_of (order w) rows) pb !! t)) (tips w)
              = true) as ->; [|done].
      apply Is_true_true_1, forallb_True, Forall_forall. intros c Hc. apply Is_true_true_2.
      apply Hsafe; [|by right]. unfold tips in Hc. by apply list_elem_of_filter in Hc as [].
  - unfold unborn_verdict. rewrite res_then_ok, res_bind_ok. split.
    + intros (Hok & kinds & Hkinds & Hv). left. split_and!; [done..|].
      exists kinds. split; [done|]. by case_bool_decide.
    + intros [(_ & Hok & kinds & Hkinds & Hno)|([? [=]] & _)].
      split; [done|]. exists kinds. split; [done|]. by rewrite bool_decide_eq_false_2.
Qed.
End history.

(** ** Text that names an identifier *)

(** [i] is met in [l]. *)
Lemma hits_zero i l : i ≠ [] → hits i 0 l = 0%nat ↔ ¬ ∃ a b, l = a ++ i ++ b.
Proof.
  intros Hi. induction l as [|c l IH]; cbn [hits].
  - split; [|done]. intros _ (a & b & Hl). destruct a, i; done.
  - destruct (is_prefix i (c :: l)) eqn:Hp.
    + apply is_prefix_spec in Hp as [k Hk]. split; [done|]. intros []. by exists [], k.
    + rewrite IH. split; intros Hno (a & b & Hl); apply Hno.
      * destruct a as [|c' a]; [|injection Hl as -> ->; by exists a, b].
        assert (is_prefix i (c :: l) = true) as Heq by (apply is_prefix_spec; by exists b). congruence.
      * exists (c :: a), b. by rewrite Hl.
Qed.

(** The same letters, whatever their case. *)
Definition alike (w m : list ascii) : Prop := map lower_char m = map lower_char w.
Definition separators (s : list ascii) : Prop :=
  s ≠ [] ∧ Forall (λ c, is_space c = true ∨ c ∈ ["."; "_"; "-"]%char) s.
(** The words one after the other, with separators between them. *)
Inductive spells : list (list ascii) → list ascii → Prop :=
  | spells_last w m : alike w m → spells [w] m
  | spells_more w ws m sep r :
      alike w m → separators sep → spells ws r → spells (w :: ws) (m ++ sep ++ r).

Definition named (i text : string) : Prop :=
  if is_phrase i
  then ∃ a m b, chars text = a ++ m ++ b ∧ spells (map chars (split_words i)) m
  else ∃ l a b, l ∈ splitlines text ∧ chars (lower l) = a ++ chars i ++ b.
Definition forbidden (ids : gset string) (text : string) : Prop :=
  ∃ i, i ∈ filter_identifiers ids ∧ named i text.

Lemma matches_ilit w pat prev s r :
  matches (ilit w ++ pat) prev s r ↔
  ∃ m s', s = m ++ s' ∧ alike (chars w) m ∧ matches pat (after prev m) s' r.
Proof.
  unfold ilit, alike. revert prev s. induction (chars w) as [|c l IH]; intros prev s; cbn [map app].
  - split; [intros Hm; by exists [], s|]. by intros ([|] & s' & -> & [=] & Hm).
  - split.
    + inversion 1 as [|? ? ? c' s0 ? Hc Hm| | | | | |]; subst. apply bool_decide_eq_true in Hc.
      apply IH in Hm as (m & s' & -> & Hm & Hr). exists (c' :: m), s'. split; [done|].
      split; [simpl; congruence|done].
    + intros ([|c' m] & s' & -> & [= Hc Hm] & Hr). constructor; [by apply bool_decide_eq_true|].
      apply IH. by exists m, s'.
Qed.
Lemma separator_iff c :
  is_space c || bool_decide (code c ∈ [46; 95; 45]) = true ↔
  is_space c = true ∨ c ∈ ["."; "_"; "-"]%char.
Proof.
  rewrite orb_true_iff, bool_decide_eq_true. revert c. refine (ascii_forall (λ c, _) _). by vm_compute.
Qed.
Lemma matches_phrase ws prev s r :
  ws ≠ [] →
  matches (join_patterns PHRASE_SEPARATOR (map ilit ws)) prev s r ↔
  ∃ m, s = m ++ r ∧ spells (map chars ws) m.
Proof.
  intros Hne. revert prev s. induction ws as [|w ws IH]; [done|]. intros prev s.
  destruct ws as [|w' ws].
  - cbn [map join_patterns]. rewrite <- (app_nil_r (ilit w)), matches_ilit. split.
    + intros (m & s' & -> & Hm & Hr). inversion Hr; subst. exists m. split; [done|by constructor].
    + intros (m & -> & Hm). inversion Hm as [|? ? ? ? ? ? ? Hn]; subst; [|by inversion Hn]. exists m, r. split; [done|].
      split; [done|constructor].
  - change (join_patterns PHRASE_SEPARATOR (map ilit (w :: w' :: ws)))
      with (ilit w ++ PHRASE_SEPARATOR :: join_patterns PHRASE_SEPARATOR (map ilit (w' :: ws))).
    rewrite matches_ilit. unfold PHRASE_SEPARATOR. setoid_rewrite matches_many.
    setoid_rewrite IH; [|done]. split.
    + intros (m & s' & -> & Hm & sep & s'' & -> & Hsep & Hlen & m' & -> & Hm').
      exists (m ++ sep ++ m'). split; [by rewrite <- !app_assoc|]. constructor; [done| |done].
      split; [by destruct sep; [simpl in Hlen; lia|]|].
      eapply Forall_impl; [done|]. intros c. by rewrite <- separator_iff.
    + intros (m & -> & Hm). inversion Hm as [|? ? m1 sep m' Hm1 [Hsep Hseps] Hm']; subst.
      exists m1, (sep ++ m' ++ r). split; [by rewrite <- !app_assoc|]. split; [done|].
      exists sep, (m' ++ r). split; [done|]. split.
      { eapply Forall_impl; [done|]. intros c. by rewrite <- separator_iff. }
      split; [destruct sep; [done|simpl; lia]|]. by exists m'.
Qed.

(** The identifiers that are looked for are words with one blank between them. *)
Lemma is_space_lower c : is_space (lower_char c) = is_space c.
Proof. revert c. refine (ascii_forall (λ c, _) _). by vm_compute. Qed.
Lemma filter_identifiers_words ids i :
  i ∈ filter_identifiers ids →
  ∃ ws, ws ≠ [] ∧ Forall (λ w, w ≠ [] ∧ Forall (λ c, is_space c = false) w) ws
    ∧ chars i = join_chars " " ws.
Proof.
  unfold filter_identifiers. rewrite elem_of_list_to_set, list_elem_of_omap.
  intros (x & _ & Hx). case_match eqn:Hlen; [|done]. injection Hx as <-.
  exists (words is_space [] (chars (lower (strip x)))). split_and!.
  - unfold lower. rewrite chars_of_chars, (words_map is_space lower_char [] _ is_space_lower).
    unfold join_words, MIN_IDENTIFIER_LENGTH in Hlen. destruct (words _ _ _); [|done].
    by apply Z.leb_le in Hlen.
  - by apply words_no_break.
  - unfold join_words. by rewrite chars_of_chars.
Qed.
Lemma split_words_join ws i :
  Forall (λ w, w ≠ [] ∧ Forall (λ c, is_space c = false) w) ws → chars i = join_chars " " ws →
  map chars (split_words i) = ws.
Proof.
  intros Hws Hi. unfold split_words. rewrite Hi, (words_join is_space " ") by done.
  rewrite map_map. rewrite <- (map_id ws) at 2. apply map_ext. apply chars_of_chars.
Qed.

Lemma phrase_starts i text :
  map chars (split_words i) ≠ [] → Forall (λ w, w ≠ []) (map chars (split_words i)) →
  match_starts (phrase_pattern i) text = [] ↔
  ¬ ∃ a m b, chars text = a ++ m ++ b ∧ spells (map chars (split_words i)) m.
Proof.
  intros Hne Hws. unfold match_starts, phrase_pattern.
  assert (split_words i ≠ []) as Hsp by (by destruct (split_words i)).
  rewrite starts_from_nil.
  - rewrite eq_None_not_Some. f_equiv. split.
    + intros [f (a & s' & -> & Hf)%search_from_some]. apply match_here_some, matches_phrase in Hf
        as (m & -> & Hm); [|done]. by exists a, m, (rest f).
    + intros (a & m & b & -> & Hm). eapply search_from_complete, matches_phrase; [done|]. by exists m.
  - intros q. apply eq_None_not_Some. intros [f Hf]. apply match_here_some, matches_phrase in Hf
      as (m & Hnil & Hm); [|done].
    symmetry in Hnil. apply app_eq_nil in Hnil as [-> _].
    clear Hsp Hne. remember [] as l eqn:Hl in Hm. revert Hws.
    destruct Hm as [w m Hw|w ws m sep r' _ [Hsep _] _]; intros Hws.
    + apply Forall_cons in Hws as [Hws _]. subst. unfold alike in Hw. by destruct w.
    + apply app_eq_nil in Hl as [_ [-> _]%app_eq_nil]. done.
Qed.

Lemma mjoin_nil {A} (ls : list (list A)) : mjoin ls = [] ↔ Forall (λ l, l = []) ls.
Proof.
  induction ls as [|l ls IH]; [by split|]. rewrite Forall_cons, <- IH. cbn.
  destruct l; naive_solver.
Qed.
Lemma map_is_nil {A B} (f : A → B) l : map f l = [] ↔ l = [].
Proof. by destruct l. Qed.

Lemma word_violations_nil ids n l :
  Forall (λ i, chars i ≠ []) ids →
  word_violations ids n l = [] ↔
  ∀ i, i ∈ ids → is_phrase i = false → ¬ ∃ a b, chars (lower l) = a ++ chars i ++ b.
Proof.
  intros Hids. unfold word_violations. rewrite mjoin_nil, Forall_map, Forall_forall. split.
  - intros Hall i Hi Hp. specialize (Hall i ltac:(by apply list_elem_of_filter)). simpl in Hall.
    rewrite Forall_forall in Hids. apply hits_zero; [by apply Hids|].
    by destruct (hits _ _ _).
  - intros Hall i [Hp Hi]%list_elem_of_filter. simpl. rewrite Forall_forall in Hids.
    by rewrite (proj2 (hits_zero _ _ (Hids i Hi)) (Hall i Hi Hp)).
Qed.

(** [scan_text] is silent exactly about text that names no identifier. *)
Lemma scan_text_nil text ids : scan_text text ids = [] ↔ ¬ forbidden ids text.
Proof.
  unfold scan_text, forbidden.
  assert (∀ i, i ∈ elements (filter_identifiers ids) ↔ i ∈ filter_identifiers ids) as Helem
    by (intros; by rewrite elem_of_elements).
  assert (∀ i, i ∈ elements (filter_identifiers ids) →
            chars i ≠ [] ∧ map chars (split_words i) ≠ []
            ∧ Forall (λ w, w ≠ []) (map chars (split_words i))) as Hform.
  { intros i (ws & Hne & Hws & Hi)%Helem%filter_identifiers_words.
    rewrite (split_words_join ws) by done. split_and!; [|done|].
    - rewrite Hi. destruct ws as [|w [|]]; [done|by apply Forall_cons in Hws as [[? _] _]|].
      apply Forall_cons in Hws as [[Hw _] _]. by destruct w.
    - eapply Forall_impl; [done|]. by intros ? []. }
  setoid_rewrite <- Helem. clear Helem. revert Hform.
  generalize (elements (filter_identifiers ids)). intros l Hform. case_bool_decide as Hl.
  { subst l. split; [|done]. by intros _ (i & ?%elem_of_nil & _). }
  assert (Forall (λ i, chars i ≠ []) l) as Hch by (apply Forall_forall; intros i Hi; by apply Hform).
  assert (∀ {A} (x y : list A), x ++ y = [] ↔ x = [] ∧ y = []) as app_nil
    by (intros A x y; split; [apply app_eq_nil|by intros [-> ->]]).
  rewrite app_nil, mjoin_nil, Forall_forall. unfold phrase_violations.
  rewrite mjoin_nil, Forall_map, Forall_forall. split.
  - intros [Hw Hp] (i & Hi & Hnamed). unfold named in Hnamed. destruct (is_phrase i) eqn:Hphrase.
    + specialize (Hp i ltac:(by apply list_elem_of_filter)). simpl in Hp.
      apply map_is_nil, phrase_starts in Hp; [done|by apply Hform..].
    + destruct Hnamed as (line & a & b & Hline & Heq). apply list_elem_of_lookup_1 in Hline as [n Hn].
      assert (word_violations l (S n) line = []) as Hv.
      { apply Hw. apply list_elem_of_lookup_2 with n. by rewrite list_lookup_imap, Hn. }
      rewrite word_violations_nil in Hv by done. apply (Hv i Hi Hphrase). by exists a, b.
  - intros Hno. split.
    + intros vs (n & line & -> & Hn)%elem_of_lookup_imap. apply word_violations_nil; [done|].
      intros i Hi Hphrase (a & b & Heq). apply Hno. exists i. split; [done|]. unfold named.
      rewrite Hphrase. exists line, a, b. split; [by eapply list_elem_of_lookup_2|done].
    + intros i [Hphrase Hi]%list_elem_of_filter. simpl. apply map_is_nil, phrase_starts;
        [by apply Hform..|]. intros Hm. apply Hno. exists i. split; [done|]. unfold named.
      by rewrite Hphrase.
Qed.

(** ** The exit code *)

Section gate.
Context `{Git, Codecs, TomlLoads, Environment}.

(** An entry that was read, whole, and names nothing. *)
Definition clean_file (fs : FileSystem) (ids : gset string) (p : string) : Prop :=
  if is_symlink fs p then ¬ forbidden ids (readlink fs p)
  else ∃ body, first_octets fs p = Some body ∧
    let chunk := of_chars (take _BINARY_SNIFF_LEN (chars body)) in
    is_binary chunk = true
    ∨ ∃ body, octets fs p = Some body
        ∧ ¬ forbidden ids
              (as_text (decode_replace (default "utf-8"%string (sniff_encoding chunk)) body)).

Lemma scan_file_nil fs ids p : scan_file fs ids p = Some [] ↔ clean_file fs ids p.
Proof.
  unfold scan_file, clean_file. destruct (is_symlink fs p).
  { rewrite <- scan_text_nil. split; [|by intros ->]. intros [= Hnil]. by apply map_is_nil in Hnil. }
  destruct (first_octets fs p) as [body|]; [|naive_solver].
  cbv zeta. destruct (is_binary (of_chars (take _BINARY_SNIFF_LEN (chars body)))) eqn:Hbin.
  { split; [|done]. intros _. exists body. split; [done|by left]. }
  destruct (octets fs p) as [body'|].
  2: { split; [done|]. intros (? & [= <-] & [?|(? & ? & _)]); [|done]. congruence. }
  split.
  - intros [= Hnil]. apply map_is_nil, scan_text_nil in Hnil.
    exists body. split; [done|]. right. by exists body'.
  - intros (? & [= <-] & [?|(? & [= <-] & Hno)]); [congruence|].
    apply scan_text_nil in Hno. by rewrite Hno.
Qed.
Lemma scan_files_clean fs ids paths :
  (scan_files fs ids paths).1 = [] ∧ (scan_files fs ids paths).2 = [] ↔
  ∀ p, p ∈ paths → clean_file fs ids p.
Proof.
  setoid_rewrite <- scan_file_nil. induction paths as [|p paths IH]; cbn [scan_files].
  { split; [|done]. by intros _ ? ?%elem_of_nil. }
  setoid_rewrite elem_of_cons. destruct (scan_files fs ids paths) as [vs unreadable]. simpl in IH.
  destruct (scan_file fs ids p) as [fvs|] eqn:Hp; simpl.
  - split.
    + intros [[-> ->]%app_eq_nil ->] q [->|Hq]; [done|by apply IH].
    + intros Hall. assert (Some fvs = Some []) as [= ->] by (rewrite <- Hp; apply Hall; by left).
      apply IH. auto.
  - split; [by intros []|]. intros Hall. specialize (Hall p). rewrite Hp in Hall. naive_solver.
Qed.

(** What the gate looks at. *)
Definition listed (staged : bool) : Res Failure (list string) :=
  if staged then collect_staged_paths else collect_tracked_paths.
Definition judged_files (staged : bool) (paths : list string) : Res Failure FileSystem :=
  if staged then index_snapshot paths else Ok worktree.
Definition scanned_clean (staged : bool) (mode : Mode) (ids : gset string) : Prop :=
  match mode with
  | MessageFile path =>
    ∃ body, octets worktree path = Some body
      ∧ ¬ forbidden ids (message_lines (as_text (decode_replace "utf-8" body)))
  | RevRange range =>
    ∃ messages, collect_range_messages range = Ok messages
      ∧ ∀ sha body, (sha, body) ∈ messages → ¬ forbidden ids body
  | Tree =>
    ∃ paths fs, listed staged = Ok paths ∧ judged_files staged paths = Ok fs
      ∧ ∀ p, p ∈ paths → clean_file fs ids p
  end.
(** The denylist of the environment; none is the empty one. *)
Definition denylist : Res Failure (gset string) :=
  let raw := default EmptyString (environ "FORBIDDEN_IDENTIFIERS") in
  if bool_decide (strip raw = EmptyString) then Ok ∅ else parse_identifier_set raw.

Lemma resolve_some staged ids :
  resolve_identifiers staged = Ok (Some ids) ↔ denylist = Ok ids ∧ ids ≠ ∅.
Proof.
  unfold resolve_identifiers, denylist. case_bool_decide as Hblank.
  - split; [|naive_solver]. by destruct (unconfigured staged) as [|[]].
  - destruct (parse_identifier_set _) as [|ids']; [naive_solver|]. cbn [res_bind].
    case_bool_decide; [|naive_solver]. split; [|naive_solver]. by destruct (unconfigured staged) as [|[]].
Qed.
Lemma unconfigured_ok staged : unconfigured staged = Ok tt ↔ declares_public staged = Ok false.
Proof. unfold unconfigured. by destruct (declares_public staged) as [|[]]. Qed.
Lemma resolve_none staged :
  resolve_identifiers staged = Ok None ↔ denylist = Ok ∅ ∧ declares_public staged = Ok false.
Proof.
  rewrite <- unconfigured_ok. unfold resolve_identifiers, denylist.
  assert (unconfigured staged = Ok tt ↔ (unconfigured staged;;? Ok (@None (gset string))) = Ok None)
    as Hun by by destruct (unconfigured staged) as [|[]].
  rewrite Hun. case_bool_decide; [naive_solver|].
  destruct (parse_identifier_set _) as [|ids']; [naive_solver|]. cbn [res_bind].
  case_bool_decide; naive_solver.
Qed.

Lemma zero_or_one (b : bool) : (Ok (if b then 0 else 1) : Res Failure Z) = Ok 0 ↔ b = true.
Proof. by destruct b. Qed.
Lemma scan_message_zero staged path ids :
  resolve_identifiers staged = Ok (Some ids) →
  scan_message_file staged path = Ok 0 ↔ scanned_clean staged (MessageFile path) ids.
Proof.
  intros Hids. unfold scan_message_file, scanned_clean. rewrite Hids. cbn [res_bind].
  destruct (octets worktree path) as [body|]; cbn [decoded res_bind]; [|naive_solver].
  rewrite zero_or_one, bool_decide_eq_true, scan_text_nil. naive_solver.
Qed.
Lemma scan_range_zero staged range ids :
  resolve_identifiers staged = Ok (Some ids) →
  scan_rev_range staged range = Ok 0 ↔ scanned_clean staged (RevRange range) ids.
Proof.
  intros Hids. unfold scan_rev_range, scanned_clean. rewrite Hids. cbn [res_bind].
  rewrite res_bind_ok. f_equiv. intros messages. f_equiv.
  rewrite zero_or_one, <- Is_true_true, forallb_True, Forall_forall. split.
  - intros Hall sha body Hm. apply scan_text_nil. by apply Hall, Is_true_true, bool_decide_eq_true in Hm.
  - intros Hall [sha body] Hm. apply Is_true_true, bool_decide_eq_true, scan_text_nil. by eapply Hall.
Qed.
Lemma scan_tree_zero staged paths ids :
  listed staged = Ok paths →
  (result ←? (if staged then scan_index_snapshot ids paths else Ok (scan_files worktree ids paths));
   Ok (if bool_decide (result.1 = []) && bool_decide (result.2 = []) then 0 else 1))%res = Ok 0 ↔
  scanned_clean staged Tree ids.
Proof.
  intros Hpaths. unfold scanned_clean. rewrite Hpaths. rewrite res_bind_ok.
  setoid_rewrite zero_or_one. setoid_rewrite andb_true_iff. setoid_rewrite bool_decide_eq_true.
  unfold judged_files, scan_index_snapshot. split.
  - intros ([vs us] & Hrun & Hnil). exists paths. destruct staged.
    + apply res_bind_ok in Hrun as (fs & Hfs & [= Heq]). exists fs. split_and!; [done..|].
      apply scan_files_clean. by rewrite Heq.
    + exists worktree. injection Hrun as Heq. split_and!; [done..|]. apply scan_files_clean. by rewrite Heq.
  - intros (? & fs & [= <-] & Hfs & Hall%scan_files_clean). exists (scan_files fs ids paths).
    split; [|done]. destruct staged; [by rewrite Hfs|by injection Hfs as <-].
Qed.

Lemma none_leaked paths : leaked_tracked_files paths = [] ↔ ∀ p, p ∈ paths → leaked p = false.
Proof. unfold leaked_tracked_files. rewrite filter_nil_iff. by setoid_rewrite not_true_iff_false. Qed.

End gate.

(** ** A small repository *)

(** A root that says "private-until-review", and HEAD, which removes it. *)
Definition line_of (s : string) : string := (s +:+ String LF EmptyString)%string.
Definition demo_content (oid : string) : string := "private".
#[local] Instance demo_toml : TomlLoads := λ text,
  if bool_decide (text = "private"%string)
  then Some [("publication", JObj [("visibility", JStr " Private-until-review")])]%string else None.
#[local] Instance demo_codecs : Codecs :=
  {| decode_utf8 := Some; decode_replace := λ _ s, s; fsdecode := λ s, s |}.
Definition demo_worktree : FileSystem :=
  {| lexists := λ p, bool_decide (p = "notes"%string); is_symlink := λ _, false;
     is_file := λ p, bool_decide (p = "notes"%string); readlink := λ p, p;
     first_octets := λ _, Some "Meet at ALPHA-_bravo"%string;
     octets := λ _, Some "Meet at ALPHA-_bravo"%string |}.
#[local] Instance demo_git : Git :=
  {| git_text := λ args,
       if bool_decide ("ls-files"%string ∈ args) then inr ("notes" +:+ String NUL EmptyString)%string
       else if bool_decide ("--show-toplevel"%string ∈ args) then inr (line_of "/repo")
       else if bool_decide ("--is-shallow-repository"%string ∈ args) then inr (line_of "false")
       else if bool_decide ("info/grafts"%string ∈ args) then inr ".git/info/grafts"%string
       else if bool_decide ("--verify"%string ∈ args) then inr (line_of "c1")
       else inl CalledProcessError;
     git_bytes := λ args stdin,
       if bool_decide ("--topo-order"%string ∈ args) then inr (line_of "c1 c0" +:+ line_of "c0")%string
       else if bool_decide ("rev-list"%string ∈ args) then inr (line_of "c1")
       else if bool_decide ("fsck"%string ∈ args) then inr EmptyString
       else if bool_decide ("--batch"%string ∈ args)
       then inr (line_of "b0 blob 7" +:+ line_of "private")%string
       else if bool_decide (stdin = Some (line_of "c1:publication.toml" +:+ line_of "c0:publication.toml")%string)
       then inr (line_of "c1:publication.toml missing" +:+ line_of "100644 blob b0")%string
       else inl CalledProcessError |}.
#[local] Instance demo_environment (identifiers : option string) : Environment :=
  {| environ := λ var, if bool_decide (var = "FORBIDDEN_IDENTIFIERS"%string) then identifiers else None;
     worktree := demo_worktree; tmp_refuses := λ _, false |}.

Definition with_denylist (s : string) : Environment := demo_environment (Some s).
Definition quoted_entry (s : string) : string :=
  (String (ascii_of_nat 34) s +:+ String (ascii_of_nat 34) EmptyString)%string.
Example gate_ex :
  (@main _ _ _ (demo_environment None) false Tree,
   @main _ _ _ (with_denylist "delta # a comment") false Tree,
   @main _ _ _ (with_denylist (quoted_entry "alpha   Bravo")) false Tree,
   @main _ _ _ (with_denylist (quoted_entry "alpha   Bravo" +:+ "x")) false Tree,
   @main _ _ _ (with_denylist "'open") false Tree) = (0, 0, 1, 0, 1).
Proof. by vm_compute. Qed.

(** A form feed ends a line for [splitlines] and is not counted: the line that
    is shown for a phrase is another one. *)
Example phrase_line_ex :
  map line
    (scan_text ("notes" +:+ String (ascii_of_nat 12) "see alpha bravo" +:+ String LF "end")%string
       {["alpha bravo"%string]}) = ["notes"%string].
Proof. by vm_compute. Qed.

Definition demo_walk : Walk := read_walk (line_of "c1 c0" +:+ line_of "c0").
Lemma demo_read :
  @read_history demo_git demo_codecs
  = Ok (demo_walk, "c1", ["c1:publication.toml missing"; "100644 blob b0"])%string.
Proof. by vm_compute. Qed.
Lemma demo_topological : topological demo_walk.
Proof.
  split; [by apply (bool_decide_unpack _); vm_compute|].
  intros l1 c l2 ps p Hl Hps Hp.
  assert (Identifiers.order demo_walk = ["c1"; "c0"]%string) as Hord by by vm_compute.
  rewrite Hord in Hl. destruct l1 as [|x1 [|x2 l1]]; simplify_eq/=.
  - vm_compute in Hps. injection Hps as <-. apply list_elem_of_singleton in Hp as ->.
    by rewrite list_elem_of_singleton.
  - vm_compute in Hps. injection Hps as <-. by apply elem_of_nil in Hp.
  - by destruct l1.
Qed.
Lemma demo_documented : @documented demo_git demo_codecs demo_content.
Proof.
  intros w head rows Hread. rewrite demo_read in Hread. injection Hread as <- <- <-.
  split; [apply demo_topological|]. intros out Hout. vm_compute in Hout. injection Hout as <-.
  eexists [_]. split.
  - constructor; [|constructor]. exists (chars "b0 blob 7"), "7"%string.
    split_and!; [reflexivity| |by vm_compute..].
    apply (bool_decide_unpack _). by vm_compute.
  - by vm_compute.
Qed.
Lemma absence_skips_iff_witness :
  @documented demo_git demo_codecs demo_content
  ∧ @absent_declaration_verdict _ _ _ (demo_environment None) = Ok false
  ∧ ∃ w head rows, read_history = Ok (w, head, rows) ∧ head ∈ Identifiers.order w
      ∧ lineages_private demo_content w rows (head :: tips w).
Proof.
  split; [apply demo_documented|].
  assert (@absent_declaration_verdict _ _ _ (demo_environment None) = Ok false) as Hv by by vm_compute.
  split; [done|].
  apply (@absence_skips_iff _ _ _ (demo_environment None) demo_content demo_documented) in Hv
    as [(Hnone & _)|(_ & _ & w & head & rows & pb & Hread & _ & Hhead & Hall)]; [by vm_compute in Hnone|].
  exists w, head, rows. done.
Defined.
