(* ===== verification/OperatorTools.v ===== *)
(** * Small tools of the operators, and the harness's proxy

    [Plumbing]: scripts/check_publication_plumbing.py, may this push go there.
    [LibDigest]: scripts/lib_digest.py, the pinned digest of a library.
    [Eab]: scripts/eab.py, minting and auditing credentials.
    [Sampler]: scripts/sample_crl_age.py, sampling a published CRL.
    [FaultProxy]: interop/nonce_fault_proxy.py, spoiling nonces of a client.
    Files, git, the network and the random source are arguments; printed prose
    is not modelled.  Each part ends with what its tool promises. *)

From S2P Require Import Prelude PyStr Time Sha256 Json Exn Base64 Db RateLimit Config.
From S2P Require Import SerialTheorems AuditTheorems.
From stdpp Require Import sorting pretty.
From Stdlib Require Import SpecFloat.
Local Open Scope Z_scope.
Local Open Scope res_scope.

(** ** Publication plumbing *)

Module Plumbing.
From S2P Require Import Identifiers.

Inductive Visibility := PRIVATE_UNTIL_REVIEW | PUBLIC.
(** [PlumbingError], and what is not caught. *)
Inductive Failure := PlumbingError | Uncaught.

Record Declaration := {
  remote_owner : string;
  author_emails : list string;
  visibility : Visibility;
}.

(** [Visibility(raw)] *)
Definition visibility_of (raw : string) : option Visibility :=
  if bool_decide (raw = "private-until-review"%string) then Some PRIVATE_UNTIL_REVIEW
  else if bool_decide (raw = "public"%string) then Some PUBLIC else None.
Definition authors_of (raw : json) : list string :=
  match raw with JArr l => map py_str l | v => [py_str v] end.
Definition blank (s : string) : bool := bool_decide (strip s = EmptyString).

Definition declaration_of (section : dict) : Res Failure Declaration :=
  match dict_get "remote_owner" section, dict_get "author_email" section,
        dict_get "visibility" section with
  | Some owner, Some raw_authors, Some raw_visibility =>
    match visibility_of (py_str raw_visibility) with
    | None => Raise PlumbingError
    | Some v =>
      let authors := authors_of raw_authors in
      if bool_decide (authors = []) || existsb blank authors then Raise PlumbingError
      else Ok {| remote_owner := py_str owner; author_emails := authors; visibility := v |}
    end
  | _, _, _ => Raise PlumbingError
  end.

(** The regular expression of both URL functions: after a colon or a slash, a
    run without either, a slash, and a name without slash, as short as what
    follows allows: an optional ".git" and an optional slash at the end. *)
Definition tail_ok (rest : list ascii) : bool :=
  bool_decide (rest ∈ map chars [""; ".git"; "/"; ".git/"]%string).
Fixpoint repo_here (name s : list ascii) : option (list ascii) :=
  match s with
  | [] => None
  | c :: s =>
    if bool_decide (c = "/"%char) then None
    else if tail_ok s then Some (name ++ [c]) else repo_here (name ++ [c]) s
  end.
Fixpoint owner_here (owner s : list ascii) : option (list ascii * list ascii) :=
  match s with
  | [] => None
  | c :: s =>
    if bool_decide (c = "/"%char) then
      if bool_decide (owner = []) then None else pair owner <$> repo_here [] s
    else if bool_decide (c = ":"%char) then None else owner_here (owner ++ [c]) s
  end.
Fixpoint remote_from (s : list ascii) : option (list ascii * list ascii) :=
  match s with
  | [] => None
  | c :: s =>
    if bool_decide (c = "/"%char ∨ c = ":"%char) then
      match owner_here [] s with Some found => Some found | None => remote_from s end
    else remote_from s
  end.
Definition parse_remote_owner (url : string) : option string :=
  (λ found, of_chars found.1) <$> remote_from (chars (strip url)).
Definition parse_remote_repo (url : string) : option string :=
  (λ found, of_chars found.2) <$> remote_from (chars (strip url)).

Example parse_remote_ex :
  map (λ u, (parse_remote_owner u, parse_remote_repo u))
    ["https://github.com/acme/ra.git"; "git@host:acme/ra.git/"; " ssh://git@host/acme/.git ";
     "host:8080"; "https://github.com/acme/ra/tree"]%string
  = [(Some "acme", Some "ra"); (Some "acme", Some "ra"); (Some "acme", Some ".git");
     (None, None); (Some "ra", Some "tree")]%string.
Proof. by vm_compute. Qed.

(** Why a push is refused. *)
Inductive Problem :=
  | UnknownRemote
  | OwnerMismatch (owner : string)
  | AuthorMismatch (unexpected : list string)
  | NotPrivate (actual : string).

Definition owner_problems (d : Declaration) (owner : option string) : list Problem :=
  match owner with
  | None => [UnknownRemote]
  | Some o => if bool_decide (lower o = lower (remote_owner d)) then [] else [OwnerMismatch o]
  end.
Definition author_problems (d : Declaration) (emails : list string) : list Problem :=
  let unexpected := filter (λ e, lower e ∉ map lower (author_emails d)) emails in
  if bool_decide (unexpected = []) then [] else [AuthorMismatch unexpected].

Lemma owner_problems_nil d owner :
  owner_problems d owner = [] ↔ ∃ o, owner = Some o ∧ lower o = lower (remote_owner d).
Proof. unfold owner_problems. destruct owner; [case_bool_decide|]; naive_solver. Qed.
Lemma author_problems_nil d emails :
  author_problems d emails = [] ↔
  ∀ e, e ∈ emails → ∃ a, a ∈ author_emails d ∧ lower e = lower a.
Proof.
  unfold author_problems. setoid_rewrite (and_comm (_ ∈ _)). setoid_rewrite <- list_elem_of_fmap.
  assert (filter (λ e, lower e ∉ map lower (author_emails d)) emails = [] ↔
          ∀ e, e ∈ emails → lower e ∈ lower <$> author_emails d) as <-.
  { rewrite filter_nil_iff. split; intros Hall e He; [by apply dec_stable, Hall|by intros Hn; apply Hn, Hall]. }
  by case_bool_decide.
Qed.
Section plumbing.
Context `{Git, Codecs, TomlLoads}.
(** The files of the repository; are git and gh there; and what "gh repo view"
    prints of a repository, as JSON, where it succeeds. *)
Context (files : FileSystem) (has_git has_gh : bool) (gh_view : string → option json).

(** [load_declaration] *)
Definition load_declaration (repo_root : string) : Res Failure (option Declaration) :=
  let path := (repo_root +:+ "/publication.toml")%string in
  if negb (is_file files path) then Ok None
  else match octets files path with
  | None => Raise PlumbingError
  | Some body =>
    match decode_utf8 body with
    | None => Raise Uncaught
    | Some text =>
      match toml_loads (as_text text) with
      | None => Raise PlumbingError
      | Some raw =>
        match dict_get "publication" raw with
        | Some (JObj section) => d ←? declaration_of section; Ok (Some d)
        | _ => Raise PlumbingError
        end
      end
    end
  end.

(** [git_output] *)
Definition git_output (args : list string) (repo_root : string) : Res Failure string :=
  if negb has_git then Raise PlumbingError
  else match git_text (["git"; "-C"; repo_root]%string ++ args) with
  | inr out => Ok (strip out)
  | inl UnicodeDecodeError => Raise Uncaught
  | inl _ => Raise PlumbingError
  end.

(** [author_emails_in_range] *)
Definition author_emails_in_range (repo_root : string) (rev_range : option string) :
    Res Failure (list string) :=
  let range := match rev_range with
               | Some r => if bool_decide (r = EmptyString) then ["-1"%string] else split_words r
               | None => ["-1"%string]
               end in
  out ←? git_output (["log"; "--format=%ae"]%string ++ range) repo_root;
  Ok (sorted_names (filter (λ l, l ≠ EmptyString) (map strip (splitlines out)))).

(** [remote_visibility] *)
Definition falsy (v : json) : bool :=
  bool_decide (v ∈ [JNull; JBool false; JNum 0; JFloat "0.0"; JFloat "-0.0"; JStr ""; JArr []; JObj []]%string).
Definition remote_visibility (owner repo : string) : Res Failure (option string) :=
  if negb has_gh then Ok None
  else match gh_view (owner +:+ "/" +:+ repo)%string with
  | None => Ok None
  | Some (JObj payload) =>
    match dict_get "visibility" payload with
    | Some v => Ok (if falsy v then None else Some (upper (py_str v)))
    | None => Ok None
    end
  | Some _ => Raise Uncaught
  end.

Definition visibility_problems (d : Declaration) (remote_url : string) : Res Failure (list Problem) :=
  match visibility d with
  | PUBLIC => Ok []
  | PRIVATE_UNTIL_REVIEW =>
    actual ←? (match parse_remote_owner remote_url, parse_remote_repo remote_url with
               | Some owner, Some repo => remote_visibility owner repo
               | _, _ => Ok None
               end);
    Ok (match actual with
        | None => []
        | Some a => if bool_decide (a = "PRIVATE"%string) then [] else [NotPrivate a]
        end)
  end.
(** [check] *)
Definition check (repo_root remote_url : string) (rev_range : option string) :
    Res Failure (list Problem) :=
  declaration ←? load_declaration repo_root;
  match declaration with
  | None => Ok []
  | Some d =>
    emails ←? author_emails_in_range repo_root rev_range;
    hidden ←? visibility_problems d remote_url;
    Ok (owner_problems d (parse_remote_owner remote_url) ++ author_problems d emails ++ hidden)
  end.
(** [main]: the root and the exit code; [cwd] is the current directory. *)
Definition toplevel (cwd : string) (root : option string) : Res Failure string :=
  match root with
  | Some r => if bool_decide (r = EmptyString)
              then git_output ["rev-parse"; "--show-toplevel"]%string cwd else Ok r
  | None => git_output ["rev-parse"; "--show-toplevel"]%string cwd
  end.
Definition main (cwd : string) (root : option string) (remote_url : string)
    (rev_range : option string) : Z :=
  let problems :=
    repo_root ←? toplevel cwd root;
    check repo_root remote_url rev_range in
  match problems with inr [] => 0 | _ => 1 end.

Lemma visibility_problems_nil d url :
  visibility_problems d url = Ok [] ↔
  (visibility d = PRIVATE_UNTIL_REVIEW →
   ∀ owner repo, parse_remote_owner url = Some owner → parse_remote_repo url = Some repo →
     remote_visibility owner repo ∈ [Ok None; Ok (Some "PRIVATE"%string)]).
Proof.
  unfold visibility_problems. destruct (visibility d); [|naive_solver].
  destruct (parse_remote_owner url) as [owner|], (parse_remote_repo url) as [repo|]; simpl;
    try (split; [intros _ _ ? ? [=]; done|done]); try (split; [intros _ _ ? ? _ [=]|done]).
  setoid_rewrite elem_of_cons. setoid_rewrite list_elem_of_singleton.
  destruct (remote_visibility owner repo) as [e|[a|]] eqn:Hv; simpl.
  - split; [done|]. intros Hall. specialize (Hall eq_refl owner repo eq_refl eq_refl).
    rewrite Hv in Hall. naive_solver.
  - case_bool_decide as Ha; split; try done.
    + intros _ _ o r [= <-] [= <-]. rewrite Hv, Ha. by right.
    + intros Hall. specialize (Hall eq_refl owner repo eq_refl eq_refl). rewrite Hv in Hall.
      naive_solver.
  - split; [|done]. intros _ _ o r [= <-] [= <-]. rewrite Hv. by left.
Qed.

(** A push passes exactly when the repository declares nothing, or the
    remote is the declared owner's, every commit of the range has a declared
    author, and a repository that is private until review is not seen to be
    anything but private. *)
Theorem push_passes_iff cwd root remote_url rev_range :
  main cwd root remote_url rev_range = 0 ↔
  ∃ repo_root, toplevel cwd root = Ok repo_root ∧
    (load_declaration repo_root = Ok None
     ∨ ∃ d emails, load_declaration repo_root = Ok (Some d)
         ∧ author_emails_in_range repo_root rev_range = Ok emails
         ∧ (∃ owner, parse_remote_owner remote_url = Some owner
                     ∧ lower owner = lower (remote_owner d))
         ∧ (∀ e, e ∈ emails → ∃ a, a ∈ author_emails d ∧ lower e = lower a)
         ∧ (visibility d = PRIVATE_UNTIL_REVIEW →
            ∀ owner repo, parse_remote_owner remote_url = Some owner →
              parse_remote_repo remote_url = Some repo →
              remote_visibility owner repo ∈ [Ok None; Ok (Some "PRIVATE"%string)])).
Proof.
  unfold main.
  assert (∀ r : Res Failure (list Problem), match r with inr [] => 0 | _ => 1 end = 0 ↔ r = Ok [])
    as -> by (by intros [|[]]).
  rewrite res_bind_ok. f_equiv. intros repo_root. f_equiv.
  unfold check. destruct (load_declaration repo_root) as [e|[d|]]; cbn [res_bind].
  - naive_solver.
  - rewrite res_bind_ok. setoid_rewrite res_bind_ok. split.
    + intros (emails & Hemails & hidden & Hhidden & [= Hnil]). right. exists d, emails.
      apply app_eq_nil in Hnil as [Ho [Ha ->]%app_eq_nil].
      rewrite <- owner_problems_nil, <- author_problems_nil, <- visibility_problems_nil. done.
    + intros [|(d' & emails & [= <-] & Hemails & Ho & Ha & Hv)]; [done|]. exists emails. split; [done|].
      exists []. rewrite visibility_problems_nil. split; [done|].
      rewrite <- owner_problems_nil in Ho. rewrite <- author_problems_nil in Ha. by rewrite Ho, Ha.
  - split; [by left|done].
Qed.
End plumbing.
End Plumbing.

(** ** The pinned digest of the library *)

Module LibDigest.
From S2P Require Import Identifiers.

Definition HELPER : string := "lib/InstallVerifyLib.ps1".
Definition ENTRY_POINTS : list string :=
  ["Revoke-Cert.ps1"; "Set-OfficerRights.ps1"; "Sync-Revocations.ps1";
   "Register-MaintenanceTasks.ps1"; "Reconcile-Revocation.ps1"].

(** [PIN_RE]: a test for each character. *)
Definition MARKER : list ascii := chars "$installVerifyExpectedSha256 = '".
Definition is_lower_hex (c : ascii) : bool := in_range 48 57 c || in_range 97 102 c.
Definition is_char (c x : ascii) : bool := bool_decide (x = c).
Definition PIN_RE : list (ascii → bool) :=
  map is_char MARKER ++ replicate 64 is_lower_hex ++ [is_char "'"].
Fixpoint matches_at (tests : list (ascii → bool)) (s : list ascii) : bool :=
  match tests, s with
  | [], _ => true
  | t :: tests, c :: s => t c && matches_at tests s
  | _ :: _, [] => false
  end.
(** [PIN_RE.search(text)]: the place of the match *)
Fixpoint find_pin (s : list ascii) : option nat :=
  if matches_at PIN_RE s then Some 0%nat
  else match s with [] => None | _ :: s => S <$> find_pin s end.
(** [match.group(2)], and [PIN_RE.sub] with [count=1] *)
Definition pin_of (i : nat) (s : list ascii) : list ascii := take 64 (drop (i + length MARKER) s).
Definition with_pin (i : nat) (expected s : list ascii) : list ascii :=
  take (i + length MARKER) s ++ expected ++ drop (i + length MARKER + 64) s.

Section digest.
(** The files of the scripts directory, and whether octets are UTF-8: reading
    others raises. *)
Context (valid_utf8 : list ascii → bool).

(** [canonical_digest] *)
Definition canonical_digest (raw : string) : option (list ascii) :=
  if valid_utf8 (chars raw)
  then Some (chars (hex (sha256 (map code (universal_newlines (chars raw)))))) else None.

Record Run := MkRun { files : gmap string string; stale : list string; missing : list string }.
(** One entry point; [None] is an exception. *)
Definition check_entry (write : bool) (expected : list ascii) (r : Run) (name : string) : option Run :=
  match files r !! name with
  | None => Some (MkRun (files r) (stale r) (missing r ++ [name]))
  | Some raw =>
    if negb (valid_utf8 (chars raw)) then None
    else match find_pin (chars raw) with
    | None => Some (MkRun (files r) (stale r) (missing r ++ [name]))
    | Some i =>
      if bool_decide (pin_of i (chars raw) = expected) then Some r
      else Some (MkRun (if write
                        then <[name := of_chars (with_pin i expected (chars raw))]> (files r)
                        else files r)
                   (stale r ++ [name]) (missing r))
    end
  end.
(** The loop: where it is cut short by an exception, with what was written. *)
Fixpoint check_entries (write : bool) (expected : list ascii) (names : list string) (r : Run) :
    bool * Run :=
  match names with
  | [] => (true, r)
  | name :: names =>
    match check_entry write expected r name with
    | Some r => check_entries write expected names r
    | None => (false, r)
    end
  end.
(** [main]: the exit code, and the files after it. *)
Definition main (write : bool) (fs : gmap string string) : Z * gmap string string :=
  match fs !! HELPER with
  | None => (2, fs)
  | Some helper =>
    match canonical_digest helper with
    | None => (1, fs)
    | Some expected =>
      match check_entries write expected ENTRY_POINTS (MkRun fs [] []) with
      | (false, r) => (1, files r)
      | (true, r) =>
        if negb (bool_decide (missing r = [])) then (2, files r)
        else if bool_decide (stale r = []) then (0, files r)
        else if write then (0, files r) else (1, files r)
      end
    end
  end.

(** The text around the pin, and a pin. *)
Definition pinned (pin raw : string) : Prop :=
  ∃ i, find_pin (chars raw) = Some i ∧ of_chars (pin_of i (chars raw)) = pin.
End digest.

(** *** Lemmas *)

Lemma matches_at_app tests a c s s' :
  Forall (λ t : ascii → bool, t c = false) tests →
  matches_at tests (a ++ c :: s) = matches_at tests (a ++ c :: s').
Proof.
  revert a. induction tests as [|t tests IH]; intros a Hall; [by destruct a|].
  apply Forall_cons in Hall as [Ht Hall]. destruct a as [|x a]; simpl; [by rewrite Ht|].
  by rewrite (IH a).
Qed.
(** The dollar sign starts the pattern and occurs nowhere else in it. *)
Lemma pin_tail_dollar : Forall (λ t : ascii → bool, t "$"%char = false) (tail PIN_RE).
Proof. by apply (bool_decide_unpack _). Qed.
Lemma matches_at_before x a s s' :
  matches_at PIN_RE (x :: a ++ "$"%char :: s) = matches_at PIN_RE (x :: a ++ "$"%char :: s').
Proof.
  change PIN_RE with (is_char "$"%char :: tail PIN_RE). cbn [matches_at].
  f_equal. apply matches_at_app, pin_tail_dollar.
Qed.
Lemma matches_at_length tests s : matches_at tests s = true → (length tests ≤ length s)%nat.
Proof.
  revert s. induction tests as [|t tests IH]; intros [|c s]; simpl; [lia|lia|done|].
  intros [_ Hm]%andb_true_iff. specialize (IH s Hm). lia.
Qed.
Lemma matches_at_split t1 t2 s :
  matches_at (t1 ++ t2) s = matches_at t1 (take (length t1) s) && matches_at t2 (drop (length t1) s).
Proof.
  revert s. induction t1 as [|t t1 IH]; intros [|c s]; simpl; try done.
  by rewrite IH, andb_assoc.
Qed.
Lemma matches_marker s : matches_at (map is_char MARKER) s = true → take (length MARKER) s = MARKER.
Proof.
  generalize MARKER. intros m. revert s. induction m as [|c m IH]; intros [|x s]; simpl; try done.
  unfold is_char at 1. intros [->%bool_decide_eq_true Hm]%andb_true_iff. by rewrite IH.
Qed.
Lemma matches_hex n s :
  matches_at (replicate n is_lower_hex) s = true ↔
  (n ≤ length s)%nat ∧ Forall (λ c, is_lower_hex c = true) (take n s).
Proof.
  revert s. induction n as [|n IH]; intros [|c s]; simpl.
  1,2: split; [split; [lia|done]|done]. 1: split; [done|lia].
  rewrite andb_true_iff, IH, Forall_cons. split; [intros (? & ? & ?)|intros (? & ? & ?)];
    (split_and!; [try lia; done|try lia; done|done]).
Qed.

Definition is_pin (pin : list ascii) : Prop :=
  length pin = 64%nat ∧ Forall (λ c, is_lower_hex c = true) pin.

Lemma pin_re_iff s :
  matches_at PIN_RE s = true ↔
  ∃ pin rest, s = MARKER ++ pin ++ "'"%char :: rest ∧ is_pin pin.
Proof.
  unfold PIN_RE. rewrite !matches_at_split, !andb_true_iff, length_map, length_replicate. split.
  - intros (Hm & Hh & Hq). apply matches_marker in Hm. rewrite take_take, Nat.min_id in Hm.
    apply matches_hex in Hh as [Hlen Hh]. rewrite length_take in Hlen.
    rewrite take_take, Nat.min_id in Hh.
    destruct (drop 64 (drop (length MARKER) s)) as [|c rest] eqn:Hd; [done|].
    simpl in Hq. rewrite andb_true_r in Hq. apply bool_decide_eq_true in Hq as ->.
    exists (take 64 (drop (length MARKER) s)), rest. split.
    + rewrite <- Hd, take_drop. rewrite <- Hm at 1. by rewrite take_drop.
    + split; [rewrite length_take; lia|done].
  - intros (pin & rest & -> & Hlen & Hhex).
    rewrite take_app_length, drop_app_length, <- Hlen, take_app_length, drop_app_length, Hlen.
    split_and!; [by vm_compute| |done].
    apply matches_hex. rewrite take_ge by lia. split; [lia|done].
Qed.
Lemma find_pin_split s i :
  find_pin s = Some i →
  ∃ a pin rest, s = a ++ MARKER ++ pin ++ "'"%char :: rest ∧ length a = i ∧ is_pin pin.
Proof.
  revert i. induction s as [|c s IH]; intros i; cbn [find_pin].
  - destruct (matches_at PIN_RE []) eqn:Hm; [|done]. by vm_compute in Hm.
  - destruct (matches_at PIN_RE (c :: s)) eqn:Hm.
    + intros [= <-]. apply pin_re_iff in Hm as (pin & rest & Hs & Hpin). by exists [], pin, rest.
    + intros (j & (a & pin & rest & -> & <- & Hpin)%IH & ->)%fmap_Some_1.
      by exists (c :: a), pin, rest.
Qed.
Lemma find_pin_before a s s' :
  matches_at PIN_RE ("$"%char :: s') = true →
  find_pin (a ++ "$"%char :: s) = Some (length a) →
  find_pin (a ++ "$"%char :: s') = Some (length a).
Proof.
  intros Hs'. induction a as [|x a IH]; cbn [app find_pin length].
  - intros _. by rewrite Hs'.
  - rewrite (matches_at_before x a s s').
    destruct (matches_at PIN_RE (x :: a ++ "$"%char :: s')); [by intros [=]|].
    intros (j & Hj & Hlen)%fmap_Some_1. injection Hlen as <-. by rewrite IH.
Qed.
(** The pin in its text, before and after it is written. *)
Lemma with_pin_spec raw i expected :
  find_pin raw = Some i → is_pin expected →
  ∃ a pin rest, raw = a ++ MARKER ++ pin ++ rest ∧ is_pin pin ∧ pin_of i raw = pin
    ∧ with_pin i expected raw = a ++ MARKER ++ expected ++ rest
    ∧ find_pin (with_pin i expected raw) = Some i
    ∧ pin_of i (with_pin i expected raw) = expected.
Proof.
  intros Hfind Hexp. pose proof Hfind as (a & pin & rest & -> & <- & Hpin)%find_pin_split.
  assert (∀ p, is_pin p → pin_of (length a) (a ++ MARKER ++ p ++ "'"%char :: rest) = p) as Hpin_of.
  { intros p [Hlen _]. unfold pin_of. rewrite app_assoc, <- length_app, drop_app_length.
    rewrite <- Hlen. apply take_app_length. }
  assert (with_pin (length a) expected (a ++ MARKER ++ pin ++ "'"%char :: rest)
          = a ++ MARKER ++ expected ++ "'"%char :: rest) as Hwith.
  { unfold with_pin. rewrite (app_assoc a MARKER), <- length_app, take_app_length.
    replace (length (a ++ MARKER) + 64)%nat with (length ((a ++ MARKER) ++ pin))
      by (rewrite length_app; destruct Hpin as [-> _]; done).
    rewrite (app_assoc _ pin), drop_app_length. by rewrite <- app_assoc. }
  exists a, pin, ("'"%char :: rest). rewrite Hwith. split_and!; [done..|by apply Hpin_of|done| |by apply Hpin_of].
  change (MARKER ++ expected ++ "'"%char :: rest)
    with ("$"%char :: tail MARKER ++ expected ++ "'"%char :: rest).
  eapply find_pin_before; [|exact Hfind]. apply pin_re_iff. by exists expected, rest.
Qed.
Lemma hex_digit_lower z : 0 ≤ z < 16 → is_lower_hex (hex_digit z) = true.
Proof.
  intros Hz. assert (z ∈ map Z.of_nat (seq 0 16)) as Hin.
  { apply list_elem_of_fmap. exists (Z.to_nat z). split; [lia|]. apply elem_of_seq. lia. }
  assert (Forall (λ z, is_lower_hex (hex_digit z) = true) (map Z.of_nat (seq 0 16))) as Hall
    by by apply (bool_decide_unpack _).
  by eapply Forall_forall in Hall.
Qed.
Lemma hex_is_lower bs :
  Forall (λ b, 0 ≤ b < 256) bs →
  length (chars (hex bs)) = (2 * length bs)%nat ∧ Forall (λ c, is_lower_hex c = true) (chars (hex bs)).
Proof.
  unfold hex. rewrite chars_of_chars. induction 1 as [|b bs Hb _ [Hlen Hall]]; [done|]. cbn. split.
  - rewrite Hlen. lia.
  - repeat constructor; [..|done]; apply hex_digit_lower.
    + rewrite Z.shiftr_div_pow2 by lia. split; [apply Z.div_pos; lia|apply Z.div_lt_upper_bound; lia].
    + change 15 with (Z.ones 4). rewrite Z.land_ones by lia. apply Z.mod_pos_bound. lia.
Qed.
Lemma sha256_is_pin msg : is_pin (chars (hex (sha256 msg))).
Proof.
  destruct (hex_is_lower (sha256 msg)) as [Hlen Hall].
  - unfold sha256. generalize (fold_left compress (chunks (S (length msg)) 64 (pad msg)) initial_hash).
    intros words. apply Forall_forall. intros b (w & Hb & _)%list_elem_of_bind.
    assert (∀ n, Forall (λ b, 0 ≤ b < 256) (be_bytes n w)) as Hbytes.
    { intros n. induction n as [|n IH]; simpl; constructor; [|done].
      change 255 with (Z.ones 8). rewrite Z.land_ones by lia. apply Z.mod_pos_bound. lia. }
    specialize (Hbytes 4%nat). rewrite Forall_forall in Hbytes. by apply Hbytes.
  - split; [|done]. by rewrite Hlen, length_sha256.
Qed.

(** *** Writing, then checking *)

Section digest.
Context (valid_utf8 : list ascii → bool).
(** An ASCII stretch may be exchanged for another without making octets
    ill-formed. *)
Definition is_ascii (c : ascii) : Prop := code c < 128.
Definition ascii_exchange : Prop :=
  ∀ a b c d, Forall is_ascii b → Forall is_ascii c → valid_utf8 (a ++ b ++ d) = valid_utf8 (a ++ c ++ d).
Lemma pin_ascii pin : is_pin pin → Forall is_ascii pin.
Proof.
  intros [_ Hhex]. eapply Forall_impl; [done|]. unfold is_ascii.
  refine (ascii_forall (λ c, _) _). by vm_compute.
Qed.

(** [raw'] is [raw] with another pin, which is [expected]. *)
Definition repinned (expected : list ascii) (raw raw' : string) : Prop :=
  ∃ a pin rest, chars raw = a ++ MARKER ++ pin ++ rest
    ∧ chars raw' = a ++ MARKER ++ expected ++ rest ∧ length pin = length expected.
Definition settled (expected : list ascii) (fs : gmap string string) (name : string) : Prop :=
  ∃ raw i, fs !! name = Some raw ∧ valid_utf8 (chars raw) = true
    ∧ find_pin (chars raw) = Some i ∧ pin_of i (chars raw) = expected.

Lemma check_entries_app_missing write expected names r r' :
  check_entries valid_utf8 write expected names r = (true, r') → missing r' = [] → missing r = [].
Proof.
  revert r. induction names as [|name names IH]; intros r; simpl; [by intros [= ->]|].
  destruct (check_entry valid_utf8 write expected r name) as [r1|] eqn:Hr1; [|done].
  intros Hrun Hnone. specialize (IH r1 Hrun Hnone). unfold check_entry in Hr1.
  repeat case_match; simplify_eq/=; try done; by apply app_eq_nil in IH as [_ [=]].
Qed.
Lemma check_entries_write expected names r r' :
  ascii_exchange → is_pin expected → NoDup names →
  check_entries valid_utf8 true expected names r = (true, r') → missing r' = [] →
  (∀ name, name ∉ names → files r' !! name = files r !! name)
  ∧ ∀ name, name ∈ names →
      settled expected (files r') name
      ∧ ∃ raw raw', files r !! name = Some raw ∧ files r' !! name = Some raw'
          ∧ repinned expected raw raw'.
Proof.
  intros Hutf8 Hexp. revert r. induction names as [|name names IH]; intros r Hnd; simpl.
  { intros [= ->] _. split; [done|]. by intros ? ?%elem_of_nil. }
  apply NoDup_cons in Hnd as [Hname Hnd].
  destruct (check_entry valid_utf8 true expected r name) as [r1|] eqn:Hr1; [|done].
  intros Hrun Hnone. destruct (IH r1 Hnd Hrun Hnone) as [Hout Hin].
  apply check_entries_app_missing in Hrun; [|done].
  assert ((∀ name', name' ≠ name → files r1 !! name' = files r !! name')
          ∧ settled expected (files r1) name
          ∧ ∃ raw raw', files r !! name = Some raw ∧ files r1 !! name = Some raw'
              ∧ repinned expected raw raw') as (Hother & Hset & Hre).
  { unfold check_entry in Hr1. destruct (files r !! name) as [raw|] eqn:Hraw.
    2: { injection Hr1 as <-. by apply app_eq_nil in Hrun as [_ [=]]. }
    destruct (valid_utf8 (chars raw)) eqn:Hvalid; [|done]. simpl in Hr1.
    destruct (find_pin (chars raw)) as [i|] eqn:Hfind.
    2: { injection Hr1 as <-. by apply app_eq_nil in Hrun as [_ [=]]. }
    destruct (with_pin_spec (chars raw) i expected Hfind Hexp)
      as (a & pin & rest & Heq & Hpin & Hof & Hwith & Hfind' & Hof').
    case_bool_decide as Hcur; injection Hr1 as <-; simpl.
    - split; [done|]. split; [by exists raw, i|]. exists raw, raw. split_and!; [done..|].
      exists a, expected, rest. assert (pin = expected) as -> by congruence. done.
    - split; [by intros; apply lookup_insert_ne|]. split.
      + exists (of_chars (with_pin i expected (chars raw))), i.
        simpl. rewrite lookup_insert_eq, chars_of_chars. split_and!; [done| |done|done].
        rewrite Hwith, app_assoc. rewrite Heq, app_assoc in Hvalid. rewrite <- Hvalid.
        apply Hutf8; by apply pin_ascii.
      + exists raw, (of_chars (with_pin i expected (chars raw))). rewrite lookup_insert_eq.
        split_and!; [done..|]. exists a, pin, rest. rewrite chars_of_chars.
        split_and!; [done..|]. destruct Hpin as [-> _], Hexp as [-> _]. done. }
  split.
  - intros name' [Hne Hno]%not_elem_of_cons. by rewrite Hout, Hother.
  - intros name' [->|Hname']%elem_of_cons.
    + unfold settled. rewrite Hout by done. done.
    + destruct (Hin name' Hname') as (Hset' & raw & raw' & Hraw & Hraw' & Hrp).
      split; [done|]. exists raw, raw'. rewrite <- Hother by (intros ->; done). done.
Qed.
Lemma check_entries_settled write expected names fs :
  (∀ name, name ∈ names → settled expected fs name) →
  check_entries valid_utf8 write expected names (MkRun fs [] []) = (true, MkRun fs [] []).
Proof.
  induction names as [|name names IH]; intros Hall; [done|]. simpl.
  destruct (Hall name) as (raw & i & Hraw & Hvalid & Hfind & Hpin); [by left|].
  unfold check_entry. simpl. rewrite Hraw, Hvalid, Hfind. simpl.
  rewrite bool_decide_eq_true_2 by done. apply IH. intros. apply Hall. by right.
Qed.

(** When rewriting the pins succeeds, every entry point holds the digest of
    the library, nothing of any file has changed but the digits of stale pins,
    and checking finds nothing to do. *)
Theorem write_settles fs fs' (Hutf8 : ascii_exchange) (Hrun : main valid_utf8 true fs = (0, fs')) :
  main valid_utf8 false fs' = (0, fs')
  ∧ (∀ name, name ∉ ENTRY_POINTS → fs' !! name = fs !! name)
  ∧ ∃ helper expected, fs !! HELPER = Some helper
      ∧ canonical_digest valid_utf8 helper = Some expected
      ∧ ∀ name, name ∈ ENTRY_POINTS →
          ∃ raw raw', fs !! name = Some raw ∧ fs' !! name = Some raw' ∧ repinned expected raw raw'.
Proof.
  unfold main in Hrun. destruct (fs !! HELPER) as [helper|] eqn:Hhelper; [|done].
  destruct (canonical_digest valid_utf8 helper) as [expected|] eqn:Hdigest; [|done].
  destruct (check_entries valid_utf8 true expected ENTRY_POINTS (MkRun fs [] [])) as [ok r] eqn:Hcheck.
  destruct ok; [|done]. case_bool_decide as Hnone; [|done]. simpl in Hrun.
  assert (files r = fs') as <- by (case_bool_decide; congruence).
  assert (is_pin expected) as Hexp.
  { unfold canonical_digest in Hdigest. destruct (valid_utf8 _); [|done]. injection Hdigest as <-.
    apply sha256_is_pin. }
  apply check_entries_write in Hcheck as [Hout Hin]; [|done..|by apply (bool_decide_unpack _)|done].
  simpl in Hout, Hin. split; [|split; [done|]].
  - unfold main. rewrite Hout by (by apply (bool_decide_unpack _)). rewrite Hhelper, Hdigest.
    rewrite check_entries_settled by (intros; by apply Hin). done.
  - exists helper, expected. split_and!; [done..|]. intros name Hname. by apply Hin.
Qed.
End digest.

(** *** A library and five stale pins *)

Definition stale_entry : string :=
  ("a" +:+ String LF "$installVerifyExpectedSha256 = '" +:+ of_chars (replicate 64 "0"%char) +:+ "' b")%string.
Definition demo_files : gmap string string :=
  <[HELPER := "function"%string]> (list_to_map (map (λ n, (n, stale_entry)) ENTRY_POINTS)).
Definition always_valid (s : list ascii) : bool := true.
Lemma write_settles_witness :
  ascii_exchange always_valid
  ∧ ∃ fs', main always_valid true demo_files = (0, fs')
      ∧ main always_valid false demo_files = (1, demo_files)
      ∧ main always_valid false fs' = (0, fs').
Proof.
  split; [done|].
  assert (main always_valid true demo_files = (0, (main always_valid true demo_files).2)) as Hrun
    by by apply (bool_decide_unpack _); vm_compute.
  exists (main always_valid true demo_files).2. split; [exact Hrun|].
  split; [by apply (bool_decide_unpack _); vm_compute|].
  exact (proj1 (write_settles always_valid demo_files (main always_valid true demo_files).2
                  (λ _ _ _ _ _ _, eq_refl) Hrun)).
Defined.
End LibDigest.

(** ** Credentials *)

Module Eab.
Definition new_mac_key (random : list Z) : string := base64url_encode random.
Definition PLACEHOLDER_DNS_PATTERNS : string := json_dumps (JArr [JStr "*.WORK-DOMAIN.local"]).
Definition LF : string := String (ascii_of_nat 10) EmptyString.
(** [_WARNING_BANNER] *)
Definition WARNING_BANNER : string :=
  ("# !!! TREAT LIKE A PASSWORD -- never commit, never paste into chat/tickets. !!!" +:+ LF
   +:+ "# !!! ACL the env file to the gMSA + Administrators only.                  !!!")%string.
(** [_format_env_block] *)
Definition format_env_block (kid mac_key : string) : string :=
  (WARNING_BANNER +:+ LF +:+ "ACME_RA_EAB_ALLOWLIST="
   +:+ json_dumps (JArr [JObj [("kid", JStr kid); ("mac_key", JStr mac_key)]]) +:+ LF
   +:+ "ACME_RA_SAN_SCOPES__" +:+ kid +:+ "__DNS_PATTERNS=" +:+ PLACEHOLDER_DNS_PATTERNS +:+ LF)%string.
(** [_new_kid] and [_new_mac_key], as an entry of the allow list; the
    hexadecimal digits of the uuid are an argument. *)
Definition mint (uuid_hex : string) (random : list Z) : EABEntry :=
  {| kid := uuid_hex; mac_key := new_mac_key random |}.

(** [_ROTATE_CHECKLIST], with the old kid in it *)
Definition rotate_checklist (old_kid : string) : list string :=
  ["# Rotation checklist (retiring kid " +:+ old_kid +:+ "):";
   "#   1. Mint the new credential above and merge it into ACME_RA_EAB_ALLOWLIST";
   "#      in acme-ra.env as a JSON array (do not remove the old kid until the";
   "#      cutover is complete -- both must be valid during the cutover).";
   "#   2. Add ACME_RA_SAN_SCOPES__<NEW_KID>__DNS_PATTERNS for the new account";
   "#      (replace the placeholder).";
   "#   3. Restart the RA app pool so the new env vars take effect.";
   "#   4. Re-issue the ACME client's EAB credential (kid + MAC key) and point";
   "#      the client (Certify the Web) at the new kid.";
   "#   5. Confirm the new account can create an account + issue a test cert.";
   "#   6. Once the old account is no longer used, remove the old kid's entry from";
   "#      ACME_RA_EAB_ALLOWLIST and its SAN scope from acme-ra.env, restart the";
   "#      RA, and confirm the old account can no longer create new orders";
   "#      (existing orders/certs remain valid).";
   "#   7. Keep the old kid's audit trail (account-created, certificate-issued)";
   "#      for the standard audit retention period."]%string.
Definition print_credential (e : EABEntry) : string := format_env_block (kid e) (mac_key e).
Definition print_rotation (old_kid : string) (e : EABEntry) : string :=
  (print_credential e +:+ String.concat EmptyString (map (λ l, l +:+ LF) (rotate_checklist old_kid)))%string.

(** *** The audit *)

(** [_last_used]: the rows of the store, [None] where it is not there or cannot
    be read.  [MAX] over no row is NULL. *)
Definition max_of (ts : list Z) : option Z :=
  match ts with [] => None | t :: ts => Some (fold_left Z.max ts t) end.
Definition last_used (rows : option (list Account.t * list Order.t)) (kid : string) : option Z :=
  match rows with
  | None => None
  | Some (accounts, orders) =>
    let mine := filter (λ a, Account.eab_kid a = kid) accounts in
    let acct_ts := max_of (map Account.created_at mine) in
    let order_ts :=
      max_of (mjoin (map (λ o, map (λ _, Order.created_at o)
                                 (filter (λ a, Account.id a = Order.account_id o) mine)) orders)) in
    max_of (omap id [acct_ts; order_ts])
  end.

Record AuditRow := { kid_disp : string; scope_disp : string; last_disp : string; flags : string }.
(** [config.san_scopes.get(kid)]: a later entry of the mapping replaces an
    earlier one. *)
Definition patterns_of (c : RAConfig) (k : string) : list string :=
  match filter (λ scope, scope.1 = k) (reverse (san_scopes c)) with
  | scope :: _ => scope.2
  | [] => []
  end.
Definition has_wildcard (patterns : list string) : bool := existsb (λ p, startswith p "*.") patterns.
Definition audit_row (c : RAConfig) (rows : option (list Account.t * list Order.t)) (k : string) : AuditRow :=
  let patterns := patterns_of c k in
  {| kid_disp := if (8 <? slen k)%Z then of_chars (take 8 (chars k)) +:+ "..." else k;
     scope_disp := match patterns with [] => "(no scope -- fail-closed)" | _ => comma_join patterns end;
     last_disp := match last_used rows k with Some t => iso t | None => "never" end;
     flags := match patterns with
              | [] => "NO SCOPE"
              | _ => if has_wildcard patterns then "WILDCARD" else ""
              end |}%string.

(** The entries by kid; the sort of Python is stable. *)
Definition kid_le (e f : EABEntry) : Prop := String.le (kid e) (kid f).
#[local] Instance kid_le_dec : RelDecision kid_le := λ e f, decide (String.le (kid e) (kid f)).
Definition sorted_kids (entries : list EABEntry) : list string := map kid (merge_sort kid_le entries).

(** [fmt.format(...)]: columns padded to the widest cell. *)
Definition cells (r : AuditRow) : list string := [kid_disp r; scope_disp r; last_disp r; flags r].
Definition headers : list string := ["KID"; "SAN SCOPE PATTERNS"; "LAST USED"; "FLAGS"].
Definition widths (table : list (list string)) : list nat :=
  map (λ i, fold_left Nat.max (map (λ row, String.length (nth i row EmptyString)) table)
              (String.length (nth i headers EmptyString))) (seq 0 4).
Definition fill (w : nat) (c : ascii) (s : string) : string :=
  (s +:+ of_chars (replicate (w - String.length s) c))%string.
Definition format_row (ws : list nat) (row : list string) : string :=
  (String.concat "  " (zip_with (λ w s, fill w " " s) ws row) +:+ LF)%string.
Definition count {A} (p : A → bool) (l : list A) : string := pretty (Z.of_nat (length (filter (λ x, p x = true) l))).
(** [_print_audit] *)
Definition print_audit (c : RAConfig) (rows : option (list Account.t * list Order.t)) : string :=
  match eab_allowlist c with
  | [] => "No EAB credentials configured (ACME_RA_EAB_ALLOWLIST is empty)." +:+ LF
  | _ =>
    let kids := sorted_kids (eab_allowlist c) in
    let table := map (cells ∘ audit_row c rows) kids in
    let ws := widths table in
    let scoped k := negb (bool_decide (patterns_of c k = [])) in
    "EAB scope audit -- kid -> SAN scope -> last-used (no MAC keys shown)" +:+ LF +:+ LF
    +:+ format_row ws headers
    +:+ String.concat "  " (map (λ w, fill w "-" EmptyString) ws) +:+ LF
    +:+ String.concat EmptyString (map (format_row ws) table) +:+ LF
    +:+ pretty (Z.of_nat (length kids)) +:+ " kid(s): "
    +:+ count (λ k, scoped k && has_wildcard (patterns_of c k)) kids +:+ " wildcard, "
    +:+ count (λ k, negb (scoped k)) kids +:+ " no-scope, "
    +:+ count (λ k, bool_decide (last_used rows k = None)) kids +:+ " never-used." +:+ LF
  end%string.

(** [main]: what is printed; the settings and the rows of the store are those
    the audit would read. *)
Definition main (rotate : option string) (audit : bool) (e : EABEntry) (c : RAConfig)
    (rows : option (list Account.t * list Order.t)) : string :=
  match rotate with
  | Some old_kid =>
    if bool_decide (old_kid = EmptyString)
    then if audit then print_audit c rows else print_credential e
    else print_rotation old_kid e
  | None => if audit then print_audit c rows else print_credential e
  end.

(** A minted credential passes the check the server makes of its allow list:
    a key of thirty-two octets behind base64url, and a kid without surrounding
    white space. *)
Theorem minted_is_strong uuid_hex random
    (Huuid : length (chars uuid_hex) = 32%nat ∧ Forall (λ c, LibDigest.is_lower_hex c = true) (chars uuid_hex))
    (Hrandom : length random = 32%nat ∧ Forall is_byte random) :
  strong_entry (mint uuid_hex random)
  ∧ base64url_decode (mac_key (mint uuid_hex random)) = Ok random.
Proof.
  destruct Huuid as [Hlen Hhex], Hrandom as [Hlen' Hbytes].
  assert (base64url_decode (mac_key (mint uuid_hex random)) = Ok random) as Hdecode
    by by apply base64url_decode_encode.
  split; [|done]. split_and!.
  - simpl. rewrite <- (of_chars_chars uuid_hex). apply strip_plain.
    eapply Forall_impl; [done|]. refine (ascii_forall (λ c, _) _). by vm_compute.
  - simpl. intros ->. done.
  - exists random. split; [done|]. rewrite Hlen'. done.
Qed.

Global Instance kid_le_total : Total kid_le.
Proof. intros e f. apply (total String.le). Qed.
Lemma sorted_kids_ext es es' : map kid es = map kid es' → sorted_kids es = sorted_kids es'.
Proof.
  intros Heq. unfold sorted_kids.
  assert (∀ l, Sorted String.le (map kid (merge_sort kid_le l))) as Hsorted.
  { intros l. apply (Sorted_fmap kid kid_le); [by intros ???|]. apply (Sorted_merge_sort _). }
  apply (Sorted_unique String.le); [apply Hsorted..|].
  by rewrite (merge_sort_Permutation kid_le es), (merge_sort_Permutation kid_le es'), Heq.
Qed.
(** The audit shows nothing of the MAC keys: two configurations that differ
    in them alone print the same. *)
Theorem audit_hides_keys c c' rows
    (Hkids : map kid (eab_allowlist c) = map kid (eab_allowlist c'))
    (Hscopes : san_scopes c = san_scopes c') :
  print_audit c rows = print_audit c' rows.
Proof.
  unfold print_audit, audit_row, patterns_of. rewrite Hscopes, (sorted_kids_ext _ _ Hkids).
  destruct (eab_allowlist c), (eab_allowlist c'); done.
Qed.
End Eab.

(** ** Sampling a published CRL *)

Module Sampler.

(** What a request meets: an exception, or an answer whose body may break off. *)
Inductive Answer :=
  | RequestFails (error : string)
  | Responds (status : Z) (content_type : option string) (chunks : list (list ascii))
      (breaks_off : option string).

(** The metadata of a fetch. *)
Record Meta := {
  http_status : option Z;
  content_type : option string;
  fetch_error : option string;
  body_bytes : option Z;
}.
(** The loop over the chunks. *)
Fixpoint read_chunks (max_bytes : Z) (body : list ascii) (chunks : list (list ascii)) :
    list ascii * bool :=
  match chunks with
  | [] => (body, true)
  | chunk :: chunks =>
    let body := body ++ chunk in
    if max_bytes <? Z.of_nat (length body) then (body, false) else read_chunks max_bytes body chunks
  end.
(** [_fetch] *)
Definition fetch (max_bytes : Z) (a : Answer) : option (list ascii) * Meta :=
  match a with
  | RequestFails e =>
    (None, {| http_status := None; content_type := None; fetch_error := Some e; body_bytes := None |})
  | Responds status ctype chunks breaks_off =>
    let meta e n := {| http_status := Some status; content_type := ctype; fetch_error := e;
                       body_bytes := n |} in
    if negb (status =? 200) then (None, meta (Some ("HTTP " +:+ pretty status)%string) None)
    else match read_chunks max_bytes [] chunks, breaks_off with
    | (body, false), _ =>
      (None, meta (Some ("body exceeded " +:+ pretty max_bytes +:+ " bytes")%string)
               (Some (Z.of_nat (length body))))
    | _, Some e => (None, meta (Some e) None)
    | (body, true), None => (Some body, meta None (Some (Z.of_nat (length body))))
    end
  end.

(** The cryptography package: a CRL with its instants in microseconds; reading
    its extensions may raise. *)
Record Crl := {
  crl_issuer : string;
  last_update : Z;
  next_update : option Z;
  crl_extensions : Exn + (option Z * bool);       (* CRL Number, delta indicator *)
  crl_entries : Z;
}.
Class CrlLoader := {
  load_der : list ascii → option Crl;
  load_pem : list ascii → option Crl;
}.
(** [_parse] *)
Definition parse `{CrlLoader} (body : list ascii) : option Crl :=
  match load_der body with Some crl => Some crl | None => load_pem body end.

(** A row of the log. *)
Record Row := {
  fetched_at : Z;
  source_url : string;
  ok : bool;
  meta : Meta;
  row_error : option string;
  sha256_hex : option string;
  issuer : option string;
  this_update : option Z;
  row_next_update : option Z;
  observed_age_seconds : option Z;
  remaining_seconds : option Z;
  window_seconds : option Z;
  crl_number : option Z;
  is_delta : option bool;
  entry_count : option Z;
}.
(** [int(td.total_seconds())], of microseconds *)
Definition whole_seconds (us : Z) : Z := Z.quot us 1000000.

(** [sample] *)
Definition failed_row (started : Z) (url : string) (m : Meta) (error digest : option string) : Row :=
  {| fetched_at := started; source_url := url; ok := false; meta := m; row_error := error;
     sha256_hex := digest; issuer := None; this_update := None; row_next_update := None;
     observed_age_seconds := None; remaining_seconds := None; window_seconds := None;
     crl_number := None; is_delta := None; entry_count := None |}.
Definition sample `{CrlLoader} (started : Z) (url : string) (max_bytes : Z) (a : Answer) : Res Exn Row :=
  match fetch max_bytes a with
  | (None, m) => Ok (failed_row started url m (fetch_error m) None)
  | (Some body, m) =>
    let digest := Some (hex (sha256 (map code body))) in
    match parse body with
    | None => Ok (failed_row started url m (Some "body is neither valid DER nor PEM CRL"%string) digest)
    | Some crl =>
      extensions ←? crl_extensions crl;
      Ok {| fetched_at := started; source_url := url; ok := true; meta := m; row_error := None;
            sha256_hex := digest; issuer := Some (crl_issuer crl);
            this_update := Some (last_update crl); row_next_update := next_update crl;
            observed_age_seconds := Some (whole_seconds (started - last_update crl));
            remaining_seconds := (λ n, whole_seconds (n - started)) <$> next_update crl;
            window_seconds := (λ n, whole_seconds (n - last_update crl)) <$> next_update crl;
            crl_number := extensions.1; is_delta := Some extensions.2;
            entry_count := Some (crl_entries crl) |}
    end
  end.

(** *** The summary *)

(** [math.ceil] of a float that is not negative *)
Definition ceil_of_float (x : spec_float) : Z :=
  match x with
  | S754_finite false m e => if 0 <=? e then Z.pos m * 2 ^ e else - (- Z.pos m / 2 ^ (- e))
  | _ => 0
  end.
#[local] Instance Z_le_decision : RelDecision Z.le := Z_le_dec.
Definition sorted_values (values : list Z) : list Z := merge_sort Z.le values.
Definition rank_of (n : Z) (fraction : spec_float) : Z :=
  Z.max 1 (Z.min n (ceil_of_float (fmul fraction (float_of_int n)))).
(** [_percentile] *)
Definition percentile (values : list Z) (fraction : spec_float) : Res Exn Z :=
  match values with
  | [] => Raise ValueError
  | _ =>
    let ordered := sorted_values values in
    match ordered !! Z.to_nat (rank_of (Z.of_nat (length ordered)) fraction - 1) with
    | Some v => Ok v
    | None => Raise (OtherException "IndexError")
    end
  end.
Definition half : spec_float := fdiv (float_of_int 1) (float_of_int 2).
Definition p95 : spec_float := fdiv (float_of_int 95) (float_of_int 100).

(** The loop that looks for regressions: when, the watermark, what was served. *)
Fixpoint regressions_from (highest : option Z) (numbered : list (Z * Z)) : list (Z * Z * Z) :=
  match numbered with
  | [] => []
  | (when_, value) :: numbered =>
    let rest := regressions_from (Some (match highest with
                                        | Some h => Z.max h value
                                        | None => value
                                        end)) numbered in
    match highest with
    | Some h => if value <? h then (when_, h, value) :: rest else rest
    | None => rest
    end
  end.
Definition numbered (rows : list Row) : list (Z * Z) :=
  omap (λ r, pair (fetched_at r) <$> crl_number r) (filter (λ r, ok r = true) rows).
Definition regressions (rows : list Row) : list (Z * Z * Z) := regressions_from None (numbered rows).

Record Summary := {
  good : nat;
  bad : nat;
  ages : option (Z * Z * Z * Z);                   (* min, median, p95, max *)
  windows : list Z;
  regressed : list (Z * Z * Z);
  overlap : option bool;                          (* may a ceiling be a replay control *)
}.
Definition fold1 (f : Z → Z → Z) (l : list Z) : option Z :=
  match l with [] => None | x :: l => Some (fold_left f l x) end.
Definition age_stats (values : list Z) : option (Z * Z * Z * Z) :=
  match fold1 Z.min values, percentile values half, percentile values p95, fold1 Z.max values with
  | Some lo, inr med, inr high, Some hi => Some (lo, med, high, hi)
  | _, _, _, _ => None
  end.
(** [summarize]: the exit code, and what is printed of good samples; [None] is a
    log that is not there. *)
Definition summarize (log : option (list Row)) : Z * option Summary :=
  match log with
  | None | Some [] => (1, None)
  | Some rows =>
    let fine := filter (λ r, ok r = true) rows in
    match fine with
    | [] => (1, None)
    | _ =>
      let values := omap observed_age_seconds fine in
      let served := sorted_values (remove_dups (omap window_seconds fine)) in
      (0, Some {| good := length fine; bad := length rows - length fine;
                  ages := age_stats values; windows := served; regressed := regressions rows;
                  overlap := match fold1 Z.max values, fold1 Z.min served with
                             | Some ceiling, Some window => Some (ceiling <? window)
                             | _, _ => None
                             end |})
    end
  end.

(** *** The loop *)

(** One turn: the sample, and whether a signal has come by the end of the
    wait.  The rows appended, and the exit code where the loop has ended; an
    exception of [sample] ends it with 1. *)
Fixpoint turns (interval : bool) (count : option Z) (taken : Z) (samples : list (Res Exn Row * bool)) :
    list Row * option Z :=
  match samples with
  | [] => ([], None)
  | (inl _, _) :: _ => ([], Some 1)
  | (inr row, stopped) :: samples =>
    let taken := taken + 1 in
    if negb interval then ([row], Some (if ok row then 0 else 1))
    else if match count with Some n => n <=? taken | None => false end then ([row], Some 0)
    else if stopped : bool then ([row], Some 0)
    else let '(rows, code) := turns interval count taken samples in (row :: rows, code)
  end.
Definition main_loop (interval : bool) (count : option Z) (samples : list (Res Exn Row * bool)) :
    list Row * option Z :=
  turns interval count 0 samples.

(** *** What the summary says *)

Lemma regressions_from_nil highest l :
  regressions_from highest l = [] ↔
  Sorted Z.le (from_option (λ h, [h]) [] highest ++ map snd l).
Proof.
  revert highest. induction l as [|[w v] l IH]; intros highest; simpl.
  { rewrite app_nil_r. split; [|done]. intros _. destruct highest; simpl; repeat constructor. }
  destruct highest as [h|]; simpl in *.
  - destruct (Z.ltb_spec v h).
    + split; [done|]. intros Hs. inversion Hs as [|? ? _ Hd]; subst. inversion Hd; lia.
    + rewrite IH, Z.max_r by lia. simpl. split.
      * intros Hs. constructor; [done|by constructor].
      * by inversion 1.
  - by rewrite IH.
Qed.
(** "Regressions: none" is printed exactly when the CRL Numbers never fell. *)
Theorem regressions_none_iff rows :
  regressions rows = [] ↔ Sorted Z.le (map snd (numbered rows)).
Proof. apply (regressions_from_nil None). Qed.

#[local] Instance Z_le_total_rel : Total Z.le.
Proof. intros x y. lia. Qed.
(** The nearest rank: a value of the list, with at least its rank of values not
    above it and the others not below it. *)
Theorem percentile_nearest_rank values fraction :
  values ≠ [] →
  ∃ v below above, percentile values fraction = Ok v ∧ values ≡ₚ below ++ v :: above
    ∧ Z.of_nat (length below) + 1 = rank_of (Z.of_nat (length values)) fraction
    ∧ Forall (λ x, x ≤ v) below ∧ Forall (λ x, v ≤ x) above.
Proof.
  intros Hne. assert (percentile values fraction =
    match sorted_values values !!
            Z.to_nat (rank_of (Z.of_nat (length (sorted_values values))) fraction - 1) with
    | Some v => Ok v | None => Raise (OtherException "IndexError") end) as ->
    by by destruct values.
  assert (sorted_values values ≡ₚ values) as Hperm by apply merge_sort_Permutation.
  assert (StronglySorted Z.le (sorted_values values)) as Hsorted by apply (StronglySorted_merge_sort _).
  rewrite <- (Permutation_length Hperm).
  assert (sorted_values values ≠ []) as Hsne
    by (intros Hnil; rewrite Hnil in Hperm; by apply Permutation_nil_l in Hperm).
  set (l := sorted_values values) in *. clearbody l.
  assert (0 < length l)%nat as Hlen by (destruct l; [done|simpl; lia]).
  set (n := rank_of (Z.of_nat (length l)) fraction).
  assert (1 ≤ n ≤ Z.of_nat (length l)) as Hn by (unfold n, rank_of; lia).
  destruct (lookup_lt_is_Some_2 l (Z.to_nat (n - 1))) as [v Hv]; [lia|].
  rewrite Hv. apply list_elem_of_split_length in Hv as (below & above & -> & Hlenb).
  exists v, below, above. split_and!; [done|by rewrite <- Hperm|lia|..].
  - apply Forall_forall. intros x Hx. eapply StronglySorted_app_1_elem_of; [done..|]. by left.
  - apply StronglySorted_app_1_r in Hsorted. by apply StronglySorted_inv in Hsorted as [_ Hall].
Qed.

(** A sample is taken whatever the distribution point does, but for a CRL whose
    extensions cannot be read. *)
Lemma sample_raises `{CrlLoader} started url max_bytes a e :
  sample started url max_bytes a = Raise e →
  ∃ body m crl, fetch max_bytes a = (Some body, m) ∧ parse body = Some crl ∧ crl_extensions crl = inl e.
Proof.
  unfold sample. destruct (fetch max_bytes a) as [[body|] m]; [|done].
  destruct (parse body) as [crl|] eqn:Hparse; [|done].
  destruct (crl_extensions crl) eqn:Hext; [|done]. intros [= <-]. by exists body, m, crl.
Qed.
Example sample_summary_ex :
  regressions_from None [(1, 5); (2, 7); (3, 6); (4, 7)] = [(3, 7, 6)]
  ∧ age_stats [30; 10; 20; 40] = Some (10, 20, 40, 40).
Proof. by vm_compute. Qed.
End Sampler.

(** ** The fault proxy of the interoperability harness *)

(** interop/nonce_fault_proxy.py: when it spoils a request, with what, and how
    it reads a body.  The connection is a list of octets; the log is not
    modelled. *)
Module FaultProxy.
From S2P Require Import Jws.

(** [_State] *)
Record State := { every : Z; count : Z; last_injected : bool; injected : Z }.
(** [should_inject] *)
Definition should_inject (st : State) : bool * State :=
  if every st <=? 0 then (false, st)
  else if last_injected st then
    (false, {| every := every st; count := count st; last_injected := false; injected := injected st |})
  else
    let n := count st + 1 in
    if n mod every st =? 0
    then (true, {| every := every st; count := n; last_injected := true; injected := injected st + 1 |})
    else (false, {| every := every st; count := n; last_injected := false; injected := injected st |}).
(** The answers to one call after the other, and the state after them. *)
Fixpoint injections (n : nat) (st : State) : list bool * State :=
  match n with
  | O => ([], st)
  | S n =>
    let '(b, st) := should_inject st in
    let '(bs, st) := injections n st in (b :: bs, st)
  end.

(** *** Messages *)

Section messages.
Context `{JsonLoads}.

(** [except ValueError] around [json.loads]; a [RecursionError] goes on. *)
Definition loads_or_none (body : list Z) : Res Exn (option json) :=
  match loads body with
  | inr v => Ok (Some v)
  | inl e => if bool_decide (loads_exn e = ValueError) then Ok None else Raise (loads_exn e)
  end.
(** [_corrupt_signature], before [json.dumps] *)
Definition corrupt (sig : string) : option string :=
  match sig with
  | String c rest => Some (String (if bool_decide (c = "A"%char) then "B"%char else "A"%char) rest)
  | EmptyString => None
  end.
Definition corrupt_signature (body : list Z) : Res Exn (option dict) :=
  jws ←? loads_or_none body;
  Ok match jws with
     | Some (JObj d) =>
       match dict_get "signature" d with
       | Some (JStr sig) => (λ s, dict_set "signature" (JStr s) d) <$> corrupt sig
       | _ => None
       end
     | _ => None
     end.
(** [_jws_identity] *)
Definition protected_nonce (protected : string) : Res Exn (option string) :=
  match base64url_decode protected with
  | inl _ => Ok None
  | inr octets =>
    header ←? loads_or_none octets;
    Ok match header with
       | Some (JObj d) => match dict_get "nonce" d with Some (JStr nonce) => Some nonce | _ => None end
       | _ => None
       end
  end.
Definition payload_hash (payload : string) : option string :=
  if is_ascii payload then Some (of_chars (take 12 (chars (hex (sha256 (map code (chars payload)))))))
  else None.
Definition jws_identity (body : list Z) : Res Exn (option (string * string)) :=
  jws ←? loads_or_none body;
  match jws with
  | Some (JObj d) =>
    match dict_get "protected" d, dict_get "payload" d with
    | Some (JStr protected), Some (JStr payload) =>
      nonce ←? protected_nonce protected;
      Ok match nonce with Some nonce => pair nonce <$> payload_hash payload | None => None end
    | _, _ => Ok None
    end
  | _ => Ok None
  end.

(** *** Bodies *)

(** [rfile.readline(limit)] *)
Fixpoint readline (limit : nat) (s : list Z) : list Z * list Z :=
  match limit, s with
  | O, _ | _, [] => ([], s)
  | S limit, b :: s =>
    if b =? 10 then ([b], s) else let '(l, rest) := readline limit s in (b :: l, rest)
  end.
Definition MAX_LINE : nat := Z.to_nat 65536.
Definition CRLF : list Z := [13; 10].
Definition is_byte_space (b : Z) : bool := bool_decide (9 ≤ b ≤ 13 ∨ b = 32).
(** [int(line[:-2].split(b";", 1)[0].strip(), 16)]; [int] of octets passes over
    no other white space than [strip] does. *)
Fixpoint before_semicolon (l : list Z) : list Z :=
  match l with
  | [] => []
  | b :: l => if b =? 59 then [] else b :: before_semicolon l
  end.
Definition chunk_size (line : list Z) : option Z :=
  let text := rdrop_while is_byte_space (drop_while is_byte_space (before_semicolon line)) in
  let s := of_chars (map (λ b, ascii_of_N (Z.to_N b)) text) in
  if existsb is_space (chars s) then None else py_int16 s.

(** [None] is the [ValueError]. *)
Fixpoint read_trailers (fuel : nat) (s : list Z) : option (list Z) :=
  match fuel with
  | O => None
  | S fuel =>
    let '(trailer, s) := readline (S MAX_LINE) s in
    if bool_decide (trailer = []) || (MAX_LINE <? length trailer)%nat then None
    else if bool_decide (trailer = CRLF) then Some s
    else read_trailers fuel s
  end.
Fixpoint read_chunks (fuel : nat) (s chunks : list Z) : option (list Z * list Z) :=
  match fuel with
  | O => None
  | S fuel =>
    let '(line, s) := readline (S MAX_LINE) s in
    let text := take (length line - 2) line in
    if (MAX_LINE <? length line)%nat || negb (bool_decide (line = text ++ CRLF)) then None
    else match chunk_size text with
    | None => None
    | Some size =>
      if size <? 0 then None
      else if size =? 0 then pair chunks <$> read_trailers (S (length s)) s
      else if Z.of_nat (length s) <? size then None
      else
        let n := Z.to_nat size in
        if bool_decide (take 2 (drop n s) = CRLF)
        then read_chunks fuel (drop 2 (drop n s)) (chunks ++ take n s) else None
    end
  end.
(** [_read_chunked_body]: the body and what is left on the connection *)
Definition read_chunked_body (s : list Z) : option (list Z * list Z) :=
  read_chunks (S (length s)) s [].

(** [_request_body] *)
Record Headers := { transfer_encoding : option string; content_length : option string }.
Definition request_body (h : Headers) (s : list Z) : option (option (list Z) * list Z) :=
  match transfer_encoding h with
  | Some encodings =>
    if bool_decide (map (λ item, lower (strip item)) (PyStr.split "," encodings) = ["chunked"%string])
    then (λ br, (Some br.1, br.2)) <$> read_chunked_body s else None
  | None =>
    match content_length h with
    | None => Some (None, s)
    | Some text =>
      match py_int text with
      | Some n =>
        if (n <? 0) || (Z.of_nat (length s) <? n) then None
        else Some (Some (take (Z.to_nat n) s), drop (Z.to_nat n) s)
      | None => None
      end
    end
  end.

(** [_relay]: what is sent to the server, in order; [None] is the 400. *)
Inductive Upstream := Poisoned (jws : dict) | Genuine (body : option (list Z)).
Definition poisoned_copy (method path : string) (body : option (list Z)) : Res Exn (option dict) :=
  match body with
  | Some (b :: octets) =>
    if bool_decide (method = "POST"%string) then
      identity ←? jws_identity (b :: octets);
      match identity with
      | Some _ =>
        if startswith path "/acme/" && negb (startswith path "/acme/admin/")
        then corrupt_signature (b :: octets) else Ok None
      | None => Ok None
      end
    else Ok None
  | _ => Ok None
  end.
Definition relay (method path : string) (h : Headers) (s : list Z) (st : State) :
    Res Exn (option (list Upstream)) * State :=
  match request_body h s with
  | None => (Ok None, st)
  | Some (body, _) =>
    match poisoned_copy method path body with
    | inl e => (Raise e, st)
    | inr None => (Ok (Some [Genuine body]), st)
    | inr (Some jws) =>
      let '(inject, st) := should_inject st in
      (Ok (Some ((if inject : bool then [Poisoned jws] else []) ++ [Genuine body])), st)
    end
  end.
End messages.

(** *** What it promises *)

(** Of two requests one after the other at most one is spoiled: a client that
    is alone with the proxy succeeds when it tries again. *)
Lemma should_inject_spec st b st' :
  should_inject st = (b, st') →
  (last_injected st = true → b = false) ∧ (b = true → last_injected st' = true).
Proof.
  unfold should_inject. destruct (every st <=? 0); [by intros [= <- <-]|].
  destruct (last_injected st); [by intros [= <- <-]|].
  destruct (_ =? 0); intros [= <- <-]; naive_solver.
Qed.
Theorem injections_apart n st i :
  (injections n st).1 !! i = Some true → (injections n st).1 !! S i ≠ Some true.
Proof.
  revert st i. induction n as [|n IH]; intros st i; simpl; [by rewrite lookup_nil|].
  destruct (should_inject st) as [b st1] eqn:Hst. specialize (IH st1).
  destruct (injections n st1) as [bs st2] eqn:Hn. simpl in *. destruct i as [|i]; [|apply IH].
  intros [= ->]. apply should_inject_spec in Hst as [_ Hlast]. specialize (Hlast eq_refl). simpl.
  destruct n as [|n]; simpl in Hn; [by injection Hn as <- <-|].
  destruct (should_inject st1) as [b' st1'] eqn:Hst1. destruct (injections n st1').
  injection Hn as <- <-. simpl. apply should_inject_spec in Hst1 as [Hb _]. by rewrite Hb.
Qed.
(** Another client's request may come in between: then the request after an
    injection of the first client is spoiled again. *)
Example two_clients_ex :
  (injections 3 {| every := 1; count := 0; last_injected := false; injected := 0 |}).1
  = [true; false; true].
Proof. done. Qed.

Section promises.
Context `{JsonLoads}.

(** A body that could be read is forwarded as it is, once and last; what goes
    before it, if anything, is the same message but for the first character of
    its signature. *)
Theorem relay_forwards method path h s st up st' :
  relay method path h s st = (Ok (Some up), st') →
  ∃ body rest, request_body h s = Some (body, rest)
    ∧ (up = [Genuine body]
       ∨ ∃ octets d sig sig', body = Some octets ∧ loads octets = inr (JObj d)
           ∧ dict_get "signature" d = Some (JStr sig)
           ∧ sig' ≠ sig ∧ tail (chars sig') = tail (chars sig)
           ∧ up = [Poisoned (dict_set "signature" (JStr sig') d); Genuine body]).
Proof.
  unfold relay. destruct (request_body h s) as [[body rest]|]; [|done].
  destruct (poisoned_copy method path body) as [e|[jws|]] eqn:Hp; [done| |].
  2: { intros [= <- <-]. exists body, rest. split; [done|by left]. }
  destruct (should_inject st) as [[] st1]; intros [= <- <-]; exists body, rest; (split; [done|]); [right|by left].
  unfold poisoned_copy in Hp. destruct body as [[|b octets]|]; [done| |done].
  case_bool_decide; [|done]. apply res_bind_ok in Hp as ([id|] & _ & Hp); [|done].
  destruct (_ && _); [|done]. unfold corrupt_signature in Hp.
  apply res_bind_ok in Hp as (v & Hv & [= Hjws]).
  destruct v as [[| | | | | |d]|]; try done.
  destruct (dict_get "signature" d) as [[| | | |sig| |]|] eqn:Hsig; try done.
  apply fmap_Some_1 in Hjws as (sig' & Hsig' & ->). exists (b :: octets), d, sig, sig'.
  unfold loads_or_none in Hv. destruct (loads (b :: octets)) as [e|v]; [by case_bool_decide|].
  injection Hv as ->. destruct sig as [|c sig]; [done|]. injection Hsig' as <-.
  split_and!; try done. case_bool_decide; congruence.
Qed.

(** *** Framing *)

Lemma readline_line limit t rest :
  10 ∉ t → (length t < limit)%nat → readline limit (t ++ 10 :: rest) = (t ++ [10], rest).
Proof.
  revert t. induction limit as [|limit IH]; intros t Ht Hlen; [lia|].
  destruct t as [|b t]; cbn [app readline]; [done|]. apply not_elem_of_cons in Ht as [Hb Ht].
  rewrite (proj2 (Z.eqb_neq b 10)) by done. rewrite IH; [done|done|simpl in Hlen; lia].
Qed.
Lemma readline_spec limit s l rest :
  readline limit s = (l, rest) →
  s = l ++ rest ∧
  ((∃ t, l = t ++ [10] ∧ 10 ∉ t ∧ (length t < limit)%nat)
   ∨ 10 ∉ l ∧ (length l = limit ∨ rest = [] ∧ (length l < limit)%nat)).
Proof.
  revert s l. induction limit as [|limit IH]; intros s l; cbn [readline].
  { intros [= <- <-]. split; [done|]. right. split; [apply not_elem_of_nil|by left]. }
  destruct s as [|b s].
  { intros [= <- <-]. split; [done|]. right. split; [apply not_elem_of_nil|right; split; [done|simpl; lia]]. }
  destruct (Z.eqb_spec b 10) as [->|Hb].
  { intros [= <- <-]. split; [done|]. left. exists []. split_and!; [done|apply not_elem_of_nil|simpl; lia]. }
  destruct (readline limit s) as [l' rest'] eqn:Hl. intros [= <- <-].
  apply IH in Hl as [-> Hl]. split; [done|]. destruct Hl as [(t & -> & Ht & Hlen)|[Hno Hlen]].
  - left. exists (b :: t). split_and!; [done|by apply not_elem_of_cons|simpl; lia].
  - right. split; [by apply not_elem_of_cons|]. simpl. destruct Hlen as [|[]]; [left; lia|right; split; [done|lia]].
Qed.

(** A chunked body as RFC 9112 frames it: lines end at a line feed and have at
    most [MAX_LINE] octets. *)
Definition trailer_line (l : list Z) : Prop :=
  ∃ t, l = t ++ [10] ∧ 10 ∉ t ∧ (length l ≤ MAX_LINE)%nat ∧ l ≠ CRLF.
Definition size_line (l : list Z) (n : Z) : Prop :=
  ∃ t, l = t ++ CRLF ∧ 10 ∉ t ∧ (length l ≤ MAX_LINE)%nat ∧ chunk_size t = Some n.
Inductive framed : list Z → list Z → Prop :=
  | framed_last line trailers :
      size_line line 0 → Forall trailer_line trailers → framed [] (line ++ concat trailers ++ CRLF)
  | framed_chunk line n chunk body s :
      size_line line n → 0 < n → Z.of_nat (length chunk) = n → framed body s →
      framed (chunk ++ body) (line ++ chunk ++ CRLF ++ s).

Lemma read_trailers_some fuel s rest :
  read_trailers fuel s = Some rest →
  ∃ trailers, Forall trailer_line trailers ∧ s = concat trailers ++ CRLF ++ rest.
Proof.
  revert s. induction fuel as [|fuel IH]; intros s; cbn [read_trailers]; [done|].
  destruct (readline (S MAX_LINE) s) as [l s'] eqn:Hl. apply readline_spec in Hl as [-> Hl].
  destruct (bool_decide_reflect (l = [])) as [|Hne]; [done|]. cbn [orb].
  destruct (Nat.ltb_spec MAX_LINE (length l)) as [|Hlen]; [done|].
  destruct (bool_decide_reflect (l = CRLF)) as [->|Hcrlf].
  { intros [= ->]. by exists []. }
  intros (trailers & Htr & ->)%IH. exists (l :: trailers). split.
  - constructor; [|done]. destruct Hl as [(t & -> & Ht & _)|[_ [Hfull|[Hnil _]]]].
    + by exists t.
    + lia.
    + exfalso. destruct trailers as [|[|]]; simpl in Hnil; try done.
      apply Forall_cons in Htr as [(t & Ht & _) _]. by destruct t.
  - simpl. by rewrite !app_assoc.
Qed.
Lemma read_trailers_framed fuel trailers rest :
  Forall trailer_line trailers → (length trailers < fuel)%nat →
  read_trailers fuel (concat trailers ++ CRLF ++ rest) = Some rest.
Proof.
  revert fuel. induction trailers as [|l trailers IH]; intros [|fuel] Htr Hfuel;
    [simpl in Hfuel; lia| |simpl in Hfuel; lia|]; cbn [read_trailers].
  - change (concat [] ++ CRLF ++ rest) with ([13] ++ 10 :: rest).
    rewrite readline_line; [|by rewrite list_elem_of_singleton|unfold MAX_LINE; simpl; lia]. done.
  - apply Forall_cons in Htr as [(t & -> & Ht & Hlen & Hne) Htr]. cbn [concat].
    rewrite <- !app_assoc. change ([10] ++ concat trailers ++ CRLF ++ rest) with (10 :: concat trailers ++ CRLF ++ rest).
    rewrite length_app in Hlen. simpl in Hlen.
    rewrite readline_line by (done || lia).
    rewrite bool_decide_eq_false_2 by (by destruct t). cbn [orb].
    rewrite (proj2 (Nat.ltb_ge _ _)) by (rewrite length_app; simpl; lia).
    rewrite bool_decide_eq_false_2 by done. apply IH; [done|]. simpl in Hfuel. lia.
Qed.
Lemma read_size_line s line rest :
  readline (S MAX_LINE) s = (line, rest) → (length line ≤ MAX_LINE)%nat →
  line = take (length line - 2) line ++ CRLF →
  s = line ++ rest ∧ ∀ n, chunk_size (take (length line - 2) line) = Some n → size_line line n.
Proof.
  intros [-> Hl]%readline_spec Hlen Hcrlf. split; [done|]. intros n Hn.
  exists (take (length line - 2) line). split_and!; try done.
  destruct Hl as [(t & Ht & Hno & _)|[Hno _]].
  - intros Hin. apply Hno. rewrite Ht in Hcrlf at 1.
    change CRLF with ([13] ++ [10]) in Hcrlf. rewrite app_assoc in Hcrlf.
    apply app_inj_2 in Hcrlf as [-> _]; [|done]. apply elem_of_app. by left.
  - exfalso. apply Hno. rewrite Hcrlf. apply elem_of_app. right. by right; left.
Qed.
Lemma read_chunks_some fuel s acc body rest :
  read_chunks fuel s acc = Some (body, rest) →
  ∃ b s', framed b s' ∧ body = acc ++ b ∧ s = s' ++ rest.
Proof.
  revert s acc. induction fuel as [|fuel IH]; intros s acc; cbn [read_chunks]; [done|].
  destruct (readline (S MAX_LINE) s) as [line s1] eqn:Hline.
  destruct (Nat.ltb_spec MAX_LINE (length line)) as [|Hlen]; [done|]. cbn [orb].
  case_bool_decide as Hcrlf; [|done]. cbn [negb].
  destruct (read_size_line _ _ _ Hline Hlen Hcrlf) as [-> Hsize].
  destruct (chunk_size _) as [n|]; [|done]. specialize (Hsize n eq_refl). clear Hline Hcrlf.
  destruct (Z.ltb_spec n 0); [done|]. destruct (Z.eqb_spec n 0) as [->|Hn].
  - intros (r & (trailers & Htr & ->)%read_trailers_some & [= <- <-])%fmap_Some_1.
    exists [], (line ++ concat trailers ++ CRLF). rewrite app_nil_r.
    split_and!; [by constructor|done|by rewrite <- !app_assoc].
  - destruct (Z.ltb_spec (Z.of_nat (length s1)) n) as [|Hfull]; [done|].
    case_bool_decide as Hend; [|done]. intros (b & s' & Hframed & -> & Hrest)%IH.
    exists (take (Z.to_nat n) s1 ++ b), (line ++ take (Z.to_nat n) s1 ++ CRLF ++ s').
    split_and!.
    + apply (framed_chunk line n); [done|lia| |done]. rewrite length_take. lia.
    + by rewrite app_assoc.
    + rewrite <- Hend, <- !app_assoc, <- Hrest. by rewrite !take_drop.
Qed.
Lemma length_trailers trailers :
  Forall trailer_line trailers → (length trailers ≤ length (concat trailers))%nat.
Proof.
  induction 1 as [|l trailers (t & -> & _) _ IH]; [done|]. simpl. rewrite !length_app. simpl. lia.
Qed.
Lemma read_chunks_framed b s' fuel acc rest :
  framed b s' → (length s' < fuel)%nat → read_chunks fuel (s' ++ rest) acc = Some (acc ++ b, rest).
Proof.
  intros Hframed. revert fuel acc.
  assert (∀ (line tl : list Z) n, size_line line n → readline (S MAX_LINE) (line ++ tl) = (line, tl)
            ∧ (MAX_LINE <? length line)%nat = false
            ∧ bool_decide (line = take (length line - 2) line ++ CRLF) = true
            ∧ chunk_size (take (length line - 2) line) = Some n) as Hline.
  { intros line tl n (t & -> & Ht & Hlen & Hn).
    assert (take (length (t ++ CRLF) - 2) (t ++ CRLF) = t) as ->.
    { rewrite length_app. simpl. rewrite Nat.add_sub. apply take_app_length. }
    split_and!; [|by apply Nat.ltb_ge|by apply bool_decide_eq_true|done].
    change CRLF with ([13] ++ [10]). rewrite app_assoc, <- (app_assoc (t ++ [13])).
    rewrite length_app in Hlen. simpl in Hlen. apply readline_line.
    - rewrite elem_of_app, list_elem_of_singleton. by intros [].
    - rewrite length_app. simpl. lia. }
  induction Hframed as [line trailers Hsize Htr|line n chunk body s Hsize Hpos Hlen Hframed IH];
    intros [|fuel] acc Hfuel; [lia| |lia|]; cbn [read_chunks].
  - rewrite <- app_assoc. destruct (Hline _ ((concat trailers ++ CRLF) ++ rest) _ Hsize) as (-> & -> & -> & ->).
    cbn [orb negb Z.ltb Z.eqb Z.compare]. rewrite <- app_assoc, read_trailers_framed; [by rewrite app_nil_r|done|].
    rewrite !length_app. apply length_trailers in Htr. lia.
  - rewrite <- app_assoc. destruct (Hline _ ((chunk ++ CRLF ++ s) ++ rest) _ Hsize) as (-> & -> & -> & ->).
    cbn [orb negb]. rewrite (proj2 (Z.ltb_ge n 0)), (proj2 (Z.eqb_neq n 0)) by lia.
    rewrite (proj2 (Z.ltb_ge _ _)) by (rewrite !length_app; lia).
    replace (Z.to_nat n) with (length chunk) by lia.
    rewrite <- !app_assoc, drop_app_length, take_app_length.
    rewrite bool_decide_eq_true_2 by done. change (drop 2 (CRLF ++ s ++ rest)) with (s ++ rest).
    rewrite !length_app in Hfuel. rewrite IH by (change (length CRLF) with 2%nat in Hfuel; lia). by rewrite <- app_assoc.
Qed.
(** A chunked body is read exactly where it is framed as it should be, and what
    is left is what comes after it. *)
Theorem read_chunked_body_iff s body rest :
  read_chunked_body s = Some (body, rest) ↔ ∃ octets, framed body octets ∧ s = octets ++ rest.
Proof.
  unfold read_chunked_body. split.
  - intros (b & octets & Hframed & -> & ->)%read_chunks_some. by exists octets.
  - intros (octets & Hframed & ->). rewrite (read_chunks_framed body octets); [done|done|].
    rewrite length_app. lia.
Qed.
End promises.

Definition octets_of (s : string) : list Z := map code (chars s).
Definition lines_of (l : list string) : list Z := mjoin (map (λ s, octets_of s ++ CRLF) l).
Example read_chunked_ex :
  (read_chunked_body (lines_of ["5;x=y"; "hello"; " 0B "; " wide world"; "0"; "Trailer: x"; ""; "rest"]),
   read_chunked_body (lines_of ["5"; "hell"; "0"; ""]), read_chunked_body (lines_of ["-1"; "x"]))
  = (Some (octets_of "hello wide world", lines_of ["rest"]), None, None)%string.
Proof. by vm_compute. Qed.
End FaultProxy.
