(* ===== verification/EnrollmentTheorems.v ===== *)
(** * What the CA client promises

    Which disposition a page is read as; that whatever happens after the CA
    has issued, the caller is told so; and that what is returned belongs to the
    request. *)

From S2P Require Import Prelude PyStr Json Exn Base64 Re Db World X509 IssuerRecovery Enrollment.
From S2P Require Import CrlTheorems.
Local Open Scope Z_scope.

(** ** Dispositions *)

(** The text has a part that the pattern stands for. *)
Definition contains (pat : Pattern) (text : string) : Prop :=
  ∃ a s r, chars text = a ++ s ∧ matches pat (after None a) s r.

Lemma search_none pat text : search pat text = None ↔ ¬ contains pat text.
Proof. unfold contains. by rewrite <- search_is_Some, <- eq_None_not_Some. Qed.
Lemma search_some pat text g : search pat text = Some g → contains pat text.
Proof. intros H. apply search_is_Some. by eexists. Qed.
Lemma occurs_contains pat text : occurs pat text = true ↔ contains pat text.
Proof.
  unfold occurs, contains. rewrite bool_decide_eq_true, <- search_is_Some. unfold search.
  by rewrite fmap_is_Some.
Qed.

(** A number as the CA writes it. *)
Definition decimal (text : string) : Prop :=
  text ≠ EmptyString ∧ Forall (λ c, is_digit c = true) (chars text).

Lemma search_digits pre post text n :
  forallb plain pre = true → forallb plain post = true →
  search (pre ++ digits ++ post) text = Some n → decimal n.
Proof.
  intros Hpre Hpost H. apply (captured pre 1 false is_digit post) in H as [Hd Hn]; [|done..].
  split; [|done]. by intros ->; simpl in Hn; lia.
Qed.

Lemma issued_decimal body status locale n :
  parse_certfnsh_disposition body status locale = (issued, n) → decimal n.
Proof.
  unfold parse_certfnsh_disposition.
  destruct (search download_link _) as [m|] eqn:Hd; [|repeat case_match; done].
  intros [= <-]. by apply (search_digits (lit "certnew.cer?ReqID=") (lit "&")) in Hd.
Qed.

(** C14 How the answer of the CA is read.  A page counts as issued exactly when
    it carries a download link, outside scripts and comments; a page without one
    that carries a request id is never unknown, and it is a denial only where
    the page is English and says so; and the id of an issued or pending request
    is a number (or unknown, on an English page that only says pending). *)
Theorem disposition_read body status locale d detail :
  parse_certfnsh_disposition body status locale = (d, detail) →
  let clean := clean_page body in
  (d = issued ↔ contains download_link clean)
  ∧ (contains request_id_link clean → d ≠ unknown
     ∧ (d = denied → locale = "en"%string
                     ∧ (contains disposition_message clean ∨ contains was_denied clean)))
  ∧ (d = issued → decimal detail)
  ∧ (d = pending → decimal detail
                   ∨ detail = "?"%string ∧ locale = "en"%string
                     ∧ contains certificate_pending clean).
Proof.
  unfold parse_certfnsh_disposition. cbv zeta. set (clean := clean_page body).
  set (en := bool_decide (locale = "en"%string)).
  assert (en = true → locale = "en"%string) as Hen by apply bool_decide_eq_true_1.
  destruct (search download_link clean) as [n|] eqn:Hd.
  { intros [= <- <-]. pose proof (search_some _ _ _ Hd) as Hc.
    split_and!; [by split|by split|intros _|done].
    by apply (search_digits (lit "certnew.cer?ReqID=") (lit "&") clean). }
  apply search_none in Hd.
  destruct (if en then search disposition_message clean else None) as [m|] eqn:Hm.
  { destruct en; [|done]. apply search_some in Hm. intros [= <- <-]. split_and!; [done| |done..].
    intros _. split; [done|]. intros _. split; [by apply Hen|by left]. }
  destruct (en && occurs was_denied clean) eqn:Hw.
  { apply andb_true_iff in Hw as [He Hw%occurs_contains]. intros [= <- <-].
    split_and!; [done| |done..]. intros _. split; [done|]. intros _. split; [by apply Hen|by right]. }
  destruct (search request_id_link clean) as [n|] eqn:Hr.
  { intros [= <- <-]. split_and!; [done|by intros _|done|]. intros _. left.
    apply (search_digits (lit "ReqID=") [] clean); [done|done|]. by rewrite app_nil_r. }
  apply search_none in Hr.
  destruct (if en then search request_id_text clean else None) as [n|] eqn:Ht.
  { destruct en; [|done]. intros [= <- <-]. split_and!; [done..|]. intros _. left.
    apply (search_digits (ilit "Your Request Id is ") [] clean); [done|done|]. by rewrite app_nil_r. }
  destruct (en && occurs certificate_pending clean) eqn:Hp.
  { apply andb_true_iff in Hp as [He Hp%occurs_contains]. intros [= <- <-].
    split_and!; [done..|]. intros _. right. by split_and!; [|apply Hen|]. }
  destruct (if en then None else loose_denial clean) as [c|]; intros [= <- <-]; by split_and!.
Qed.

(** ** Exceptions after the CA has issued *)

(** Neither a verdict of the CA nor an error that already tells of a request. *)
Definition quiet (e : Exn) : Prop :=
  match e with
  | EnrollmentDenied _ | EnrollmentPending _ _ => False
  | EnrollmentTransportError _ req_id pem chain => req_id = None ∧ pem = None ∧ chain = []
  | _ => True
  end.
Definition quiet_res {A} (m : Res Exn A) : Prop := ∀ e, m = inl e → quiet e.

Lemma quiet_ok {A} (x : A) : quiet_res (Ok x).
Proof. done. Qed.
Lemma quiet_raise {A} e : quiet e → quiet_res (A := A) (Raise e).
Proof. by intros ? ? [= <-]. Qed.
Lemma quiet_bind {A B} (m : Res Exn A) (k : A → Res Exn B) :
  quiet_res m → (∀ x, m = inr x → quiet_res (k x)) → quiet_res (res_bind k m).
Proof. intros Hm Hk e. destruct m as [e'|x]; simpl; [|by apply Hk]. intros [= <-]. by apply Hm. Qed.
Lemma quiet_transport {A} msg : quiet_res (transport_error (A := A) msg).
Proof. by apply quiet_raise. Qed.
Lemma quiet_iter {A} (f : A → Res Exn unit) l : (∀ x, quiet_res (f x)) → quiet_res (res_iter f l).
Proof. intros Hf. induction l as [|x l IH]; [done|]. simpl. by apply quiet_bind. Qed.
Lemma quiet_map {A B} (f : A → Res Exn B) l : (∀ x, quiet_res (f x)) → quiet_res (res_map f l).
Proof.
  intros Hf. induction l as [|x l IH]; [done|]. simpl. apply quiet_bind; [done|]. intros y _.
  by apply quiet_bind.
Qed.
Lemma quiet_or_transport {A} text (m : Res Exn A) :
  quiet_res m → quiet_res (or_transport_error text m).
Proof.
  intros Hm. unfold or_transport_error. destruct m as [e|x]; [|done].
  destruct (unreadable e); [apply quiet_transport|by apply quiet_raise, Hm].
Qed.
#[local] Hint Resolve quiet_ok quiet_transport : core.

(** The exceptions of the cryptography package are its own. *)
Class LibraryExceptions `{EnrollBackend} := {
  quiet_load s : quiet_res (load_certificate s);
  quiet_load_der b : quiet_res (load_der_certificate b);
  quiet_load_pkcs7 b : quiet_res (load_der_pkcs7 b);
  quiet_verify c c' : quiet_res (verify_directly_issued_by c c');
  quiet_spki c : quiet_res (certificate_spki c);
  quiet_names c : quiet_res (common_names c);
  quiet_load_csr s : quiet_res (load_csr s);
  quiet_csr_spki r : quiet_res (csr_spki r);
}.

Section quiet.
Context `{LibraryExceptions}.

Lemma quiet_encode s : quiet_res (encode_ascii s).
Proof. unfold encode_ascii. case_match; [done|by apply quiet_raise]. Qed.
Lemma quiet_load_pem s : quiet_res (load_pem s).
Proof using H H0 H1. apply quiet_bind; [apply quiet_encode|]. intros ? _. apply quiet_load. Qed.
Lemma quiet_load_pem_csr s : quiet_res (load_pem_csr s).
Proof using H H0 H1. apply quiet_bind; [apply quiet_encode|]. intros ? _. apply quiet_load_csr. Qed.

Lemma quiet_binding cert csr sans : quiet_res (validate_issued_certificate_binding cert csr sans).
Proof using H H0 H1.
  unfold validate_issued_certificate_binding. apply quiet_bind.
  { apply quiet_or_transport. apply quiet_bind; [apply quiet_load_pem|]. intros ? _.
    by apply quiet_bind; [apply quiet_load_pem_csr|]. }
  intros [c r] _. simpl. apply quiet_bind; [apply quiet_spki|]. intros ? _.
  apply quiet_bind; [apply quiet_csr_spki|]. intros ? _. case_bool_decide; [done|].
  apply quiet_bind; [apply quiet_names|]. intros names _. apply quiet_iter. intros cn.
  unfold check_common_name. destruct cn; [by case_bool_decide|done].
Qed.
Lemma quiet_check_binding leg cert csr sans : quiet_res (check_binding leg cert csr sans).
Proof using H H0 H1.
  unfold check_binding. destruct (load_pem_csr csr) as [e|r] eqn:Hl; [|apply quiet_binding].
  destruct (unreadable e); [by destruct (session_factory leg)|]. apply quiet_raise.
  by apply (quiet_load_pem_csr csr).
Qed.
Lemma quiet_first_issuer leaf chain : quiet_res (first_issuer leaf chain).
Proof using H H0 H1.
  induction chain as [|c chain IH]; [done|]. simpl. case_bool_decide; simpl; [|done].
  apply quiet_bind; [|by intros [] _].
  unfold signed_by_candidate. destruct (verify_directly_issued_by leaf c) as [e|u] eqn:Hv; [|done].
  case_bool_decide; [done|]. apply quiet_raise. by apply (quiet_verify leaf c).
Qed.
Lemma quiet_chain_binds cert chain : quiet_res (validate_chain_binds_to_leaf cert chain).
Proof using H H0 H1.
  unfold validate_chain_binds_to_leaf. apply quiet_bind.
  { apply quiet_or_transport. apply quiet_bind; [apply quiet_load_pem|]. intros ? _.
    apply quiet_bind; [|done]. apply quiet_map, quiet_load_pem. }
  intros [leaf l] _. simpl. apply quiet_bind; [apply quiet_first_issuer|]. by intros [] _.
Qed.
Lemma quiet_parse_chain body : quiet_res (parse_pkcs7_chain body).
Proof using H H0 H1.
  unfold parse_pkcs7_chain. apply quiet_bind; [|intros certs _; by case_bool_decide].
  apply quiet_map. intros der. unfold blob_certificates.
  destruct (load_der_pkcs7 der) as [e|l] eqn:Hl; [|done].
  destruct (unreadable e); [|by apply quiet_raise, (quiet_load_pkcs7 der)].
  destruct (load_der_certificate der) as [e'|c] eqn:Hd; [|done].
  destruct (unreadable e'); [done|by apply quiet_raise, (quiet_load_der der)].
Qed.
End quiet.

(** ** One request *)

Section reading.
Context `{Certsrv}.

Lemma quiet_redirect resp what : quiet_res (reject_redirect resp what).
Proof. unfold reject_redirect. by case_match. Qed.
Lemma quiet_status resp : quiet_res (raise_for_status resp).
Proof. unfold raise_for_status. case_match; [by apply quiet_raise|done]. Qed.
Lemma quiet_chunks n reads received : quiet_res (read_chunks n reads received).
Proof.
  revert received. induction reads as [|[|text|octets] reads IH]; intros received; simpl;
    (case_match; [done|]); try done; try (by apply quiet_raise).
  case_bool_decide; [done|apply IH].
Qed.
Lemma quiet_body resp n what : quiet_res (read_capped_body resp n what).
Proof.
  unfold read_capped_body. case_match; [done|]. destruct (body_of resp) as [reads late|l b l'].
  - apply quiet_bind; [apply quiet_chunks|]. intros body _.
    destruct late; [by apply quiet_raise|]. by case_match.
  - destruct (l || l'); [by apply quiet_raise|]. by case_match.
Qed.

(** No more than the limit is taken. *)
Lemma body_bounded resp n what body :
  read_capped_body resp n what = inr body → Z.of_nat (length body) ≤ n.
Proof.
  unfold read_capped_body. case_match; [done|]. destruct (body_of resp) as [reads late|l b l'].
  - rewrite res_bind_ok. intros (x & _ & Hx). destruct late; [done|].
    destruct (n <? _) eqn:Hn; [done|]. injection Hx as <-. by apply Z.ltb_ge.
  - destruct (l || l'); [done|]. destruct (n <? _) eqn:Hn; [done|]. intros [= <-]. by apply Z.ltb_ge.
Qed.
End reading.

(** ** The steps of an enrollment *)

(** Steps that leave the locals alone. *)
Definition stateless {A} (m : Leg A) : Prop := ∀ c, m c = ((m nothing_issued).1, c).

Lemma stateless_lift {A} (m : Res Exn A) : stateless (lift m).
Proof. done. Qed.
Lemma stateless_bind {A B} (m : Leg A) (k : A → Leg B) :
  stateless m → (∀ x, stateless (k x)) → stateless (m ≫= k).
Proof.
  intros Hm Hk c. unfold mbind, leg_bind. rewrite (Hm c), (Hm nothing_issued). simpl.
  destruct (m nothing_issued).1; [done|]. apply Hk.
Qed.

(** Steps after the CA has issued: they keep what is known, and their
    exceptions are quiet. *)
Definition settles {A} (r : string) (m : Leg A) : Prop :=
  ∀ c x c', m c = (x, c') → issued_req_id c = Some r →
    issued_req_id c' = Some r ∧ issued_cert_pem c' = issued_cert_pem c
    ∧ ∀ e, x = inl e → quiet e.

Lemma settles_lift {A} r (m : Res Exn A) : quiet_res m → settles r (lift m).
Proof. intros Hm c x c' [= <- <-] Hc. by split_and!. Qed.
Lemma settles_bind {A B} r (m : Leg A) (k : A → Leg B) :
  settles r m → (∀ x, settles r (k x)) → settles r (m ≫= k).
Proof.
  intros Hm Hk c y c' Hr Hc. unfold mbind, leg_bind in Hr. destruct (m c) as [[e|x] c1] eqn:Hmc.
  - injection Hr as <- <-. destruct (Hm _ _ _ Hmc Hc) as (H1 & H2 & H3).
    split_and!; [done|done|]. intros e' [= <-]. by apply H3.
  - destruct (Hm _ _ _ Hmc Hc) as (H1 & H2 & _). destruct (Hk _ _ _ _ Hr H1) as (H3 & H4 & H5).
    split_and!; [done|congruence|done].
Qed.
Lemma settles_chain r l : settles r (commit (set_chain_pem l)).
Proof. intros c x c' [= <- <-] Hc. by split_and!. Qed.

Section legs.
Context `{EnrollBackend, Certsrv}.
Context (leg : CertsrvLeg).

Lemma stateless_exchange {A} what r (use : HttpResponse → list Z → Leg A) :
  (∀ resp body, stateless (use resp body)) → stateless (exchange leg what r use).
Proof.
  intros Hu c. unfold exchange. destruct (expired_before _); [done|].
  destruct (reply _) as [text|resp]; [done|]. revert c.
  repeat (apply stateless_bind; [apply stateless_lift || apply Hu|intros ?]). apply stateless_lift.
Qed.
Lemma settles_exchange {A} id what r (use : HttpResponse → list Z → Leg A) :
  (∀ resp body, settles id (use resp body)) → settles id (exchange leg what r use).
Proof.
  intros Hu. unfold exchange. destruct (expired_before _); [by apply settles_lift, quiet_raise|].
  destruct (reply _) as [text|resp]; [by apply settles_lift, quiet_raise|].
  apply settles_bind; [apply settles_lift, quiet_redirect|intros ?].
  apply settles_bind; [apply settles_lift, quiet_status|intros ?].
  apply settles_bind; [apply settles_lift, quiet_body|intros ?].
  apply settles_bind; [apply Hu|intros ?]. apply settles_lift.
  destruct (expired_after _); [by apply quiet_raise|done].
Qed.

Lemma certfnsh_stateless csr : stateless (certfnsh leg csr).
Proof. by apply stateless_exchange. Qed.
Lemma certfnsh_quiet csr : quiet_res (certfnsh leg csr nothing_issued).1.
Proof.
  assert (settles "" (certfnsh leg csr)) as Hs by (by apply settles_exchange; intros ??; apply settles_lift).
  intros e He. destruct (certfnsh leg csr (set_req_id "" nothing_issued)) as [x c] eqn:Hc.
  destruct (Hs _ _ _ Hc eq_refl) as (_ & _ & Hq). apply Hq.
  rewrite certfnsh_stateless in Hc. injection Hc as Hx _. by rewrite <- Hx.
Qed.
Lemma certnew_stateless id : stateless (certnew leg id).
Proof. by apply stateless_exchange. Qed.

(** What fetching the certificate may raise. *)
Lemma certnew_raises id e :
  (certnew leg id nothing_issued).1 = inl e →
  quiet e ∨ ∃ msg, e = EnrollmentTransportError msg (Some id) None [].
Proof.
  unfold certnew, exchange. destruct (expired_before _); [intros [= <-]; by left|].
  destruct (reply _) as [text|resp]; [intros [= <-]; by left|].
  unfold mbind, leg_bind, lift.
  destruct (reject_redirect _ _) as [e'|[]] eqn:Hred; simpl.
  { intros [= <-]. left. by eapply quiet_redirect. }
  destruct (raise_for_status _) as [e'|[]] eqn:Hst; simpl.
  { intros [= <-]. left. by eapply quiet_status. }
  destruct (read_capped_body _ _ _) as [e'|body] eqn:Hb; simpl.
  { intros [= <-]. left. by eapply quiet_body. }
  destruct (parse_cert_body body) as [exc|pem]; simpl.
  - intros [= <-]. right. by eexists.
  - destruct (expired_after _); [|done]. intros [= <-]. by left.
Qed.
End legs.

(** ** What the caller is told *)

Definition answer_of (r : Res Exn EnrollmentResult) : CaAnswer :=
  match r with inr x => CaIssues x | inl e => CaRaises e end.
(** The request the answer names. *)
Definition reported_id (r : Res Exn EnrollmentResult) : option string :=
  match r with
  | inr x => match dict_get "req_id" (er_metadata x) with Some (JStr id) => Some id | _ => None end
  | inl (EnrollmentTransportError _ id _ _) => id
  | inl (EnrollmentPending _ id) => Some id
  | inl _ => None
  end.

Section told.
Context `{LibraryExceptions, Certsrv}.
Context (leg : CertsrvLeg).

Lemma reported_quiet e c r :
  quiet e → issued_req_id c = Some r →
  ∃ msg chain, reported leg e c = EnrollmentTransportError msg (Some r) (issued_cert_pem c) chain.
Proof.
  intros Hq Hc. unfold reported. destruct e; try done; rewrite Hc; try by eexists _, _.
  destruct Hq as (-> & _ & _). by eexists _, _.
Qed.
Lemma reported_bare e :
  quiet e → ∃ msg, reported leg e nothing_issued = EnrollmentTransportError msg None None [].
Proof.
  intros Hq. unfold reported. destruct e; try done; try by eexists.
  destruct Hq as (-> & -> & ->). by eexists.
Qed.

(** The steps after the certificate was fetched. *)
Definition after_certificate (csr : string) (sans : list string) (id pem : string) :
    Leg (string * string * list string) :=
  lift (check_binding leg pem csr sans);;
  renewals ← certcarc leg;
  chain ← certnew_chain leg pem renewals;
  mret (id, pem, chain).
Lemma settles_rest id pem csr sans : settles id (after_certificate csr sans id pem).
Proof using H H0 H1.
  apply settles_bind; [apply settles_lift, quiet_check_binding|intros _].
  apply settles_bind; [by apply settles_exchange; intros ??; apply settles_lift|intros renewals].
  apply settles_bind; [|intros chain; by apply (settles_lift _ (inr _))].
  apply settles_exchange. intros resp body.
  apply settles_bind; [apply settles_lift, quiet_parse_chain|intros l].
  apply settles_bind; [apply settles_chain|intros _].
  apply settles_bind; [apply settles_lift, quiet_chain_binds|intros _].
  by apply (settles_lift _ (inr _)).
Qed.

Definition opens : Prop :=
  (platform_is_win32 leg = true ∨ session_factory leg = true) ∧ session_opens leg = inr tt.

Lemma submit_opens csr sans :
  opens → submit_csr leg csr sans =
  match enroll leg csr sans nothing_issued with
  | (inl e, c) => inl (reported leg e c)
  | (inr (req_id, cert_pem, chain_pem), _) =>
    inr {| er_cert_pem := cert_pem; er_chain_pem := chain_pem; er_template := leg_template leg;
           er_requester := process_requester leg; er_metadata := result_metadata leg req_id |}
  end.
Proof.
  intros [Hp Hs]. unfold submit_csr. rewrite Hs.
  by destruct (platform_is_win32 leg), (session_factory leg); destruct Hp.
Qed.

Lemma leg_bind_eq {A B} (m : Leg A) (k : A → Leg B) c :
  (m ≫= k) c = match m c with (inr x, c) => k x c | (inl e, c) => (inl e, c) end.
Proof. done. Qed.

(** Once the CA has issued under an id. *)
Lemma enroll_after_issue csr sans id :
  (certfnsh leg csr nothing_issued).1 = inr (issued, id) →
  enroll leg csr sans nothing_issued =
  match (certnew leg id nothing_issued).1 with
  | inl e => (inl e, set_req_id id nothing_issued)
  | inr pem =>
    after_certificate csr sans id pem (set_cert_pem pem (set_req_id id nothing_issued))
  end.
Proof.
  intros Hd. unfold enroll. rewrite leg_bind_eq, certfnsh_stateless, Hd, leg_bind_eq. simpl.
  rewrite leg_bind_eq. simpl. rewrite leg_bind_eq, certnew_stateless.
  by destruct (certnew leg id nothing_issued).1.
Qed.
Lemma enroll_issued csr sans id :
  (certfnsh leg csr nothing_issued).1 = inr (issued, id) →
  (∃ pem chain c, enroll leg csr sans nothing_issued = (inr (id, pem, chain), c)
     ∧ (certnew leg id nothing_issued).1 = inr pem)
  ∨ ∃ e c msg pem chain, enroll leg csr sans nothing_issued = (inl e, c)
      ∧ reported leg e c = EnrollmentTransportError msg (Some id) pem chain
      ∧ ∀ p, (certnew leg id nothing_issued).1 = inr p → pem = Some p.
Proof using H H0 H1.
  intros Hd. rewrite (enroll_after_issue csr sans id Hd).
  destruct (certnew leg id nothing_issued).1 as [e|pem] eqn:Hn.
  - right. exists e, (set_req_id id nothing_issued). apply certnew_raises in Hn as [Hq|[msg ->]].
    + destruct (reported_quiet e (set_req_id id nothing_issued) id Hq eq_refl) as (msg & chain & Hr).
      exists msg, None, chain. by split_and!.
    + exists msg, None, []. by split_and!.
  - set (c2 := set_cert_pem pem (set_req_id id nothing_issued)).
    destruct (after_certificate csr sans id pem c2) as [[e|[[i p] chain]] c] eqn:Hrest.
    + right. destruct (settles_rest id pem csr sans _ _ _ Hrest eq_refl) as (Hid & Hpem & Hq).
      destruct (reported_quiet e c id (Hq e eq_refl) Hid) as (msg & chain & Hr).
      exists e, c, msg, (Some pem), chain. split_and!; [done| |by intros ? [= ->]].
      by rewrite Hr, Hpem.
    + left. exists pem, chain, c. split; [|done]. unfold after_certificate in Hrest.
      rewrite leg_bind_eq in Hrest. simpl in Hrest.
      destruct (check_binding leg pem csr sans); [done|]. rewrite leg_bind_eq in Hrest.
      destruct (certcarc leg c2) as [[|r] c3]; [done|]. rewrite leg_bind_eq in Hrest.
      destruct (certnew_chain leg pem r c3) as [[|ch] c4]; [done|]. by injection Hrest as <- <- <- <-.
Qed.

(** C12 Nothing the CA has issued is lost from sight.  Where the answer to the
    submission was read as issued, the caller is told the CA's request id
    however the enrollment ends (a result, or an error that names it), with the
    certificate wherever it could be fetched: so the certificate counts as
    issued in the account that the issuance theorems keep.  A pending request
    is told with its id, a denial as such, and anything else says that nothing
    was issued. *)
Theorem issuance_reported order csr sans :
  opens →
  let told := submit_csr leg csr sans in
  match (certfnsh leg csr nothing_issued).1 with
  | inr (issued, id) =>
    reported_id told = Some id
    ∧ ∃ pem, issued_of order (answer_of told) = [{| iss_order := order; iss_pem := pem |}]
        ∧ ∀ p, (certnew leg id nothing_issued).1 = inr p → pem = Some p
  | inr (pending, id) => ∃ msg, told = inl (EnrollmentPending msg id)
  | inr (denied, _) => ∃ msg, told = inl (EnrollmentDenied msg)
  | inr (unknown, _) | inl _ => ∃ msg, told = inl (EnrollmentTransportError msg None None [])
  end.
Proof using H H0 H1.
  intros Ho. cbv zeta. rewrite submit_opens by done.
  destruct (certfnsh leg csr nothing_issued).1 as [e|[d id]] eqn:Hd.
  - pose proof (certfnsh_quiet leg csr e Hd) as Hq.
    unfold enroll. rewrite leg_bind_eq, certfnsh_stateless, Hd.
    destruct (reported_bare e Hq) as [msg Hr]. exists msg. by rewrite Hr.
  - destruct d.
    + destruct (enroll_issued csr sans id Hd) as
        [(pem & chain & c & -> & Hn)|(e & c & msg & pem & chain & -> & Hr & Hp)].
      * split; [done|]. exists (Some pem). split; [done|]. intros p Hp. congruence.
      * rewrite Hr. split; [done|]. by exists pem.
    + unfold enroll. rewrite leg_bind_eq, certfnsh_stateless, Hd.
      by eexists.
    + unfold enroll. rewrite leg_bind_eq, certfnsh_stateless, Hd.
      by eexists.
    + unfold enroll. rewrite leg_bind_eq, certfnsh_stateless, Hd.
      by eexists.
Qed.
End told.

(** ** What is returned belongs to the request *)

Lemma res_map_in {A B} (f : A → Res Exn B) l ys y :
  res_map f l = inr ys → y ∈ ys → ∃ x, x ∈ l ∧ f x = inr y.
Proof.
  revert ys. induction l as [|x l IH]; intros ys; simpl.
  { intros [= <-] Hy. by apply not_elem_of_nil in Hy. }
  rewrite res_bind_ok. intros (z & Hz & Hr). rewrite res_bind_ok in Hr.
  destruct Hr as (zs & Hzs & [= <-]). intros [->|Hy]%elem_of_cons; [by exists x; split; [left|]|].
  destruct (IH _ Hzs Hy) as (w & ? & ?). exists w. split; [by right|done].
Qed.

Lemma or_transport_ok {A} text (m : Res Exn A) x : or_transport_error text m = inr x → m = inr x.
Proof. unfold or_transport_error. destruct m as [e|]; [by destruct (unreadable e)|by intros [= ->]]. Qed.

Lemma lift_ok {A B} (m : Res Exn A) (k : A → Leg B) c y c' :
  (lift m ≫= k) c = (inr y, c') → ∃ x, m = inr x ∧ k x c = (inr y, c').
Proof. rewrite leg_bind_eq. unfold lift. destruct m as [|x]; [done|]. by exists x. Qed.

Section belongs.
Context `{EnrollBackend, Certsrv}.
Context (leg : CertsrvLeg).

(** A request that was answered in time, and what was made of the answer. *)
Lemma exchange_ok {A} what r (use : HttpResponse → list Z → Leg A) c a c' :
  exchange leg what r use c = (inr a, c') →
  ∃ resp body, reply (answer r) = inr resp ∧ use resp body c = (inr a, c')
    ∧ Z.of_nat (length body) ≤ max_response_bytes leg.
Proof.
  unfold exchange. destruct (expired_before _); [done|].
  destruct (reply _) as [text|resp]; [done|].
  intros ([] & _ & Hx)%lift_ok. apply lift_ok in Hx as ([] & _ & Hx).
  apply lift_ok in Hx as (body & Hb & Hx). rewrite leg_bind_eq in Hx.
  destruct (use resp body c) as [[|a'] c1] eqn:Hu; [done|]. unfold lift in Hx.
  destruct (expired_after _); [done|]. injection Hx as -> ->. exists resp, body.
  split_and!; [done|done|by eapply body_bounded].
Qed.

Definition matches_csr (leaf : Certificate) (csr : SigningRequest) (sans : list string) : Prop :=
  ∃ key names, certificate_spki leaf = inr key ∧ csr_spki csr = inr key
  ∧ common_names leaf = inr names
  ∧ ∀ cn, cn ∈ names → ∃ name, cn = Some name
      ∧ authorized_name name ∈ map authorized_name sans.

Lemma check_binding_ok pem csr_pem sans :
  check_binding leg pem csr_pem sans = inr tt →
  (session_factory leg = false → ∃ csr, load_pem_csr csr_pem = inr csr)
  ∧ ∀ csr, load_pem_csr csr_pem = inr csr →
      ∃ leaf, load_pem pem = inr leaf ∧ matches_csr leaf csr sans.
Proof.
  unfold check_binding. destruct (load_pem_csr csr_pem) as [e|csr] eqn:Hcsr.
  { destruct (unreadable e); [|done]. by destruct (session_factory leg). }
  intros Hv. split; [by eexists|]. intros ? [= <-].
  unfold validate_issued_certificate_binding in Hv. rewrite res_bind_ok in Hv.
  destruct Hv as ([leaf r] & Hboth%or_transport_ok & Hv). rewrite res_bind_ok in Hboth.
  destruct Hboth as (leaf' & Hleaf & Hboth). rewrite Hcsr in Hboth. simpl in Hboth.
  injection Hboth as -> ->. exists leaf. split; [done|]. simpl in Hv. rewrite res_bind_ok in Hv.
  destruct Hv as (key & Hkey & Hv). rewrite res_bind_ok in Hv. destruct Hv as (key' & Hkey' & Hv).
  case_bool_decide as Hne; [done|].
  assert (key = key') as -> by (destruct (decide (key = key')); naive_solver).
  rewrite res_bind_ok in Hv. destruct Hv as (names & Hn & Hv). exists key', names.
  split_and!; [done..|]. rewrite res_iter_ok, Forall_forall in Hv. intros cn Hcn.
  specialize (Hv cn Hcn). unfold check_common_name in Hv. destruct cn as [name|]; [|done].
  case_bool_decide; [|done]. by exists name.
Qed.

Lemma chain_binds_ok pem chain :
  validate_chain_binds_to_leaf pem chain = inr tt →
  ∃ leaf entry ca, load_pem pem = inr leaf ∧ entry ∈ chain ∧ load_pem entry = inr ca
    ∧ issued_by leaf ca.
Proof.
  unfold validate_chain_binds_to_leaf. rewrite res_bind_ok.
  intros ([leaf l] & Hboth%or_transport_ok & Hv). rewrite res_bind_ok in Hboth.
  destruct Hboth as (leaf' & Hleaf & Hboth). rewrite res_bind_ok in Hboth.
  destruct Hboth as (l' & Hl & Hboth). injection Hboth as -> ->. simpl in Hv.
  rewrite res_bind_ok in Hv. destruct Hv as ([ca|] & Hf & Hv); [|done].
  apply first_issuer_ok in Hf as [Hin Hby]. destruct (res_map_in _ _ _ _ Hl Hin) as (entry & He & Hca).
  by exists leaf, entry, ca.
Qed.

(** C13 What an enrollment returns belongs to its request.  The id is the one
    the CA's own page gave; the certificate carries the key of the CSR and no
    common name that was not asked for; some certificate of the chain has the
    name of the leaf's issuer and verifies its signature; and (outside the tests
    that inject a session) the CSR was readable. *)
Theorem enrollment_bound csr_pem sans res :
  submit_csr leg csr_pem sans = inr res →
  (∃ id, reported_id (inr res) = Some id ∧ decimal id
         ∧ (certfnsh leg csr_pem nothing_issued).1 = inr (issued, id))
  ∧ (session_factory leg = false → ∃ csr, load_pem_csr csr_pem = inr csr)
  ∧ ∃ leaf, load_pem (er_cert_pem res) = inr leaf
      ∧ (∀ csr, load_pem_csr csr_pem = inr csr → matches_csr leaf csr sans)
      ∧ ∃ entry ca, entry ∈ er_chain_pem res ∧ load_pem entry = inr ca ∧ issued_by leaf ca.
Proof.
  unfold submit_csr. destruct (_ && _); [done|]. destruct (session_opens leg); [done|].
  destruct (enroll leg csr_pem sans nothing_issued) as [[e|[[id pem] chain]] c] eqn:He; [done|].
  intros [= <-]. cbn [er_cert_pem er_chain_pem]. unfold enroll in He.
  rewrite leg_bind_eq, certfnsh_stateless in He.
  destruct (certfnsh leg csr_pem nothing_issued).1 as [e|[d id']] eqn:Hd; [done|].
  apply lift_ok in He as (r & Hr & He). destruct d; try done. injection Hr as <-.
  rewrite leg_bind_eq in He. simpl in He. rewrite leg_bind_eq in He.
  destruct (certnew leg id' _) as [[e|pem'] c1]; [done|]. rewrite leg_bind_eq in He. simpl in He.
  apply lift_ok in He as ([] & Hbind & He). rewrite leg_bind_eq in He.
  destruct (certcarc leg _) as [[e|renewals] c2]; [done|]. rewrite leg_bind_eq in He.
  destruct (certnew_chain leg pem' renewals c2) as [[e|chain'] c3] eqn:Hchain; [done|].
  injection He as -> -> -> ->. split; [exists id; split; [done|]; split; [|done]|].
  { destruct (exchange_ok "certfnsh.asp" (certfnsh_request leg csr_pem) _ _ _ _
                (eq_trans (certfnsh_stateless leg csr_pem nothing_issued) (f_equal2 pair Hd eq_refl)))
      as (resp & body & _ & Hu & _).
    injection Hu as Hu. by eapply issued_decimal. }
  apply check_binding_ok in Hbind as [Hreadable Hcsr]. split; [done|].
  apply exchange_ok in Hchain as (resp & body & _ & Hu & _). apply lift_ok in Hu as (l & _ & Hu).
  rewrite leg_bind_eq in Hu. simpl in Hu. apply lift_ok in Hu as ([] & Hv & Hu).
  injection Hu as -> _. apply chain_binds_ok in Hv as (leaf & entry & ca & Hleaf & Hin & Hca & Hby).
  exists leaf. split; [done|]. split; [|by exists entry, ca]. intros csr Hc.
  destruct (Hcsr csr Hc) as (leaf' & Hl & Hm). congruence.
Qed.

(** C38 Where sight is lost all the same.  The deadline is tested once more
    between reading the CA's verdict and taking it down: a page that says
    issued (or pending), read when the deadline has just passed, is answered
    with an error that names no request, and the account says that nothing was
    issued. *)
Theorem late_verdict_lost order csr sans resp body :
  opens leg →
  let x := answer (certfnsh_request leg csr) in
  expired_before x = false → reply x = inr resp → expired_after x = true →
  reject_redirect resp "certfnsh.asp" = inr tt → raise_for_status resp = inr tt →
  read_capped_body resp (max_response_bytes leg) "certfnsh.asp" = inr body →
  let told := submit_csr leg csr sans in
  reported_id told = None ∧ issued_of order (answer_of told) = [].
Proof.
  intros Ho x Hb Hr Ha Hred Hst Hbody. cbv zeta. rewrite submit_opens by done.
  assert (certfnsh leg csr nothing_issued = (inl deadline_expired, nothing_issued)) as Hc.
  { unfold certfnsh, exchange. fold x. rewrite Hb, Hr. unfold mbind, leg_bind, lift.
    rewrite Hred, Hst, Hbody. simpl. by rewrite Ha. }
  unfold enroll. rewrite leg_bind_eq, Hc. done.
Qed.
End belongs.
