(* ===== verification/Witnesses.v ===== *)
(** * Concrete instances of the claims

    A small deployment: two accounts, an order taken through its life, a
    certificate parser that reads one fixed certificate.  Each witness applies
    a claim to it and discharges the hypotheses by evaluation. *)

From S2P Require Import Prelude PyStr Time Json Exn AuditBounds Policy Jwk Sql Db StoreAudit.
From S2P Require Import StoreAccounts StoreOrders Act World Coalesce X509 CsrCheck.
From S2P Require Import StoreCerts Responses Finalize RoutesOrders RoutesAdmin RoutesAccounts.
From S2P Require Import StoreRecovery StoreInv StoreOps Calm CalmActs Protocol Issuance.
From S2P Require Import OrderTheorems OrderCreation CertTheorems SerialTheorems NonceTheorems.
From S2P Require Import AccountTheorems.
From stdpp Require Import pretty.
Local Open Scope Z_scope.

(** ** The deployment *)

Definition demo_extensions : Extensions :=
  {| subject_alternative_name := Some [DNSName "a.example"]; basic_constraints := None;
     key_usage := None; extended_key_usage := Some (Some ["1.3.6.1.5.5.7.3.1"%string]);
     ms_application_policies := false |}.
Definition demo_parser : CertParser := λ pem,
  if decide (pem = "PEM"%string)
  then inr {| cert_serial_number := 255; not_valid_before_utc := 0;
              not_valid_after_utc := 7776000; cert_extensions := inr demo_extensions |}
  else inl ValueError.
#[local] Existing Instance demo_parser.

Definition demo_uuid (n : nat) : string := "u" +:+ pretty (N.of_nat n).
Definition demo_urls : UrlFns :=
  {| challenge_url_fn := λ i, "/chall/" +:+ i; authz_url_fn := λ i, "/authz/" +:+ i;
     finalize_url_fn := λ i, "/finalize/" +:+ i |}.
Definition demo_ident : dict := [("type", JStr "dns"); ("value", JStr "a.example")]%string.

(** The P-256 base point, as a JWK. *)
Definition demo_jwk : json := JObj
  [("kty", JStr "EC"); ("crv", JStr "P-256");
   ("x", JStr "axfR8uEsQkf4vOblY6RA8ncDfYEt6zOg9KE5RdiYwpY");
   ("y", JStr "T-NC4v4af5uO5-tKfA-eFivOM1drMV7Oy7ZAaDe_UfU")]%string.

Definition demo_audit (e : string) : AuditArgs :=
  {| event_type := e; account_id := None; order_id := None; sans := []; template := None;
     requester := None; outcome := "success"; details := None |}.

Definition exec {A} (m : Tx A) (d : Db) : Db := (transact m d).2.

Definition demo_create : Tx (Account.t * Audit.t) :=
  create_account_with_audit 100 "acct" demo_jwk "kid" AccountStatus.VALID None
    (demo_audit "account-created") 1.
Definition demo_account : Db := Eval vm_compute in exec demo_create empty_db.
Definition demo_order : Tx Order.t :=
  create_order_with_authz 100 demo_uuid 3600 "acct" [demo_ident] demo_urls (Some 60) 5 10.
Definition demo_pending : Db := Eval vm_compute in exec demo_order demo_account.
Definition demo_ready : Db := Eval vm_compute in
  exec (transition_pending_to_ready 101 "u0") demo_pending.
Definition demo_processing : Db := Eval vm_compute in
  exec (acquire_processing_lease 102 "u0") demo_ready.
Definition demo_reopened : Db := Eval vm_compute in
  exec (transition_processing_to_ready 103 "u0" (Some 1)) demo_processing.
Definition demo_processing2 : Db := Eval vm_compute in
  exec (acquire_processing_lease 104 "u0") demo_reopened.

Lemma exec_step {A} (m : Tx A) x d d' :
  store_tx m → m d = inr (x, d') → store_step d d'.
Proof. intros Hm Heq. by exists A, m, x. Qed.

Lemma demo_account_step : store_step empty_db demo_account.
Proof.
  eapply (exec_step demo_create); [constructor|].
  by vm_compute.
Qed.
Lemma demo_pending_step : store_step demo_account demo_pending.
Proof. eapply (exec_step demo_order); [constructor|by vm_compute]. Qed.
Lemma demo_ready_step : store_step demo_pending demo_ready.
Proof. eapply exec_step; [apply (T_transition_pending_to_ready 101 "u0")|by vm_compute]. Qed.
Lemma demo_processing_step : store_step demo_ready demo_processing.
Proof. eapply exec_step; [apply (T_acquire_processing_lease 102 "u0")|by vm_compute]. Qed.
Lemma demo_reopened_step : store_step demo_processing demo_reopened.
Proof.
  eapply exec_step; [apply (T_transition_processing_to_ready 103 "u0" (Some 1))|by vm_compute].
Qed.
Lemma demo_processing2_step : store_step demo_reopened demo_processing2.
Proof. eapply exec_step; [apply (T_acquire_processing_lease 104 "u0")|by vm_compute]. Qed.

Lemma wf_step d d' : wf d → store_step d d' → wf d'.
Proof. intros Hwf Hstep. by eapply store_step_ok. Qed.

Lemma wf_demo_account : wf demo_account.
Proof. eapply wf_step; [apply wf_empty|apply demo_account_step]. Qed.
Lemma wf_demo_pending : wf demo_pending.
Proof. eapply wf_step; [apply wf_demo_account|apply demo_pending_step]. Qed.
Lemma wf_demo_ready : wf demo_ready.
Proof. eapply wf_step; [apply wf_demo_pending|apply demo_ready_step]. Qed.
Lemma wf_demo_processing : wf demo_processing.
Proof. eapply wf_step; [apply wf_demo_ready|apply demo_processing_step]. Qed.
Lemma wf_demo_reopened : wf demo_reopened.
Proof. eapply wf_step; [apply wf_demo_processing|apply demo_reopened_step]. Qed.
Lemma wf_demo_processing2 : wf demo_processing2.
Proof. eapply wf_step; [apply wf_demo_reopened|apply demo_processing2_step]. Qed.

#[local] Hint Resolve wf_empty wf_demo_account wf_demo_pending wf_demo_ready
  wf_demo_processing wf_demo_reopened wf_demo_processing2 : demo.
#[local] Hint Resolve rtc_once demo_account_step demo_pending_step demo_ready_step
  demo_processing_step demo_reopened_step demo_processing2_step : demo.

(** ** Orders and leases *)

Lemma reachable_wf_witness : wf demo_pending.
Proof.
  apply (reachable_wf demo_pending). eapply rtc_l; [apply demo_account_step|].
  apply rtc_once, demo_pending_step.
Defined.

Lemma order_history_witness :
  ∃ o', find_order "u0" demo_reopened = Some o'
        ∧ Order.status o' = OrderStatus.READY.
Proof.
  destruct (find_order "u0" demo_processing) as [o|] eqn:Ho; [|vm_compute in Ho; discriminate Ho].
  destruct (order_history "u0" demo_processing demo_reopened o wf_demo_processing
              (rtc_once _ _ demo_reopened_step) Ho) as (o' & Ho' & _).
  exists o'. split; [exact Ho'|]. vm_compute in Ho'. injection Ho' as <-. reflexivity.
Defined.

(** An order named by evaluation. *)
Ltac by_eval := vm_compute; reflexivity.

Definition demo_order_row : Order.t := Eval vm_compute in
  default (Order.set_status OrderStatus.INVALID
             {| Order.id := ""; Order.account_id := ""; Order.status := OrderStatus.INVALID;
                Order.identifiers := []; Order.authorizations := []; Order.finalize_url := "";
                Order.certificate_url := None; Order.expires := 0; Order.created_at := 0;
                Order.updated_at := 0; Order.processing_started_at := None;
                Order.processing_generation := 0; Order.pending_ca_request_id := None |})
    (find_order "u0" demo_reopened).

Lemma lease_lapsed_for_good_witness :
  holds_processing_lease "u0" 1 demo_processing2 = inr (false, demo_processing2).
Proof.
  apply (lease_lapsed_for_good "u0" 1 demo_reopened demo_processing2 demo_order_row);
    [apply wf_demo_reopened|apply rtc_once, demo_processing2_step|by_eval|vm_compute; discriminate
    |by_eval].
Defined.

Lemma acquire_processing_lease_spec_witness :
  acquire_processing_lease 102 "u0" demo_ready = inr (Some 1, demo_processing).
Proof.
  rewrite (acquire_processing_lease_spec 102 "u0" demo_ready wf_demo_ready). by_eval.
Defined.

Lemma lease_exclusive_witness :
  1 < 2 ∧ holds_processing_lease "u0" 1 demo_processing2 = inr (false, demo_processing2).
Proof.
  apply (lease_exclusive 102 104 "u0" demo_ready demo_processing demo_reopened
           demo_processing2 demo_processing2 1 2);
    [apply wf_demo_ready|by_eval|apply rtc_once, demo_reopened_step|by_eval|apply rtc_refl].
Defined.

Lemma lease_cas_witness :
  ∃ d1, transition_processing_to_ready 105 "u0" (Some 1) demo_processing2 = inr (false, d1)
        ∧ d1 = demo_processing2.
Proof.
  destruct (lease_cas 105 "u0" 1 "/cert/1" demo_processing2 wf_demo_processing2)
    as (b & Hb & (d1 & Hd1 & Hno) & _).
  assert (b = false) as -> by (vm_compute in Hb; injection Hb as <-; reflexivity).
  exists d1. split; [exact Hd1|exact (Hno eq_refl)].
Defined.

(** ** Creation and expiry *)

Lemma sweep_expired_orders_spec_witness :
  ∃ d', sweep_expired_orders 3700 demo_ready = inr (1, d').
Proof.
  rewrite (sweep_expired_orders_spec 3700 demo_ready wf_demo_ready). eexists. by_eval.
Defined.

Definition demo_new_order : Order.t := Eval vm_compute in
  match demo_order demo_account with inr (o, _) => o | inl _ => demo_order_row end.

Lemma create_order_within_limits_witness :
  recent_order_count demo_pending 40 ≤ 10.
Proof.
  destruct (create_order_within_limits 100 demo_uuid 3600 "acct" [demo_ident] demo_urls 60 5 10
              demo_account demo_new_order demo_pending) as [_ Hgl]; [by_eval|].
  apply Hgl. reflexivity.
Defined.

Lemma create_order_stored_witness :
  find_order "u0" demo_pending = Some demo_new_order.
Proof.
  destruct (create_order_stored 100 demo_uuid 3600 "acct" [demo_ident] demo_urls (Some 60) 5 10
              demo_account demo_new_order demo_pending) as [Hf _]; [by_eval|].
  exact Hf.
Defined.

(** ** Issuance *)

Definition demo_issue : Act Db (Cert.t * bool * Audit.t) :=
  record_issuance 105 "cert1" "u0" "acct" "PEM" ["CA"]%string "Web" "req" None
    (λ i, "/cert/" +:+ i) ["a.example"]%string "" (Some 2).
Definition demo_issued : Db := Eval vm_compute in default empty_db (snd <$> run demo_issue demo_processing2).

Definition demo_issue_event : Audit.t := Eval vm_compute in
  match run demo_issue demo_processing2 with
  | Some (inr (_, _, ev), _) => ev
  | _ => {| Audit.id := 0; Audit.event_type := ""; Audit.account_id := None;
                Audit.order_id := None; Audit.sans := []; Audit.template := None;
                Audit.requester := None; Audit.outcome := ""; Audit.details := [];
                Audit.timestamp := 0 |}
  end.
Definition demo_cert : Cert.t := Eval vm_compute in
  cert_row "cert1" "u0" "acct" "PEM" ["CA"]%string "Web" "req" 105 None "FF"
    CertStatus.VALID None None (0, 7776000).


Lemma demo_issued_step : store_step demo_processing2 demo_issued.
Proof.
  eapply exec_step; [apply (T_record_issuance 105 None "cert1" 105 "u0" "acct" "PEM" ["CA"]%string
    "Web" "req" None "FF" (0, 7776000) "/cert/cert1" ["a.example"]%string "" (Some 2))|].
  by vm_compute.
Qed.
Lemma wf_demo_issued : wf demo_issued.
Proof. eapply wf_step; [apply wf_demo_processing2|apply demo_issued_step]. Qed.

Definition demo_reissue : Act Db (Cert.t * bool * Audit.t) :=
  record_issuance 106 "cert2" "u0" "acct" "PEM" []  "Web" "req" None
    (λ i, "/cert/" +:+ i) [] "" (Some 1).

Lemma record_issuance_second_untracked_witness :
  certificates <$> (snd <$> run demo_reissue demo_issued) = Some (certificates demo_issued).
Proof.
  destruct (run demo_reissue demo_issued) as [[r d']|] eqn:Hrun; [|discriminate].
  destruct r as [e|[[rec applied] ev]]; [discriminate Hrun|].
  destruct (record_issuance_second_untracked 106 "cert2" "u0" "acct" "PEM" [] "Web" "req" None
    (λ i, "/cert/" +:+ i) [] "" (Some 1) demo_issued demo_cert rec applied ev d'
    wf_demo_issued) as [Hcerts _]; [by_eval|exact Hrun|].
  simpl. by rewrite Hcerts.
Defined.

(** ** Quarantine, revocation, confirmation *)

Definition demo_quarantine : Tx (Cert.t * Audit.t) :=
  quarantine_certificate 105 "cert1" "u0" "acct" "PEM" [] "Web" "req" None
    "san-mismatch" ["extra"]%string "bad" [] None.
Definition demo_quarantined : Db := Eval vm_compute in exec demo_quarantine demo_processing2.

Lemma quarantine_never_served_witness :
  ∃ o', find_order "u0" demo_quarantined = Some o' ∧ Order.status o' = OrderStatus.INVALID.
Proof.
  destruct (demo_quarantine demo_processing2) as [e|[[c ev] d1]] eqn:Hq;
    [vm_compute in Hq; discriminate Hq|].
  destruct (quarantine_never_served 105 "cert1" "u0" "acct" "PEM" [] "Web" "req" None
    "san-mismatch" ["extra"]%string "bad" [] None demo_processing2 c ev d1 d1
    wf_demo_processing2 Hq (rtc_refl _ _)) as (_ & _ & _ & Hinv).
  destruct (find_order "u0" demo_processing2) as [o|] eqn:Ho; [|vm_compute in Ho; discriminate Ho].
  assert (d1 = demo_quarantined) as <- by (vm_compute in Hq; injection Hq as _ _ <-; reflexivity).
  apply (Hinv o eq_refl). left. vm_compute in Ho. injection Ho as <-. reflexivity.
Defined.

Definition demo_revoke : Tx (RevocationUpdate * option Audit.t) :=
  record_revocation 200 "cert1" "u0" "acct" (Some 1) None [] [].
Definition demo_revoked : Db := Eval vm_compute in exec demo_revoke demo_issued.
Definition demo_update : RevocationUpdate * option Audit.t := Eval vm_compute in
  match demo_revoke demo_issued with
  | inr (r, _) => r | inl _ => ({| record := None; won_cas := false |}, None)
  end.

Lemma record_revocation_spec_witness :
  won_cas demo_update.1 = true
  ∧ ∃ c e, record demo_update.1 = Some c ∧ find_cert "cert1" demo_revoked = Some c
      ∧ demo_update.2 = Some e.
Proof.
  destruct (record_revocation_spec 200 "cert1" "u0" "acct" (Some 1) None [] [] demo_issued
    demo_update.1 demo_update.2 demo_revoked wf_demo_issued ltac:(by_eval)) as (_ & Hwon & _).
  split; [reflexivity|]. destruct (Hwon eq_refl) as (c & e & Hr & Hf & _ & _ & _ & He & _).
  exists c, e. auto.
Defined.

Lemma revocation_first_wins_witness :
  ∃ c, find_cert "cert1" demo_revoked = Some c ∧ Cert.revoked_at c = Some 200.
Proof.
  destruct (revocation_first_wins 200 "cert1" "u0" "acct" (Some 1) None [] [] demo_issued
    demo_update.1 demo_update.2 demo_revoked demo_revoked wf_demo_issued ltac:(by_eval)
    eq_refl (rtc_refl _ _)) as [(c & Hc & _ & _ & Ht) _].
  exists c. auto.
Defined.

(** ** Serials, nonces, accounts *)

Lemma canonical_serial_iff_witness :
  canonical_serial " 0x00fF " = canonical_serial "FF".
Proof.
  apply (canonical_serial_iff " 0x00fF " "FF" 255 255); by_eval.
Defined.

Definition demo_nonce : Db := Eval vm_compute in exec (create_nonce 100 "n" 1) empty_db.
Lemma demo_nonce_step : store_step empty_db demo_nonce.
Proof. eapply exec_step; [apply (T_create_nonce 100 "n" 1)|by vm_compute]. Qed.
Lemma wf_demo_nonce : wf demo_nonce.
Proof. eapply wf_step; [apply wf_empty|apply demo_nonce_step]. Qed.

Lemma consume_nonce_single_use_witness :
  ∃ d', consume_nonce 1900 (JStr "n") demo_nonce = inr (true, d')
        ∧ consume_nonce 1901 (JStr "n") d' = inr (false, d').
Proof.
  destruct (consume_nonce_single_use 1900 "n" demo_nonce wf_demo_nonce)
    as (b & d' & Heq & _ & _ & Hagain).
  assert (b = true) as -> by (vm_compute in Heq; injection Heq as <- _; reflexivity).
  exists d'. split; [exact Heq|]. apply (Hagain eq_refl). apply rtc_refl.
Defined.

Lemma create_account_quota_witness :
  ∃ n, 1 ≤ n ∧ create_account_with_audit 100 "acct" demo_jwk "kid" AccountStatus.VALID None
                 (demo_audit "account-created") 1 demo_ready
               = inl (EabAccountLimitExceeded "kid" 1 n).
Proof.
  destruct (create_account_quota 100 "acct" demo_jwk "kid" AccountStatus.VALID None
    (demo_audit "account-created") 1 demo_pending) as [_ Hfull]; [lia|reflexivity|].
  apply (Hfull demo_ready); [apply wf_demo_pending|apply rtc_once, demo_ready_step|].
  vm_compute. discriminate.
Defined.

Definition demo_deactivated : Db := Eval vm_compute in
  exec (update_account_status "acct" AccountStatus.DEACTIVATED) demo_account.
Lemma demo_deactivated_step : store_step demo_account demo_deactivated.
Proof.
  eapply exec_step; [apply (T_update_account_status "acct" AccountStatus.DEACTIVATED)|].
  by vm_compute.
Qed.
Lemma wf_demo_deactivated : wf demo_deactivated.
Proof. eapply wf_step; [apply wf_demo_account|apply demo_deactivated_step]. Qed.

Lemma deactivation_final_witness :
  update_account_status "acct" AccountStatus.VALID demo_deactivated
  = inr (false, demo_deactivated).
Proof.
  destruct (find_account "acct" demo_deactivated) as [a|] eqn:Ha;
    [|vm_compute in Ha; discriminate Ha].
  destruct (deactivation_final "acct" demo_deactivated demo_deactivated a wf_demo_deactivated
    (rtc_refl _ _) Ha) as (_ & Hupd & _).
  - vm_compute in Ha. injection Ha as <-. reflexivity.
  - apply Hupd.
Defined.

(** The P-256 point 2G: the rolled-over key. *)
Definition demo_jwk2 : json := JObj
  [("kty", JStr "EC"); ("crv", JStr "P-256");
   ("x", JStr "fPJ7GI0DT36KUjgDBLUaw8CJaeJ38htsqeRzSdRLHzg");
   ("y", JStr "B3dVENuO0EApPZrGn3QEr4BnAb3mOoVSQ_GuZYhtyZM")]%string.
Definition demo_thumbprint : string := Eval vm_compute in
  match jwk_thumbprint demo_jwk with inr t => t | inl _ => EmptyString end.
Definition demo_rollover : Tx Audit.t :=
  update_account_key_with_audit 150 "acct" demo_jwk2 demo_thumbprint
    (demo_audit "account-key-changed") (Some 60) 3.
Definition demo_rolled : Db := Eval vm_compute in exec demo_rollover demo_account.

Lemma update_account_key_authorised_witness :
  ∃ a, find_account "acct" demo_account = Some a ∧ Account.status a = AccountStatus.VALID.
Proof.
  destruct (demo_rollover demo_account) as [e|[ev d']] eqn:Hr;
    [vm_compute in Hr; discriminate Hr|].
  destruct (update_account_key_authorised 150 "acct" demo_jwk2 demo_thumbprint
    (demo_audit "account-key-changed") (Some 60) 3 demo_account ev d' wf_demo_account Hr)
    as (a & tp & Ha & _ & Hs & _).
  exists a. auto.
Defined.

(** ** Audit bounds *)

Definition demo_details : dict := [("reason", JStr "x"); ("kid", JStr "y")]%string.

Lemma demo_details_keys :
  NoDup demo_details.*1 ∧ "_dropped"%string ∉ demo_details.*1
  ∧ Forall short_key demo_details.*1.
Proof.
  split; [|split].
  - apply (bool_decide_eq_true_1 (NoDup demo_details.*1)). by_eval.
  - apply (bool_decide_eq_true_1 ("_dropped"%string ∉ demo_details.*1)). by_eval.
  - apply (bool_decide_eq_true_1 (Forall (λ k, (length (dump_str k) ≤ 40)%nat) demo_details.*1)).
    by_eval.
Defined.

Lemma bound_details_size_witness :
  serialized_length (bound_details (Some demo_details)) ≤ 4096.
Proof.
  destruct demo_details_keys as (Hnd & Hdr & Hshort).
  apply (bound_details_size demo_details Hnd Hdr Hshort). simpl. lia.
Defined.

Lemma bound_details_accounts_witness :
  ∃ gone, gone ⊆ demo_details.*1 ∧ NoDup gone.
Proof.
  destruct demo_details_keys as (Hnd & Hdr & _).
  destruct (bound_details_accounts demo_details Hnd Hdr) as (gone & Hsub & Hgone & _).
  exists gone. auto.
Defined.

(** ** Timestamps *)

Lemma iso_order_witness : String.leb (iso 86399) (iso 86400) = true.
Proof.
  assert (0 <= 86399 < YEAR_10000 ∧ 0 <= 86400 < YEAR_10000) as [Ht Hu]
    by (vm_compute; split; split; congruence).
  apply (iso_order 86399 86400 Ht Hu). lia.
Defined.

(** * Two clients at a small server

    The deployment above behind the routes: one account with one ready order,
    and a client that finalizes it while another rotates the account's key and
    a third tries to finalize the same order. *)

#[local] Existing Instance demo_parser.

Definition demo_config : Config := {|
  base_url := "https://ra.example"; eab_allowlist := [("kid", "c2VjcmV0")]%string;
  allow_weak_credentials := false; terms_of_service := None;
  policy := {| allowed_kids := {["kid"%string]}; san_scopes := {["kid"%string := ["a.example"%string]]};
               pol_template := "WebServer" |};
  max_accounts_per_eab_kid := 5; order_expiry_seconds := 3600;
  max_identifiers_per_order := 10; max_csr_size_bytes := 4096;
  max_jws_body_size_bytes := 65536; rate_limit_orders_per_window := 0;
  rate_limit_window_seconds := 60; rate_limit_global_per_window := 0;
  rate_limit_overrides := []; rate_limit_key_changes_per_window := 0;
  reclaim_minimum_processing_age_seconds := 60; adcs_enrollment_max_pending := 4;
  audit_denial_coalesce_window_seconds := 0; audit_hook_configured := false;
  admin_token := "admin"; revocation_confirm_token := "confirm";
  nonce_rate_limit_burst := 0; nonce_rate_limit_per_second := SpecFloat.S754_zero false |}.
#[local] Instance demo_server : ServerConfig := demo_config.
#[local] Instance demo_uuids : UuidSource := λ n, ("v" +:+ pretty (N.of_nat n))%string.

Definition demo_csr : Csr := {|
  is_signature_valid := inr true; csr_public_key := inr (EcKey "secp256r1");
  csr_subject_rfc4514 := ""; csr_common_names := [];
  csr_extensions := inr demo_extensions; csr_pem_text := "CSR" |}.
#[local] Instance demo_csr_parser : CsrParser := λ _, inr demo_csr.

Definition demo_world (ca : list CaAnswer) (faults : list (option StoreFault)) : World :=
  MkWorld demo_ready 110 0 0 faults ca [] [] [] ∅ ∅ 0 false None [] 0 [] [] None ∅.

Definition demo_stored : Account.t := Eval vm_compute in
  match accounts demo_ready with
  | a :: _ => a
  | [] => {| Account.id := ""; Account.status := AccountStatus.DEACTIVATED;
             Account.jwk_json := JBad ""; Account.eab_kid := ""; Account.contact := [];
             Account.created_at := 0; Account.jwk_thumbprint := None |}
  end.
Definition demo_auth (payload : dict) : string → Act World Authenticated :=
  λ _, mret (payload, demo_stored, demo_thumbprint).
Definition demo_finalize : Act World Response :=
  finalize_order (demo_auth [("csr", JStr "AAAA")]%string) "u0".
Definition demo_rotate : Act World Response :=
  rotate_key demo_stored demo_jwk2 "t2" demo_thumbprint.

(** Two finalizations and a key rollover. *)
Definition demo_pool : list (Act World Response) := [demo_finalize; demo_finalize; demo_rotate].

Definition demo_result : EnrollmentResult :=
  {| er_cert_pem := "PEM"; er_chain_pem := []; er_template := "WebServer";
     er_requester := "RA"; er_metadata := [] |}.

Definition demo_run (is_ : list nat) (ca : list CaAnswer) (faults : list (option StoreFault)) :
    list (Act World Response) * World :=
  Pool.exec_all is_ (demo_pool, demo_world ca faults).

(** The first client has sent its request; the second has been told to poll,
    and the rollover waits for the account's lock. *)
Definition demo_flight : list (Act World Response) * World :=
  demo_run (repeat 0%nat 12 ++ repeat 1%nat 20 ++ repeat 2%nat 9) [CaIssues demo_result] [].

(** All three answered; the store failed when the certificate was recorded. *)
Definition demo_faults : list (option StoreFault) :=
  repeat None 7 ++ [Some (SqliteFault "database is locked")].
Definition demo_end : list (Act World Response) * World :=
  demo_run (repeat 0%nat 30 ++ repeat 1%nat 30 ++ repeat 2%nat 20) [CaIssues demo_result]
    demo_faults.

(** All answered, with a store that never fails. *)
Definition demo_done : list (Act World Response) * World :=
  demo_run (repeat 0%nat 30 ++ repeat 1%nat 30 ++ repeat 2%nat 20) [CaIssues demo_result] [].

Definition demo_submission : Submission :=
  {| sub_order := "u0"; sub_generation := 1; sub_account := "acct"; sub_csr := "CSR";
     sub_sans := ["a.example"%string] |}.
Definition demo_issued_cert : Issued := {| iss_order := "u0"; iss_pem := Some "PEM"%string |}.

(** ** The hypotheses *)

Lemma demo_handlers : Forall handler demo_pool.
Proof.
  repeat constructor; intros; done.
Qed.

Lemma demo_rows : rows_ok demo_ready.
Proof. split; intros *; vm_compute; try (intros ? Hc; inversion Hc); intros Hc; inversion Hc. Qed.

Lemma demo_started ca faults : started (demo_world ca faults).
Proof. split; try done; [apply wf_demo_ready|apply demo_rows]. Qed.

Lemma demo_steps is_ ca faults :
  rtc Pool.step (demo_pool, demo_world ca faults)
    ((demo_run is_ ca faults).1, (demo_run is_ ca faults).2).
Proof. rewrite <- surjective_pairing. apply Pool.exec_all_steps. Qed.

Lemma demo_in_flight : demo_submission ∈ w_inflight demo_flight.2.
Proof.
  assert (w_inflight demo_flight.2 = [demo_submission]) as -> by by_eval. left.
Qed.

(** ** The claims *)

Lemma one_request_in_flight_witness : demo_submission = demo_submission.
Proof.
  apply (one_request_in_flight demo_pool (demo_world [CaIssues demo_result] [])
           demo_flight.1 demo_flight.2); [apply demo_handlers|apply demo_started
    |apply demo_steps|apply demo_in_flight|apply demo_in_flight|reflexivity].
Defined.

Lemma one_request_per_lease_witness :
  map sub_key (w_submitted demo_end.2) = [("u0"%string, 1)]
  ∧ NoDup (map sub_key (w_submitted demo_end.2)).
Proof.
  split; [by_eval|].
  apply (one_request_per_lease demo_pool (demo_world [CaIssues demo_result] demo_faults)
           demo_end.1 demo_end.2); [apply demo_handlers|apply demo_started|apply demo_steps].
Defined.

Lemma in_flight_authorized_witness :
  sub_account demo_submission ∈ w_locks demo_flight.2
  ∧ 0 < active_count (sub_order demo_submission) demo_flight.2.
Proof.
  destruct (in_flight_authorized demo_pool (demo_world [CaIssues demo_result] [])
              demo_flight.1 demo_flight.2 demo_submission demo_handlers
              (demo_started _ _) (demo_steps _ _ _) demo_in_flight) as (_ & Hl & _ & Ha & _).
  split; [exact Hl|exact Ha].
Defined.

Definition demo_valid_order : Order.t := Eval vm_compute in
  match orders (w_db demo_done.2) with o :: _ => o | [] => demo_order_row end.
Definition demo_done_cert : Cert.t := Eval vm_compute in
  match certificates (w_db demo_done.2) with c :: _ => c | [] => demo_cert end.

Lemma open_order_without_certificate_witness : ¬ open demo_valid_order.
Proof.
  destruct (open_order_without_certificate demo_pool (demo_world [CaIssues demo_result] [])
              demo_done.1 demo_done.2 demo_valid_order demo_done_cert demo_handlers
              (demo_started _ _) (demo_steps _ _ _)) as [Hno _]; [| | |exact Hno].
  - vm_compute. left.
  - vm_compute. left.
  - reflexivity.
Defined.

Definition demo_answers : list (Res Exn Response) := Eval vm_compute in
  omap (λ m, match m with Done r => Some r | Step _ => None end) demo_end.1.


Lemma every_request_answered_witness :
  Acc (flip Pool.step) (demo_pool, demo_world [CaIssues demo_result] demo_faults).
Proof.
  apply (every_request_answered demo_pool (demo_world [CaIssues demo_result] demo_faults)
           demo_handlers (demo_started _ _)).
Defined.
