(* ===== verification/AuthWitnesses.v ===== *)
(** * Signed requests at the small server

    The server of [Witnesses], a JSON decoder that knows the messages
    of the demonstration, and a signature backend that accepts the account's
    curve. *)

From S2P Require Import Prelude PyStr Sha256 Json Exn Base64 Jwk Jws Http Url Sql Db StoreAudit.
From S2P Require Import StoreAccounts StoreOrders Act RateLimit World Coalesce X509 CsrCheck.
From S2P Require Import StoreCerts Responses Finalize RoutesOrders RoutesAccounts ServerJws.
From S2P Require Import RoutesNewAccount RoutesAuthz RoutesRevocation Server.
From S2P Require Import StoreInv StoreOps CertTheorems NonceTheorems AccountTheorems HttpTheorems.
From S2P Require Import JwsTheorems AuthTheorems ServerTheorems RouteTheorems Witnesses.

Local Open Scope Z_scope.

#[local] Existing Instances demo_parser demo_server.

Definition octets (s : string) : list Z := map code (chars s).
Definition b64 (s : string) : string := base64url_encode (octets s).

Definition demo_header : dict :=
  [("alg", JStr "ES256"); ("nonce", JStr "n0"); ("url", JStr "https://ra.example/acme/new-order");
   ("kid", JStr "https://ra.example/acme/acct/acct")]%string.
Definition demo_jws : dict :=
  [("protected", JStr (b64 "HEADER")); ("payload", JStr (b64 "PAYLOAD"));
   ("signature", JStr (base64url_encode (replicate 64 1)))]%string.
Definition demo_payload : dict := [("identifiers", JArr [])]%string.

#[local] Instance demo_loads : JsonLoads := λ b,
  if decide (b = octets "JWS") then inr (JObj demo_jws)
  else if decide (b = octets "HEADER") then inr (JObj demo_header)
  else if decide (b = octets "PAYLOAD") then inr (JObj demo_payload)
  else inl JSONDecodeError.
#[local] Instance demo_signatures : SignatureBackend :=
  {| rsa_pkcs1v15_verify := λ _ _ _ _ _, false;
     ecdsa_verify := λ crv _ _ _ _ h, bool_decide (crv = "P-256"%string ∧ h = SHA256) |}.
#[local] Instance demo_keys : KeyBackend := λ _, true.
#[local] Instance demo_netloc : NetlocCheck := λ _, true.

Definition demo_signed : Request :=
  {| request_id := 7; content_types := [" Application/JOSE+json ; charset=utf-8"%string]; content_length := None;
     body_stream := [{| pull_delay := 1; pull_chunk := octets "JW" |};
                     {| pull_delay := 1; pull_chunk := octets "S" |}];
     end_delay := 0 |}.

Definition demo_nonces : Db := Eval vm_compute in exec (create_nonce 105 "n0" 1) demo_account.
Definition demo_waiting : World :=
  MkWorld demo_nonces 110 0 0 [] [] [] [] [] ∅ ∅ 0 false None [] 0 [] [] None ∅.

Lemma wf_demo_nonces : wf demo_nonces.
Proof.
  eapply wf_step; [apply wf_demo_account|].
  eapply exec_step; [apply (T_create_nonce 105 "n0" 1)|by vm_compute].
Qed.

Definition demo_served : option (Res Exn (dict * Authenticated) * World) :=
  Eval vm_compute in run (authenticate_account demo_signed "/acme/new-order") demo_waiting.
Definition demo_accepted : option (dict * (dict * Account.t * string) * World) :=
  match demo_served with Some (inr x, w') => Some (x, w') | _ => None end.

Lemma authenticate_sound_witness :
  ∃ header payload account tp w',
    demo_accepted = Some ((header, (payload, account, tp)), w') ∧ payload = demo_payload
    ∧ nonce_live 110 "n0" demo_nonces ∧ nonces (w_db w') = [].
Proof.
  destruct demo_accepted as [[[header [[payload account] tp]] w']|] eqn:Hacc; [|by vm_compute in Hacc].
  exists header, payload, account, tp, w'.
  pose proof (authenticate_sound demo_signed "/acme/new-order" demo_waiting header payload
    account tp w' wf_demo_nonces) as Hsound.
  revert Hacc Hsound. unfold demo_accepted, demo_served. intros [= <- <- <- <- <-] Hsound.
  destruct Hsound as ((jws & n & kid & rest & jwk & key & o & _ & Hn & Hlive & _) & _);
    [by vm_compute|].
  split; [done|]. split; [done|]. split; [|done]. vm_compute in Hn. injection Hn as <-. exact Hlive.
Defined.

(** ** Responses and their nonces *)

#[local] Existing Instances demo_uuids demo_csr_parser.
#[local] Instance demo_der : CertDer :=
  {| load_der_x509_certificate := λ _, inl ValueError; pem_public_bytes := λ _, [] |}.
#[local] Instance demo_floats : FloatEq := λ _ _, false.

Definition demo_bad_request : Act World Response :=
  acme_route CertsrvRevocationLeg demo_signed NewOrder.
Definition demo_empty : World :=
  MkWorld demo_account 110 0 0 [] [] [] [] [] ∅ ∅ 0 false None [] 0 [] [] None ∅.
Definition demo_spent : World := set_spent {[7%nat]} demo_empty.

(** The signed request when its nonce is not on record, and a response to a
    request that spent one. *)
Lemma bad_nonce_brings_nonce_witness :
  ∃ r w', run (serve 7 demo_bad_request) demo_empty = Some (inr r, w')
    ∧ ∃ n, r = problem bad_nonce [("Replay-Nonce"%string, n)] ∧ live_now n w'.
Proof.
  destruct (run (serve 7 demo_bad_request) demo_empty) as [[[e|r] w']|] eqn:Hrun;
    [by vm_compute in Hrun| |by vm_compute in Hrun].
  exists r, w'. split; [done|].
  destruct (bad_nonce_brings_nonce 7 demo_bad_request demo_empty bad_nonce demo_empty r w')
    as [Hok|[Hst _]]; [by vm_compute|done|exact Hrun|exact Hok|].
  vm_compute in Hrun. injection Hrun as <- <-. by vm_compute in Hst.
Defined.

Lemma success_brings_nonce_witness :
  ∃ r' w', run (serve 7 (mret directory)) demo_spent = Some (inr r', w')
    ∧ ∃ n, headers r' = [("replay-nonce"%string, n)] ∧ live_now n w'.
Proof.
  destruct (success_brings_nonce 7 (mret directory) demo_spent directory demo_spent)
    as (r' & w' & Hrun & _ & _ & _ & Hok); [done|done|done|set_solver|].
  exists r', w'. split; [exact Hrun|]. apply Hok; [intros f; done|].
  intros x Hx. by apply not_elem_of_nil in Hx.
Defined.

(** * Three requests at the small server

    An account created under its binding, a key rolled over, and a certificate
    revoked, each from the octets of its request. *)

#[local] Existing Instances demo_parser demo_server demo_uuids.
#[local] Existing Instances demo_signatures demo_keys demo_netloc demo_floats.

(** A header for a URL, with the key or the kid that signs. *)
Definition header_of (alg endpoint : string) (more : dict) : dict :=
  [("alg", JStr alg); ("nonce", JStr "n0");
   ("url", JStr ("https://ra.example/acme/" +:+ endpoint))]%string ++ more.
Definition kid_url : json := JStr "https://ra.example/acme/acct/acct".
Definition message (protected payload : string) (signature : list Z) : dict :=
  [("protected", JStr (b64 protected)); ("payload", JStr (b64 payload));
   ("signature", JStr (base64url_encode signature))]%string.
Definition signed (protected payload : string) : json :=
  JObj (message protected payload (replicate 64 1)).

Definition demo_eab : dict := Eval vm_compute in
  message "EAB-HEADER" "EAB-PAYLOAD"
    (hmac SHA256 (octets "secret") (signing_input (b64 "EAB-HEADER") (b64 "EAB-PAYLOAD"))).

(** The decoder: the messages by name. *)
Definition demo_texts : list (string * json) :=
  [("NEW", signed "NEW-HEADER" "NEW-PAYLOAD");
   ("NEW-HEADER", JObj (header_of "ES256" "new-acct" [("jwk", demo_jwk)]));
   ("NEW-PAYLOAD", JObj [("externalAccountBinding", JObj demo_eab)]);
   ("EAB-HEADER", JObj (header_of "HS256" "new-acct" [("kid", JStr "kid")]));
   ("EAB-PAYLOAD", demo_jwk);
   ("ROLL", signed "ROLL-HEADER" "ROLL-PAYLOAD");
   ("ROLL-HEADER", JObj (header_of "ES256" "key-change" [("kid", kid_url)]));
   ("ROLL-PAYLOAD", signed "INNER-HEADER" "INNER-PAYLOAD");
   ("INNER-HEADER", JObj [("alg", JStr "ES256"); ("jwk", demo_jwk2);
      ("url", JStr "https://ra.example/acme/key-change")]);
   ("INNER-PAYLOAD", JObj [("account", kid_url); ("oldKey", demo_jwk)]);
   ("REVOKE", signed "REVOKE-HEADER" "REVOKE-PAYLOAD");
   ("REVOKE-HEADER", JObj (header_of "ES256" "revoke-cert" [("kid", kid_url)]));
   ("REVOKE-PAYLOAD", JObj [("certificate", JStr (b64 "DER")); ("reason", JNum 4)])]%string.
#[local] Instance text_loads : JsonLoads := λ b,
  match find (λ t, bool_decide (octets t.1 = b)) demo_texts with
  | Some t => inr t.2
  | None => inl JSONDecodeError
  end.
#[local] Instance text_der : CertDer :=
  {| load_der_x509_certificate := λ b, inr (255, b); pem_public_bytes := λ _, octets "DER" |}.

Definition request_of (body : string) : Request :=
  {| request_id := 7; content_types := ["application/jose+json"%string]; content_length := None;
     body_stream := [{| pull_delay := 1; pull_chunk := octets body |}]; end_delay := 0 |}.
Definition waiting (d : Db) : World :=
  MkWorld d 110 0 0 [] [] [] [] [] ∅ ∅ 0 false None [] 0 [] [] None ∅.
Definition with_n0 (d : Db) : Db := exec (create_nonce 105 "n0" 1) d.

Lemma wf_with_n0 d x : wf d → create_nonce 105 "n0" 1 d = inr (x, with_n0 d) → wf (with_n0 d).
Proof. intros Hwf Hc. eapply wf_step; [done|]. eapply exec_step; [apply T_create_nonce|done]. Qed.

Definition responds (route : Act World Response) (w : World) : option (Response * World) :=
  match run route w with Some (inr r, w') => Some (r, w') | _ => None end.
Lemma responds_run route w r w' :
  responds route w = Some (r, w') → run route w = Some (inr r, w').
Proof. unfold responds. by destruct (run route w) as [[[?|?] ?]|]; intros [= -> ->]. Qed.

Definition new_done : option (Response * World) :=
  Eval vm_compute in responds (new_account (request_of "NEW")) (waiting (with_n0 empty_db)).

Lemma new_account_sound_witness :
  ∃ r w' kid a, new_done = Some (r, w') ∧ status_code r = 201 ∧ accounts (w_db w') = [a]
    ∧ Account.eab_kid a = kid.
Proof.
  destruct new_done as [[r w']|] eqn:Hdone; [|by vm_compute in Hdone].
  assert (run (new_account (request_of "NEW")) (waiting (with_n0 empty_db)) = Some (inr r, w'))
    as Hrun by (apply responds_run; rewrite <- Hdone; by vm_compute).
  assert (status_code r = 201) as Hst by (vm_compute in Hdone; by injection Hdone as <- _).
  destruct (new_account_sound (request_of "NEW") (waiting (with_n0 empty_db)) r w')
    as (header & payload & jwk & eab & key & kid & a & _ & _ & _ & _ & _ & (Ha & _ & Hk & _) & _);
    [eapply wf_with_n0; [apply wf_empty|by vm_compute]|exact Hrun|exact Hst|].
  exists r, w', kid, a. split; [reflexivity|]. split; [exact Hst|]. split; [|exact Hk].
  rewrite Ha. by vm_compute.
Defined.

(** The key of the one account, rolled over. *)
Definition rolled_done : option (Response * World) :=
  Eval vm_compute in responds (key_change (request_of "ROLL")) (waiting (with_n0 demo_account)).

Lemma wf_demo_n0 : wf (with_n0 demo_account).
Proof. eapply wf_with_n0; [apply wf_demo_account|by vm_compute]. Qed.

Lemma key_change_sound_witness :
  ∃ r w' a tp, rolled_done = Some (r, w') ∧ status_code r = 200
    ∧ find_account "acct" (w_db w') = Some a ∧ Account.jwk_thumbprint a = Some tp
    ∧ tp ≠ demo_thumbprint.
Proof.
  destruct rolled_done as [[r w']|] eqn:Hdone; [|by vm_compute in Hdone].
  assert (run (key_change (request_of "ROLL")) (waiting (with_n0 demo_account))
          = Some (inr r, w')) as Hrun by (apply responds_run; rewrite <- Hdone; by vm_compute).
  destruct (key_change_sound (request_of "ROLL") (waiting (with_n0 demo_account)) r w')
    as (header & inner & account & tp & jwk & new_tp & ev & Hauth & _ & _ & Hnew & Hf & _ & _ & Hst);
    [exact wf_demo_n0|exact Hrun|].
  destruct Hauth as (?&?&?&?&?&?&?& _&_&_&_&_&_&_&Hin&_).
  assert (accounts (w_db (waiting (with_n0 demo_account))) = [demo_stored]) as Hall by by vm_compute.
  rewrite Hall in Hin, Hnew. apply list_elem_of_singleton in Hin as ->.
  exists r, w', (Account.set_key (dump_json (JObj jwk)) (Some new_tp) demo_stored), new_tp.
  split; [reflexivity|]. split; [exact Hst|]. split; [exact Hf|]. split; [reflexivity|].
  intros ->. apply (Hnew demo_stored); [by apply list_elem_of_singleton|by vm_compute].
Defined.

(** The one certificate, revoked by its holder. *)
Definition revoked_done : option (Response * World) :=
  Eval vm_compute in responds
    (with_account (request_of "REVOKE") RevokeCert (revoke_cert_as CertsrvRevocationLeg))
    (waiting (with_n0 demo_issued)).

Lemma revoke_cert_sound_witness :
  ∃ r w' c, revoked_done = Some (r, w') ∧ status_code r = 200
    ∧ find_cert "cert1" (w_db w') = Some c ∧ Cert.status c = CertStatus.REVOKED.
Proof.
  destruct revoked_done as [[r w']|] eqn:Hdone; [|by vm_compute in Hdone].
  assert (run (with_account (request_of "REVOKE") RevokeCert (revoke_cert_as CertsrvRevocationLeg))
            (waiting (with_n0 demo_issued)) = Some (inr r, w')) as Hrun
    by (apply responds_run; rewrite <- Hdone; by vm_compute).
  destruct (revoke_cert_sound CertsrvRevocationLeg (request_of "REVOKE")
              (waiting (with_n0 demo_issued)) r w')
    as (header & payload & account & tp & serial & der & reason & c & Hauth & Hsub & Hrea & Hc
        & _ & _ & Hst & Hout);
    [eapply wf_with_n0; [apply wf_demo_issued|by vm_compute]|exact Hrun|].
  assert (certificates (w_db (waiting (with_n0 demo_issued))) = [demo_cert]) as Hall
    by by vm_compute.
  rewrite Hall in Hc. apply list_elem_of_singleton in Hc as ->.
  destruct Hout as [[_ (c' & ev & Hf & Hs & Hr & _)]|[Hnv _]]; [|by destruct Hnv; vm_compute].
  exists r, w', c'. split; [reflexivity|]. split; [exact Hst|]. split; [exact Hf|exact Hs].
Defined.
