(* ===== verification/CrlWitnesses.v ===== *)
(** * A small CA and its list, and a small trail

    A network with a redirect, a stored certificate whose chain was lost, and
    a confirmation, on which the theorems of [CrlTheorems] and
    [ConfirmTheorems] are applied; and an audit trail for those of
    [AuditTheorems].  [EnrollmentDemo] has the pages of a CA and the theorems
    of [EnrollmentTheorems]. *)

From S2P Require Import Prelude PyStr Time Sha256 Json Exn Jws Http Url Sql Db StoreAudit.
From S2P Require Import StoreAccounts StoreOrders Act RateLimit World Coalesce X509 CsrCheck.
From S2P Require Import StoreCerts Responses Finalize RoutesAdmin RoutesNewAccount StoreRecovery.
From S2P Require Import IssuerRecovery CrlEvidence Config Siem CrlFetch RoutesConfirm.
From S2P Require Import Retention StoreInv StoreOps CertTheorems CrlTheorems ConfirmTheorems.
From S2P Require Import AuditTheorems Witnesses AuthWitnesses.
From Stdlib Require Import SpecFloat.
Local Open Scope Z_scope.

#[local] Existing Instances demo_parser demo_server demo_netloc.

(** ** The CA: a certificate is its subject and issuer *)

Definition ca_extensions : Extensions :=
  {| subject_alternative_name := None; basic_constraints := Some (Some true);
     key_usage := Some (Some (true, true)); extended_key_usage := None;
     ms_application_policies := false |}.
Definition demo_certificate (pem : string) : Res Exn (string * string) :=
  if decide (pem = "PEM"%string) then inr ("leaf", "ca")%string
  else if decide (pem = "CA"%string) then inr ("ca", "root")%string
  else if decide (pem = "ROOT"%string) then inr ("root", "root")%string
  else inl ValueError.
#[local] Instance demo_issuers : IssuerBackend :=
  {| load_certificate := demo_certificate;
     load_certificates := λ pem, match demo_certificate pem with inr c => inr [c] | inl e => inl e end;
     subject := fst; issuer := snd;
     verify_directly_issued_by := λ child c,
       if decide (child.2 = c.1) then inr tt else inl InvalidSignature;
     chain_extensions := λ _, inr ca_extensions;
     certificate_der := λ c, octets c.1;
     certificate_pem := λ c, c.1; spki_der := λ c, octets c.1;
     name_der := octets; rfc4514_string := id |}.

Definition demo_leaf : @Certificate demo_issuers := ("leaf", "ca")%string.

Definition demo_list : Crl :=
  {| CrlEvidence.is_signature_valid := λ c, inr (bool_decide (c.1 = "ca"%string));
     last_update_utc := Some 100; next_update_utc := Some 1000;
     crl_number_extension := inr (Some 7); delta_crl_indicator := inr false;
     revoked_entry := λ n, if decide (n = 255) then Some (inr (Some key_compromise)) else None |}.
#[local] Instance demo_crls : CrlBackend :=
  {| load_der_x509_crl := λ b, if decide (b = octets "CRL") then inr demo_list else inl ValueError;
     load_pem_x509_crl := λ _, inl ValueError |}.

(** ** The network: the list has moved, and comes in two pieces *)

Definition no_error : TransferError :=
  {| is_request_exception := true; error_text := ""; past_deadline := false |}.
Definition answers (status : Z) (location : option string) (reads : list Read) : Attempt :=
  Answers {| flagged_on_entry := false; CrlFetch.status := status; CrlFetch.location := location;
             status_error := no_error; reads := reads; flagged_at_end := false |}.
#[local] Instance demo_cdp : Cdp :=
  {| getaddrinfo := λ host _, Some ["10.0.0.1"; "10.0.0.2"; "10.0.0.1"]%string;
     hop := λ turn url,
       {| hop_expired := false; vet_past_deadline := false;
          attempt := λ address,
            if decide (address = "10.0.0.1"%string) then SendFails no_error
            else match turn with
            | O => answers 302 (Some "https://crl.example/new.crl"%string) []
            | _ => answers 200 None [Chunk (octets "CR") false; Chunk (octets "L") false]
            end |} |}.
Definition demo_options : CrlOptions :=
  {| total_timeout_text := "30"; max_bytes := 100; max_age_seconds := 3600;
     follow_redirects := true; enforce_monotonic := true |}.

Definition demo_fetch : (CrlEvidence + list Z) * list (string * string) := Eval vm_compute in
  match fetch_document demo_options "http://CRL.example/old.crl" with
  | inr r => r
  | inl _ => (inr [], [])
  end.

(** ** A lost chain *)

Definition demo_chains : list (string * list json) :=
  [("c1", [JStr "junk"]); ("c2", [JStr "ROOT"; JStr "CA"]); ("c3", [JStr "CA"])]%string.
Definition demo_recovered : RecoveryOutcome := Eval vm_compute in
  match recover_issuer_chain "PEM" demo_chains 10 10 with
  | inr o => o
  | inl _ => nothing_recovered 0 0 false ""
  end.
Lemma recovered_chain_verified_witness :
  recovered_chain demo_recovered = ["ca"; "root"]%string
  ∧ ∃ path, map candidate_pem path = ["ca"; "root"]%string
            ∧ linked demo_leaf path.
Proof.
  destruct (recovered_chain_verified "PEM" demo_chains 10 10 demo_recovered demo_leaf)
    as (_ & _ & Hyes & _);
    [vm_compute; discriminate|vm_compute; discriminate|reflexivity|vm_compute; reflexivity|].
  destruct (Hyes eq_refl) as (path & Hpem & Hlinked & _).
  split; [reflexivity|]. exists path. split; [exact (eq_sym Hpem)|exact Hlinked].
Defined.

(** ** A confirmation *)

#[local] Instance demo_confirm : ConfirmConfig :=
  {| revocation_confirm_crl_url := "http://CRL.example/old.crl";
     revocation_confirm_require_crl_evidence := true; crl_options := demo_options;
     max_admin_body_size_bytes := 4096 |}.
#[local] Instance demo_loads : JsonLoads := λ _, inl JSONDecodeError.
Definition confirm_request : Request :=
  {| request_id := 7; content_types := []; content_length := None; body_stream := [];
     end_delay := 0 |}.
Definition confirm_world : World :=
  MkWorld demo_revoked 210 0 0 [] [] [] [] [] ∅ ∅ 0 false None [] 0 [] [] None ∅.
Definition confirmation : Act World Response :=
  confirm_ca_revocation_route (λ _ m, m) (λ _, demo_cdp) confirm_request
    (Some "Bearer confirm"%string) "0xff".

Lemma wf_demo_revoked : wf demo_revoked.
Proof.
  eapply wf_step; [apply wf_demo_issued|]. eapply exec_step; [apply (T_record_revocation 200 "cert1" "u0" "acct" (Some 1) None [] [])|].
  by vm_compute.
Qed.

Definition confirmed_row : Cert.t :=
  Cert.set_ca_crl_updated true (Cert.set_revoked CertStatus.REVOKED (Some 1) (Some 200) demo_cert).
Definition confirmed_done : option (Res Exn Response * World) := Eval vm_compute in
  run confirmation confirm_world.


(** * A small trail

    A mirror that rolls, a sweep that deletes, and a server that starts, on
    which the theorems of [AuditTheorems] are applied. *)

#[local] Existing Instances demo_server demo_netloc.

(** ** The mirror *)

Definition demo_siem (s : SiemSink) (mib : Z) : SiemConfig :=
  {| sink := s; jsonl_path := Some "ra.siem.jsonl"%string; syslog_host := "siem.example";
     syslog_proto := tcp; hec_url := ""; hec_token := ""; jsonl_max_mib := mib; jsonl_keep := 2;
     hec_queue_max := 1000 |}.

Lemma mirror_keeps_latest_witness :
  let m := exports (demo_siem jsonl 0) ["a"; "b"; "c"]%string (MkMirror ∅ [false; true; false]) in
  transcript 2 (files m) = "ac"%string
  ∧ ∃ before, transcript 2 (files (to_jsonl (demo_siem jsonl 0) "d" m)) = (before +:+ "d")%string.
Proof.
  cbv zeta.
  destruct (mirror_keeps_latest (demo_siem jsonl 0) ["a"; "b"; "c"]%string [false; true; false] 1)
    as (_ & Hlast & _).
  split; [vm_compute; reflexivity|].
  apply (Hlast "d"%string); [vm_compute; reflexivity|vm_compute; apply le_S, le_n].
Defined.

(** ** A sweep *)

Definition one_second : spec_float := S754_finite false 1 0.
Definition demo_settings (prune : bool) : RAConfig :=
  {| Config.eab_allowlist := []; Config.san_scopes := []; Config.max_accounts_per_eab_kid := 1;
     Config.adcs_enrollment_timeout_seconds := one_second;
     Config.adcs_enrollment_total_timeout_seconds := one_second;
     Config.adcs_enrollment_max_workers := 4; Config.adcs_enrollment_max_pending := 32;
     Config.base_url := "https://ra.example"; Config.tls_certfile := None; Config.tls_keyfile := None;
     Config.max_admin_body_size_bytes := 4096; Config.rate_limit_key_changes_per_window := 5;
     Config.audit_offbox_required := true; Config.audit_offbox_allow_unauthenticated_syslog := true;
     Config.audit_denial_coalesce_window_seconds := 60; Config.audit_retention_days := 20;
     Config.audit_prune_enabled := prune; Config.audit_store_warn_mib := 1024;
     Config.audit_jsonl_max_mib := 256; Config.audit_jsonl_keep := 4; Config.siem_sink := syslog; Config.siem_syslog_proto := tcp;
     Config.siem_syslog_timeout_seconds := one_second; Config.siem_hec_url := "";
     Config.siem_hec_token := "";
     Config.siem_hec_queue_max := 1000; Config.admin_token := ""; Config.revocation_confirm_token := "";
     Config.revocation_confirm_crl_url := ""; Config.revocation_confirm_require_crl_evidence := false;
     Config.revocation_confirm_crl_timeout_seconds := one_second;
     Config.revocation_confirm_crl_total_timeout_seconds := one_second;
     Config.revocation_confirm_crl_max_workers := 2; Config.revocation_confirm_crl_max_pending := 32;
     Config.allow_weak_credentials := false |}.
Definition demo_emitter : SiemEmitter :=
  {| siem_config := demo_siem syslog 256; enabled := true; delivery := inr tt |}.

Definition old_row : Audit.t :=
  {| Audit.id := 1; Audit.event_type := "certificate-issued"; Audit.account_id := None;
     Audit.order_id := None; Audit.sans := []; Audit.template := None; Audit.requester := None;
     Audit.outcome := "success"; Audit.details := []; Audit.timestamp := 50 |}.
(** A certificate of one day. *)
Definition day_cert : Cert.t :=
  Cert.make (Cert.chain_pem demo_cert) None CertStatus.VALID None None false (Some 0) (Some 86400)
    demo_cert.
Definition trail : Db := Db.set_certificates [day_cert] (set_audit_log [old_row] 1 demo_ready).
Definition trail_world : World :=
  MkWorld trail 8640000 0 0 [] [] [] [] [] ∅ ∅ 0 false None [] 0 [] [] None ∅.

Definition swept : option (Res Exn (Z * RetentionDecision) * World) := Eval vm_compute in
  run (run_sweep (demo_settings true) (Some demo_emitter)) trail_world.

Lemma sweep_keeps_evidence_witness :
  ∃ r w', swept = Some (r, w') ∧ old_row ∉ audit_log (w_db w')
    ∧ ∀ cert, cert ∈ certificates trail →
        ∃ nb na, Cert.not_before cert = Some nb ∧ Cert.not_after cert = Some na
          ∧ (nb ≤ 50 → na + RETENTION_FLOOR_GRACE_DAYS * 86400 < 8640000).
Proof.
  destruct swept as [[r w']|] eqn:Hs; [|by vm_compute in Hs].
  assert (old_row ∉ audit_log (w_db w')) as Hgone.
  { vm_compute in Hs. injection Hs as _ <-. intros Hin. vm_compute in Hin.
    apply list_elem_of_singleton in Hin. discriminate Hin. }
  destruct (sweep_keeps_evidence (demo_settings true) (Some demo_emitter) trail_world r w' old_row)
    as (_ & _ & _ & Hcert).
  { transitivity swept; [vm_compute; reflexivity|exact Hs]. }
  { by left. }
  { exact Hgone. }
  exists r, w'. split; [reflexivity|]. split; [exact Hgone|exact Hcert].
Defined.

(** ** A start *)


Definition started : option (Res Exn unit * World) := Eval vm_compute in
  run (create_app (demo_settings false) false (inr demo_emitter)) trail_world.

Lemma create_app_demonstrates_witness :
  ∃ w', started = Some (inr tt, w') ∧ validities_within 6 trail
    ∧ ∃ s, (inr demo_emitter : Res Exn SiemEmitter) = inr s ∧ delivery s = inr tt.
Proof.
  destruct started as [[[e|[]] w']|] eqn:Hs; [discriminate Hs| |discriminate Hs].
  destruct (create_app_demonstrates (demo_settings false) false (inr demo_emitter) trail_world w')
    as (_ & Hoff & Hret).
  { transitivity started; [vm_compute; reflexivity|exact Hs]. }
  exists w'. split; [reflexivity|]. split.
  - apply Hret; [reflexivity| |discriminate].
    intros x Hx. apply list_elem_of_singleton in Hx as ->. intros [Hnone|Hnone]; discriminate Hnone.
  - destruct (Hoff eq_refl eq_refl) as (s & Hs' & _ & Hd & _). exists s. split; [exact Hs'|exact Hd].
Defined.

(** ** An enrollment *)

From S2P Require Import Base64 Re Enrollment EnrollmentTheorems.

Module EnrollmentDemo.

Definition ca_extensions : Extensions :=
  {| subject_alternative_name := None; basic_constraints := Some (Some true);
     key_usage := Some (Some (true, true)); extended_key_usage := None;
     ms_application_policies := false |}.
Definition issuing_certificate (pem : string) : Res Exn (string * string) :=
  if decide (pem = "leaf"%string) then inr ("leaf", "ca")%string
  else if decide (pem = "ca"%string) then inr ("ca", "ca")%string
  else inl ValueError.
Definition issuing_ca : IssuerBackend :=
  {| load_certificate := issuing_certificate;
     load_certificates := λ pem,
       match issuing_certificate pem with inr c => inr [c] | inl e => inl e end;
     subject := fst; issuer := snd;
     verify_directly_issued_by := λ child c,
       if decide (child.2 = c.1) then inr tt else inl InvalidSignature;
     chain_extensions := λ _, inr ca_extensions;
     certificate_der := λ c, octets c.1;
     certificate_pem := λ c, c.1; spki_der := λ c, octets c.1;
     name_der := octets; rfc4514_string := id |}.
Definition issuing_backend : @EnrollBackend issuing_ca :=
  {| load_der_certificate := λ b,
       if decide (b = octets "DER") then @load_certificate issuing_ca "leaf" else inl ValueError;
     load_der_pkcs7 := λ b,
       if decide (b = octets "P7") then inr [("ca", "ca")%string : @Certificate issuing_ca]
       else inl ValueError;
     certificate_spki := λ c, inr (octets c.1);
     common_names := λ _, inr [Some "A.example."%string];
     SigningRequest := unit;
     load_csr := λ s, if decide (s = "CSR"%string) then inr tt else inl ValueError;
     csr_spki := λ _, inr (octets "leaf") |}.
#[local] Existing Instance issuing_backend | 0.

Lemma issuing_exceptions : @LibraryExceptions issuing_ca issuing_backend.
Proof.
  split; intros; intros e; simpl; unfold issuing_certificate;
    repeat case_decide; try discriminate; intros [= <-]; exact I.
Qed.

Definition page (text : string) : HttpResponse :=
  {| status_code := 200; location := None; content_length := None;
     content_type := Some "text/html"%string; encoding := None; status_text := "";
     body_of := Streamed [Chunk (octets text)] false |}.
Definition in_time (r : string + HttpResponse) : Exchange :=
  {| expired_before := false; reply := r; expired_after := false |}.
Definition issued_page : HttpResponse :=
  page "<script>ReqID=1</script><a href=certnew.cer?ReqID=7&Enc=b64>Download</a>".
Definition issuing_certsrv (late : bool) (chain : string + HttpResponse) : Certsrv :=
  {| answer := λ r,
       match r with
       | Post _ _ => {| expired_before := false; reply := inr issued_page; expired_after := late |}
       | Get url _ =>
         if has_sub "certnew.cer" url then in_time (inr (page "REVS"))
         else if has_sub "certcarc" url then in_time (inr (page "var nRenewals=2;"))
         else in_time chain
       end;
     decode_as := λ _ b, Some (latin1 b); utf8_text := latin1; expired_when_caught := false |}.
Definition issuing_leg : CertsrvLeg :=
  {| host := "ca.example"; leg_template := "Web"; ca_name := None; total_timeout_text := "120";
     leg_locale := "en"; max_response_bytes := 100; session_factory := false;
     session_opens := inr tt; platform_is_win32 := true; userdomain := "DOM"; username := "ra$" |}.
Lemma issuing_opens : opens issuing_leg.
Proof. split; [left|]; reflexivity. Qed.

Lemma disposition_read_witness :
  parse_certfnsh_disposition "<!-- ReqID=1 -->Ihre Anfrage: ReqID=12" 200 "de" = (pending, "12"%string)
  ∧ (decimal "12" ∨ "12"%string = "?"%string ∧ "de"%string = "en"%string
     ∧ contains certificate_pending (clean_page "<!-- ReqID=1 -->Ihre Anfrage: ReqID=12")).
Proof.
  split; [vm_compute; reflexivity|].
  apply (disposition_read "<!-- ReqID=1 -->Ihre Anfrage: ReqID=12" 200 "de" pending "12");
    [vm_compute; reflexivity|reflexivity].
Defined.

(** The connection is lost when the chain is asked for. *)
Definition cut_certsrv : Certsrv := issuing_certsrv false (inl "reset"%string).
Lemma issuance_reported_witness :
  let told := @submit_csr issuing_ca issuing_backend cut_certsrv issuing_leg "CSR" ["a.example"]%string in
  reported_id told = Some "7"%string
  ∧ issued_of "u0" (answer_of told) = [{| iss_order := "u0"; iss_pem := Some "leaf"%string |}].
Proof.
  cbv zeta.
  pose proof (@issuance_reported issuing_ca issuing_backend issuing_exceptions cut_certsrv
                issuing_leg "u0" "CSR" ["a.example"%string] issuing_opens) as H. cbv zeta in H.
  assert ((@certfnsh cut_certsrv issuing_leg "CSR" nothing_issued).1 = inr (issued, "7"%string))
    as Hd by (vm_compute; reflexivity).
  rewrite Hd in H. destruct H as (Hid & pem & Hpem & Hp). split; [exact Hid|].
  rewrite Hpem, (Hp "leaf"%string); [reflexivity|vm_compute; reflexivity].
Defined.

Definition whole_certsrv : Certsrv := issuing_certsrv false (inr (page "UDc=")).
Lemma enrollment_bound_witness :
  ∃ res, @submit_csr issuing_ca issuing_backend whole_certsrv issuing_leg "CSR" ["a.example"]%string
         = inr res ∧ reported_id (inr res) = Some "7"%string
    ∧ ∃ entry ca, entry ∈ ["ca"]%string ∧ @load_pem issuing_ca entry = inr ca
        ∧ @issued_by issuing_ca ("leaf", "ca")%string ca.
Proof.
  destruct (@submit_csr issuing_ca issuing_backend whole_certsrv issuing_leg "CSR" ["a.example"]%string)
    as [e|res] eqn:Hs; [vm_compute in Hs; discriminate Hs|].
  destruct (@enrollment_bound issuing_ca issuing_backend whole_certsrv issuing_leg "CSR"
              ["a.example"]%string res Hs) as (_ & _ & leaf & Hleaf & _ & entry & ca & Hin & Hca & Hby).
  vm_compute in Hs. injection Hs as <-. eexists. split; [reflexivity|]. split; [reflexivity|].
  exists entry, ca. vm_compute in Hleaf. injection Hleaf as <-. split; [exact Hin|].
  split; [exact Hca|exact Hby].
Defined.

(** The verdict is read when the deadline has just passed. *)
Definition late_certsrv : Certsrv := issuing_certsrv true (inl ""%string).
Lemma late_verdict_lost_witness :
  let told := @submit_csr issuing_ca issuing_backend late_certsrv issuing_leg "CSR" [] in
  reported_id told = None ∧ issued_of "u0" (answer_of told) = []
  ∧ parse_certfnsh_disposition (latin1 (octets
      "<script>ReqID=1</script><a href=certnew.cer?ReqID=7&Enc=b64>Download</a>")) 200 "en"
    = (issued, "7"%string).
Proof.
  cbv zeta.
  destruct (@late_verdict_lost issuing_ca issuing_backend late_certsrv issuing_leg "u0" "CSR" []
              issued_page
              (octets "<script>ReqID=1</script><a href=certnew.cer?ReqID=7&Enc=b64>Download</a>"))
    as [Hid Hnone];
    [exact issuing_opens|reflexivity|reflexivity|reflexivity|reflexivity|reflexivity|
     vm_compute; reflexivity|].
  split; [exact Hid|]. split; [exact Hnone|vm_compute; reflexivity].
Defined.

End EnrollmentDemo.
